(* ===== verification/_CoqProject ===== *)
-Q . S2P
Prelude.v
F64.v
Text.v
Errors.v
Budget.v
Planner.v
Chunks.v
Model.v
Scheduling.v
Selection.v
Metrics.v
Files.v
Prog.v
Threads.v
Cache.v
Http.v
Download.v
Relay.v
Jobs.v
Security.v
Tables.v
Routes.v
Crypto.v
Nodes.v
Paths.v
Upstream.v
Helpers.v
Domainfold.v
Traffic.v
Registry.v
Auth.v
AuthProps.v
Config.v
Settings.v
Snapshot.v
SnapshotProps.v
Roundtrip.v
Artifacts.v
StoreProps.v
Tools.v
ToolsProps.v
Images.v
ImagesProps.v
Quota.v
ImagesWitness.v
Browser.v
Server.v
Migrations.v
Admin.v
System.v
Heartbeat.v
JobViews.v
Archive.v
