(* ===== verification/Prelude.v ===== *)
(** * Donkey: a verification library for the Donkey registry proxy

    Donkey is a caching, multi-node accelerating proxy for container registries.
    A pull of a blob asks the cache first; on a miss the scheduler probes the
    enabled nodes, plans a download (one request, or ranges in parallel), fetches
    and verifies the content and hands it to the cache, or relays it to the client
    while it arrives.  Administrators edit nodes, routes, mappings and settings on a
    second listener; beside the proxy, image tools run queued jobs that export,
    extract and copy images.  This library models those parts of the Rust code under
    src/src/ and proves what makes them correct.  It is a shallow embedding: every
    operation is an executable function, fallible code returns [result], shared state
    is passed explicitly, and concurrency is a step relation or a program of atomic
    actions.

    ** Files, in dependency order

    Foundations:
    - Prelude: results and their early-return notations, machine integers, orders,
      sorting and selection on lists, shared tactics.
    - F64: binary64 arithmetic as Rust uses it ([SpecFloat], round to nearest even).
    - Text: byte strings and the [str] methods the code calls.
    - Errors: error.rs.  [AppError], HTTP status, code, constraint mapping, response.

    Planning and choosing nodes:
    - Budget: resource_budget.rs.  [Capacity]: per-node leases with the request and
      probe semaphores, as a step relation over live leases.  [Memory]: the byte
      budget of the streaming relay.
    - Planner: blob_planner.rs.  [plan] and everything it calls.
    - Chunks: chunk sizes, concurrency and range layouts of scheduler.rs, and the
      range layout of the parallel relay of registry.rs.
    - Model: the rows of db.rs and the [NodeView] of nodes.rs that others read.
    - Scheduling: scheduling.rs.  The two node-ordering algorithms and scores.
    - Selection: node_selection.rs.  [SpeedWindow] keeps a node's recent speeds;
      [Selection] keeps windows, cooldowns and recovery flags of all nodes.
    - Metrics: transfer_metrics.rs.  [TransferMetrics]: counters and histograms, for
      the lifetime and for a five-minute ring of slots.

    Handlers, cache and blobs:
    - Files: the file-system operations used, on a map from paths to contents.
    - Prog: a handler as a program of atomic actions, run alone ([run]) or among
      arbitrary others ([runs]).  Threads: rely and guarantee for such programs, pools
      of them, and locks that wait.
    - Cache: cache.rs, cache/repository.rs, cache/object_store.rs and the cache
      queries of db.rs.  [CacheStore] is the table, the files, the buffered hits and
      the keys in flight; lookup, admission, eviction, expiry, removal, hit flushing.
    - Http: what the executor observes of a response; capability and length checks.
    - Download: the executor of scheduler.rs.  [fetch_blob] and [fetch_uncached] with
      their loops, over the interface [Selector] (implemented by Selection, instance
      [node_selector]), the cache of Cache and an arbitrary upstream.  Its world keeps
      the history [sent] of the requests that left for nodes, about which theorems speak.
    - Relay: the streaming half of registry.rs, on the world of Download.
    - Jobs: the job queue of image_tools.rs and image_tools/job_store.rs with the job,
      owner, lineage and rule statements and triggers of db.rs, on the tables [Db].

    The proxy:
    - Security: security.rs and connect.rs.  The address policy, the standard
      library's IP parser, validation of upstream URLs and connection overrides,
      CONNECT authorisation and target choice.
    - Tables: the statements and constraints of db.rs on routes, nodes, metrics,
      limits and pull events.  Routes, Nodes, Crypto: registry_routes.rs, nodes.rs and
      crypto.rs, on these tables.
    - Paths: routing, digests and headers of registry.rs.  Upstream: upstream.rs, the
      one way out.  Helpers, Domainfold, Traffic: helpers.rs, domainfold.rs,
      traffic.rs.  Registry: the handler of registry.rs, which composes Paths, Cache,
      Download, Relay, Upstream, Domainfold and Helpers.

    Administration:
    - Auth, AuthProps: auth.rs and the gate of the administration listener in
      server.rs, as programs over the user, session and login tables.
    - Config: config.rs.  Settings: the runtime settings of api.rs and state.rs and
      what each service keeps of them.  Snapshot, SnapshotProps, Roundtrip: export and
      import of the settings document in api.rs.
    - Server: the gate of the registry listener in server.rs, and static_files.rs.
    - Admin: the handlers of api.rs for nodes, routes, mappings, the cache, the pull log
      and the dashboard, and the maintenance turn of server.rs, on the state [App] of
      Registry; what is serialised of a node and of the metrics.
    - System: the administration API, the maintenance turn, the proxy listener and the
      relays behind streamed responses on one state, as a step relation.
    - Migrations: the migration runner of db.rs.

    Image tools:
    - Artifacts, StoreProps: image_tools/artifacts.rs, with its locks, and its
      invariant for any number of threads.
    - Tools, ToolsProps: the credentials and rules of image_tools.rs.
    - Images, ImagesProps, Quota, ImagesWitness: the pipelines of image_tools.rs and
      image_tools/registry.rs, the storage quota and the turn of a worker; what they
      guarantee; and runs of them.
    - Heartbeat: the renewal of a worker's lease in image_tools.rs.  JobViews: the
      listing, showing and creating of jobs.  Archive: image_tools/archive.rs.
    - Browser: image_tools/files.rs and the handlers that list and serve artifacts, on
      a file system with symbolic links.

    ** What is proved

    - Integrity (Download, Relay): a fetch with an expected digest that succeeds stores
      a file with that digest, whatever the upstreams answer; whole, resumed and
      parallel downloads from honest nodes assemble exactly the blob, in any chunk
      completion order, and leave only prefixes safe to resume when they fail; a
      streamed blob reaches the client as a prefix of the blob, whole when the stream
      ends well, and only verified content is admitted; a sequential relay returns.
    - Cache: admission terminates within the capacity; a lookup after an admission
      finds the admitted bytes; keys in flight keep their row and file; expiry
      removes exactly the expired idle rows; no hit is lost or counted twice; the
      hashed key input separates routes, objects and credentials.
    - Proxy: a request goes to the route its path names and is answered by nodes of
      that route (an encoded parent segment in it is not refused, and Url::join takes it
      as one); a pass-through sends exactly one request to each node it asks, stops at
      the first answer that is final and keeps its status, headers and body; credentials
      are sent only to the node they belong to and to realms it trusts; the tables of
      routes and nodes stay well formed in every interleaving; folding a URL and
      unfolding it gives it back when no other mapping shares the public host; helper
      scripts contain nothing of a request but a checked origin.
    - Security: no accepted upstream URL, connection override or CONNECT target leads
      to an address of a denied network unless private upstreams are allowed, and the
      client is pinned to the addresses that were checked; a tunnel needs the
      configured credential and an allowed host or remapping.  The registry gate passes
      exactly the requests with the configured credential, and without it.
    - Authentication: who passes the administration gate; the invariant of accounts and
      sessions in every interleaving; the bound on login attempts; the life of a
      session; what a password change revokes; an OIDC login state serves once.
    - Settings: a configuration read from the environment is well formed; services
      updated at run time equal services started with the same settings; an import
      writes all of its document at one instant or nothing, and restores an export made
      on the same server when the exported settings pass the checks of the settings API,
      which those of the environment need not do.
    - Administration (Admin, System): no sequence of API calls other than an import of
      settings, maintenance turns, requests to the proxy and relays breaks the tables or
      the cache; the dashboard tells the truth and changes nothing; nothing shown of a
      node depends on its secret; paging through the pull log shows all of it.
    - Migrations: upgrading in steps is upgrading at once.
    - Jobs: the tables' invariant in every interleaving of handlers and workers;
      fencing of superseded workers; a requested cancellation is never lost;
      completion is one statement on the row that is running and owned at that
      instant, with the outcome the cancellation flag of that instant prescribes; recovery moves exactly the abandoned jobs; state
      changes follow [can_transition_to]; cancellation answers truthfully and, alone,
      in one turn; one job per schedule slot and per idempotency key; a worker whose
      pauses are short keeps its job, and a superseded one stops; the listing shows the
      newest jobs.
    - Image tools: shared blobs have the content of their names beside any number of
      collectors and of workers with a job each (two workers on one job, a stale one and
      its successor, can publish a wrong blob: ImagesWitness.stale_worker_publishes); a resolved image is verified from its digest down; a copy
      delivers every blob before its manifest; the quota is enforced and the clean-up
      spares active and protected jobs; references between credentials, rules and jobs
      stay intact; a stored credential comes back as it was given, for its registry
      only; the browser serves only files really below a completed job's directory; an
      archive reported complete is.
    - Budget: at most 64 requests and 8 probes are in flight and no node exceeds its
      limit in any reachable state; an acquisition completes exactly when there is
      room; stream buffers stay within 64 MiB each and 256 MiB together.
    - Planner, Chunks: plans respect their bounds and cover the blob; chunk layouts
      partition it; planning fails exactly on bad configurations or without nodes.
    - Scheduling, Selection: orders are permutations, sorted by score with the
      documented tie-breaks, with the exploration lane every eighth ticket; cooling
      nodes are left out unless all cool; cooldowns are positive, at most ten seconds
      and always end; the pruned speed window equals the view of the full history.
    - Metrics: every counter, lifetime and window, equals the sum over the recorded
      history; a percentile is the bound of the bucket of its rank.

    Every theorem with a hypothesis has an instance that meets it (the [_witness]
    lemmas).

    ** Parameters

    Code outside the repository is an argument of the definitions that use it, with what
    is relied on as named hypotheses: SHA-256, AES-GCM, Argon2, base64 and UTF-8
    decoding, [ln] and [ln_1p] of the platform, the text form of [f64], the row order of
    a query without ORDER BY, the [backoff] crate (its intervals are positive and
    bounded), the Content-Range parser, the HTTP client ([send] and [transport]: any
    response to any request, with [honest] as the hypothesis of the exactness
    theorems), the OCI client, the openidconnect client, image-reference and manifest
    parsing, tar archives, the cron crate ([upcoming_later]: an occurrence lies after
    the instant asked at), humantime, DNS, and the url, http, www-authenticate-parser
    and ipnet crates ([ipnet_contains]: a network contains the addresses its literal
    denotes), ServeFile of tower-http, the script templates, the embedded frontend and
    the execution of a migration's SQL.  Random identifiers and nonces are arguments.

    ** Bounds and fuel

    Integers keep their width: [u64] and [i64] saturate, check or wrap as each
    operation does, and the release profile wraps on overflow.  Loops that are not
    structural take fuel with a distinct result for running out; eviction, expiry,
    chunk layout and range layout are proved to end within the fuel their callers
    give.  Waiting for capacity and the cancel handler's loop can turn for as long as
    other tasks interfere, so their fuel is an argument, with theorems for every fuel
    and for the turns that suffice without interference.  A lock of the artifact store
    tries again until its [patience] is out, which is no result and not an error; the
    theorems hold for every patience.  The heartbeat runs for any number of turns.  Resolving a path follows at most [links]
    symbolic links, as the operating system does, and fails then.

    ** Not modelled

    The SQL text of the migrations and the connection options of db.rs, which are
    SQLite's to read; the set-up of listeners, the layers around the routers, TLS, the
    spawning of tasks and shutdown in server.rs, which are calls of axum, tower-http and
    tokio; and the frontend, which is TypeScript.  Conditional and range answers of ServeFile, the
    size limits of the token, transport and failed-login caches, and a collection whose
    request is dropped while it still waits for its lock are not followed.  Database
    connections and disks do not fail on their own in the model except in the artifact
    store and the pipelines; elsewhere only the errors the code branches on occur.

    ** Further work

    The format of the settings document as JSON; the retention of the in-memory caches. *)

From stdpp Require Import base gmap sets list strings.
From Stdlib Require Import ZArith Lia Permutation Sorted.

#[global] Open Scope Z_scope.

(** ** Results

    [ApiResult<T>] and [Result<T, E>] of the source. *)

Inductive result (A E : Type) : Type :=
| Ok (a : A)
| Err (e : E).
Arguments Ok {A E} a.
Arguments Err {A E} e.

Declare Scope donkey_scope.
Delimit Scope donkey_scope with donkey.
#[global] Open Scope donkey_scope.

(** [let? x := e in k] is Rust's [let x = e?; k]. *)
Notation "'let?' x ':=' e 'in' k" :=
  (match e with Ok x => k | Err err => Err err end)
  (at level 10, x pattern, e at level 100, k at level 200,
   format "'[v' 'let?'  x  ':='  e  'in' '/' k ']'") : donkey_scope.

(** [let* x := e in k] is Rust's [let x = e?; k] in a function returning [Option]. *)
Notation "'let*' x ':=' e 'in' k" :=
  (match e with Some x => k | None => None end)
  (at level 10, x pattern, e at level 100, k at level 200,
   format "'[v' 'let*'  x  ':='  e  'in' '/' k ']'") : donkey_scope.

Definition is_ok {A E} (r : result A E) : bool :=
  match r with Ok _ => true | Err _ => false end.

Definition ok_or {A E} (o : option A) (e : E) : result A E :=
  match o with Some a => Ok a | None => Err e end.

Definition map_err {A E F} (f : E -> F) (r : result A E) : result A F :=
  match r with Ok a => Ok a | Err e => Err (f e) end.

Definition is_some {A} (o : option A) : bool :=
  match o with Some _ => true | None => false end.

Definition is_none {A} (o : option A) : bool := negb (is_some o).

(** [Option::is_some_and] and [Option::is_none_or]. *)
Definition is_some_and {A} (o : option A) (p : A -> bool) : bool :=
  match o with Some a => p a | None => false end.

Definition is_none_or {A} (o : option A) (p : A -> bool) : bool :=
  match o with Some a => p a | None => true end.

Definition unwrap_or {A} (o : option A) (d : A) : A :=
  match o with Some a => a | None => d end.

(** [Uuid]: a 128-bit identifier. *)
Abbreviation Uuid := N.

(** ** Machine integers

    [u64], [usize] (the targets are 64-bit), [u32], [u16] and [i64] are [Z]
    with the operation's overflow behaviour written out.  The release profile
    has no overflow checks, so plain [+] wraps. *)

Definition u64_max : Z := 2 ^ 64 - 1.
Definition u32_max : Z := 2 ^ 32 - 1.
Definition u16_max : Z := 2 ^ 16 - 1.
Definition i64_max : Z := 2 ^ 63 - 1.

Definition u64_range (z : Z) : Prop := 0 <= z <= u64_max.

Definition wrap64 (z : Z) : Z := z mod 2 ^ 64.
Definition saturating_add (a b : Z) : Z := Z.min u64_max (a + b).
Definition saturating_sub (a b : Z) : Z := Z.max 0 (a - b).
Definition saturating_mul (a b : Z) : Z := Z.min u64_max (a * b).
Definition checked_add (a b : Z) : option Z :=
  if a + b <=? u64_max then Some (a + b) else None.
Definition checked_sub (a b : Z) : option Z :=
  if b <=? a then Some (a - b) else None.
Definition checked_mul (a b : Z) : option Z :=
  if a * b <=? u64_max then Some (a * b) else None.

(** [u64::div_ceil]. *)
Definition div_ceil (a b : Z) : Z :=
  if a mod b =? 0 then a / b else a / b + 1.

(** [Ord::clamp] (its caller guarantees [lo <= hi]). *)
Definition clamp (x lo hi : Z) : Z :=
  if x <? lo then lo else if hi <? x then hi else x.

(** [size.min(i64::MAX as u64) as i64] *)
Definition to_i64_saturating (z : Z) : Z := Z.min z i64_max.

Lemma div_ceil_spec a b : 0 < b -> a <= div_ceil a b * b < a + b.
Proof.
  intros Hb. unfold div_ceil.
  pose proof (Z.div_mod a b ltac:(lia)) as Hd.
  pose proof (Z.mod_pos_bound a b Hb).
  destruct (Z.eqb_spec (a mod b) 0); nia.
Qed.

Lemma div_ceil_pos a b : 0 < a -> 0 < b -> 0 < div_ceil a b.
Proof. intros Ha Hb. pose proof (div_ceil_spec a b Hb). nia. Qed.

Lemma div_ceil_nonneg a b : 0 <= a -> 0 < b -> 0 <= div_ceil a b.
Proof. intros Ha Hb. pose proof (div_ceil_spec a b Hb). nia. Qed.

Lemma div_ceil_le a b : 0 <= a -> 0 < b -> div_ceil a b <= a.
Proof.
  intros Ha Hb. pose proof (div_ceil_spec a b Hb).
  destruct (Z.eq_dec b 1) as [->|]; nia.
Qed.

Lemma div_ceil_upper a b k : 0 < b -> a <= k * b -> div_ceil a b <= k.
Proof. intros Hb Hk. pose proof (div_ceil_spec a b Hb). nia. Qed.

Lemma clamp_bounds x lo hi : lo <= hi -> lo <= clamp x lo hi <= hi.
Proof.
  intros ?. unfold clamp.
  destruct (Z.ltb_spec x lo); [lia|]. destruct (Z.ltb_spec hi x); lia.
Qed.

Lemma clamp_inside x lo hi : lo <= x <= hi -> clamp x lo hi = x.
Proof.
  intros ?. unfold clamp.
  destruct (Z.ltb_spec x lo); [lia|]. destruct (Z.ltb_spec hi x); lia.
Qed.

Lemma checked_sub_Some a b c : checked_sub a b = Some c <-> b <= a /\ c = a - b.
Proof. unfold checked_sub. destruct (Z.leb_spec b a); split; intros; destruct_and?; simplify_eq; try lia; auto. Qed.

Lemma checked_add_Some a b c : checked_add a b = Some c <-> a + b <= u64_max /\ c = a + b.
Proof. unfold checked_add. destruct (Z.leb_spec (a + b) u64_max); split; intros; destruct_and?; simplify_eq; try lia; auto. Qed.

Lemma wrap64_small z : u64_range z -> wrap64 z = z.
Proof. unfold u64_range, u64_max, wrap64. intros. apply Z.mod_small. lia. Qed.

Lemma wrap64_range z : u64_range (wrap64 z).
Proof.
  unfold u64_range, u64_max, wrap64.
  pose proof (Z.mod_pos_bound z (2 ^ 64) ltac:(lia)). lia.
Qed.

(** ** Automation

    [zcase] splits on the first integer comparison of the goal, [zcase in *]
    on one in the hypotheses; the resulting facts are for [lia]. *)

Ltac zcase :=
  match goal with
  | |- context [Z.leb ?a ?b] => destruct (Z.leb_spec a b)
  | |- context [Z.ltb ?a ?b] => destruct (Z.ltb_spec a b)
  | |- context [Z.eqb ?a ?b] => destruct (Z.eqb_spec a b)
  end.

Ltac zcase_in H :=
  match type of H with
  | context [Z.leb ?a ?b] => destruct (Z.leb_spec a b)
  | context [Z.ltb ?a ?b] => destruct (Z.ltb_spec a b)
  | context [Z.eqb ?a ?b] => destruct (Z.eqb_spec a b)
  end.

(** Case analysis on the scrutinee of the first [match] of a hypothesis,
    discarding the branches a [simplify_eq] refutes. *)
Ltac case_result H :=
  match type of H with
  | context [match ?e with _ => _ end] =>
      let E := fresh "E" in destruct e eqn:E; simplify_eq/=
  end.

(** Boolean connectives in hypotheses become propositions. *)
Ltac bool_hyps :=
  repeat match goal with
  | H : andb _ _ = true |- _ => apply andb_true_iff in H as [? ?]
  | H : orb _ _ = false |- _ => apply orb_false_iff in H as [? ?]
  | H : negb _ = true |- _ => apply negb_true_iff in H
  | H : negb _ = false |- _ => apply negb_false_iff in H
  | H : Z.leb _ _ = true |- _ => apply Z.leb_le in H
  | H : Z.leb _ _ = false |- _ => apply Z.leb_gt in H
  | H : Z.ltb _ _ = true |- _ => apply Z.ltb_lt in H
  | H : Z.ltb _ _ = false |- _ => apply Z.ltb_ge in H
  | H : Z.eqb _ _ = true |- _ => apply Z.eqb_eq in H
  | H : Z.eqb _ _ = false |- _ => apply Z.eqb_neq in H
  | H : bool_decide _ = true |- _ => apply bool_decide_eq_true in H
  | H : bool_decide _ = false |- _ => apply bool_decide_eq_false in H
  end.

(** ** Iterator and slice operations of the standard library *)

Section Slices.
Context {A : Type}.

(** [Iterator::min_by]: the first of several minimal elements. *)
Fixpoint min_by (cmp : A -> A -> comparison) (l : list A) : option A :=
  match l with
  | [] => None
  | x :: l' =>
      match min_by cmp l' with
      | None => Some x
      | Some y => match cmp x y with Gt => Some y | _ => Some x end
      end
  end.

(** [Iterator::max_by]: the last of several maximal elements. *)
Fixpoint max_by (cmp : A -> A -> comparison) (l : list A) : option A :=
  match l with
  | [] => None
  | x :: l' =>
      match max_by cmp l' with
      | None => Some x
      | Some y => match cmp x y with Gt => Some x | _ => Some y end
      end
  end.

(** [slice::sort_by], a stable sort. *)
Fixpoint insert_by (cmp : A -> A -> comparison) (x : A) (l : list A) : list A :=
  match l with
  | [] => [x]
  | y :: l' =>
      match cmp x y with
      | Gt => y :: insert_by cmp x l'
      | _ => x :: l
      end
  end.

Definition sort_by (cmp : A -> A -> comparison) (l : list A) : list A :=
  foldr (insert_by cmp) [] l.

(** [slice::rotate_left(n)]. *)
Definition rotate_left (n : nat) (l : list A) : list A := drop n l ++ take n l.

(** [v[..=n].rotate_right(1)]: element [n] moves to the front. *)
Definition promote (n : nat) (l : list A) : list A :=
  match l !! n with
  | Some x => x :: take n l ++ drop (S n) l
  | None => l
  end.

Lemma min_by_elem cmp (l : list A) x : min_by cmp l = Some x -> x ∈ l.
Proof.
  revert x. induction l as [|y l IH]; intros x H; simpl in H; [done|].
  destruct (min_by cmp l) as [z|]; [|simplify_eq; set_solver].
  destruct (cmp y z); simplify_eq; set_solver.
Qed.

Lemma min_by_None cmp (l : list A) : min_by cmp l = None <-> l = [].
Proof.
  split; [|by intros ->]. destruct l as [|x l]; [done|]. simpl.
  destruct (min_by cmp l) as [z|]; [destruct (cmp x z)|]; discriminate.
Qed.

Lemma max_by_elem cmp (l : list A) x : max_by cmp l = Some x -> x ∈ l.
Proof.
  revert x. induction l as [|y l IH]; intros x H; simpl in H; [done|].
  destruct (max_by cmp l) as [z|]; [|simplify_eq; set_solver].
  destruct (cmp y z); simplify_eq; set_solver.
Qed.

Lemma insert_by_perm cmp x (l : list A) : insert_by cmp x l ≡ₚ x :: l.
Proof.
  induction l as [|y l IH]; simpl; [done|].
  destruct (cmp x y); [done..|]. rewrite IH. apply perm_swap.
Qed.

Lemma sort_by_perm cmp (l : list A) : sort_by cmp l ≡ₚ l.
Proof.
  induction l as [|x l IH]; simpl; [done|].
  rewrite insert_by_perm. by rewrite IH.
Qed.

Lemma rotate_left_perm n (l : list A) : rotate_left n l ≡ₚ l.
Proof. unfold rotate_left. rewrite Permutation_app_comm. by rewrite take_drop. Qed.

Lemma promote_perm n (l : list A) : promote n l ≡ₚ l.
Proof.
  unfold promote. destruct (l !! n) as [x|] eqn:E; [|done].
  rewrite <- (take_drop_middle l n x E) at 3. by rewrite Permutation_middle.
Qed.

Lemma promote_hd n (l : list A) x : l !! n = Some x -> head (promote n l) = Some x.
Proof. intros E. unfold promote. by rewrite E. Qed.

(** A comparison derived from a total preorder: what [sort_by] needs. *)
Class CmpOrder (cmp : A -> A -> comparison) : Prop := {
  cmp_swap : forall x y, cmp y x = CompOpp (cmp x y);
  cmp_trans : forall x y z, cmp x y <> Gt -> cmp y z <> Gt -> cmp x z <> Gt
}.

Lemma sort_by_sorted cmp `{!CmpOrder cmp} (l : list A) :
  StronglySorted (fun x y => cmp x y <> Gt) (sort_by cmp l).
Proof.
  induction l as [|x l IH]; simpl; [constructor|].
  induction IH as [|y l' HS IH HF]; simpl; [repeat constructor|].
  destruct (cmp x y) eqn:E.
  1,2: repeat constructor; auto; [congruence|].
  1,2: eapply Forall_impl; [exact HF|]; intros z Hz; eapply cmp_trans; eauto; congruence.
  constructor; [done|]. rewrite insert_by_perm. constructor; [|done].
  rewrite cmp_swap, E. simpl. congruence.
Qed.

Lemma min_by_least cmp `{!CmpOrder cmp} (l : list A) m :
  min_by cmp l = Some m -> Forall (fun x => cmp m x <> Gt) l.
Proof.
  assert (Hrefl : forall x, cmp x x <> Gt).
  { intros x Hx. pose proof (cmp_swap x x) as Hs. rewrite Hx in Hs. discriminate. }
  revert m. induction l as [|y l IH]; intros m H; simpl in H; [constructor|].
  destruct (min_by cmp l) as [z|] eqn:Ez.
  - specialize (IH z eq_refl). destruct (cmp y z) eqn:E; simplify_eq; constructor; auto.
    1,2: eapply Forall_impl; [exact IH|]; intros w Hw; apply cmp_trans with z; [congruence|done].
    rewrite cmp_swap, E. simpl. congruence.
  - simplify_eq. apply min_by_None in Ez as ->. auto.
Qed.
End Slices.

(** Comparisons compose: [a.cmp(b).then_with(|| ...)]. *)
Definition then_cmp (c d : comparison) : comparison :=
  match c with Eq => d | _ => c end.

Section Orders.
Context {A : Type}.

Lemma cmp_on_order (key : A -> Z) : CmpOrder (fun x y => Z.compare (key x) (key y)).
Proof.
  split; [intros; apply Z.compare_antisym|].
  intros x y z. rewrite !Z.compare_le_iff. lia.
Qed.

Lemma flip_order (cmp : A -> A -> comparison) :
  CmpOrder cmp -> CmpOrder (fun x y => cmp y x).
Proof.
  intros [Hs Ht]. split; [intros; apply Hs|]. intros x y z H1 H2. by apply (Ht z y x).
Qed.

Lemma cmp_eq_trans (cmp : A -> A -> comparison) `{!CmpOrder cmp} x y z :
  cmp x y = Eq -> cmp y z = Eq -> cmp x z = Eq.
Proof.
  intros H1 H2.
  assert (cmp x z <> Gt) as Ha by (apply cmp_trans with y; congruence).
  assert (cmp z x <> Gt) as Hb.
  { apply cmp_trans with y; rewrite cmp_swap; [rewrite H2|rewrite H1]; done. }
  rewrite cmp_swap in Hb. destruct (cmp x z); done.
Qed.

Lemma then_order (c d : A -> A -> comparison) :
  CmpOrder c -> CmpOrder d -> CmpOrder (fun x y => then_cmp (c x y) (d x y)).
Proof.
  intros Hc Hd. split.
  - intros x y. rewrite (cmp_swap (cmp:=c) x y). destruct (c x y); simpl; [apply Hd|done..].
  - intros x y z. destruct (c x y) eqn:E1, (c y z) eqn:E2; simpl; try done.
    1: rewrite (cmp_eq_trans c x y z) by done; apply Hd.
    all: intros _ _; pose proof (cmp_trans (cmp:=c) x y z ltac:(congruence) ltac:(congruence)).
    all: destruct (c x z) eqn:E3; simpl; try done.
    + exfalso. assert (c z x <> Gt) by (rewrite cmp_swap, E3; done).
      assert (c z y <> Gt) as Hzy by (apply cmp_trans with x; congruence).
      rewrite cmp_swap, E2 in Hzy. done.
    + exfalso. assert (c z x <> Gt) by (rewrite cmp_swap, E3; done).
      assert (c y x <> Gt) as Hyx by (apply cmp_trans with z; congruence).
      rewrite cmp_swap, E1 in Hyx. done.
    + exfalso. assert (c z x <> Gt) by (rewrite cmp_swap, E3; done).
      assert (c y x <> Gt) as Hyx by (apply cmp_trans with z; congruence).
      rewrite cmp_swap, E1 in Hyx. done.
Qed.

(** [Option<T>::cmp]: [None] is below every [Some]. *)
Definition option_cmp (cmp : A -> A -> comparison) (a b : option A) : comparison :=
  match a, b with
  | None, None => Eq
  | None, Some _ => Lt
  | Some _, None => Gt
  | Some x, Some y => cmp x y
  end.
End Orders.

(** [str::cmp] is bytewise. *)
Lemma string_compare_order : CmpOrder String.compare.
Proof.
  split.
  - intros x y. apply String.compare_antisym.
  - assert (forall a b, String.compare a b <> Gt <-> String.le a b) as Hle.
    { intros a b. unfold String.le, String.leb. destruct (String.compare a b); simpl; naive_solver. }
    intros x y z. rewrite !Hle. apply transitivity.
Qed.

Create HintDb donkey discriminated.
#[export] Hint Resolve sort_by_perm rotate_left_perm promote_perm div_ceil_pos clamp_bounds : donkey.
