(* ===== verification/F64.v ===== *)
(** * IEEE-754 double precision

    Rust's [f64] as the executable binary64 of the standard library's
    [SpecFloat] (round to nearest even), with the operations the proxy uses:
    the conversions [as f64] and [as u64], [total_cmp], [max], [clamp] and
    [Iterator::sum].  [SpecFloat] has a single NaN, taken here to be the
    positive quiet one. *)

From stdpp Require Import base list.
From Stdlib Require Import ZArith Lia SpecFloat.
From S2P Require Import Prelude.

Declare Scope f64_scope.
Delimit Scope f64_scope with f64.

Abbreviation f64 := spec_float.

Definition prec : Z := 53.
Definition emax : Z := 1024.

Definition fadd : f64 -> f64 -> f64 := SFadd prec emax.
Definition fsub : f64 -> f64 -> f64 := SFsub prec emax.
Definition fmul : f64 -> f64 -> f64 := SFmul prec emax.
Definition fdiv : f64 -> f64 -> f64 := SFdiv prec emax.
Infix "+" := fadd : f64_scope.
Infix "-" := fsub : f64_scope.
Infix "*" := fmul : f64_scope.
Infix "/" := fdiv : f64_scope.

(** [n as f64] for an integer [n]. *)
Definition f64_of_Z (n : Z) : f64 := binary_normalize prec emax n 0 false.

(** The literal [n / d] correctly rounded, for decimal constants such as [0.05]. *)
Definition f64_ratio (n d : Z) : f64 := fdiv (f64_of_Z n) (f64_of_Z d).

(** [x < y], [x <= y]; false when either side is NaN. *)
Definition flt (x y : f64) : bool := SFltb x y.
Definition fle (x y : f64) : bool := SFleb x y.

Definition is_nan (x : f64) : bool :=
  match x with S754_nan => true | _ => false end.

(** [f64::max] ignores a NaN operand. *)
Definition fmax (x y : f64) : f64 :=
  if is_nan x then y else if is_nan y then x else if flt x y then y else x.

(** [f64::clamp]. *)
Definition fclamp (x lo hi : f64) : f64 :=
  if flt x lo then lo else if flt hi x then hi else x.

(** [f64::powi(2)]. *)
Definition fsquare (x : f64) : f64 := fmul x x.

(** [Iterator::sum::<f64>], folding from [-0.0]. *)
Definition fsum (l : list f64) : f64 := foldl fadd (S754_zero true) l.

(** [x as u64]: truncation towards zero, saturating, NaN to 0. *)
Definition f64_to_u64 (x : f64) : Z :=
  match x with
  | S754_zero _ | S754_nan => 0
  | S754_infinity s => if s then 0 else u64_max
  | S754_finite s m e =>
      if s then 0
      else Z.min u64_max
             (if 0 <=? e then Z.pos m * 2 ^ e else Z.pos m / 2 ^ (- e))
  end.

(** The magnitude bits of a double: [to_bits] without the sign. *)
Definition magnitude (x : f64) : Z :=
  match x with
  | S754_zero _ => 0
  | S754_finite _ m e => (e + 1074) * 2 ^ 52 + Z.pos m
  | S754_infinity _ => 2047 * 2 ^ 52
  | S754_nan => 2047 * 2 ^ 52 + 2 ^ 51
  end.

Definition sign_bit (x : f64) : bool :=
  match x with
  | S754_zero s | S754_finite s _ _ | S754_infinity s => s
  | S754_nan => false
  end.

(** The integer [f64::total_cmp] compares: the bits as an [i64], with the
    magnitude of a negative number flipped. *)
Definition total_key (x : f64) : Z :=
  if sign_bit x then - magnitude x - 1 else magnitude x.

Definition total_cmp (x y : f64) : comparison := Z.compare (total_key x) (total_key y).

#[export] Instance total_cmp_order : CmpOrder total_cmp := cmp_on_order total_key.

(** A comparison by a float key is a total preorder. *)
Lemma total_cmp_on_order {A} (key : A -> f64) :
  CmpOrder (fun x y => total_cmp (key x) (key y)).
Proof. apply (cmp_on_order (fun x => total_key (key x))). Qed.

Lemma f64_to_u64_range x : u64_range (f64_to_u64 x).
Proof.
  unfold u64_range, u64_max. destruct x as [s|s| |s m e]; simpl; try (destruct s); unfold u64_max; try lia.
  destruct (Z.leb_spec 0 e).
  - pose proof (Z.pow_nonneg 2 e). lia.
  - pose proof (Z.div_pos (Z.pos m) (2 ^ (- e)) ltac:(lia) ltac:(apply Z.pow_pos_nonneg; lia)). lia.
Qed.

Example f64_third : fmul (f64_ratio 1 3) (f64_of_Z 3) = f64_of_Z 1.
Proof. reflexivity. Qed.

Example f64_cast : f64_to_u64 (f64_ratio 7 2) = 3.
Proof. reflexivity. Qed.
