(* ===== verification/Text.v ===== *)
(** * Byte strings

    [&str] and [String] as [string] (a sequence of 8-bit characters, so
    [String.length] is Rust's byte length), with the [str] methods the proxy
    uses.  The methods below take non-empty needles, as every call site does. *)

From stdpp Require Import base gmap sets list strings pretty.
From Stdlib Require Import ZArith Lia Ascii.
From S2P Require Import Prelude.

Definition slen (s : string) : Z := Z.of_nat (String.length s).

Definition is_empty (s : string) : bool :=
  match s with EmptyString => true | _ => false end.

Definition str_eqb (a b : string) : bool := String.eqb a b.
Infix "=?s" := str_eqb (at level 70) : donkey_scope.
Arguments str_eqb : simpl never.

(** ** Character classes ([u8::is_ascii_*]) *)

Definition code (c : ascii) : Z := Z.of_N (N_of_ascii c).
Definition between (lo hi : Z) (c : ascii) : bool := (lo <=? code c) && (code c <=? hi).

Definition is_ascii_digit : ascii -> bool := between 48 57.
Definition is_ascii_lowercase : ascii -> bool := between 97 122.
Definition is_ascii_uppercase : ascii -> bool := between 65 90.
Definition is_ascii_alphanumeric (c : ascii) : bool :=
  is_ascii_digit c || is_ascii_lowercase c || is_ascii_uppercase c.
Definition is_ascii_hexdigit (c : ascii) : bool :=
  is_ascii_digit c || between 97 102 c || between 65 70 c.
Definition is_ascii_whitespace (c : ascii) : bool :=
  match code c with 9 | 10 | 12 | 13 | 32 => true | _ => false end.

Definition to_lower (c : ascii) : ascii :=
  if is_ascii_uppercase c then ascii_of_N (N_of_ascii c + 32) else c.

Fixpoint smap (f : ascii -> ascii) (s : string) : string :=
  match s with
  | EmptyString => EmptyString
  | String c s' => String (f c) (smap f s')
  end.

Definition to_ascii_lowercase : string -> string := smap to_lower.
Definition eq_ignore_ascii_case (a b : string) : bool :=
  to_ascii_lowercase a =?s to_ascii_lowercase b.

(** [s.bytes().all(p)] and [s.bytes().any(p)]. *)
Fixpoint all_bytes (p : ascii -> bool) (s : string) : bool :=
  match s with
  | EmptyString => true
  | String c s' => p c && all_bytes p s'
  end.

Definition any_byte (p : ascii -> bool) (s : string) : bool :=
  negb (all_bytes (fun c => negb (p c)) s).

(** [matches!(byte, b'a' | b'b' | ..)] *)
Fixpoint char_in (c : ascii) (set : string) : bool :=
  match set with
  | EmptyString => false
  | String d set' => Ascii.eqb c d || char_in c set'
  end.

(** ** Prefixes, suffixes and searching *)

Fixpoint strip_prefix (p s : string) : option string :=
  match p, s with
  | EmptyString, _ => Some s
  | String a p', String b s' => if Ascii.eqb a b then strip_prefix p' s' else None
  | String _ _, EmptyString => None
  end.

Definition starts_with (p s : string) : bool := is_some (strip_prefix p s).

(** [s.strip_suffix(t)]. *)
Fixpoint strip_suffix (t s : string) : option string :=
  if s =?s t then Some ""
  else match s with
       | EmptyString => None
       | String c s' => let* r := strip_suffix t s' in Some (String c r)
       end.

Definition ends_with (t s : string) : bool := is_some (strip_suffix t s).

(** [s.split_once(d)]: around the first occurrence. *)
Fixpoint split_once (d s : string) : option (string * string) :=
  match strip_prefix d s with
  | Some r => Some ("", r)
  | None =>
      match s with
      | EmptyString => None
      | String c s' => let* (a, b) := split_once d s' in Some (String c a, b)
      end
  end.

(** [s.rsplit_once(d)]: around the last occurrence. *)
Fixpoint rsplit_once (d s : string) : option (string * string) :=
  match s with
  | EmptyString => None
  | String c s' =>
      match rsplit_once d s' with
      | Some (a, b) => Some (String c a, b)
      | None => let* r := strip_prefix d s in Some ("", r)
      end
  end.

(** [s.rfind(d)]: the byte index of the last occurrence. *)
Definition rfind (d s : string) : option nat :=
  let* (a, _) := rsplit_once d s in Some (String.length a).

Definition contains (d s : string) : bool := is_some (split_once d s).

(** [&s[..i]] and [&s[i..]], for an index within the string. *)
Fixpoint str_take (n : nat) (s : string) : string :=
  match n, s with
  | S n', String c s' => String c (str_take n' s')
  | _, _ => EmptyString
  end.

Fixpoint str_drop (n : nat) (s : string) : string :=
  match n, s with
  | S n', String _ s' => str_drop n' s'
  | _, _ => s
  end.

(** [s.split(c)] for a single character. *)
Fixpoint split_char (c : ascii) (s : string) : list string :=
  match s with
  | EmptyString => [""]
  | String d s' =>
      if Ascii.eqb d c then "" :: split_char c s'
      else match split_char c s' with
           | [] => [String d ""]
           | w :: ws => String d w :: ws
           end
  end.

(** [s.starts_with(c)], [s.ends_with(c)] for a character. *)
Definition first_byte (s : string) : option ascii :=
  match s with EmptyString => None | String c _ => Some c end.

Fixpoint last_byte (s : string) : option ascii :=
  match s with
  | EmptyString => None
  | String c EmptyString => Some c
  | String _ s' => last_byte s'
  end.

(** ** Trimming *)

Fixpoint trim_start_by (p : ascii -> bool) (s : string) : string :=
  match s with
  | String c s' => if p c then trim_start_by p s' else s
  | EmptyString => EmptyString
  end.

Fixpoint trim_end_by (p : ascii -> bool) (s : string) : string :=
  match s with
  | EmptyString => EmptyString
  | String c s' =>
      match trim_end_by p s' with
      | EmptyString => if p c then EmptyString else String c EmptyString
      | t => String c t
      end
  end.

(** [s.trim_matches(set)]. *)
Definition trim_matches (p : ascii -> bool) (s : string) : string :=
  trim_end_by p (trim_start_by p s).

Definition chr (n : N) : string := String (ascii_of_N n) EmptyString.

(** The UTF-8 encodings of the code points with the [White_Space] property,
    which [str::trim] removes. *)
Definition white_space : list string :=
  [ chr 9; chr 10; chr 11; chr 12; chr 13; chr 32;
    chr 194 +:+ chr 133; chr 194 +:+ chr 160;
    chr 225 +:+ chr 154 +:+ chr 128 ]
  ++ ((fun n => chr 226 +:+ chr 128 +:+ chr n) <$>
        [128; 129; 130; 131; 132; 133; 134; 135; 136; 137; 138; 168; 169; 175])%N
  ++ [ chr 226 +:+ chr 129 +:+ chr 159; chr 227 +:+ chr 128 +:+ chr 128 ].

Definition strip_any (strip : string -> string -> option string) (s : string) : option string :=
  foldr (fun w r => match strip w s with Some t => Some t | None => r end) None white_space.

Fixpoint trim_loop (strip : string -> string -> option string) (fuel : nat) (s : string) : string :=
  match fuel with
  | O => s
  | S fuel' =>
      match strip_any strip s with
      | Some t => trim_loop strip fuel' t
      | None => s
      end
  end.

(** [str::trim]; each round removes at least one byte, so the length is
    enough fuel. *)
Definition trim (s : string) : string :=
  let t := trim_loop strip_prefix (String.length s) s in
  trim_loop strip_suffix (String.length t) t.

(** ** Lemmas *)

Lemma str_eqb_eq a b : (a =?s b) = true <-> a = b.
Proof. apply String.eqb_eq. Qed.

Lemma str_eqb_neq a b : (a =?s b) = false <-> a <> b.
Proof. apply String.eqb_neq. Qed.

Lemma str_eqb_refl a : (a =?s a) = true.
Proof. apply String.eqb_refl. Qed.

Lemma strip_prefix_Some p s r : strip_prefix p s = Some r <-> s = p +:+ r.
Proof.
  revert s. induction p as [|a p IH]; intros s; simpl.
  - split; [by intros [= ->]|by intros ->].
  - destruct s as [|b s]; [split; discriminate|].
    destruct (Ascii.eqb_spec a b) as [->|Hne].
    + rewrite IH. split; [by intros ->|by intros [= ->]].
    + split; [done|intros [= ? ?]; congruence].
Qed.

Lemma strip_suffix_Some t s r : strip_suffix t s = Some r -> s = r +:+ t.
Proof.
  revert r. induction s as [|c s IH]; intros r; simpl.
  - destruct ("" =?s t) eqn:E; [|done]. intros [= <-]. by apply str_eqb_eq in E.
  - destruct (String c s =?s t) eqn:E; [intros [= <-]; by apply str_eqb_eq in E|].
    destruct (strip_suffix t s) as [r'|]; [|done]. intros [= <-]. simpl.
    change (String c r' +:+ t) with (String c (r' +:+ t)). by rewrite <- (IH r').
Qed.

Lemma split_once_Some d s a b : split_once d s = Some (a, b) -> s = a +:+ d +:+ b.
Proof.
  revert a b. induction s as [|c s IH]; intros a b; simpl.
  - destruct (strip_prefix d "") eqn:E; [|done]. intros [= <- <-]. by apply strip_prefix_Some in E.
  - destruct (strip_prefix d (String c s)) eqn:E.
    + intros [= <- <-]. by apply strip_prefix_Some in E.
    + destruct (split_once d s) as [[a' b']|]; [|done]. intros [= <- <-].
      change (String c a' +:+ d +:+ b') with (String c (a' +:+ d +:+ b')).
      by rewrite <- (IH a' b').
Qed.

Lemma rsplit_once_Some d s a b : rsplit_once d s = Some (a, b) -> s = a +:+ d +:+ b.
Proof.
  revert a b. induction s as [|c s IH]; intros a b; simpl; [done|].
  destruct (rsplit_once d s) as [[a' b']|] eqn:E.
  - intros [= <- <-]. change (String c a' +:+ d +:+ b') with (String c (a' +:+ d +:+ b')).
    by rewrite <- (IH a' b').
  - destruct (strip_prefix d (String c s)) eqn:E'; [|done]. intros [= <- <-].
    by apply strip_prefix_Some in E'.
Qed.

Lemma slen_nonneg s : 0 <= slen s.
Proof. unfold slen. lia. Qed.

Lemma str_length_app a b : String.length (a +:+ b) = (String.length a + String.length b)%nat.
Proof. induction a as [|c a IH]; [done|]. change (String c a +:+ b) with (String c (a +:+ b)). simpl. by rewrite IH. Qed.

Lemma slen_app a b : slen (a +:+ b) = slen a + slen b.
Proof. unfold slen. rewrite str_length_app. lia. Qed.

Lemma str_app_assoc a b c : (a +:+ b) +:+ c = a +:+ (b +:+ c).
Proof. induction a as [|x a IH]; [done|]. change (String x ((a +:+ b) +:+ c) = String x (a +:+ (b +:+ c))). by rewrite IH. Qed.

Lemma str_app_nil_r a : a +:+ "" = a.
Proof. induction a as [|x a IH]; [done|]. change (String x (a +:+ "") = String x a). by rewrite IH. Qed.

Lemma str_take_drop n s : str_take n s +:+ str_drop n s = s.
Proof.
  revert s. induction n as [|n IH]; intros [|c s]; simpl; try done.
  change (String c (str_take n s +:+ str_drop n s) = String c s). by rewrite IH.
Qed.

Lemma str_take_app a b : str_take (String.length a) (a +:+ b) = a.
Proof. induction a as [|c a IH]; simpl; [by destruct b|]. change (String c (str_take (String.length a) (a +:+ b)) = String c a). by rewrite IH. Qed.

Lemma str_drop_app a b : str_drop (String.length a) (a +:+ b) = b.
Proof. induction a as [|c a IH]; simpl; [by destruct b|]. exact IH. Qed.

Lemma all_bytes_app p a b : all_bytes p (a +:+ b) = all_bytes p a && all_bytes p b.
Proof.
  induction a as [|c a IH]; [done|].
  change (p c && all_bytes p (a +:+ b) = p c && all_bytes p a && all_bytes p b).
  by rewrite IH, andb_assoc.
Qed.

Lemma all_bytes_impl (p q : ascii -> bool) s :
  (forall c, p c = true -> q c = true) -> all_bytes p s = true -> all_bytes q s = true.
Proof.
  intros Hpq. induction s as [|c s IH]; simpl; [done|].
  rewrite !andb_true_iff. intros [? ?]. auto.
Qed.

Lemma to_lower_fixed c : is_ascii_uppercase c = false -> to_lower c = c.
Proof. unfold to_lower. by intros ->. Qed.

(** Every property of single bytes is decided by the 256 cases. *)
Ltac all_ascii := intros [[] [] [] [] [] [] [] []]; vm_compute; try done; auto.

Lemma to_lower_not_upper c : is_ascii_uppercase (to_lower c) = false.
Proof. revert c. all_ascii. Qed.

Lemma to_ascii_lowercase_idemp s :
  to_ascii_lowercase (to_ascii_lowercase s) = to_ascii_lowercase s.
Proof.
  unfold to_ascii_lowercase. induction s as [|c s IH]; simpl; [done|].
  by rewrite IH, (to_lower_fixed (to_lower c)) by apply to_lower_not_upper.
Qed.

Lemma smap_length f s : String.length (smap f s) = String.length s.
Proof. induction s; simpl; auto. Qed.

Example rsplit_once_ex : rsplit_once "/blobs/" "a/blobs/b/blobs/c" = Some ("a/blobs/b", "c").
Proof. reflexivity. Qed.

Example trim_ex : trim (chr 9 +:+ " a b" +:+ chr 226 +:+ chr 128 +:+ chr 168) = "a b".
Proof. reflexivity. Qed.

Example split_char_ex : split_char "." "a..b" = ["a"; ""; "b"].
Proof. reflexivity. Qed.

(** [absent c s]: the character does not occur. *)
Definition absent (c : ascii) (s : string) : bool := all_bytes (fun x => negb (Ascii.eqb x c)) s.

Lemma rsplit_once_absent c d s : absent c s = true -> rsplit_once (String c d) s = None.
Proof.
  induction s as [|x s IH]; simpl; [done|]. intros [Hx Hs]%andb_true_iff.
  rewrite (IH Hs). destruct (Ascii.eqb_spec c x); [subst|done].
  by rewrite Ascii.eqb_refl in Hx.
Qed.

Lemma split_once_char c a q : absent c a = true -> split_once (String c "") (a +:+ String c q) = Some (a, q).
Proof.
  induction a as [|x a IH]; intros Ha.
  - change ("" +:+ String c q) with (String c q). simpl. by destruct (Ascii.eqb_spec c c).
  - change (String x a +:+ String c q) with (String x (a +:+ String c q)). unfold absent in Ha. simpl in Ha.
    apply andb_true_iff in Ha as [Hx Ha]. simpl. destruct (Ascii.eqb_spec c x) as [->|].
    + by rewrite Ascii.eqb_refl in Hx.
    + by rewrite IH.
Qed.

Lemma split_once_char_absent c a : absent c a = true -> split_once (String c "") a = None.
Proof.
  induction a as [|x a IH]; [done|]. unfold absent. simpl. intros [Hx Ha]%andb_true_iff.
  destruct (Ascii.eqb_spec c x) as [->|]; [by rewrite Ascii.eqb_refl in Hx|]. by rewrite IH.
Qed.

(** A separator that does not occur in the first parts determines the split. *)
Lemma separated_inj c a a' x x' : absent c a = true -> absent c a' = true ->
  a +:+ String c x = a' +:+ String c x' -> a = a' /\ x = x'.
Proof.
  intros Ha Ha' E. pose proof (split_once_char c a x Ha) as H1.
  rewrite E, (split_once_char c a' x' Ha') in H1. by simplify_eq.
Qed.

Lemma absent_app c a b : absent c (a +:+ b) = absent c a && absent c b.
Proof. apply all_bytes_app. Qed.

(** ** The last marker of a path *)

Fixpoint occurrences (c : ascii) (s : string) : nat :=
  match s with
  | EmptyString => 0
  | String x s => (if Ascii.eqb x c then 1 else 0) + occurrences c s
  end.

Lemma occurrences_app c a b : occurrences c (a +:+ b) = (occurrences c a + occurrences c b)%nat.
Proof. induction a as [|x a IH]; [done|]. change (String x a +:+ b) with (String x (a +:+ b)). simpl. lia. Qed.

Lemma occurrences_absent c s : absent c s = true -> occurrences c s = 0%nat.
Proof.
  induction s as [|x s IH]; [done|]. unfold absent. simpl. intros [Hx Hs]%andb_true_iff.
  rewrite (IH Hs). by destruct (Ascii.eqb x c).
Qed.

(** The last occurrence is at or after every occurrence. *)
Lemma rsplit_once_last c d a b :
  exists x y, rsplit_once (String c d) (a +:+ String c d +:+ b) = Some (x, y) /\
    (String.length a <= String.length x)%nat.
Proof.
  induction a as [|z a IH].
  - change ("" +:+ String c d +:+ b) with (String c (d +:+ b)). cbn [rsplit_once].
    destruct (rsplit_once (String c d) (d +:+ b)) as [[x y]|]; [eexists _, _; split; [done|simpl; lia]|].
    change (String c (d +:+ b)) with (String c d +:+ b).
    rewrite (proj2 (strip_prefix_Some (String c d) _ b) eq_refl). by eexists _, _.
  - destruct IH as (x & y & E & H). change (String z a +:+ String c d +:+ b) with (String z (a +:+ String c d +:+ b)).
    cbn [rsplit_once]. rewrite E. eexists _, _. split; [done|]. simpl. lia.
Qed.

Lemma str_app_cut a b x y :
  a +:+ b = x +:+ y -> (String.length a <= String.length x)%nat -> exists m, x = a +:+ m /\ b = m +:+ y.
Proof.
  revert x. induction a as [|c a IH]; intros x E H.
  - exists x. by split.
  - destruct x as [|c' x]; [simpl in H; lia|].
    change (String c (a +:+ b) = String c' (x +:+ y)) in E. injection E as <- E.
    destruct (IH x E) as (m & -> & ->); [simpl in H; lia|]. by exists m.
Qed.

(** The separator [/w/]. *)
Definition slashed (w : string) : string := String "/" (w +:+ "/").

Lemma occurrences_slashed w : absent "/" w = true -> occurrences "/" (slashed w) = 2%nat.
Proof. intros H. unfold slashed. simpl. rewrite occurrences_app, (occurrences_absent _ _ H). reflexivity. Qed.

(** In [a/w/b], with no separator in [w] nor [b], no other word is found at or after
    [a], and [w] is found right after it. *)
Lemma rsplit_slashed a w b w' x y :
  absent "/" w = true -> absent "/" b = true -> absent "/" w' = true ->
  rsplit_once (slashed w') (a +:+ slashed w +:+ b) = Some (x, y) ->
  (String.length x <= String.length a)%nat /\ (String.length x = String.length a -> w = w' /\ x = a /\ y = b).
Proof.
  intros Hw Hb Hw' E. apply rsplit_once_Some in E.
  destruct (decide (String.length a <= String.length x)%nat) as [Hle|]; [|lia].
  destruct (str_app_cut _ _ _ _ E Hle) as (m & -> & Em).
  destruct m as [|c m].
  - rewrite str_app_nil_r. split; [done|]. intros _.
    change (String "/" ((w +:+ "/") +:+ b) = String "/" ((w' +:+ "/") +:+ y)) in Em. injection Em as Em.
    rewrite !str_app_assoc in Em. change ("/" +:+ b) with (String "/" b) in Em. change ("/" +:+ y) with (String "/" y) in Em.
    by apply separated_inj in Em as [<- <-].
  - exfalso. assert (c = "/"%char) as -> by (by injection Em).
    apply (f_equal (occurrences "/")) in Em. rewrite !occurrences_app, !occurrences_slashed in Em by done.
    rewrite (occurrences_absent _ _ Hb) in Em. simpl in Em. lia.
Qed.

Lemma rsplit_slashed_own a w b : absent "/" w = true -> absent "/" b = true ->
  rsplit_once (slashed w) (a +:+ slashed w +:+ b) = Some (a, b).
Proof.
  intros Hw Hb. destruct (rsplit_once_last "/" (w +:+ "/") a b) as (x & y & E & H). fold (slashed w) in E.
  rewrite E. destruct (rsplit_slashed _ _ _ _ _ _ Hw Hb Hw E) as [? Heq]. destruct Heq as (_ & -> & ->); [lia|done].
Qed.

Lemma rsplit_once_blobs a b : absent "/" b = true -> rsplit_once "/blobs/" (a +:+ "/blobs/" +:+ b) = Some (a, b).
Proof. by apply (rsplit_slashed_own a "blobs"). Qed.

(** ** Two dots in a row *)

Fixpoint dots (s : string) : bool :=
  match s with
  | String "." ((String "." _) as s') => true
  | String _ s' => dots s'
  | EmptyString => false
  end.

Lemma contains_dots s : contains ".." s = dots s.
Proof.
  unfold contains. induction s as [|c s IH]; [done|].
  cbn [split_once strip_prefix]. destruct (Ascii.eqb_spec "." c) as [<-|Hc].
  - destruct s as [|c' s]; [done|]. cbn [strip_prefix]. destruct (Ascii.eqb_spec "." c') as [<-|Hc'].
    + by destruct s.
    + replace (dots (String "." (String c' s))) with (dots (String c' s)).
      2: { cbn. destruct c' as [[] [] [] [] [] [] [] []]; try done; by destruct Hc'. }
      rewrite <- IH. by destruct (split_once ".." (String c' s)) as [[]|].
  - replace (dots (String c s)) with (dots s).
    2: { cbn. destruct c as [[] [] [] [] [] [] [] []]; try done; by destruct Hc. }
    rewrite <- IH. by destruct (split_once ".." s) as [[]|].
Qed.

Lemma dots_app_r a b : dots b = true -> dots (a +:+ b) = true.
Proof.
  intros Hb. induction a as [|c a IH]; [done|]. change (String c a +:+ b) with (String c (a +:+ b)).
  destruct c as [[] [] [] [] [] [] [] []]; cbn [dots]; try done.
  by destruct (a +:+ b) as [|[[] [] [] [] [] [] [] []] ?].
Qed.

Lemma dots_app_slash a b : dots (a +:+ String "/" b) = dots a || dots b.
Proof.
  induction a as [|c a IH]; [done|]. change (String c a +:+ String "/" b) with (String c (a +:+ String "/" b)).
  destruct c as [[] [] [] [] [] [] [] []]; cbn [dots]; try done.
  destruct a as [|c' a]; [done|]. change (String c' a +:+ String "/" b) with (String c' (a +:+ String "/" b)) in *.
  destruct c' as [[] [] [] [] [] [] [] []]; done.
Qed.

(** ** Strings that trimming and splitting leave alone *)

Lemma last_byte_app a b : b <> "" -> last_byte (a +:+ b) = last_byte b.
Proof.
  intros Hb. induction a as [|c a IH]; [done|]. change (String c a +:+ b) with (String c (a +:+ b)).
  cbn [last_byte]. destruct (a +:+ b) eqn:E; [|done]. destruct a; [|done]. by destruct b.
Qed.

Lemma strip_any_None strip s : Forall (fun w => strip w s = None) white_space -> strip_any strip s = None.
Proof.
  unfold strip_any. induction white_space as [|w l IH]; [done|]. intros [Hw Hl]%Forall_cons. simpl. rewrite Hw. by apply IH.
Qed.

Lemma trim_loop_None strip n s : strip_any strip s = None -> trim_loop strip n s = s.
Proof. destruct n; [done|]. simpl. by intros ->. Qed.

(** A string that starts and ends with visible ASCII is its own trimming. *)
Lemma trim_id s c c' :
  first_byte s = Some c -> last_byte s = Some c' -> between 33 126 c = true -> between 33 126 c' = true -> trim s = s.
Proof.
  intros Hf Hl Hc Hc'. unfold trim.
  assert (Forall (fun w => w <> "" /\ is_some_and (first_byte w) (between 33 126) = false /\
                           is_some_and (last_byte w) (between 33 126) = false) white_space) as Hw
    by (vm_compute; repeat constructor; discriminate).
  rewrite (trim_loop_None strip_prefix); [rewrite trim_loop_None; [done|]|]; apply strip_any_None;
    eapply Forall_impl; try exact Hw; intros w (Hne & Hfw & Hlw).
  - destruct (strip_suffix w s) eqn:E; [|done]. apply strip_suffix_Some in E as ->.
    rewrite last_byte_app in Hl by done. rewrite Hl in Hlw. simpl in Hlw. congruence.
  - destruct (strip_prefix w s) eqn:E; [|done]. apply strip_prefix_Some in E as ->.
    destruct w as [|x w]; [done|]. simpl in Hf. injection Hf as ->. simpl in Hfw. congruence.
Qed.

Lemma split_char_absent c s : absent c s = true -> split_char c s = [s].
Proof.
  induction s as [|x s IH]; [done|]. unfold absent. simpl. intros [Hx Hs]%andb_true_iff.
  apply negb_true_iff in Hx. by rewrite Hx, (IH Hs).
Qed.

Lemma trim_end_by_keep p s t : all_bytes (fun c => negb (p c)) s = true -> all_bytes p t = true -> trim_end_by p (s +:+ t) = s.
Proof.
  intros Hs Ht. induction s as [|c s IH].
  - change ("" +:+ t) with t. induction t as [|c t IH]; [done|]. simpl in *. apply andb_true_iff in Ht as [Hc Ht].
    by rewrite (IH Ht), Hc.
  - change (String c s +:+ t) with (String c (s +:+ t)). simpl in *. apply andb_true_iff in Hs as [Hc Hs].
    apply negb_true_iff in Hc. rewrite (IH Hs), Hc. by destruct s.
Qed.

Lemma trim_start_by_keep p s t : all_bytes (fun c => negb (p c)) s = true -> s <> "" -> trim_start_by p (s +:+ t) = s +:+ t.
Proof.
  destruct s as [|c s]; [done|]. simpl. intros [Hc _]%andb_true_iff _. apply negb_true_iff in Hc. by rewrite Hc.
Qed.

(** [chars().count()] of valid UTF-8: the bytes that do not continue a character. *)
Fixpoint char_count (s : string) : Z :=
  match s with
  | EmptyString => 0
  | String c s => (if between 128 191 c then 0 else 1) + char_count s
  end.

(** ** Decimal numbers *)

Lemma all_bytes_pretty_N p (x : N) : all_bytes p "0123456789" = true -> all_bytes p (pretty x) = true.
Proof.
  intros Hp. assert (forall s, all_bytes p s = true -> all_bytes p (pretty_N_go x s) = true) as H.
  { induction (N.lt_wf_0 x) as [x _ IH]. intros s Hs.
    destruct (decide (x = 0%N)) as [->|Hx]; [by rewrite pretty_N_go_0|].
    rewrite pretty_N_go_step by lia. apply IH; [apply N.div_lt; lia|].
    cbn [all_bytes] in Hp |- *. rewrite Hs, andb_true_r. repeat (apply andb_true_iff in Hp as [? Hp]).
    assert (x `mod` 10 < 10)%N as Hm by (apply N.mod_lt; lia).
    generalize dependent (x `mod` 10)%N. intros d Hd.
    destruct d as [|q]; [done|]. do 4 (destruct q as [q|q|]; try done). }
  unfold pretty, pretty_N. case_decide; [by simpl in *; destruct (p "0"%char)|]. by apply H.
Qed.

Lemma all_bytes_pretty_Z p (z : Z) : all_bytes p "-0123456789" = true -> all_bytes p (pretty z) = true.
Proof.
  cbn [all_bytes]. intros [Hm Hp]%andb_true_iff. assert (all_bytes p "0123456789" = true) as Hd by done.
  destruct z as [|q|q].
  - by apply (all_bytes_pretty_N p 0).
  - by apply (all_bytes_pretty_N p (Npos q)).
  - change (pretty (Z.neg q)) with (String "-" (pretty (Npos q))). cbn [all_bytes]. rewrite Hm. by apply all_bytes_pretty_N.
Qed.
