(* ===== verification/Errors.v ===== *)
(** * Application errors

    [AppError] of src/src/error.rs, its HTTP status and stable code, the
    mapping of constraint violations and the JSON error response. *)

From stdpp Require Import base gmap sets list strings.
From Stdlib Require Import ZArith Lia.
From S2P Require Import Prelude Text.

(** What the code observes of [sea_orm::DbErr]: [sql_err()] classifies a
    constraint violation; an execution or query error carries the SQLite
    extended result code and message. *)
Inductive DbErr : Type :=
| DbUniqueConstraint (message : string)
| DbForeignKeyConstraint (message : string)
| DbSqlite (sqlite_code : option string) (message : string)
| DbOther (message : string).

Inductive AppError : Type :=
| BadRequest (message : string)
| Unauthorized
| Forbidden
| RateLimited
| NotFound (resource : string)
| Conflict (message : string)
| Unavailable (message : string)
| Upstream (message : string)
| Integrity
| Database (error : DbErr)
| Io (kind : string)
| Internal (detail : string).

#[export] Instance DbErr_eq_dec : EqDecision DbErr.
Proof. solve_decision. Defined.
#[export] Instance AppError_eq_dec : EqDecision AppError.
Proof. solve_decision. Defined.

Abbreviation ApiResult A := (result A AppError).

Definition is_sqlite_foreign_key_trigger (error : DbErr) : bool :=
  match error with
  | DbSqlite c m => is_some_and c (fun c => c =?s "1811") && (m =?s "FOREIGN KEY constraint failed")
  | _ => false
  end.

Definition map_constraint (error : DbErr) (unique_message foreign_key_message : string) : AppError :=
  match error with
  | DbUniqueConstraint _ => Conflict unique_message
  | DbForeignKeyConstraint _ => Conflict foreign_key_message
  | _ => if is_sqlite_foreign_key_trigger error then Conflict foreign_key_message
         else Database error
  end.

Definition status (e : AppError) : Z :=
  match e with
  | BadRequest _ => 400
  | Unauthorized => 401
  | Forbidden => 403
  | RateLimited => 429
  | NotFound _ => 404
  | Conflict _ => 409
  | Unavailable _ => 503
  | Upstream _ => 502
  | Integrity => 502
  | Database _ | Io _ | Internal _ => 500
  end.

Definition error_code (e : AppError) : string :=
  match e with
  | BadRequest _ => "bad_request"
  | Unauthorized => "unauthorized"
  | Forbidden => "forbidden"
  | RateLimited => "rate_limited"
  | NotFound _ => "not_found"
  | Conflict _ => "conflict"
  | Unavailable _ => "unavailable"
  | Upstream _ => "upstream_error"
  | Integrity => "integrity_error"
  | Database _ | Io _ | Internal _ => "internal_error"
  end.

(** [Display], as derived by [thiserror]. *)
Definition display (e : AppError) : string :=
  match e with
  | BadRequest m | Conflict m | Unavailable m => m
  | Unauthorized => "authentication required"
  | Forbidden => "access denied"
  | RateLimited => "too many authentication attempts; try again later"
  | NotFound r => r +:+ " not found"
  | Upstream m => "upstream request failed: " +:+ m
  | Integrity => "content integrity check failed"
  | Database _ => "database operation failed"
  | Io _ => "I/O operation failed"
  | Internal _ => "internal error"
  end.

Record ErrorResponse := {
  resp_status : Z;
  resp_code : string;
  resp_message : string
}.

(** [IntoResponse for AppError] (the log line apart). *)
Definition into_response (e : AppError) : ErrorResponse :=
  {| resp_status := status e;
     resp_code := error_code e;
     resp_message :=
       if status e =? 500 then "The request could not be completed" else display e |}.

Definition is_integrity (e : AppError) : bool :=
  match e with Integrity => true | _ => false end.
