(* ===== verification/Budget.v ===== *)
(** * Request and memory budgets

    src/src/resource_budget.rs: the per-node concurrency counters with the
    process-wide request and probe semaphores, and the two-level byte budget of
    the streaming relay.  Semaphores are their available permits; a lease value
    that is alive is an element of a list of the system state, and dropping it
    is a step. *)

From stdpp Require Import base gmap sets list strings.
From Stdlib Require Import ZArith Lia.
From S2P Require Import Prelude Errors.

Definition MAX_NETWORK_REQUESTS : Z := 64.
Definition MAX_PROBES : Z := 8.
Definition STREAM_MEMORY_BYTES : Z := 64 * 1024 * 1024.
Definition GLOBAL_STREAM_MEMORY_BYTES : Z := 256 * 1024 * 1024.

(** ** Node capacity *)

Module Capacity.

(** [NodeCapacity]; [changed] only wakes waiters. *)
Record NodeCapacity := {
  active : gmap Uuid Z;
  requests : Z;
  probes : Z
}.

(** [NodeCapacity::default]. *)
Definition initial : NodeCapacity :=
  {| active := ∅; requests := MAX_NETWORK_REQUESTS; probes := MAX_PROBES |}.

(** [NodeCapacity::active]. *)
Definition active_of (c : NodeCapacity) (node_id : Uuid) : Z := unwrap_or (active c !! node_id) 0.

(** [try_acquire]: a failed attempt gives its request permit back and leaves the
    [or_insert(0)] entry behind. *)
Definition try_acquire (c : NodeCapacity) (node_id : Uuid) (max : Z) : option Uuid * NodeCapacity :=
  if requests c =? 0 then (None, c)
  else
    let current := unwrap_or (active c !! node_id) 0 in
    if max <=? current
    then (None, {| active := <[node_id := current]> (active c);
                   requests := requests c; probes := probes c |})
    else (Some node_id,
          {| active := <[node_id := current + 1]> (active c);
             requests := requests c - 1; probes := probes c |}).

(** [Drop for NodeLease]. *)
Definition drop_lease (c : NodeCapacity) (node_id : Uuid) : NodeCapacity :=
  {| active := match active c !! node_id with
               | Some n => <[node_id := saturating_sub n 1]> (active c)
               | None => active c
               end;
     requests := requests c + 1;
     probes := probes c |}.

(** One iteration of [acquire]'s loop: refuse a disabled node, otherwise
    complete if [try_acquire] does and keep waiting ([None]) if not. *)
Definition acquire_poll (c : NodeCapacity) (node_id : Uuid) (max : Z)
  : option (ApiResult Uuid) * NodeCapacity :=
  if max =? 0 then (Some (Err (Unavailable "node request capacity is disabled")), c)
  else match try_acquire c node_id max with
       | (Some lease, c') => (Some (Ok lease), c')
       | (None, c') => (None, c')
       end.

(** The system: the counters, the live [NodeLease]s, the probes that hold their
    probe permit while waiting for a node, and the live [ProbeLease]s. *)
Record system := {
  cap : NodeCapacity;
  leases : list Uuid;
  pending_probes : Z;
  probe_leases : list Uuid
}.

Definition init_system : system :=
  {| cap := initial; leases := []; pending_probes := 0; probe_leases := [] |}.

Definition live (s : system) : list Uuid := leases s ++ probe_leases s.
Definition count (n : Uuid) (l : list Uuid) : Z := Z.of_nat (count_occ N.eq_dec l n).

Lemma count_cons n m l : count n (m :: l) = count n l + (if decide (m = n) then 1 else 0).
Proof. unfold count. simpl. destruct (N.eq_dec m n); case_decide; simplify_eq; lia. Qed.

Lemma count_nonneg n l : 0 <= count n l.
Proof. unfold count. lia. Qed.

Lemma count_perm n l l' : l ≡ₚ l' -> count n l = count n l'.
Proof. intros H. unfold count. by rewrite (proj1 (Permutation_count_occ N.eq_dec l l') H n). Qed.

Lemma try_acquire_Some c n m r c' :
  try_acquire c n m = (Some r, c') <->
  requests c <> 0 /\ active_of c n < m /\ r = n /\
  c' = {| active := <[n := active_of c n + 1]> (active c);
          requests := requests c - 1; probes := probes c |}.
Proof.
  unfold try_acquire, active_of.
  destruct (Z.eqb_spec (requests c) 0); [naive_solver|].
  destruct (Z.leb_spec m (unwrap_or (active c !! n) 0)); [naive_solver lia|].
  split; [intros; simplify_eq; auto|]. intros (_ & _ & -> & ->). done.
Qed.

Lemma acquire_poll_Ok c n m r c' :
  acquire_poll c n m = (Some (Ok r), c') -> try_acquire c n m = (Some r, c').
Proof.
  unfold acquire_poll. destruct (m =? 0); [done|].
  destruct (try_acquire c n m) as [[l|] c1]; intros; simplify_eq. done.
Qed.

Lemma acquire_poll_wait c n m c' :
  acquire_poll c n m = (None, c') ->
  requests c' = requests c /\ probes c' = probes c /\ forall k, active_of c' k = active_of c k.
Proof.
  unfold acquire_poll, try_acquire, active_of. destruct (m =? 0); [done|].
  destruct (requests c =? 0); [by intros; simplify_eq|].
  destruct (m <=? _); intros; simplify_eq/=. repeat split.
  intros k. rewrite lookup_insert. case_decide; by subst.
Qed.

Lemma drop_lease_active c n k :
  0 < active_of c n ->
  active_of (drop_lease c n) k = active_of c k - (if decide (n = k) then 1 else 0).
Proof.
  unfold drop_lease, active_of, saturating_sub. simpl.
  destruct (active c !! n) as [v|] eqn:E; simpl; [|lia]. intros.
  rewrite lookup_insert. case_decide; simplify_eq; [rewrite E; simpl; lia|lia].
Qed.

Section Steps.
(** The configured [max_concurrency] of each node. *)
Variable limit : Uuid -> Z.

Inductive step : system -> system -> Prop :=
| step_acquire s n r c :
    acquire_poll (cap s) n (limit n) = (Some (Ok r), c) ->
    step s {| cap := c; leases := r :: leases s;
              pending_probes := pending_probes s; probe_leases := probe_leases s |}
| step_wait s n c :
    acquire_poll (cap s) n (limit n) = (None, c) ->
    step s {| cap := c; leases := leases s;
              pending_probes := pending_probes s; probe_leases := probe_leases s |}
| step_drop s i n :
    leases s !! i = Some n ->
    step s {| cap := drop_lease (cap s) n; leases := delete i (leases s);
              pending_probes := pending_probes s; probe_leases := probe_leases s |}
| step_probe_begin s :
    0 < probes (cap s) ->
    step s {| cap := {| active := active (cap s); requests := requests (cap s);
                        probes := probes (cap s) - 1 |};
              leases := leases s; pending_probes := pending_probes s + 1;
              probe_leases := probe_leases s |}
| step_probe_acquire s n r c :
    0 < pending_probes s ->
    acquire_poll (cap s) n (limit n) = (Some (Ok r), c) ->
    step s {| cap := c; leases := leases s;
              pending_probes := pending_probes s - 1; probe_leases := r :: probe_leases s |}
| step_probe_abandon s :
    0 < pending_probes s ->
    step s {| cap := {| active := active (cap s); requests := requests (cap s);
                        probes := probes (cap s) + 1 |};
              leases := leases s; pending_probes := pending_probes s - 1;
              probe_leases := probe_leases s |}
| step_probe_drop s i n :
    probe_leases s !! i = Some n ->
    step s {| cap := let c := drop_lease (cap s) n in
                     {| active := active c; requests := requests c; probes := probes c + 1 |};
              leases := leases s; pending_probes := pending_probes s;
              probe_leases := delete i (probe_leases s) |}.

Inductive reachable : system -> Prop :=
| reach_init : reachable init_system
| reach_step s s' : reachable s -> step s s' -> reachable s'.

Record wf (s : system) : Prop := {
  wf_active : forall n, active_of (cap s) n = count n (live s);
  wf_limit : forall n, count n (live s) <= Z.max 0 (limit n);
  wf_requests : requests (cap s) + Z.of_nat (length (live s)) = MAX_NETWORK_REQUESTS;
  wf_requests_pos : 0 <= requests (cap s);
  wf_probes : probes (cap s) + pending_probes s + Z.of_nat (length (probe_leases s)) = MAX_PROBES;
  wf_probes_pos : 0 <= probes (cap s) /\ 0 <= pending_probes s
}.

(** Taking a slot for [r] re-establishes the invariant for any list of live
    leases that is the old one with [r] added. *)
Lemma wf_after_acquire s n r c s' :
  wf s -> acquire_poll (cap s) n (limit n) = (Some (Ok r), c) ->
  cap s' = c -> live s' ≡ₚ r :: live s ->
  pending_probes s' + Z.of_nat (length (probe_leases s'))
    = pending_probes s + Z.of_nat (length (probe_leases s)) ->
  0 <= pending_probes s' -> wf s'.
Proof.
  intros [Ha Hl Hr Hrp Hp Hpp] H%acquire_poll_Ok%try_acquire_Some Hc Hlive Hprobe Hpos.
  destruct H as (Hne & Hlt & -> & ->). rewrite (Ha n) in Hlt.
  split.
  - intros k. rewrite (count_perm _ _ _ Hlive), count_cons, Hc. unfold active_of. simpl.
    rewrite lookup_insert. fold (active_of (cap s) n) (active_of (cap s) k). rewrite <- !Ha.
    case_decide; simplify_eq/=; unfold active_of; simpl; lia.
  - intros k. rewrite (count_perm _ _ _ Hlive), count_cons. specialize (Hl k).
    case_decide; simplify_eq; lia.
  - rewrite Hlive, Hc. simpl. lia.
  - rewrite Hc. simpl. lia.
  - rewrite Hc. simpl. lia.
  - rewrite Hc. simpl. lia.
Qed.

(** Dropping a live lease of [n] re-establishes it too. *)
Lemma wf_after_drop s n s' dp :
  wf s -> live s ≡ₚ n :: live s' ->
  active (cap s') = active (drop_lease (cap s) n) ->
  requests (cap s') = requests (cap s) + 1 ->
  probes (cap s') = probes (cap s) + dp -> 0 <= dp ->
  pending_probes s' = pending_probes s ->
  Z.of_nat (length (probe_leases s')) + dp = Z.of_nat (length (probe_leases s)) ->
  wf s'.
Proof.
  intros [Ha Hl Hr Hrp Hp Hpp] Hlive Hact Hreq Hpr Hdp Hpend Hlen.
  assert (0 < active_of (cap s) n) as Hpos.
  { rewrite Ha, (count_perm _ _ _ Hlive), count_cons. pose proof (count_nonneg n (live s')).
    case_decide; simplify_eq; lia. }
  split.
  - intros k. unfold active_of. rewrite Hact. fold (active_of (drop_lease (cap s) n) k).
    rewrite drop_lease_active, Ha by done. rewrite (count_perm _ _ _ Hlive), count_cons. lia.
  - intros k. specialize (Hl k). rewrite (count_perm _ _ _ Hlive), count_cons in Hl.
    case_decide; lia.
  - rewrite Hlive in Hr. simpl in Hr. lia.
  - lia.
  - lia.
  - lia.
Qed.

Lemma wf_init : wf init_system.
Proof. split; unfold count, init_system, initial, active_of; simpl; intros; try lia; try rewrite lookup_empty; done || lia. Qed.

Lemma wf_step s s' : wf s -> step s s' -> wf s'.
Proof.
  intros W H. pose proof W as [Ha Hl Hr Hrp Hp Hpp]. destruct H.
  - eapply wf_after_acquire; eauto; simpl; lia.
  - apply acquire_poll_wait in H as (Hq & Hpb & Hact).
    split; simpl; rewrite ?Hq, ?Hpb; auto. intros k. by rewrite Hact.
  - eapply (wf_after_drop _ n _ 0); eauto; simpl; try lia.
    unfold live. simpl. by rewrite (delete_Permutation _ _ _ H) at 1.
  - split; simpl; auto; lia.
  - eapply wf_after_acquire; eauto; unfold live; simpl; try lia. by rewrite Permutation_middle.
  - split; simpl; auto; lia.
  - eapply (wf_after_drop _ n _ 1); eauto; simpl; try lia.
    + unfold live. simpl. rewrite (delete_Permutation _ _ _ H) at 1. by rewrite Permutation_middle.
    + pose proof (lookup_lt_Some _ _ _ H). rewrite length_delete; [lia|done].
Qed.

Lemma reachable_wf s : reachable s -> wf s.
Proof. induction 1; eauto using wf_init, wf_step. Qed.
End Steps.

(** Whatever the interleaving of acquisitions, probes, waits and drops, at most 64
    requests and 8 probes are in flight, no node exceeds its own limit, and a node's
    counter is exactly the number of its live leases (no slot leaks). *)
Theorem capacity_never_exceeded limit s :
  reachable limit s ->
  Z.of_nat (length (live s)) <= MAX_NETWORK_REQUESTS /\
  Z.of_nat (length (probe_leases s)) + pending_probes s <= MAX_PROBES /\
  forall n, active_of (cap s) n = count n (live s) /\ count n (live s) <= Z.max 0 (limit n).
Proof. intros [Ha Hl Hr Hrp Hp Hpp]%reachable_wf. repeat split; auto; lia. Qed.

(** In every reachable state, an acquisition of an enabled node completes exactly
    when the node is below its limit and fewer than 64 requests are in flight; it
    then counts against that node only. *)
Theorem acquire_completes_iff limit s n :
  reachable limit s -> 0 < limit n ->
  (is_some (fst (acquire_poll (cap s) n (limit n))) = true <->
   count n (live s) < limit n /\ Z.of_nat (length (live s)) < MAX_NETWORK_REQUESTS).
Proof.
  intros [Ha Hl Hr Hrp Hp Hpp]%reachable_wf Hpos. unfold acquire_poll.
  destruct (Z.eqb_spec (limit n) 0); [lia|].
  destruct (try_acquire (cap s) n (limit n)) as [[r|] c] eqn:E.
  - apply try_acquire_Some in E as (? & ? & ? & ?). rewrite Ha in *. simpl. split; [lia|done].
  - simpl. split; [done|]. intros [? ?]. exfalso.
    assert (try_acquire (cap s) n (limit n) =
      (Some n, {| active := <[n := active_of (cap s) n + 1]> (active (cap s));
                  requests := requests (cap s) - 1; probes := probes (cap s) |})) as E'.
    { apply try_acquire_Some. rewrite Ha. repeat split; lia. }
    congruence.
Qed.

Definition one_lease : system :=
  {| cap := {| active := {[7%N := 1]}; requests := 63; probes := 8 |};
     leases := [7%N]; pending_probes := 0; probe_leases := [] |}.

Lemma one_lease_reachable : reachable (fun _ => 2) one_lease.
Proof. eapply reach_step; [apply reach_init|]. by apply (step_acquire _ init_system 7 7). Qed.

Lemma capacity_never_exceeded_witness :
  Z.of_nat (length (live one_lease)) <= MAX_NETWORK_REQUESTS /\
  Z.of_nat (length (probe_leases one_lease)) + pending_probes one_lease <= MAX_PROBES /\
  forall n, active_of (cap one_lease) n = count n (live one_lease) /\ count n (live one_lease) <= Z.max 0 2.
Proof. apply (capacity_never_exceeded (fun _ => 2)). apply one_lease_reachable. Defined.

Lemma acquire_completes_iff_witness :
  is_some (fst (acquire_poll (cap one_lease) 7 2)) = true <->
  count 7 (live one_lease) < 2 /\ Z.of_nat (length (live one_lease)) < MAX_NETWORK_REQUESTS.
Proof. apply (acquire_completes_iff (fun _ => 2)); [apply one_lease_reachable|lia]. Defined.

End Capacity.

(** ** Stream memory *)

Module Memory.

(** The request check at the head of [StreamMemoryBudget::acquire]. *)
Definition acquire_check (bytes : Z) : ApiResult Z :=
  if (bytes <=? u32_max) && (bytes <=? STREAM_MEMORY_BYTES) then Ok bytes
  else Err (Upstream "stream chunk exceeds its memory budget").

(** A [MemoryLease]: the budget its local permits come from, its bytes and the
    number of clones of its [Arc<MemoryPermits>]. *)
Record lease := { owner : N; bytes : Z; refs : nat }.

(** The shared semaphore, the local semaphore of each stream, the acquisitions
    that hold their local permits and wait for global ones, the live leases. *)
Record system := {
  global : Z;
  local : gmap N Z;
  waiting : list (N * Z);
  granted : list lease
}.

Definition init_system : system :=
  {| global := GLOBAL_STREAM_MEMORY_BYTES; local := ∅; waiting := []; granted := [] |}.

Definition give_local (b : N) (n : Z) (m : gmap N Z) : gmap N Z := alter (Z.add n) b m.

Inductive step : system -> system -> Prop :=
| step_new s b :
    local s !! b = None ->
    step s {| global := global s; local := <[b := STREAM_MEMORY_BYTES]> (local s);
              waiting := waiting s; granted := granted s |}
| step_local s b requested n avail :
    0 <= requested -> acquire_check requested = Ok n ->
    local s !! b = Some avail -> n <= avail ->
    step s {| global := global s; local := <[b := avail - n]> (local s);
              waiting := (b, n) :: waiting s; granted := granted s |}
| step_global s i b n :
    waiting s !! i = Some (b, n) -> n <= global s ->
    step s {| global := global s - n; local := local s; waiting := delete i (waiting s);
              granted := {| owner := b; bytes := n; refs := 1 |} :: granted s |}
| step_cancel s i b n :
    waiting s !! i = Some (b, n) ->
    step s {| global := global s; local := give_local b n (local s);
              waiting := delete i (waiting s); granted := granted s |}
| step_clone s j l :
    granted s !! j = Some l ->
    step s {| global := global s; local := local s; waiting := waiting s;
              granted := {| owner := owner l; bytes := bytes l; refs := S (refs l) |}
                         :: delete j (granted s) |}
| step_drop_shared s j l k :
    granted s !! j = Some l -> refs l = S (S k) ->
    step s {| global := global s; local := local s; waiting := waiting s;
              granted := {| owner := owner l; bytes := bytes l; refs := S k |}
                         :: delete j (granted s) |}
| step_drop_last s j l :
    granted s !! j = Some l -> refs l = 1%nat ->
    step s {| global := global s + bytes l; local := give_local (owner l) (bytes l) (local s);
              waiting := waiting s; granted := delete j (granted s) |}.

Inductive reachable : system -> Prop :=
| reach_init : reachable init_system
| reach_step s s' : reachable s -> step s s' -> reachable s'.

Definition sum_bytes (l : list (N * Z)) : Z := foldr (fun p t => snd p + t) 0 l.
Definition held (l : list lease) : list (N * Z) := (fun x => (owner x, bytes x)) <$> l.
Definition of_budget (b : N) (l : list (N * Z)) : list (N * Z) :=
  List.filter (fun p => bool_decide (fst p = b)) l.

Lemma sum_bytes_perm l l' : l ≡ₚ l' -> sum_bytes l = sum_bytes l'.
Proof. induction 1; simpl; lia. Qed.

Lemma of_budget_perm b l l' : l ≡ₚ l' -> of_budget b l ≡ₚ of_budget b l'.
Proof.
  induction 1 as [|x l l' H IH|x y l|l l' l'' H1 IH1 H2 IH2]; simpl; try done.
  - case_bool_decide; by rewrite ?IH.
  - do 2 case_bool_decide; try done. apply perm_swap.
  - by rewrite IH1.
Qed.

Lemma of_budget_app b l l' : of_budget b (l ++ l') = of_budget b l ++ of_budget b l'.
Proof. unfold of_budget. induction l as [|x l IH]; simpl; [done|]. case_bool_decide; simpl; by rewrite IH. Qed.

Lemma sum_bytes_app l l' : sum_bytes (l ++ l') = sum_bytes l + sum_bytes l'.
Proof. induction l as [|x l IH]; simpl; lia. Qed.

(** The bytes charged to budget [b]: granted or waiting for global permits. *)
Definition charged (s : system) (b : N) : Z := sum_bytes (of_budget b (waiting s ++ held (granted s))).

Record wf (s : system) : Prop := {
  wf_global : global s + sum_bytes (held (granted s)) = GLOBAL_STREAM_MEMORY_BYTES;
  wf_global_pos : 0 <= global s;
  wf_local : forall b avail, local s !! b = Some avail ->
    0 <= avail /\ avail + charged s b = STREAM_MEMORY_BYTES;
  wf_unknown : forall b, local s !! b = None -> of_budget b (waiting s ++ held (granted s)) = []
}.

Lemma acquire_check_Ok requested n :
  acquire_check requested = Ok n -> n = requested /\ requested <= STREAM_MEMORY_BYTES.
Proof. unfold acquire_check. destruct (_ && _) eqn:E; [|done]. intros [= <-]. bool_hyps. lia. Qed.

(** Steps that only move or re-count an entry keep every budget's charge. *)
Lemma wf_transfer s s' :
  wf s -> local s' = local s -> waiting s' ++ held (granted s') ≡ₚ waiting s ++ held (granted s) ->
  global s' + sum_bytes (held (granted s')) = GLOBAL_STREAM_MEMORY_BYTES -> 0 <= global s' -> wf s'.
Proof.
  intros [Hg Hgp Hl Hu] Hloc Hperm Hg' Hgp'. split; auto.
  - intros b avail Hb. rewrite Hloc in Hb. unfold charged.
    rewrite (sum_bytes_perm _ _ (of_budget_perm b _ _ Hperm)). by apply Hl.
  - intros b Hb. rewrite Hloc in Hb. apply Permutation_nil. symmetry.
    rewrite (of_budget_perm b _ _ Hperm). by rewrite Hu.
Qed.

(** Steps that return the bytes of one entry to its budget. *)
Lemma wf_give s s' b n :
  wf s -> local s' = give_local b n (local s) -> 0 <= n ->
  waiting s ++ held (granted s) ≡ₚ (b, n) :: (waiting s' ++ held (granted s')) ->
  global s' + sum_bytes (held (granted s')) = GLOBAL_STREAM_MEMORY_BYTES -> 0 <= global s' -> wf s'.
Proof.
  intros [Hg Hgp Hl Hu] Hloc Hn Hperm Hg' Hgp'.
  assert (forall b', charged s b' = charged s' b' + if decide (b = b') then n else 0) as Hch.
  { intros b'. unfold charged. rewrite (sum_bytes_perm _ _ (of_budget_perm b' _ _ Hperm)). simpl.
    case_bool_decide; case_decide; simpl; try congruence; lia. }
  split; auto.
  - intros b' avail'. rewrite Hloc. unfold give_local. rewrite lookup_alter.
    specialize (Hch b'). case_decide; simplify_eq.
    + destruct (local s !! b') as [a|] eqn:E; [|done]. intros [= <-].
      destruct (Hl b' a E). lia.
    + intros Hb. destruct (Hl b' avail' Hb). lia.
  - intros b'. rewrite Hloc. unfold give_local. rewrite lookup_alter. intros Hb.
    assert (local s !! b' = None) as Hnone.
    { case_decide; simplify_eq; [|done]. by destruct (local s !! b'). }
    pose proof (of_budget_perm b' _ _ Hperm) as Hp. rewrite (Hu b' Hnone) in Hp.
    apply Permutation_nil in Hp. simpl in Hp. by case_bool_decide.
Qed.

Record wf_sizes (s : system) : Prop := {
  ws_waiting : Forall (fun p => 0 <= snd p) (waiting s);
  ws_granted : Forall (fun l => 0 <= bytes l) (granted s)
}.

Lemma wf_sizes_step s s' : wf_sizes s -> step s s' -> wf_sizes s'.
Proof.
  intros [Hw Hg] H.
  assert (forall i p, waiting s !! i = Some p -> 0 <= snd p) as Hw' by (intros; by eapply Forall_lookup_1 in Hw).
  assert (forall i l, granted s !! i = Some l -> 0 <= bytes l) as Hg' by (intros; by eapply Forall_lookup_1 in Hg).
  destruct H; split; simpl; auto; try apply Forall_delete; auto.
  - apply acquire_check_Ok in H0 as [-> ?]. constructor; auto.
  - constructor; [exact (Hw' _ _ H)|done].
  - constructor; [exact (Hg' _ _ H)|by apply Forall_delete].
  - constructor; [exact (Hg' _ _ H)|by apply Forall_delete].
Qed.

Lemma held_delete l j x : l !! j = Some x -> held l ≡ₚ (owner x, bytes x) :: held (delete j l).
Proof. intros H. unfold held. by rewrite (delete_Permutation _ _ _ H) at 1. Qed.

Lemma mem_wf_step s s' : wf s -> wf_sizes s -> step s s' -> wf s'.
Proof.
  intros W [Hw Hgr] H. pose proof W as [Hg Hgp Hl Hu]. destruct H.
  - split; auto; simpl; intros b'; rewrite lookup_insert; case_decide; simplify_eq; auto.
    + intros avail [= <-]. unfold charged. simpl. rewrite Hu by done. simpl.
      unfold STREAM_MEMORY_BYTES. lia.
    + intros avail. apply Hl.
  - apply acquire_check_Ok in H0 as [-> Hle]. split; auto; simpl.
    + intros b' avail'. rewrite lookup_insert. unfold charged. simpl.
      case_decide; case_bool_decide; simplify_eq; simpl.
      * intros [= <-]. destruct (Hl _ _ H1). unfold charged in *. lia.
      * intros Hb. destruct (Hl _ _ Hb). unfold charged in *. lia.
    + intros b'. rewrite lookup_insert. case_decide; [done|]. intros Hb.
      case_bool_decide; [done|]. by apply Hu.
  - eapply wf_transfer; eauto; simpl; [|lia..].
    rewrite (delete_Permutation _ _ _ H) at 2. simpl. by rewrite <- Permutation_middle.
  - eapply (wf_give _ _ b n); eauto; simpl.
    + eapply Forall_lookup_1 in Hw; eauto. done.
    + by rewrite (delete_Permutation _ _ _ H) at 1.
  - eapply wf_transfer; eauto; simpl.
    + by rewrite (held_delete _ _ _ H).
    + rewrite <- Hg. f_equal. by rewrite (sum_bytes_perm _ _ (held_delete _ _ _ H)).
  - eapply wf_transfer; eauto; simpl.
    + by rewrite (held_delete _ _ _ H).
    + rewrite <- Hg. f_equal. by rewrite (sum_bytes_perm _ _ (held_delete _ _ _ H)).
  - pose proof (Forall_lookup_1 _ _ _ _ Hgr H) as Hb. simpl in Hb.
    pose proof (sum_bytes_perm _ _ (held_delete _ _ _ H)) as Hs. simpl in Hs.
    eapply (wf_give _ _ (owner l) (bytes l)); eauto; simpl; [|lia..].
    rewrite (held_delete _ _ _ H) at 1. by rewrite Permutation_middle.
Qed.

Lemma mem_reachable_wf s : reachable s -> wf s /\ wf_sizes s.
Proof.
  induction 1 as [|s s' _ [IH IH'] Hs]; [|eauto using mem_wf_step, wf_sizes_step].
  split; [split|split]; simpl; try done; unfold GLOBAL_STREAM_MEMORY_BYTES; lia.
Qed.

Lemma sum_bytes_nonneg l : Forall (fun p => 0 <= snd p) l -> 0 <= sum_bytes l.
Proof. induction 1; simpl; lia. Qed.

(** However acquisitions, timeouts, clones and drops interleave, the buffers of one
    stream hold at most 64 MiB, those of all streams at most 256 MiB, and every
    permit is either available or held by exactly one waiter or live lease. *)
Theorem stream_memory_bounded s :
  reachable s ->
  sum_bytes (held (granted s)) <= GLOBAL_STREAM_MEMORY_BYTES /\
  global s + sum_bytes (held (granted s)) = GLOBAL_STREAM_MEMORY_BYTES /\
  forall b avail, local s !! b = Some avail ->
    charged s b <= STREAM_MEMORY_BYTES /\ avail + charged s b = STREAM_MEMORY_BYTES.
Proof.
  intros [[Hg Hgp Hl Hu] _]%mem_reachable_wf. repeat split; auto; try lia.
  - intros. destruct (Hl _ _ H). lia.
  - intros. by destruct (Hl _ _ H).
Qed.

Lemma stream_memory_bounded_witness :
  let s := {| global := GLOBAL_STREAM_MEMORY_BYTES; local := {[1%N := STREAM_MEMORY_BYTES - 5]};
              waiting := [(1%N, 5)]; granted := [] |} in
  sum_bytes (held (granted s)) <= GLOBAL_STREAM_MEMORY_BYTES /\
  global s + sum_bytes (held (granted s)) = GLOBAL_STREAM_MEMORY_BYTES /\
  forall b avail, local s !! b = Some avail ->
    charged s b <= STREAM_MEMORY_BYTES /\ avail + charged s b = STREAM_MEMORY_BYTES.
Proof.
  apply stream_memory_bounded.
  eapply reach_step; [eapply reach_step; [apply reach_init|apply (step_new init_system 1); reflexivity]|].
  refine (step_local _ 1 5 5 STREAM_MEMORY_BYTES _ _ _ _); try reflexivity; try done.
Defined.

End Memory.
