(* ===== verification/Planner.v ===== *)
(** * Blob download planning

    src/src/blob_planner.rs: the pure planner that turns blob metadata and node
    observations into a download strategy. *)

From stdpp Require Import base gmap sets list strings.
From Stdlib Require Import ZArith Lia SpecFloat.
From S2P Require Import Prelude F64 Text.

Module Planner.

Record BlobMeta := {
  digest : string;
  size : Z;
  media_type : string
}.

Record NodeSnapshot := {
  url : string;
  supports_range : bool;
  max_concurrency : Z;
  throughput_bps : option Z;
  latency_ms : option Z;
  success_rate : f64;
  cooling : bool
}.

Inductive DownloadStrategy :=
| CacheHit
| SingleRequest (node_url : string)
| MultiSourceChunked (chunk_size num_chunks recommended_concurrency : Z).

Record BlobDownloadPlan := { strategy : DownloadStrategy }.

Record PlannerConfig := {
  small_blob_threshold : Z;
  min_chunk_size : Z;
  max_chunk_size : Z;
  min_parallel_benefit : f64;
  max_concurrent_chunks : Z;
  allow_unmeasured_parallel : bool
}.

Definition MIB : Z := 1024 * 1024.

(** [PlannerConfig::default]. *)
Definition default_config : PlannerConfig := {|
  small_blob_threshold := 8 * MIB;
  min_chunk_size := 2 * MIB;
  max_chunk_size := 8 * MIB;
  min_parallel_benefit := f64_ratio 12 10;
  max_concurrent_chunks := 16;
  allow_unmeasured_parallel := false
|}.

Inductive PlannerError := NoUsableNodes | InvalidConfiguration.

Definition single_plan (node : NodeSnapshot) : BlobDownloadPlan :=
  {| strategy := SingleRequest (url node) |}.

Definition estimated_time_ms (sz : Z) (node : NodeSnapshot) : f64 :=
  let throughput := f64_of_Z (Z.max (unwrap_or (throughput_bps node) (10 * 1024 * 1024)) 1) in
  let latency := f64_of_Z (unwrap_or (latency_ms node) 100) in
  (latency + f64_of_Z sz * f64_of_Z 1000 / throughput)%f64.

(** The order [estimated_benefit] sorts the nodes by: throughput descending,
    then latency ascending. *)
Definition benefit_cmp (left right : NodeSnapshot) : comparison :=
  then_cmp (option_cmp Z.compare (throughput_bps right) (throughput_bps left))
           (option_cmp Z.compare (latency_ms left) (latency_ms right)).

Definition estimated_benefit (sz : Z) (best_single : NodeSnapshot) (nodes : list NodeSnapshot)
    (chunk_size requested_concurrency : Z) : option f64 :=
  if existsb (fun node => is_none (throughput_bps node) || is_none (latency_ms node)) nodes
  then None
  else
    let num_chunks := div_ceil sz chunk_size in
    let concurrency := Z.min requested_concurrency num_chunks in
    let active_nodes := take (Z.to_nat concurrency) (sort_by benefit_cmp nodes) in
    let single := estimated_time_ms sz best_single in
    let aggregate_throughput := fsum (f64_of_Z <$> omap throughput_bps active_nodes) in
    if fle aggregate_throughput (f64_of_Z 0) then None
    else
      let coordination_latency :=
        f64_of_Z (unwrap_or (max_by Z.compare (omap latency_ms active_nodes)) 0) in
      let waves := div_ceil num_chunks concurrency in
      let multi := (f64_of_Z waves * coordination_latency
                    + f64_of_Z sz * f64_of_Z 1000 / aggregate_throughput)%f64 in
      Some (single / fmax multi (f64_of_Z 1))%f64.

(** [BlobPlanner::chunk_size]. *)
Definition chunk_size_for (config : PlannerConfig) (blob_size concurrency : Z) : Z :=
  let target_chunks := Z.max (saturating_mul concurrency 4) 1 in
  let ideal := div_ceil blob_size target_chunks in
  clamp (saturating_mul (div_ceil ideal MIB) MIB)
        (min_chunk_size config) (max_chunk_size config).

Definition usable_node (node : NodeSnapshot) : bool :=
  negb (cooling node) && (0 <? max_concurrency node)
  && flt (f64_of_Z 0) (success_rate node) && negb (is_empty (url node)).

Definition config_invalid (config : PlannerConfig) (blob : BlobMeta) : bool :=
  (size blob =? 0) || (min_chunk_size config =? 0)
  || (max_chunk_size config <? min_chunk_size config)
  || (max_concurrent_chunks config =? 0)
  || flt (min_parallel_benefit config) (f64_of_Z 1).

Definition time_cmp (sz : Z) (left right : NodeSnapshot) : comparison :=
  total_cmp (estimated_time_ms sz left) (estimated_time_ms sz right).

Definition requested_concurrency (config : PlannerConfig) (range_nodes : list NodeSnapshot) : Z :=
  Z.min (wrap64 (foldl Z.add 0 (max_concurrency <$> range_nodes)))
        (max_concurrent_chunks config).

(** [BlobPlanner::plan]. *)
Definition plan (config : PlannerConfig) (blob : BlobMeta) (cached : bool)
    (nodes : list NodeSnapshot) : result BlobDownloadPlan PlannerError :=
  if cached then Ok {| strategy := CacheHit |}
  else if config_invalid config blob then Err InvalidConfiguration
  else
    let usable := List.filter usable_node nodes in
    match min_by (time_cmp (size blob)) usable with
    | None => Err NoUsableNodes
    | Some best_single =>
        let range_nodes := List.filter supports_range usable in
        let requested := requested_concurrency config range_nodes in
        if (size blob <? small_blob_threshold config)
           || (Z.of_nat (length range_nodes) =? 0) || (requested <? 2)
        then Ok (single_plan best_single)
        else
          let chunk_size := chunk_size_for config (size blob) requested in
          let num_chunks := div_ceil (size blob) chunk_size in
          let benefit := estimated_benefit (size blob) best_single range_nodes chunk_size requested in
          if ((1 <? Z.of_nat (length range_nodes)) || negb (supports_range best_single))
             && negb (allow_unmeasured_parallel config)
             && (is_none benefit
                 || is_some_and benefit (fun value => flt value (min_parallel_benefit config)))
          then Ok (single_plan best_single)
          else Ok {| strategy := MultiSourceChunked chunk_size num_chunks requested |}
    end.

(** ** Lemmas *)

#[export] Instance time_cmp_order sz : CmpOrder (time_cmp sz).
Proof. apply total_cmp_on_order. Qed.

Lemma elem_of_filter_bool {A} (p : A -> bool) (l : list A) x :
  x ∈ List.filter p l <-> x ∈ l /\ p x = true.
Proof. rewrite !list_elem_of_In. apply filter_In. Qed.

Lemma best_single_spec sz nodes best :
  min_by (time_cmp sz) (List.filter usable_node nodes) = Some best ->
  best ∈ nodes /\ usable_node best = true /\
  (forall n, n ∈ nodes -> usable_node n = true -> time_cmp sz best n <> Gt).
Proof.
  intros H. pose proof (min_by_least _ _ _ H) as Hleast. rewrite Forall_forall in Hleast.
  apply min_by_elem, elem_of_filter_bool in H as [? ?]. repeat split; try done.
  intros n Hn Hu. apply Hleast. by apply elem_of_filter_bool.
Qed.

Lemma config_valid_bounds config blob :
  0 <= size blob -> 0 <= min_chunk_size config -> config_invalid config blob = false ->
  0 < size blob /\ 0 < min_chunk_size config <= max_chunk_size config.
Proof. unfold config_invalid. intros ? ? H. bool_hyps. lia. Qed.

Lemma chunk_size_for_bounds config sz conc :
  min_chunk_size config <= max_chunk_size config ->
  min_chunk_size config <= chunk_size_for config sz conc <= max_chunk_size config.
Proof. intros. by apply clamp_bounds. Qed.

Lemma plan_inv config blob nodes p :
  plan config blob false nodes = Ok p ->
  config_invalid config blob = false /\
  exists best,
    min_by (time_cmp (size blob)) (List.filter usable_node nodes) = Some best /\
    let range_nodes := List.filter supports_range (List.filter usable_node nodes) in
    let requested := requested_concurrency config range_nodes in
    let cs := chunk_size_for config (size blob) requested in
    (p = single_plan best \/
     (p = {| strategy := MultiSourceChunked cs (div_ceil (size blob) cs) requested |} /\
      small_blob_threshold config <= size blob /\ range_nodes <> [] /\ 2 <= requested)).
Proof.
  unfold plan. intros H.
  destruct (config_invalid config blob) eqn:Hc; [done|]. split; [done|].
  destruct (min_by _ _) as [best|] eqn:Hb; [|done]. exists best. split; [done|].
  cbv zeta in *.
  destruct (_ || _ || _) eqn:Hg; [simplify_eq; by left|].
  destruct (_ && _ && _); simplify_eq; [by left|right]. bool_hyps.
  repeat split; try done; try lia. intros Hnil. rewrite Hnil in *. simpl in *. lia.
Qed.

(** ** Properties *)

(** A chunked plan tiles the blob exactly: its chunk size is within the configured
    bounds, its chunk count is the least that covers the blob, it is only chosen at
    or above the threshold with a usable Range-capable node, and its concurrency is
    at least 2 and at most the configured limit. *)
Theorem plan_chunked_sound config blob nodes cs n conc :
  0 <= size blob -> 0 <= min_chunk_size config ->
  plan config blob false nodes = Ok {| strategy := MultiSourceChunked cs n conc |} ->
  min_chunk_size config <= cs <= max_chunk_size config /\
  (n - 1) * cs < size blob <= n * cs /\
  small_blob_threshold config <= size blob /\
  2 <= conc <= max_concurrent_chunks config /\
  exists node, node ∈ nodes /\ usable_node node = true /\ supports_range node = true.
Proof.
  intros Hs Hm H. apply plan_inv in H as (Hc & best & _ & Hcase). cbv zeta in Hcase.
  destruct (config_valid_bounds _ _ Hs Hm Hc) as [Hpos [Hmin Hmax]].
  destruct Hcase as [Hp|(Hp & Ht & Hne & H2)]; [discriminate|]. injection Hp as -> -> ->.
  pose proof (chunk_size_for_bounds config (size blob)
    (requested_concurrency config (List.filter supports_range (List.filter usable_node nodes))) Hmax).
  repeat split; try lia.
  1,2: match goal with |- context [div_ceil ?a ?b] => pose proof (div_ceil_spec a b ltac:(lia)); lia end.
  - unfold requested_concurrency. lia.
  - destruct (List.filter supports_range (List.filter usable_node nodes)) as [|x l] eqn:E; [done|].
    assert (x ∈ List.filter supports_range (List.filter usable_node nodes)) as Hx by (rewrite E; set_solver).
    apply elem_of_filter_bool in Hx as [[? ?]%elem_of_filter_bool ?]. eauto.
Qed.

(** A single-request plan names a usable node whose estimated completion time is
    least among all usable nodes, in the order of [f64::total_cmp]. *)
Theorem plan_single_fastest config blob nodes target :
  plan config blob false nodes = Ok {| strategy := SingleRequest target |} ->
  exists best, best ∈ nodes /\ usable_node best = true /\ url best = target /\
    forall other, other ∈ nodes -> usable_node other = true ->
      time_cmp (size blob) best other <> Gt.
Proof.
  intros H. apply plan_inv in H as (_ & best & Hb & Hcase). cbv zeta in Hcase.
  apply best_single_spec in Hb as (Hin & Hu & Hleast).
  destruct Hcase as [Hp|(Hp & _)]; [|discriminate].
  injection Hp as Hurl. exists best. eauto.
Qed.

(** Planning fails exactly when nothing is cached and either the configuration is
    invalid or no node is usable; the two errors are not confused. *)
Theorem plan_errors config blob cached nodes e :
  plan config blob cached nodes = Err e <->
  cached = false /\
  ((e = InvalidConfiguration /\ config_invalid config blob = true) \/
   (e = NoUsableNodes /\ config_invalid config blob = false /\
    forall n, n ∈ nodes -> usable_node n = false)).
Proof.
  assert (List.filter usable_node nodes = [] <-> forall n, n ∈ nodes -> usable_node n = false) as Hnil.
  { split.
    - intros Hf n Hn. destruct (usable_node n) eqn:E; [|done].
      assert (n ∈ List.filter usable_node nodes) as Hx by (by apply elem_of_filter_bool).
      rewrite Hf in Hx. set_solver.
    - intros Hf. destruct (List.filter usable_node nodes) as [|x l] eqn:E; [done|].
      assert (x ∈ List.filter usable_node nodes) as Hx by (rewrite E; set_solver).
      apply elem_of_filter_bool in Hx as [Hx1 Hx2]. rewrite Hf in Hx2; done. }
  unfold plan. destruct cached; [split; [done|naive_solver]|].
  destruct (config_invalid config blob); [naive_solver|].
  rewrite <- Hnil, <- (min_by_None (time_cmp (size blob))).
  destruct (min_by _ _) as [best|] eqn:Hb; [|naive_solver].
  cbv zeta. destruct (_ || _ || _); [naive_solver|]. destruct (_ && _ && _); naive_solver.
Qed.

(** ** Witnesses *)

Definition example_node (u : string) (speed : option Z) (range : bool) : NodeSnapshot := {|
  url := u; supports_range := range; max_concurrency := 4; throughput_bps := speed;
  latency_ms := Some 20; success_rate := f64_of_Z 1; cooling := false |}.

Definition example_nodes : list NodeSnapshot :=
  [example_node "https://a/" (Some (10 * MIB)) true; example_node "https://b/" (Some (12 * MIB)) true].

Definition example_blob : BlobMeta :=
  {| digest := "sha256:x"; size := 100 * MIB; media_type := "application/octet-stream" |}.

Lemma plan_chunked_sound_witness :
  2 * MIB <= 4 * MIB <= 8 * MIB /\
  (25 - 1) * (4 * MIB) < 100 * MIB <= 25 * (4 * MIB) /\
  8 * MIB <= 100 * MIB /\ 2 <= 8 <= 16 /\
  exists node, node ∈ example_nodes /\ usable_node node = true /\ supports_range node = true.
Proof.
  apply (plan_chunked_sound default_config example_blob example_nodes (4 * MIB) 25 8);
    [vm_compute; discriminate|vm_compute; discriminate|vm_compute; reflexivity].
Defined.

Lemma plan_single_fastest_witness :
  exists best, best ∈ example_nodes /\ usable_node best = true /\ url best = "https://b/" /\
    forall other, other ∈ example_nodes -> usable_node other = true ->
      time_cmp (5 * MIB) best other <> Gt.
Proof.
  apply (plan_single_fastest default_config
    {| digest := ""; size := 5 * MIB; media_type := "" |} example_nodes "https://b/").
  vm_compute. reflexivity.
Defined.

End Planner.
