(* ===== verification/Chunks.v ===== *)
(** * Chunk layout and concurrency

    The arithmetic of src/src/scheduler.rs (chunk sizes, concurrency, the byte
    ranges of a parallel fetch) and the range layout of the streaming relay in
    src/src/registry.rs. *)

From stdpp Require Import base gmap sets list strings.
From Stdlib Require Import ZArith Lia.
From S2P Require Import Prelude Budget.

Module Chunks.

Definition MIB : Z := 1024 * 1024.

(** The fields of [SchedulerRuntimeConfig] the layout depends on. *)
Record SchedulerRuntimeConfig := {
  chunk_size : Z;
  adaptive_chunking_enabled : bool;
  automatic_concurrency_enabled : bool;
  parallel_threshold : Z;
  resumable_threshold : Z;
  chunk_concurrency : Z
}.

Record StreamDownloadConfig := {
  sd_chunk_size : Z;
  sd_concurrency : Z;
  sd_parallel_threshold : Z
}.

Definition effective_concurrency (runtime : SchedulerRuntimeConfig) (node_capacity : Z) : Z :=
  let node_capacity := Z.max node_capacity 1 in
  if automatic_concurrency_enabled runtime then Z.min node_capacity 64
  else Z.max (Z.min (chunk_concurrency runtime) node_capacity) 1.

Definition effective_chunk_size (runtime : SchedulerRuntimeConfig) (total_size node_capacity : Z) : Z :=
  if negb (adaptive_chunking_enabled runtime) then chunk_size runtime
  else
    let parallelism := effective_concurrency runtime node_capacity in
    let target_chunks := saturating_mul parallelism 4 in
    let ideal := saturating_add total_size (saturating_sub target_chunks 1) / target_chunks in
    clamp (saturating_mul (saturating_add ideal (MIB - 1) / MIB) MIB) (2 * MIB) (8 * MIB).

Definition bounded_stream_concurrency (chunk_size desired : Z) : Z :=
  let memory_slots := Z.min (Z.max (STREAM_MEMORY_BYTES / Z.max chunk_size 1) 1) u64_max in
  Z.max (Z.min desired memory_slots) 1.

(** [Scheduler::stream_download_config]. *)
Definition stream_download_config (runtime : SchedulerRuntimeConfig) (total_size node_capacity : Z)
  : StreamDownloadConfig :=
  let cs := effective_chunk_size runtime total_size node_capacity in
  {| sd_chunk_size := cs;
     sd_concurrency := bounded_stream_concurrency cs (effective_concurrency runtime node_capacity);
     sd_parallel_threshold := parallel_threshold runtime |}.

(** ** Byte ranges *)

Record Chunk := {
  index : nat;
  start : Z;
  end_ : Z;
  total_size : Z
}.

(** The [while start < total] loop of [chunks]; [None] when the fuel runs out. *)
Fixpoint chunks_loop (fuel : nat) (start total cs : Z) (result : list Chunk) : option (list Chunk) :=
  if start <? total then
    match fuel with
    | O => None
    | S fuel' =>
        let e := Z.min (wrap64 (wrap64 (start + cs) - 1)) (total - 1) in
        chunks_loop fuel' (e + 1) total cs
          (result ++ [{| index := length result; start := start; end_ := e; total_size := total |}])
    end
  else Some result.

(** [chunks(total, chunk_size)]; the fuel is the number of chunks. *)
Definition chunks (total cs : Z) : option (list Chunk) :=
  chunks_loop (Z.to_nat (div_ceil total cs)) 0 total cs [].

(** [StreamChunk] and the layout loop of [relay_parallel_ranges], whose window
    is the closed interval [start ..= end]. *)
Record StreamChunk := {
  sequence : nat;
  sc_start : Z;
  sc_end : Z;
  sc_total : Z
}.

Fixpoint stream_chunks_loop (fuel : nat) (start end_ total cs : Z) (result : list StreamChunk)
  : option (list StreamChunk) :=
  if start <=? end_ then
    match fuel with
    | O => None
    | S fuel' =>
        let e := Z.min (saturating_add start (saturating_sub cs 1)) end_ in
        stream_chunks_loop fuel' (wrap64 (e + 1)) end_ total cs
          (result ++ [{| sequence := length result; sc_start := start; sc_end := e; sc_total := total |}])
    end
  else Some result.

Definition stream_chunks (start end_ total cs : Z) : option (list StreamChunk) :=
  stream_chunks_loop (Z.to_nat (div_ceil (end_ - start + 1) (Z.max cs 1))) start end_ total cs [].

(** ** Specification of a layout

    [tiling a b cs l]: the closed ranges [l] are consecutive, non-empty, at most
    [cs] long, start at [a] and end just before [b]. *)
Inductive tiling (cs : Z) : Z -> Z -> list (Z * Z) -> Prop :=
| tiling_nil a : tiling cs a a []
| tiling_cons a e b l :
    a <= e -> e - a + 1 <= cs -> tiling cs (e + 1) b l -> tiling cs a b ((a, e) :: l).

(** The bytes of [content] a closed range names. *)
Definition slice {A} (content : list A) (r : Z * Z) : list A :=
  take (Z.to_nat (r.2 - r.1 + 1)) (drop (Z.to_nat r.1) content).

Lemma tiling_le cs a b l : tiling cs a b l -> a <= b.
Proof. induction 1; lia. Qed.

Lemma tiling_cons_inv cs a b x e l :
  tiling cs a b ((x, e) :: l) -> x = a /\ a <= e /\ e - a + 1 <= cs /\ tiling cs (e + 1) b l.
Proof. inversion 1; auto. Qed.

Lemma tiling_sizes cs a b l : tiling cs a b l -> Forall (fun r => 0 < r.2 - r.1 + 1 <= cs) l.
Proof. induction 1; constructor; simpl; auto; lia. Qed.

Lemma slice_length {A} (content : list A) a e :
  0 <= a -> a <= e -> e < Z.of_nat (length content) ->
  Z.of_nat (length (slice content (a, e))) = e - a + 1.
Proof. intros. unfold slice. simpl. rewrite length_take, length_drop. lia. Qed.

(** The slices of a tiling, in order, are the content it covers. *)
Lemma tiling_concat {A} (content : list A) cs a b l :
  tiling cs a b l -> 0 <= a ->
  mjoin (slice content <$> l) = take (Z.to_nat (b - a)) (drop (Z.to_nat a) content).
Proof.
  induction 1 as [a|a e b l Hae Hcs Ht IH]; intros Ha.
  - simpl. by rewrite Z.sub_diag.
  - pose proof (tiling_le _ _ _ _ Ht). rewrite fmap_cons. simpl. rewrite IH by lia.
    unfold slice. simpl.
    replace (Z.to_nat (b - a)) with (Z.to_nat (e - a + 1) + Z.to_nat (b - (e + 1)))%nat by lia.
    rewrite <- take_take_drop, drop_drop. do 3 f_equal. lia.
Qed.

Definition range_of (c : Chunk) : Z * Z := (start c, end_ c).
Definition stream_range_of (c : StreamChunk) : Z * Z := (sc_start c, sc_end c).

(** Both loops produce a tiling, number their chunks from 0 and stop within
    their fuel. *)
Lemma chunks_loop_spec fuel a total cs result :
  0 <= a <= total -> 0 < cs -> total + cs < 2 ^ 64 ->
  total - a <= Z.of_nat fuel * cs ->
  exists l, chunks_loop fuel a total cs result = Some (result ++ l) /\
    tiling cs a total (range_of <$> l) /\
    Forall (fun c => total_size c = total) l /\
    index <$> l = seq (length result) (length l).
Proof.
  revert a result. induction fuel as [|fuel IH]; intros a result Ha Hcs Hmax Hf; simpl.
  - destruct (Z.ltb_spec a total); [lia|]. exists []. rewrite app_nil_r.
    replace total with a by lia. repeat split; constructor.
  - destruct (Z.ltb_spec a total).
    2: { exists []. rewrite app_nil_r. replace total with a by lia. repeat split; constructor. }
    rewrite !wrap64_small by (unfold u64_range, u64_max; rewrite ?wrap64_small; unfold u64_range, u64_max; lia).
    set (e := Z.min (a + cs - 1) (total - 1)).
    assert (total - (e + 1) <= Z.of_nat fuel * cs) by (subst e; nia).
    assert (a <= e < total /\ e - a + 1 <= cs) by (subst e; lia). clearbody e.
    destruct (IH (e + 1) (result ++ [{| index := length result; start := a; end_ := e; total_size := total |}]))
      as (l & Hl & Ht & Hfa & Hidx); try assumption; [lia|].
    exists ({| index := length result; start := a; end_ := e; total_size := total |} :: l).
    rewrite Hl, <- app_assoc. split; [done|]. split; [apply tiling_cons; simpl; [lia..|done]|].
    split; [by constructor|]. rewrite fmap_cons. simpl. f_equal. rewrite Hidx, length_app. simpl.
    f_equal. lia.
Qed.

Lemma stream_chunks_loop_spec fuel a e total cs result :
  0 <= a <= e + 1 -> e < u64_max ->
  e + 1 - a <= Z.of_nat fuel * Z.max cs 1 -> cs <= u64_max ->
  exists l, stream_chunks_loop fuel a e total cs result = Some (result ++ l) /\
    tiling (Z.max cs 1) a (e + 1) (stream_range_of <$> l) /\
    Forall (fun c => sc_total c = total) l /\
    sequence <$> l = seq (length result) (length l).
Proof.
  revert a result. induction fuel as [|fuel IH]; intros a result Ha He Hf Hcs; simpl.
  - destruct (Z.leb_spec a e); [lia|]. exists []. rewrite app_nil_r.
    replace (e + 1) with a by lia. repeat split; constructor.
  - destruct (Z.leb_spec a e).
    2: { exists []. rewrite app_nil_r. replace (e + 1) with a by lia. repeat split; constructor. }
    set (x := Z.min (saturating_add a (saturating_sub cs 1)) e).
    assert (a <= x <= e /\ x - a + 1 <= Z.max cs 1 /\ (x = e \/ x - a + 1 = Z.max cs 1)) as Hx.
    { unfold x, saturating_add, saturating_sub. lia. }
    rewrite wrap64_small by (unfold u64_range, u64_max in *; lia).
    assert (e + 1 - (x + 1) <= Z.of_nat fuel * Z.max cs 1) by nia. clearbody x.
    destruct (IH (x + 1) (result ++ [{| sequence := length result; sc_start := a; sc_end := x; sc_total := total |}]))
      as (l & Hl & Ht & Hfa & Hidx); try assumption; [lia|].
    exists ({| sequence := length result; sc_start := a; sc_end := x; sc_total := total |} :: l).
    rewrite Hl, <- app_assoc. split; [done|]. split; [apply tiling_cons; simpl; [lia..|done]|].
    split; [by constructor|]. rewrite fmap_cons. simpl. f_equal. rewrite Hidx, length_app. simpl.
    f_equal. lia.
Qed.

Lemma chunks_spec total cs :
  0 <= total -> 0 < cs -> total + cs < 2 ^ 64 ->
  exists l, chunks total cs = Some l /\ tiling cs 0 total (range_of <$> l) /\
    Forall (fun c => total_size c = total) l /\ index <$> l = seq 0 (length l).
Proof.
  intros Ht Hc Hm. pose proof (div_ceil_spec total cs Hc). pose proof (div_ceil_nonneg total cs Ht Hc).
  destruct (chunks_loop_spec (Z.to_nat (div_ceil total cs)) 0 total cs []) as (l & ? & ? & ? & ?); [lia..|].
  by exists l.
Qed.

Lemma stream_chunks_spec a e total cs :
  0 <= a <= e + 1 -> e < u64_max -> cs <= u64_max ->
  exists l, stream_chunks a e total cs = Some l /\
    tiling (Z.max cs 1) a (e + 1) (stream_range_of <$> l) /\
    Forall (fun c => sc_total c = total) l /\ sequence <$> l = seq 0 (length l).
Proof.
  intros Ha He Hc. pose proof (div_ceil_spec (e - a + 1) (Z.max cs 1) ltac:(lia)).
  pose proof (div_ceil_nonneg (e - a + 1) (Z.max cs 1) ltac:(lia) ltac:(lia)).
  destruct (stream_chunks_loop_spec (Z.to_nat (div_ceil (e - a + 1) (Z.max cs 1))) a e total cs [])
    as (l & ? & ? & ? & ?); [lia..|].
  by exists l.
Qed.

Lemma effective_concurrency_bounds runtime cap :
  1 <= effective_concurrency runtime cap <= Z.max cap 1.
Proof. unfold effective_concurrency. destruct (automatic_concurrency_enabled runtime); lia. Qed.

Lemma effective_chunk_size_adaptive runtime total cap :
  adaptive_chunking_enabled runtime = true ->
  2 * MIB <= effective_chunk_size runtime total cap <= 8 * MIB.
Proof.
  intros H. unfold effective_chunk_size. rewrite H. simpl. apply clamp_bounds. unfold MIB. lia.
Qed.

(** ** Properties *)

(** The chunk loop terminates and lays the blob out without gap or overlap: for any
    blob, the pieces named by the chunks, in index order, concatenate to the blob,
    and each piece is at most one chunk long. *)
Theorem chunks_partition {A} (blob : list A) cs :
  0 < cs -> Z.of_nat (length blob) + cs < 2 ^ 64 ->
  exists l, chunks (Z.of_nat (length blob)) cs = Some l /\
    mjoin ((fun c => slice blob (range_of c)) <$> l) = blob /\
    index <$> l = seq 0 (length l) /\
    Forall (fun c => Z.of_nat (length (slice blob (range_of c))) <= cs) l.
Proof.
  intros Hc Hm. destruct (chunks_spec (Z.of_nat (length blob)) cs) as (l & Hl & Ht & _ & Hi); [lia..|].
  exists l. split; [done|]. split; [|split; [done|]].
  - change (fun c => slice blob (range_of c)) with (slice blob ∘ range_of).
    rewrite list_fmap_compose, (tiling_concat blob cs 0 _ _ Ht) by lia.
    rewrite drop_0, Z.sub_0_r, Nat2Z.id. by rewrite take_ge.
  - apply tiling_sizes in Ht. rewrite Forall_fmap in Ht. eapply Forall_impl; [exact Ht|].
    intros c Hlen. unfold slice, range_of in *. simpl in *. rewrite length_take. lia.
Qed.

(** The relay's range layout covers exactly the window still to be sent, from the
    resume offset to the last byte, in order, for every configured chunk size
    (zero included, which degrades to single bytes). *)
Theorem stream_chunks_partition {A} (blob : list A) offset cs :
  0 <= offset < Z.of_nat (length blob) -> Z.of_nat (length blob) <= u64_max -> cs <= u64_max ->
  exists l, stream_chunks offset (Z.of_nat (length blob) - 1) (Z.of_nat (length blob)) cs = Some l /\
    mjoin ((fun c => slice blob (stream_range_of c)) <$> l) = drop (Z.to_nat offset) blob /\
    sequence <$> l = seq 0 (length l).
Proof.
  intros Ho Hm Hc.
  destruct (stream_chunks_spec offset (Z.of_nat (length blob) - 1) (Z.of_nat (length blob)) cs)
    as (l & Hl & Ht & _ & Hi); [lia..|].
  exists l. split; [done|]. split; [|done].
  change (fun c => slice blob (stream_range_of c)) with (slice blob ∘ stream_range_of).
  rewrite list_fmap_compose, (tiling_concat blob _ _ _ _ Ht) by lia.
  apply take_ge. rewrite length_drop. lia.
Qed.

(** The buffers of a parallel relay fit the per-stream budget: with a chunk size of
    at most 64 MiB, concurrency times chunk size is within 64 MiB, every chunk's
    memory request is admissible, and at least one chunk is always in flight. *)
Theorem stream_config_fits_budget runtime total cap :
  (adaptive_chunking_enabled runtime = false ->
     0 < chunk_size runtime <= STREAM_MEMORY_BYTES) ->
  let cfg := stream_download_config runtime total cap in
  1 <= sd_concurrency cfg <= Z.max cap 1 /\
  sd_concurrency cfg * sd_chunk_size cfg <= STREAM_MEMORY_BYTES /\
  Memory.acquire_check (sd_chunk_size cfg) = Ok (sd_chunk_size cfg).
Proof.
  intros Hfix. simpl. set (cs := effective_chunk_size runtime total cap).
  assert (0 < cs <= STREAM_MEMORY_BYTES) as Hcs.
  { subst cs. destruct (adaptive_chunking_enabled runtime) eqn:E.
    - pose proof (effective_chunk_size_adaptive runtime total cap E).
      unfold STREAM_MEMORY_BYTES, MIB in *. lia.
    - unfold effective_chunk_size. rewrite E. simpl. auto. }
  pose proof (effective_concurrency_bounds runtime cap).
  assert (1 <= STREAM_MEMORY_BYTES / cs /\ STREAM_MEMORY_BYTES / cs * cs <= STREAM_MEMORY_BYTES) as [Hs1 Hs2].
  { split; [apply Z.div_le_lower_bound; lia|].
    pose proof (Z.mul_div_le STREAM_MEMORY_BYTES cs). lia. }
  unfold bounded_stream_concurrency. rewrite (Z.max_l cs 1) by lia.
  repeat split; try lia.
  - nia.
  - unfold Memory.acquire_check, u32_max, STREAM_MEMORY_BYTES in *.
    repeat (zcase; [|lia]). done.
Qed.

(** ** Witnesses *)

Definition runtime_ex : SchedulerRuntimeConfig := {|
  chunk_size := 2 * MIB; adaptive_chunking_enabled := false; automatic_concurrency_enabled := true;
  parallel_threshold := 8 * MIB; resumable_threshold := 8 * MIB; chunk_concurrency := 32 |}.

Lemma chunks_partition_witness :
  exists l, chunks 5 2 = Some l /\
    mjoin ((fun c => slice [1; 2; 3; 4; 5] (range_of c)) <$> l) = [1; 2; 3; 4; 5] /\
    index <$> l = seq 0 (length l) /\
    Forall (fun c => Z.of_nat (length (slice [1; 2; 3; 4; 5] (range_of c))) <= 2) l.
Proof. apply (chunks_partition [1; 2; 3; 4; 5] 2); simpl; lia. Defined.

Lemma stream_chunks_partition_witness :
  exists l, stream_chunks 1 4 5 2 = Some l /\
    mjoin ((fun c => slice [1; 2; 3; 4; 5] (stream_range_of c)) <$> l) = [2; 3; 4; 5] /\
    sequence <$> l = seq 0 (length l).
Proof. apply (stream_chunks_partition [1; 2; 3; 4; 5] 1 2); simpl; unfold u64_max; lia. Defined.

Lemma stream_config_fits_budget_witness :
  let cfg := stream_download_config runtime_ex (100 * MIB) 40 in
  1 <= sd_concurrency cfg <= Z.max 40 1 /\
  sd_concurrency cfg * sd_chunk_size cfg <= STREAM_MEMORY_BYTES /\
  Memory.acquire_check (sd_chunk_size cfg) = Ok (sd_chunk_size cfg).
Proof.
  apply (stream_config_fits_budget runtime_ex (100 * MIB) 40). intros _.
  vm_compute. split; [reflexivity|discriminate].
Defined.

End Chunks.
