(* ===== verification/Model.v ===== *)
(** * Rows and node views

    The table rows of src/src/db.rs that the modelled components read, and the
    [NodeView] of src/src/nodes.rs.  Timestamps are milliseconds. *)

From stdpp Require Import base gmap sets list strings.
From Stdlib Require Import ZArith SpecFloat.
From S2P Require Import Prelude F64.

Module Route.
(** [registry_route::Model]. *)
Record Model := {
  id : Uuid;
  key : string;
  name : string;
  canonical_registry : string;
  path_prefix : option string;
  repository_mode : string;
  is_default : bool;
  enabled : bool;
  created_at : Z;
  updated_at : Z
}.
End Route.

Module RouteSummary.
(** [RegistryRouteSummary]. *)
Record t := {
  id : Uuid;
  key : string;
  name : string;
  canonical_registry : string;
  path_prefix : option string;
  repository_mode : string;
  enabled : bool
}.

Definition of_route (r : Route.Model) : t := {|
  id := Route.id r; key := Route.key r; name := Route.name r;
  canonical_registry := Route.canonical_registry r; path_prefix := Route.path_prefix r;
  repository_mode := Route.repository_mode r; enabled := Route.enabled r |}.
End RouteSummary.

Module Node.
(** [node::Model]. *)
Record Model := {
  id : Uuid;
  name : string;
  url : string;
  registry_route_id : Uuid;
  enabled : bool;
  priority : Z;
  cf_preferred : bool;
  connect_ip_type : string;
  connect_ip : option string;
  auth_mode : string;
  auth_username : option string;
  auth_header : option string;
  auth_secret_enc : option string;
  created_at : Z;
  updated_at : Z
}.
End Node.

Module Metric.
(** [node_metric::Model]. *)
Record Model := {
  node_id : Uuid;
  healthy : bool;
  latency_ms : Z;
  speed_bps : Z;
  success_rate : f64;
  current_bps : Z;
  total_bytes : Z;
  last_checked_at : option Z;
  last_error : option string
}.
End Metric.

(** [NodeView]. *)
Record NodeView := {
  node : Node.Model;
  metric : Metric.Model;
  score : f64;
  auth_configured : bool;
  route : RouteSummary.t;
  max_concurrency : Z;
  live_bps : Z
}.

Definition node_id (v : NodeView) : Uuid := Node.id (node v).

(** Sample values for the witnesses of later files. *)
Definition sample_route : RouteSummary.t := {|
  RouteSummary.id := 1; RouteSummary.key := "dockerhub"; RouteSummary.name := "Docker Hub";
  RouteSummary.canonical_registry := "docker.io"; RouteSummary.path_prefix := None;
  RouteSummary.repository_mode := "docker_hub_library"; RouteSummary.enabled := true |}.

Definition sample_node (i : Uuid) (u : string) (maxc speed : Z) : NodeView := {|
  node := {| Node.id := i; Node.name := u; Node.url := u; Node.registry_route_id := 1;
             Node.enabled := true; Node.priority := 100; Node.cf_preferred := false;
             Node.connect_ip_type := "ip"; Node.connect_ip := None; Node.auth_mode := "none";
             Node.auth_username := None; Node.auth_header := None; Node.auth_secret_enc := None;
             Node.created_at := 0; Node.updated_at := 0 |};
  metric := {| Metric.node_id := i; Metric.healthy := true; Metric.latency_ms := 10;
               Metric.speed_bps := speed; Metric.success_rate := f64_of_Z 1;
               Metric.current_bps := 0; Metric.total_bytes := 0;
               Metric.last_checked_at := Some 0; Metric.last_error := None |};
  score := f64_of_Z 0; auth_configured := false; route := sample_route;
  max_concurrency := maxc; live_bps := 0 |}.
