(* ===== verification/Scheduling.v ===== *)
(** * Node-ordering algorithms

    src/src/scheduling.rs: the two [SchedulerAlgorithm]s and their scores.
    [f64::ln] of the platform's math library is a parameter. *)

From stdpp Require Import base gmap sets list strings.
From Stdlib Require Import ZArith Lia SpecFloat Sorted Ascii.
From S2P Require Import Prelude F64 Text Model.

Module Scheduling.

Inductive SchedulerPolicy := Balanced | SpeedFirst.

Record ScheduleContext := {
  sequence : Z;
  blob_size : Z;
  range_required : bool;
  chunk : option (Z * Z)
}.

Record ScheduleCandidate := {
  cnode : NodeView;
  capacity_bps : f64;
  latency_ms : Z;
  success_rate : f64;
  active : Z;
  cmax_concurrency : Z;
  measured : bool;
  recently_recovered : bool
}.

(** ** Scores *)

Definition effective_capacity (c : ScheduleCandidate) : f64 :=
  let load := (f64_of_Z 1 + f64_of_Z (active c) / f64_of_Z (Z.max (cmax_concurrency c) 1))%f64 in
  (fmax (capacity_bps c) (f64_of_Z 256 * f64_of_Z 1024)
   * fsquare (fclamp (success_rate c) (f64_ratio 5 100) (f64_of_Z 1)) / load)%f64.

Definition request_bytes (context : ScheduleContext) : Z :=
  match chunk context with
  | Some (start, end_) => saturating_add (saturating_sub end_ start) 1
  | None => Z.max (blob_size context) 1
  end.

Definition projected_cost (c : ScheduleCandidate) (context : ScheduleContext) : f64 :=
  let throughput := fmax (capacity_bps c) (f64_of_Z 256 * f64_of_Z 1024)%f64 in
  let reliability := fclamp (success_rate c) (f64_ratio 5 100) (f64_of_Z 1) in
  let load := (f64_of_Z (active c) / f64_of_Z (Z.max (cmax_concurrency c) 1))%f64 in
  let queue := (f64_of_Z 1 + load)%f64 in
  (f64_of_Z (latency_ms c) / f64_of_Z 1000
   + (queue * f64_of_Z (request_bytes context)) / (throughput * reliability * reliability))%f64.

(** One round of the SplitMix-style hash over a URL byte. *)
Definition hash_byte (state : Z) (byte : ascii) : Z :=
  let state := wrap64 (Z.lxor state (code byte) * 0xbf58476d1ce4e5b9) in
  Z.lxor state (Z.shiftr state 27).

Fixpoint hash_url (state : Z) (url : string) : Z :=
  match url with
  | EmptyString => state
  | String c url' => hash_url (hash_byte state c) url'
  end.

Definition f64_min_positive : f64 := S754_finite false (2 ^ 52) (-1074).

Definition rendezvous_state (seq : Z) (url : string) : Z :=
  let state := hash_url seq url in
  let state := wrap64 (state + 0x9e3779b97f4a7c15) in
  let state := wrap64 (Z.lxor state (Z.shiftr state 30) * 0xbf58476d1ce4e5b9) in
  let state := wrap64 (Z.lxor state (Z.shiftr state 27) * 0x94d049bb133111eb) in
  Z.lxor state (Z.shiftr state 31).

Definition rendezvous_unit (seq : Z) (c : ScheduleCandidate) : f64 :=
  let state := rendezvous_state seq (Node.url (node (cnode c))) in
  fclamp ((f64_of_Z state + f64_of_Z 1) / (f64_of_Z u64_max + f64_of_Z 2))%f64
         f64_min_positive (f64_of_Z 1).

(** ** Orders *)

Definition priority_of (c : ScheduleCandidate) : Z := Node.priority (node (cnode c)).
Definition url_of (c : ScheduleCandidate) : string := Node.url (node (cnode c)).

Definition tie_cmp (left right : ScheduleCandidate) : comparison :=
  then_cmp (Z.compare (priority_of left) (priority_of right))
           (String.compare (url_of left) (url_of right)).

(** Effective capacity descending, then priority, then URL. *)
Definition capacity_cmp (left right : ScheduleCandidate) : comparison :=
  then_cmp (total_cmp (effective_capacity right) (effective_capacity left)) (tie_cmp left right).

(** Projected cost ascending, then rendezvous unit, priority and URL. *)
Definition projected_cmp (context : ScheduleContext) (left right : ScheduleCandidate) : comparison :=
  then_cmp (total_cmp (projected_cost left context) (projected_cost right context))
    (then_cmp (total_cmp (rendezvous_unit (sequence context) left) (rendezvous_unit (sequence context) right))
       (tie_cmp left right)).

Definition enumerate {A} (l : list A) : list (nat * A) := zip (seq 0 (length l)) l.

Definition wants_exploration (c : ScheduleCandidate) : bool :=
  (active c =? 0) && (0 <? cmax_concurrency c) && (negb (measured c) || recently_recovered c).

Definition exploration_choice (candidates : list ScheduleCandidate) (seq : Z) : option nat :=
  let* (i, _) := max_by (fun l r => total_cmp (rendezvous_unit seq l.2) (rendezvous_unit seq r.2))
                   (List.filter (fun p => wants_exploration p.2) (enumerate candidates)) in
  Some i.

Definition promote_exploration (candidates : list ScheduleCandidate) (seq : Z) : list ScheduleCandidate :=
  if negb (seq mod 8 =? 0) || negb (existsb measured candidates) then candidates
  else match exploration_choice candidates seq with
       | Some selected => promote selected candidates
       | None => candidates
       end.

Section Algorithms.
(** The platform's natural logarithm. *)
Variable ln : f64 -> f64.

(** The weighted rendezvous winner among the sorted candidates. *)
Definition rendezvous_choice (candidates : list ScheduleCandidate) (seq : Z) : nat :=
  let max_capacity :=
    fmax (foldl fmax (f64_of_Z 0) (effective_capacity <$> candidates)) (f64_of_Z 1) in
  let keyed :=
    (fun p : nat * ScheduleCandidate =>
       let weight := fmax (effective_capacity p.2 / max_capacity)%f64 (f64_ratio 1 1000) in
       (p.1, (SFopp (ln (rendezvous_unit seq p.2)) / weight)%f64)) <$> enumerate candidates in
  match min_by (fun l r : nat * f64 => total_cmp l.2 r.2) keyed with
  | Some (i, _) => i
  | None => 0%nat
  end.

(** [CurrentAlgorithm::order], before the exploration lane. *)
Definition current_base (candidates : list ScheduleCandidate) (context : ScheduleContext)
    (policy : SchedulerPolicy) : list ScheduleCandidate :=
  match policy with
  | Balanced =>
      if existsb measured candidates then
        let sorted := sort_by capacity_cmp candidates in
        promote (rendezvous_choice sorted (sequence context)) sorted
      else match candidates with
           | [] => candidates
           | _ => rotate_left (Z.to_nat (sequence context mod Z.of_nat (length candidates))) candidates
           end
  | SpeedFirst => sort_by capacity_cmp candidates
  end.

Definition current_order (candidates : list ScheduleCandidate) (context : ScheduleContext)
    (policy : SchedulerPolicy) : list NodeView :=
  cnode <$> promote_exploration (current_base candidates context policy) (sequence context).

(** [ProjectedCompletionAlgorithm::order]. *)
Definition projected_order (candidates : list ScheduleCandidate) (context : ScheduleContext)
    (policy : SchedulerPolicy) : list NodeView :=
  cnode <$> promote_exploration (sort_by (projected_cmp context) candidates) (sequence context).

(** [dyn SchedulerAlgorithm]: the two implementations behind one interface. *)
Inductive Algorithm := CurrentAlgorithm | ProjectedCompletionAlgorithm.

Definition algorithm_name (a : Algorithm) : string :=
  match a with
  | CurrentAlgorithm => "current-balanced"
  | ProjectedCompletionAlgorithm => "projected-completion"
  end.

Definition order (a : Algorithm) (candidates : list ScheduleCandidate) (context : ScheduleContext)
    (policy : SchedulerPolicy) : list NodeView :=
  match a with
  | CurrentAlgorithm => current_order candidates context policy
  | ProjectedCompletionAlgorithm => projected_order candidates context policy
  end.

(** ** Lemmas *)

Lemma promote_exploration_perm l s : promote_exploration l s ≡ₚ l.
Proof.
  unfold promote_exploration. destruct (_ || _); [done|].
  destruct (exploration_choice l s); [apply promote_perm|done].
Qed.

Lemma current_base_perm l ctx policy : current_base l ctx policy ≡ₚ l.
Proof.
  unfold current_base. destruct policy; [|apply sort_by_perm].
  destruct (existsb measured l); [by rewrite promote_perm, sort_by_perm|].
  destruct l as [|x l]; [done|apply rotate_left_perm].
Qed.

Lemma order_perm a l ctx policy : order a l ctx policy ≡ₚ cnode <$> l.
Proof.
  destruct a; simpl; unfold current_order, projected_order; rewrite promote_exploration_perm.
  - by rewrite current_base_perm.
  - by rewrite sort_by_perm.
Qed.

#[local] Instance tie_cmp_order : CmpOrder tie_cmp.
Proof.
  apply then_order; [apply (cmp_on_order priority_of)|].
  destruct string_compare_order as [Hs Ht]. split; [intros; apply Hs|].
  intros x y z. apply Ht.
Qed.

#[local] Instance capacity_cmp_order : CmpOrder capacity_cmp.
Proof.
  apply then_order; [|apply _].
  apply (flip_order (fun x y => total_cmp (effective_capacity x) (effective_capacity y))).
  apply total_cmp_on_order.
Qed.

#[local] Instance projected_cmp_order ctx : CmpOrder (projected_cmp ctx).
Proof.
  apply then_order; [apply (total_cmp_on_order (fun c => projected_cost c ctx))|].
  apply then_order; [apply (total_cmp_on_order (rendezvous_unit (sequence ctx)))|apply _].
Qed.

Lemma enumerate_lookup {A} (l : list A) i x : (i, x) ∈ enumerate l -> l !! i = Some x.
Proof.
  unfold enumerate. rewrite list_elem_of_lookup. intros [j Hj].
  apply lookup_zip_Some in Hj as [Hi Hx]. apply lookup_seq in Hi as [-> _]. done.
Qed.

Lemma lookup_enumerate {A} (l : list A) i x : l !! i = Some x -> (i, x) ∈ enumerate l.
Proof.
  intros H. apply list_elem_of_lookup. exists i. apply lookup_zip_Some. split; [|done].
  apply lookup_seq. split; [lia|]. by apply lookup_lt_Some in H.
Qed.

Lemma exploration_choice_spec l s i :
  exploration_choice l s = Some i -> exists c, l !! i = Some c /\ wants_exploration c = true.
Proof.
  unfold exploration_choice. destruct (max_by _ _) as [[j c]|] eqn:E; [|done]. intros [= <-].
  apply max_by_elem in E. rewrite list_elem_of_In, filter_In, <- list_elem_of_In in E.
  destruct E as [Hin Hw]. apply enumerate_lookup in Hin. eauto.
Qed.

Lemma exploration_choice_exists l s c :
  c ∈ l -> wants_exploration c = true -> is_some (exploration_choice l s) = true.
Proof.
  intros Hin Hw. apply list_elem_of_lookup in Hin as [i Hi]. apply lookup_enumerate in Hi.
  unfold exploration_choice. destruct (max_by _ _) as [[j d]|] eqn:E; [done|exfalso].
  assert ((i, c) ∈ List.filter (fun p : nat * ScheduleCandidate => wants_exploration p.2) (enumerate l)) as Hf.
  { rewrite list_elem_of_In, filter_In, <- list_elem_of_In. done. }
  destruct (List.filter _ (enumerate l)) as [|p ps]; [set_solver|]. simpl in E.
  destruct (max_by _ ps) as [q|]; [destruct (total_cmp _ _)|]; discriminate.
Qed.

Lemma promote_tail {A} (R : A -> A -> Prop) n (l : list A) :
  StronglySorted R l -> StronglySorted R (tail (promote n l)).
Proof.
  unfold promote. intros H. destruct (l !! n) as [x|] eqn:E; [|clear E; destruct H; [constructor|done]].
  simpl. revert n E. induction H as [|y l HS IH HF]; intros [|n] E; simplify_eq/=; [done|].
  constructor; [by apply IH|]. apply Forall_app. split; [by apply Forall_take|by apply Forall_drop].
Qed.

(** ** Properties *)

(** Both algorithms, under either policy and on every ticket, return exactly the
    nodes they were given: none is lost, duplicated or invented. *)
Theorem order_is_permutation a candidates context policy :
  order a candidates context policy ≡ₚ cnode <$> candidates.
Proof. apply order_perm. Qed.

(** Outside the exploration tickets, projected-completion and speed-first return
    their nodes sorted by their score with the documented tie-breaks, and balanced
    over measured nodes returns one promoted node followed by the rest, still sorted
    by effective capacity (the fastest fallback is not demoted). *)
Theorem order_sorted candidates context :
  sequence context mod 8 <> 0 ->
  (exists l, projected_order candidates context Balanced = cnode <$> l /\ l ≡ₚ candidates /\
     StronglySorted (fun x y => projected_cmp context x y <> Gt) l) /\
  (exists l, current_order candidates context SpeedFirst = cnode <$> l /\ l ≡ₚ candidates /\
     StronglySorted (fun x y => capacity_cmp x y <> Gt) l) /\
  (existsb measured candidates = true ->
   exists l, current_order candidates context Balanced = cnode <$> l /\ l ≡ₚ candidates /\
     StronglySorted (fun x y => capacity_cmp x y <> Gt) (tail l)).
Proof.
  intros Hseq.
  assert (forall l, promote_exploration l (sequence context) = l) as Hpe.
  { intros l. unfold promote_exploration. by rewrite (proj2 (Z.eqb_neq _ _) Hseq). }
  unfold projected_order, current_order, current_base. setoid_rewrite Hpe. repeat split.
  - eexists. split; [done|]. split; [apply sort_by_perm|apply (sort_by_sorted (projected_cmp context))].
  - eexists. split; [done|]. split; [apply sort_by_perm|apply (sort_by_sorted capacity_cmp)].
  - intros ->. eexists. split; [done|]. split; [by rewrite promote_perm, sort_by_perm|].
    apply promote_tail, (sort_by_sorted capacity_cmp).
Qed.

(** Every eighth ticket explores: when some node is measured and an idle unmeasured
    or recently recovered node is available, the first node returned is such a node,
    under both algorithms and policies. *)
Theorem exploration_lane a candidates context policy :
  sequence context mod 8 = 0 ->
  existsb measured candidates = true -> existsb wants_exploration candidates = true ->
  exists c, c ∈ candidates /\ wants_exploration c = true /\
    head (order a candidates context policy) = Some (cnode c).
Proof.
  intros Hseq Hm Hw.
  assert (forall l, l ≡ₚ candidates ->
    exists c, c ∈ candidates /\ wants_exploration c = true /\
      head (cnode <$> promote_exploration l (sequence context)) = Some (cnode c)) as Hgen.
  { intros l Hl. unfold promote_exploration. rewrite Hseq. simpl.
    replace (existsb measured l) with true.
    2: { symmetry. apply existsb_exists in Hm as (x & Hx & Hmx). apply existsb_exists. exists x.
         split; [|done]. rewrite <- list_elem_of_In in *. by rewrite Hl. }
    simpl. apply existsb_exists in Hw as (x & Hx & Hwx). rewrite <- list_elem_of_In, <- Hl in Hx.
    pose proof (exploration_choice_exists l (sequence context) x Hx Hwx) as Hs.
    destruct (exploration_choice l (sequence context)) as [i|] eqn:E; [|done].
    apply exploration_choice_spec in E as (c & Hc & Hwc). exists c. split.
    - rewrite <- Hl. by apply list_elem_of_lookup_2 in Hc.
    - split; [done|]. unfold promote. by rewrite Hc. }
  destruct a; simpl; unfold current_order, projected_order; apply Hgen.
  - apply current_base_perm.
  - apply sort_by_perm.
Qed.
End Algorithms.

(** ** Witnesses *)

Definition sample_candidate (i : Uuid) (u : string) (speed : Z) (m : bool) : ScheduleCandidate := {|
  cnode := sample_node i u 4 speed; capacity_bps := f64_of_Z speed; latency_ms := 10;
  success_rate := f64_of_Z 1; active := 0; cmax_concurrency := 4; measured := m;
  recently_recovered := false |}.

Definition sample_candidates : list ScheduleCandidate :=
  [sample_candidate 1 "https://a/" 1000000 true; sample_candidate 2 "https://b/" 5000000 true;
   sample_candidate 3 "https://c/" 0 false].

Definition sample_context (s : Z) : ScheduleContext :=
  {| sequence := s; blob_size := 1000; range_required := false; chunk := None |}.

Lemma order_sorted_witness :
  (exists l, projected_order sample_candidates (sample_context 3) Balanced = cnode <$> l /\
     l ≡ₚ sample_candidates /\
     StronglySorted (fun x y => projected_cmp (sample_context 3) x y <> Gt) l) /\
  (exists l, current_order (fun x => x) sample_candidates (sample_context 3) SpeedFirst = cnode <$> l /\
     l ≡ₚ sample_candidates /\ StronglySorted (fun x y => capacity_cmp x y <> Gt) l) /\
  (existsb measured sample_candidates = true ->
   exists l, current_order (fun x => x) sample_candidates (sample_context 3) Balanced = cnode <$> l /\
     l ≡ₚ sample_candidates /\ StronglySorted (fun x y => capacity_cmp x y <> Gt) (tail l)).
Proof. apply order_sorted. vm_compute. discriminate. Defined.

Lemma exploration_lane_witness :
  exists c, c ∈ sample_candidates /\ wants_exploration c = true /\
    head (order (fun x => x) CurrentAlgorithm sample_candidates (sample_context 8) SpeedFirst)
      = Some (cnode c).
Proof. apply exploration_lane; reflexivity. Defined.

End Scheduling.
