(* ===== verification/Selection.v ===== *)
(** * Node selection

    src/src/node_selection.rs: the speed window of every node, failure cooldowns,
    the recovery lane and the snapshot handed to the scheduling algorithm.
    Instants and durations are nanoseconds; a method reads the clock once per
    call here ([now]).  The [backoff] crate is a parameter of the model. *)

From stdpp Require Import base gmap sets list strings.
From Stdlib Require Import ZArith Lia Sorted.
From S2P Require Import Prelude F64 Errors Budget Model Scheduling.

Definition second : Z := 1000000000.
Definition millisecond : Z := 1000000.

(** [Duration::as_secs_f64]. *)
Definition as_secs_f64 (d : Z) : f64 :=
  (f64_of_Z (d / second) + f64_of_Z (d mod second) / f64_of_Z second)%f64.

(** [Instant::duration_since] saturates at zero. *)
Definition duration_since (now at_ : Z) : Z := Z.max 0 (now - at_).

Definition SPEED_WINDOW : Z := 60 * second.
Definition MAX_SPEED_SAMPLES : nat := 8.

(** ** The speed window *)

Module SpeedWindow.

Record SpeedSample := { at_ : Z; bps : f64 }.

(** [SpeedWindow]: [samples], oldest first. *)
Abbreviation t := (list SpeedSample).

Definition expired (now : Z) (s : SpeedSample) : bool :=
  SPEED_WINDOW <? duration_since now (at_ s).

(** [prune]: pop expired samples off the front. *)
Fixpoint prune (w : t) (now : Z) : t :=
  match w with
  | [] => []
  | s :: w' => if expired now s then prune w' now else w
  end.

(** [while self.samples.len() > MAX_SPEED_SAMPLES { pop_front }]. *)
Fixpoint pop_excess (w : t) : t :=
  match w with
  | [] => []
  | _ :: w' => if (MAX_SPEED_SAMPLES <? length w)%nat then pop_excess w' else w
  end.

Definition record (w : t) (now : Z) (b : f64) : t :=
  pop_excess (prune (w ++ [{| at_ := now; bps := b |}]) now).

(** The outlier rule of [estimate] on the sorted values. *)
Definition trim_outlier (values : list f64) : list f64 :=
  if (5 <=? length values)%nat then
    match values !! (length values / 2)%nat with
    | Some median =>
        let highest := unwrap_or (last values) median in
        if flt (f64_of_Z 0) median && flt (median * f64_of_Z 4)%f64 highest
        then take (length values - 1) values else values
    | None => values
    end
  else values.

(** [estimate]; the pruned window is kept. *)
Definition estimate (w : t) (now : Z) : option f64 * t :=
  let w := prune w now in
  match w with
  | [] => (None, w)
  | _ =>
      let values := trim_outlier (sort_by total_cmp (bps <$> w)) in
      (Some (fsum values / f64_of_Z (Z.of_nat (length values)))%f64, w)
  end.

(** *** The window as a view of the node's history

    The reference definition: the samples among the newest eight of the whole
    history that are at most sixty seconds old. *)

Definition newest {A} (n : nat) (l : list A) : list A := drop (length l - n) l.

Definition view (history : t) (now : Z) : t :=
  List.filter (fun s => negb (expired now s)) (newest MAX_SPEED_SAMPLES history).

Definition time_sorted (w : t) : Prop := StronglySorted Z.le (at_ <$> w).

Lemma expired_mono now s s' : at_ s <= at_ s' -> expired now s' = true -> expired now s = true.
Proof. unfold expired, duration_since. intros ? ?%Z.ltb_lt. apply Z.ltb_lt. lia. Qed.

Lemma expired_later now now' s : now <= now' -> expired now s = true -> expired now' s = true.
Proof. unfold expired, duration_since. intros ? ?%Z.ltb_lt. apply Z.ltb_lt. lia. Qed.

Lemma time_sorted_cons s w :
  time_sorted (s :: w) <-> time_sorted w /\ Forall (fun s' => at_ s <= at_ s') w.
Proof.
  unfold time_sorted. simpl. split.
  - intros H. apply StronglySorted_inv in H as [? Hf]. by rewrite Forall_fmap in Hf.
  - intros [? ?]. constructor; [done|]. by rewrite Forall_fmap.
Qed.

Lemma prune_filter w now :
  time_sorted w -> prune w now = List.filter (fun s => negb (expired now s)) w.
Proof.
  induction w as [|s w IH]; [done|]. intros [Hw Hs]%time_sorted_cons. simpl.
  destruct (expired now s) eqn:E; simpl; [by apply IH|]. f_equal.
  clear IH Hw. induction Hs as [|s' w Hle Hs IH]; simpl; [done|].
  destruct (expired now s') eqn:E'; simpl; [|by rewrite <- IH].
  apply (expired_mono now s) in E'; congruence.
Qed.

Lemma pop_excess_newest w : pop_excess w = newest MAX_SPEED_SAMPLES w.
Proof.
  unfold newest. induction w as [|s w IH]; [done|]. cbn [pop_excess length].
  destruct (Nat.ltb_spec MAX_SPEED_SAMPLES (S (length w))).
  - rewrite IH. replace (S (length w) - MAX_SPEED_SAMPLES)%nat with (S (length w - MAX_SPEED_SAMPLES)) by lia.
    done.
  - by replace (S (length w) - MAX_SPEED_SAMPLES)%nat with 0%nat by lia.
Qed.

Lemma newest_idem_app {A} n (l : list A) x : (0 < n)%nat ->
  newest n (newest n l ++ [x]) = newest n (l ++ [x]).
Proof.
  intros Hn. unfold newest. rewrite !length_app, length_drop. simpl.
  destruct (decide (length l <= n)%nat).
  - replace (length l - n)%nat with 0%nat by lia. by rewrite drop_0, Nat.sub_0_r.
  - rewrite !drop_app_le by (rewrite ?length_drop; lia). rewrite drop_drop. f_equal. f_equal. lia.
Qed.

Lemma newest_length {A} n (l : list A) : (length (newest n l) <= n)%nat.
Proof. unfold newest. rewrite length_drop. lia. Qed.

Lemma time_sorted_drop w n : time_sorted w -> time_sorted (drop n w).
Proof.
  revert w. induction n as [|n IH]; intros [|s w] H; simpl; try done.
  apply IH. by apply time_sorted_cons in H as [? _].
Qed.

Lemma time_sorted_snoc w s : time_sorted w -> Forall (fun s' => at_ s' <= at_ s) w -> time_sorted (w ++ [s]).
Proof.
  induction w as [|s0 w IH]; simpl; intros Hs Hf; [repeat constructor|].
  apply time_sorted_cons in Hs as [? ?]. inversion Hf; subst.
  apply time_sorted_cons. split; [by apply IH|]. apply Forall_app. auto.
Qed.

(** On a sorted window, dropping the expired samples and keeping the newest ones commute. *)
Lemma filter_newest now n w : time_sorted w ->
  newest n (List.filter (fun s => negb (expired now s)) w) =
  List.filter (fun s => negb (expired now s)) (newest n w).
Proof.
  induction w as [|s w IH]; [done|]. intros [Hw Hs]%time_sorted_cons. specialize (IH Hw).
  destruct (expired now s) eqn:E.
  - cbn [List.filter]. rewrite E. simpl negb. cbv iota. rewrite IH. unfold newest. cbn [length].
    destruct (decide (length w < n)%nat).
    + replace (S (length w) - n)%nat with 0%nat by lia.
      replace (length w - n)%nat with 0%nat by lia. simpl. by rewrite E.
    + by replace (S (length w) - n)%nat with (S (length w - n)) by lia.
  - assert (forall l, Forall (fun s' => at_ s <= at_ s') l ->
       List.filter (fun s => negb (expired now s)) l = l) as Hall.
    { intros l Hl. induction Hl as [|s' l Hle Hl IHl]; [done|]. simpl.
      destruct (expired now s') eqn:E'; simpl; [|by rewrite IHl].
      apply (expired_mono now s) in E'; congruence. }
    assert (Forall (fun s' => at_ s <= at_ s') (s :: w)) as Hsw by (constructor; [lia|done]).
    rewrite !Hall; [done| |done]. unfold newest. by apply Forall_drop.
Qed.

Lemma filter_twice now now' (w : t) : now <= now' ->
  List.filter (fun s => negb (expired now' s)) (List.filter (fun s => negb (expired now s)) w) =
  List.filter (fun s => negb (expired now' s)) w.
Proof.
  intros Hle. induction w as [|s w IH]; [done|]. simpl.
  destruct (expired now s) eqn:E; simpl.
  - by rewrite (expired_later now now' s Hle E).
  - by rewrite IH.
Qed.

Lemma time_sorted_filter p w : time_sorted w -> time_sorted (List.filter p w).
Proof.
  induction w as [|s w IH]; [done|]. intros [Hw Hs]%time_sorted_cons. simpl.
  destruct (p s); [|by apply IH]. apply time_sorted_cons. split; [by apply IH|].
  rewrite Forall_forall in *. intros x. rewrite list_elem_of_In, filter_In, <- list_elem_of_In.
  naive_solver.
Qed.

(** The window of a node is [view] of its history, at some past instant. *)
Definition tracks (w history : t) (now : Z) : Prop :=
  time_sorted history /\ Forall (fun s => at_ s <= now) history /\
  exists past, past <= now /\ w = view history past.

Lemma tracks_empty now : tracks [] [] now.
Proof. split; [constructor|]. split; [constructor|]. exists now. done. Qed.

Lemma tracks_later w h now now' : now <= now' -> tracks w h now -> tracks w h now'.
Proof.
  intros Hle (Hs & Hf & past & ? & ->). split; [done|]. split.
  - eapply Forall_impl; [exact Hf|]. simpl. lia.
  - exists past. split; [lia|done].
Qed.

Lemma tracks_sorted w h now : tracks w h now -> time_sorted w.
Proof.
  intros (Hs & _ & past & _ & ->). unfold view. apply time_sorted_filter. by apply time_sorted_drop.
Qed.

Lemma tracks_prune w h now : tracks w h now -> prune w now = view h now.
Proof.
  intros Ht. rewrite prune_filter by (by eapply tracks_sorted).
  destruct Ht as (_ & _ & past & ? & ->). unfold view. by rewrite filter_twice.
Qed.

Lemma tracks_pruned w h now : tracks w h now -> tracks (prune w now) h now.
Proof.
  intros Ht. rewrite (tracks_prune _ _ _ Ht). destruct Ht as (? & ? & _).
  split; [done|]. split; [done|]. exists now. done.
Qed.

Lemma tracks_record w h now b :
  tracks w h now -> tracks (record w now b) (h ++ [{| at_ := now; bps := b |}]) now.
Proof.
  intros Ht. pose proof (tracks_sorted _ _ _ Ht) as Hw.
  destruct Ht as (Hs & Hf & past & Hpast & Hv).
  assert (time_sorted (h ++ [{| at_ := now; bps := b |}])) as Hs' by (by apply time_sorted_snoc).
  split; [done|]. split; [apply Forall_app; split; [done|by repeat constructor]|].
  exists now. split; [lia|]. unfold record.
  assert (Forall (fun s => at_ s <= now) w) as Hfw.
  { rewrite Hv. unfold view, newest. apply (Forall_drop _ (length h - MAX_SPEED_SAMPLES)) in Hf.
    rewrite Forall_forall in *. intros x.
    rewrite list_elem_of_In, filter_In, <- list_elem_of_In. intros [Hx _]. by apply Hf. }
  rewrite prune_filter by (by apply time_sorted_snoc).
  rewrite pop_excess_newest, List.filter_app, Hv. unfold view.
  rewrite filter_twice by done.
  rewrite <- (newest_idem_app MAX_SPEED_SAMPLES h) by (unfold MAX_SPEED_SAMPLES; lia).
  rewrite <- (filter_newest now _ (newest MAX_SPEED_SAMPLES h ++ _)) by
    (apply time_sorted_snoc; [by apply time_sorted_drop|by apply Forall_drop]).
  by rewrite List.filter_app.
Qed.
End SpeedWindow.

(** ** The selector *)

Module Selection.
Import Scheduling.

Section Selector.
(** [f64::ln], and the [backoff] crate: the state a fresh
    [ExponentialBackoffBuilder] (250 ms initial, 10 s maximum, no jitter, no
    deadline) builds, and [next_backoff]. *)
Variable ln : f64 -> f64.
Context {Backoff : Type}.
Variable new_backoff : Backoff.
Variable next_backoff : Backoff -> option Z * Backoff.

Record FailureState := { backoff : Backoff; cooldown_until : Z }.

Record NodeSelector := {
  speeds : gmap Uuid SpeedWindow.t;
  capacity : Capacity.NodeCapacity;
  failures : gmap Uuid FailureState;
  recovered : gmap Uuid Z;
  algorithm : Algorithm
}.

(** [NodeSelector::with_capacity]. *)
Definition with_capacity (a : Algorithm) (c : Capacity.NodeCapacity) : NodeSelector :=
  {| speeds := ∅; capacity := c; failures := ∅; recovered := ∅; algorithm := a |}.

Definition set_speeds (s : NodeSelector) (m : gmap Uuid SpeedWindow.t) : NodeSelector :=
  {| speeds := m; capacity := capacity s; failures := failures s;
     recovered := recovered s; algorithm := algorithm s |}.

(** [set_algorithm]. *)
Definition set_algorithm (s : NodeSelector) (a : Algorithm) : NodeSelector :=
  {| speeds := speeds s; capacity := capacity s; failures := failures s;
     recovered := recovered s; algorithm := a |}.

Definition set_capacity (s : NodeSelector) (c : Capacity.NodeCapacity) : NodeSelector :=
  {| speeds := speeds s; capacity := c; failures := failures s;
     recovered := recovered s; algorithm := algorithm s |}.

(** [NodeSelector::try_acquire]. *)
Definition selector_try_acquire (s : NodeSelector) (id : Uuid) (maxc : Z) : option Uuid * NodeSelector :=
  let (lease, c) := Capacity.try_acquire (capacity s) id maxc in (lease, set_capacity s c).

Definition is_cooling (s : NodeSelector) (id : Uuid) (now : Z) : bool :=
  is_some_and (failures s !! id) (fun f => now <? cooldown_until f).

Definition cooling_count (s : NodeSelector) (now : Z) : nat :=
  size (filter (fun p : Uuid * FailureState => now < cooldown_until p.2) (failures s)).

Definition window_of (s : NodeSelector) (id : Uuid) : SpeedWindow.t := unwrap_or (speeds s !! id) [].

(** [speeds.entry(id).or_insert_with(default).record(now, b)]. *)
Definition record_speed (s : NodeSelector) (id : Uuid) (now : Z) (b : f64) : NodeSelector :=
  set_speeds s (<[id := SpeedWindow.record (window_of s id) now b]> (speeds s)).

(** The failure half of [observe]. *)
Definition observe_failure (s : NodeSelector) (id : Uuid) (now : Z) : NodeSelector :=
  let s := record_speed s id now (f64_of_Z 0) in
  let failure := unwrap_or (failures s !! id) {| backoff := new_backoff; cooldown_until := now |} in
  let (delay, b) := next_backoff (backoff failure) in
  {| speeds := speeds s; capacity := capacity s;
     failures := <[id := {| backoff := b; cooldown_until := now + unwrap_or delay (10 * second) |}]> (failures s);
     recovered := delete id (recovered s); algorithm := algorithm s |}.

(** The success half of [observe]. *)
Definition observe_success (s : NodeSelector) (id : Uuid) (bytes elapsed now : Z) : NodeSelector :=
  let s := {| speeds := speeds s; capacity := capacity s; failures := delete id (failures s);
              recovered := if is_some (failures s !! id)
                           then <[id := now + 30 * second]> (recovered s) else recovered s;
              algorithm := algorithm s |} in
  if (0 <? bytes) && flt (f64_of_Z 0) (as_secs_f64 elapsed)
  then record_speed s id now (f64_of_Z bytes / as_secs_f64 elapsed)%f64
  else s.

(** [observe]. *)
Definition observe (s : NodeSelector) (id : Uuid) (bytes elapsed : Z) (success : bool) (now : Z)
    : NodeSelector :=
  if success then observe_success s id bytes elapsed now else observe_failure s id now.

(** [measured_speed]: the estimate prunes the stored window. *)
Definition measured_speed (s : NodeSelector) (v : NodeView) (now : Z) : f64 * NodeSelector :=
  let fallback := f64_of_Z (Z.max 0 (Metric.speed_bps (metric v))) in
  match speeds s !! node_id v with
  | None => (fallback, s)
  | Some w =>
      let (e, w') := SpeedWindow.estimate w now in
      (unwrap_or e fallback, set_speeds s (<[node_id v := w']> (speeds s)))
  end.

(** The snapshot of one node. *)
Definition candidate_of (s : NodeSelector) (v : NodeView) (now : Z) : ScheduleCandidate * NodeSelector :=
  let (speed, s') := measured_speed s v now in
  ({| cnode := v; capacity_bps := speed;
      latency_ms := Z.max 0 (Metric.latency_ms (metric v));
      success_rate := Metric.success_rate (metric v);
      active := Capacity.active_of (capacity s') (node_id v);
      cmax_concurrency := max_concurrency v;
      measured := is_some (speeds s' !! node_id v) || (0 <? Metric.speed_bps (metric v));
      recently_recovered := is_some_and (recovered s' !! node_id v) (fun until => now <? until) |}, s').

Fixpoint candidates_of (s : NodeSelector) (l : list NodeView) (now : Z)
    : list ScheduleCandidate * NodeSelector :=
  match l with
  | [] => ([], s)
  | v :: l' =>
      let (c, s1) := candidate_of s v now in
      let (cs, s2) := candidates_of s1 l' now in (c :: cs, s2)
  end.

Definition enabled_view (v : NodeView) : bool :=
  Node.enabled (node v) && RouteSummary.enabled (route v).

(** The enabled nodes, without the cooling ones when any other is left. *)
Definition eligible (s : NodeSelector) (nodes : list NodeView) (now : Z) : list NodeView :=
  let candidates := List.filter enabled_view nodes in
  let ready := List.filter (fun v => negb (is_cooling s (node_id v) now)) candidates in
  match ready with [] => candidates | _ => ready end.

(** [order_with_context]. *)
Definition order_with_context (s : NodeSelector) (nodes : list NodeView) (context : ScheduleContext)
    (policy : SchedulerPolicy) (now : Z) : list NodeView * NodeSelector :=
  let (candidates, s') := candidates_of s (eligible s nodes now) now in
  (order ln (algorithm s') candidates context policy, s').

(** ** The selector over time *)

(** A history of every node's recorded samples, with the selector state and the clock. *)
Record run := { sel : NodeSelector; clock : Z; history : Uuid -> SpeedWindow.t }.

Definition remember (h : Uuid -> SpeedWindow.t) (id : Uuid) (now : Z) (b : f64) : Uuid -> SpeedWindow.t :=
  fun j => if bool_decide (j = id) then h j ++ [{| SpeedWindow.at_ := now; SpeedWindow.bps := b |}] else h j.

(** The sample an observation contributes to the history, if any. *)
Definition sample_of (bytes elapsed : Z) (success : bool) : option f64 :=
  if success then
    if (0 <? bytes) && flt (f64_of_Z 0) (as_secs_f64 elapsed)
    then Some (f64_of_Z bytes / as_secs_f64 elapsed)%f64 else None
  else Some (f64_of_Z 0).

(** The selector's public operations, in any order, at non-decreasing instants. *)
Inductive step : run -> run -> Prop :=
| StepTick r now : clock r <= now ->
    step r {| sel := sel r; clock := now; history := history r |}
| StepObserve r id bytes elapsed success :
    step r {| sel := observe (sel r) id bytes elapsed success (clock r); clock := clock r;
              history := match sample_of bytes elapsed success with
                         | Some b => remember (history r) id (clock r) b
                         | None => history r
                         end |}
| StepOrder r nodes context policy :
    step r {| sel := (order_with_context (sel r) nodes context policy (clock r)).2;
              clock := clock r; history := history r |}
| StepAcquire r id maxc :
    step r {| sel := (selector_try_acquire (sel r) id maxc).2; clock := clock r; history := history r |}
| StepRelease r id :
    step r {| sel := set_capacity (sel r) (Capacity.drop_lease (capacity (sel r)) id);
              clock := clock r; history := history r |}
| StepAlgorithm r a :
    step r {| sel := set_algorithm (sel r) a; clock := clock r; history := history r |}.

Definition start (a : Algorithm) (c : Capacity.NodeCapacity) (now : Z) : run :=
  {| sel := with_capacity a c; clock := now; history := fun _ => [] |}.

Definition reachable (a : Algorithm) (c : Capacity.NodeCapacity) (now : Z) : run -> Prop :=
  rtc step (start a c now).

(** The backoff states that occur: the fresh one and those [next_backoff] leaves. *)
Inductive issued : Backoff -> Prop :=
| issued_new : issued new_backoff
| issued_next b : issued b -> issued (next_backoff b).2.

(** Documented behaviour of the crate: without jitter every interval it returns
    is positive and at most the configured maximum. *)
Definition intervals_bounded : Prop :=
  forall b d, issued b -> (next_backoff b).1 = Some d -> 0 < d <= 10 * second.

Definition speeds_track (r : run) : Prop :=
  forall id, SpeedWindow.tracks (window_of (sel r) id) (history r id) (clock r).

Definition cooldowns_ok (s : NodeSelector) (now : Z) : Prop :=
  map_Forall (fun _ f => issued (backoff f) /\ cooldown_until f <= now + 10 * second) (failures s).

(** ** Lemmas *)

Lemma window_of_record s id now b j :
  window_of (record_speed s id now b) j =
  if bool_decide (j = id) then SpeedWindow.record (window_of s id) now b else window_of s j.
Proof.
  unfold window_of, record_speed. simpl. case_bool_decide; [subst; by rewrite lookup_insert_eq|].
  by rewrite lookup_insert_ne.
Qed.

Lemma window_of_observe s id bytes elapsed success now j :
  window_of (observe s id bytes elapsed success now) j =
  match sample_of bytes elapsed success with
  | Some b => if bool_decide (j = id) then SpeedWindow.record (window_of s id) now b else window_of s j
  | None => window_of s j
  end.
Proof.
  unfold observe, sample_of. destruct success.
  - unfold observe_success. destruct (_ && _); [|done]. by rewrite window_of_record.
  - unfold observe_failure. simpl. destruct (next_backoff _) as [d b].
    apply (window_of_record s id now (f64_of_Z 0) j).
Qed.

Lemma measured_speed_frame s v now :
  failures (measured_speed s v now).2 = failures s /\ capacity (measured_speed s v now).2 = capacity s /\
  recovered (measured_speed s v now).2 = recovered s /\ algorithm (measured_speed s v now).2 = algorithm s /\
  forall j, window_of (measured_speed s v now).2 j = window_of s j \/
            window_of (measured_speed s v now).2 j = SpeedWindow.prune (window_of s j) now.
Proof.
  unfold measured_speed. destruct (speeds s !! node_id v) as [w|] eqn:E; [|simpl; auto 10].
  unfold SpeedWindow.estimate. set (w' := SpeedWindow.prune w now).
  assert (forall e, window_of (set_speeds s (<[node_id v := w']> (speeds s))) e = window_of s e \/
    window_of (set_speeds s (<[node_id v := w']> (speeds s))) e = SpeedWindow.prune (window_of s e) now) as H.
  { intros j. unfold window_of, set_speeds. cbn [speeds]. destruct (decide (j = node_id v)) as [->|Hne].
    - right. rewrite lookup_insert_eq.
      by rewrite E.
    - left. by rewrite lookup_insert_ne. }
  destruct w' as [|x w'']; simpl; auto 10.
Qed.

Lemma candidates_of_frame l s now :
  failures (candidates_of s l now).2 = failures s /\ algorithm (candidates_of s l now).2 = algorithm s /\
  cnode <$> (candidates_of s l now).1 = l.
Proof.
  revert s. induction l as [|v l IH]; intros s; simpl; [done|].
  pose proof (measured_speed_frame s v now) as (Hf & Hc & Hr & Ha & Hw).
  unfold candidate_of. destruct (measured_speed s v now) as [sp s1]. simpl in *.
  specialize (IH s1) as (If & Ia & Ic). destruct (candidates_of s1 l now) as [cs s2]. simpl in *.
  split; [congruence|]. split; [congruence|]. f_equal. exact Ic.
Qed.

Lemma candidates_of_tracks l s now (h : Uuid -> SpeedWindow.t) :
  (forall id, SpeedWindow.tracks (window_of s id) (h id) now) ->
  forall id, SpeedWindow.tracks (window_of (candidates_of s l now).2 id) (h id) now.
Proof.
  revert s. induction l as [|v l IH]; intros s Hs id; simpl; [done|].
  pose proof (measured_speed_frame s v now) as (_ & _ & _ & _ & Hw).
  unfold candidate_of. destruct (measured_speed s v now) as [sp s1]. simpl in *.
  assert (forall j, SpeedWindow.tracks (window_of s1 j) (h j) now) as H1.
  { intros j. destruct (Hw j) as [->| ->]; [done|]. by apply SpeedWindow.tracks_pruned. }
  specialize (IH s1 H1 id). destruct (candidates_of s1 l now) as [cs s2]. done.
Qed.

Lemma step_speeds_track r r' : step r r' -> speeds_track r -> speeds_track r'.
Proof.
  intros Hstep Hr id. specialize (Hr id) as Hid. destruct Hstep; simpl.
  - by eapply SpeedWindow.tracks_later.
  - rewrite window_of_observe. destruct (sample_of _ _ _) as [b|]; [|done].
    unfold remember. case_bool_decide; [subst|done]. by apply SpeedWindow.tracks_record.
  - unfold order_with_context. pose proof (candidates_of_tracks
      (eligible (sel r) nodes (clock r)) (sel r) (clock r) (history r) Hr id) as H.
    destruct (candidates_of _ _ _). done.
  - unfold selector_try_acquire. destruct (Capacity.try_acquire _ _ _). done.
  - done.
  - done.
Qed.

(** A failure installs one cooldown, of a positive and bounded delay. *)
Lemma observe_failure_shape s id now :
  intervals_bounded -> cooldowns_ok s now ->
  exists f delay, failures (observe_failure s id now) = <[id := f]> (failures s) /\
    recovered (observe_failure s id now) = delete id (recovered s) /\
    issued (backoff f) /\ cooldown_until f = now + delay /\ 0 < delay <= 10 * second.
Proof.
  intros Hb Hc. unfold observe_failure. simpl. set (f0 := unwrap_or _ _).
  assert (issued (backoff f0)) as Hi.
  { unfold f0. destruct (failures s !! id) as [f|] eqn:E; [|constructor]. by apply (Hc id f). }
  pose proof (Hb (backoff f0)) as Hd. pose proof (issued_next _ Hi) as Hn.
  destruct (next_backoff (backoff f0)) as [d b]. simpl in *.
  eexists _, _. split_and!; [done..| |]; destruct d as [d|]; simpl; unfold second in *; try lia;
    specialize (Hd d Hi eq_refl); lia.
Qed.

Lemma observe_failures s id bytes elapsed success now :
  failures (observe s id bytes elapsed success now) =
  if success then delete id (failures s) else failures (observe_failure s id now).
Proof. destruct success; unfold observe, observe_success; [|done]. by destruct (_ && _). Qed.

Lemma observe_success_recovered s id bytes elapsed now :
  recovered (observe s id bytes elapsed true now) =
  if is_some (failures s !! id) then <[id := now + 30 * second]> (recovered s) else recovered s.
Proof. unfold observe, observe_success. by destruct (_ && _). Qed.

Lemma observe_cooldowns s id bytes elapsed success now :
  intervals_bounded -> cooldowns_ok s now -> cooldowns_ok (observe s id bytes elapsed success now) now.
Proof.
  intros Hb Hs j f. rewrite observe_failures. destruct success.
  - intros [_ Hj]%lookup_delete_Some. by apply (Hs j).
  - destruct (observe_failure_shape s id now Hb Hs) as (f' & d & -> & _ & ? & ? & ?).
    intros [[<- <-]|[_ Hj]]%lookup_insert_Some; [|by apply (Hs j)]. split; [done|lia].
Qed.

Lemma step_cooldowns r r' :
  intervals_bounded -> step r r' -> cooldowns_ok (sel r) (clock r) -> cooldowns_ok (sel r') (clock r').
Proof.
  intros Hb Hstep Hr. destruct Hstep; simpl; try done.
  - intros j f Hj. destruct (Hr j f Hj). split; [done|lia].
  - by apply observe_cooldowns.
  - unfold order_with_context.
    pose proof (candidates_of_frame (eligible (sel r) nodes (clock r)) (sel r) (clock r)) as [Hf _].
    destruct (candidates_of _ _ _) as [cs s']. simpl in *. unfold cooldowns_ok. by rewrite Hf.
  - unfold selector_try_acquire. destruct (Capacity.try_acquire _ _ _). done.
Qed.

Lemma reachable_inv a c now r :
  intervals_bounded -> reachable a c now r -> speeds_track r /\ cooldowns_ok (sel r) (clock r).
Proof.
  intros Hb Hr. unfold reachable in Hr. remember (start a c now) as r0 eqn:E0.
  assert (speeds_track r0 /\ cooldowns_ok (sel r0) (clock r0)) as H0.
  { subst. split; [|done]. intros id. unfold window_of. simpl. rewrite lookup_empty.
    apply SpeedWindow.tracks_empty. }
  clear E0. induction Hr as [|r0 r1 r2 Hs _ IH]; [done|]. apply IH.
  destruct H0. split; [by eapply step_speeds_track|by eapply step_cooldowns].
Qed.

Lemma eligible_spec s nodes now v :
  v ∈ eligible s nodes now <->
  v ∈ nodes /\ enabled_view v = true /\
  (is_cooling s (node_id v) now = false \/
   forall u, u ∈ nodes -> enabled_view u = true -> is_cooling s (node_id u) now = true).
Proof.
  set (ready := List.filter (fun v => negb (is_cooling s (node_id v) now)) (List.filter enabled_view nodes)).
  assert (forall u, u ∈ ready <-> u ∈ nodes /\ enabled_view u = true /\ is_cooling s (node_id u) now = false) as Hready.
  { intros u. unfold ready. rewrite list_elem_of_In, !filter_In, <- list_elem_of_In, negb_true_iff. tauto. }
  unfold eligible. fold ready. destruct ready as [|r l] eqn:El.
  - rewrite list_elem_of_In, filter_In, <- list_elem_of_In. split; [|tauto]. intros [? ?].
    split; [done|]. split; [done|]. right. intros u Hu Hen. specialize (Hready u).
    destruct (is_cooling s (node_id u) now); [done|]. set_solver.
  - rewrite Hready. split; [tauto|]. intros (? & ? & [?|Hall]); [done|].
    assert (r ∈ r :: l) as Hr by set_solver. apply Hready in Hr as (? & ? & Hr).
    rewrite Hall in Hr; done.
Qed.

(** ** Properties *)

(** In every run the samples an estimate averages are exactly the node's newest
    eight observations that are at most sixty seconds old, oldest first, whatever
    the pruning that happened before: the incremental window implements the view
    of the full history. *)
Theorem window_tracks_history a c now r id :
  intervals_bounded -> reachable a c now r ->
  SpeedWindow.estimate (window_of (sel r) id) (clock r) =
  SpeedWindow.estimate (SpeedWindow.view (history r id) (clock r)) (clock r) /\
  (length (window_of (sel r) id) <= MAX_SPEED_SAMPLES)%nat.
Proof.
  intros Hb Hr. destruct (reachable_inv _ _ _ _ Hb Hr) as [Ht _]. specialize (Ht id). split.
  - pose proof (SpeedWindow.tracks_prune _ _ _ Ht) as Hp.
    pose proof (SpeedWindow.tracks_prune _ _ _ (SpeedWindow.tracks_pruned _ _ _ Ht)) as Hpp.
    unfold SpeedWindow.estimate. by rewrite <- Hp, Hpp, Hp.
  - destruct Ht as (_ & _ & past & _ & ->). unfold SpeedWindow.view.
    etransitivity; [apply filter_length_le|apply SpeedWindow.newest_length].
Qed.

(** The order returned is a permutation of the eligible nodes: enabled nodes of
    enabled routes, without the ones in cooldown unless every enabled node is in
    cooldown, in which case none is dropped. *)
Theorem selection_excludes_cooling s nodes context policy now :
  (order_with_context s nodes context policy now).1 ≡ₚ eligible s nodes now /\
  forall v, v ∈ (order_with_context s nodes context policy now).1 <->
    v ∈ nodes /\ enabled_view v = true /\
    (is_cooling s (node_id v) now = false \/
     forall u, u ∈ nodes -> enabled_view u = true -> is_cooling s (node_id u) now = true).
Proof.
  assert ((order_with_context s nodes context policy now).1 ≡ₚ eligible s nodes now) as Hp.
  { unfold order_with_context.
    pose proof (candidates_of_frame (eligible s nodes now) s now) as (_ & _ & Hc).
    destruct (candidates_of s (eligible s nodes now) now) as [cs s']. simpl in *.
    rewrite order_perm. by rewrite Hc. }
  split; [done|]. intros v. rewrite Hp. apply eligible_spec.
Qed.

(** What an observation does to a node's standing: a failure puts it in cooldown
    for a positive delay of at most ten seconds and takes it out of the recovery
    lane; a success ends its cooldown, and gives it thirty seconds in the recovery
    lane when a failure was outstanding.  Other nodes keep their standing. *)
Theorem observe_standing a c t0 r id bytes elapsed t j :
  intervals_bounded -> reachable a c t0 r ->
  let s := sel r in let now := clock r in
  (exists delay, 0 < delay <= 10 * second /\
     is_cooling (observe s id bytes elapsed false now) id t = (t <? now + delay)) /\
  recovered (observe s id bytes elapsed false now) !! id = None /\
  is_cooling (observe s id bytes elapsed true now) id t = false /\
  recovered (observe s id bytes elapsed true now) !! id =
    (if is_some (failures s !! id) then Some (now + 30 * second) else recovered s !! id) /\
  (j <> id -> forall success,
     is_cooling (observe s id bytes elapsed success now) j t = is_cooling s j t /\
     recovered (observe s id bytes elapsed success now) !! j = recovered s !! j).
Proof.
  intros Hb Hr s now. destruct (reachable_inv _ _ _ _ Hb Hr) as [_ Hc]. fold s now in Hc.
  destruct (observe_failure_shape s id now Hb Hc) as (f & delay & Hff & Hrf & _ & Hd & Hpos).
  unfold is_cooling. split; [|split; [|split; [|split]]].
  - exists delay. split; [done|]. rewrite observe_failures, Hff, lookup_insert_eq. simpl. by rewrite Hd.
  - unfold observe. rewrite Hrf. apply lookup_delete_eq.
  - by rewrite observe_failures, lookup_delete_eq.
  - rewrite observe_success_recovered. destruct (is_some _); [apply lookup_insert_eq|done].
  - intros Hne success. rewrite observe_failures. destruct success; split.
    + by rewrite lookup_delete_ne.
    + rewrite observe_success_recovered. destruct (is_some _); by rewrite ?lookup_insert_ne.
    + by rewrite Hff, lookup_insert_ne.
    + unfold observe. by rewrite Hrf, lookup_delete_ne.
Qed.

(** C40: No node is locked out: in every run, ten seconds after its last observation
    at the latest a node is out of cooldown. *)
Theorem cooldown_expires a c now r id t :
  intervals_bounded -> reachable a c now r -> clock r + 10 * second <= t ->
  is_cooling (sel r) id t = false.
Proof.
  intros Hb Hr Ht. destruct (reachable_inv _ _ _ _ Hb Hr) as [_ Hc]. unfold is_cooling.
  destruct (failures (sel r) !! id) as [f|] eqn:E; [|done]. simpl.
  destruct (Hc id f E). apply Z.ltb_ge. lia.
Qed.
End Selector.

(** ** Witnesses: the interval sequence of the crate, 250 ms growing by half to 10 s *)

Definition sample_next (n : nat) : option Z * nat :=
  (Some (Z.min (10 * second) (250 * millisecond * 3 ^ Z.of_nat n / 2 ^ Z.of_nat n)), S n).

Lemma sample_bounded : intervals_bounded 0%nat sample_next.
Proof.
  intros n d _ [= <-]. unfold second, millisecond.
  assert (1 <= 250 * 1000000 * 3 ^ Z.of_nat n / 2 ^ Z.of_nat n).
  { apply Z.div_le_lower_bound; [apply Z.pow_pos_nonneg; lia|].
    pose proof (Z.pow_le_mono_l 2 3 (Z.of_nat n)). lia. }
  lia.
Qed.

Definition sample_nodes : list NodeView :=
  [sample_node 1 "https://a/" 4 1000; sample_node 2 "https://b/" 4 1000].

(** One failure of node 1, then a success of node 2. *)
Definition sample_run : run :=
  let s0 := with_capacity CurrentAlgorithm Capacity.initial in
  let h0 := fun _ => [] in
  {| sel := observe 0%nat sample_next (observe 0%nat sample_next s0 1 0 0 false 5) 2 1024 second true 5;
     clock := 5;
     history := remember (remember h0 1 5 (f64_of_Z 0)) 2 5
                  (f64_of_Z 1024 / as_secs_f64 second)%f64 |}.

Lemma sample_reachable :
  reachable (fun x => x) 0%nat sample_next CurrentAlgorithm Capacity.initial 5 sample_run.
Proof.
  eapply rtc_l; [apply (StepObserve _ _ _ (start CurrentAlgorithm Capacity.initial 5) 1 0 0 false)|].
  eapply rtc_l; [apply (StepObserve _ _ _ _ 2 1024 second true)|].
  apply rtc_refl.
Qed.

Lemma window_tracks_history_witness :
  SpeedWindow.estimate (window_of (sel sample_run) 2) (clock sample_run) =
  SpeedWindow.estimate (SpeedWindow.view (history sample_run 2) (clock sample_run)) (clock sample_run) /\
  (length (window_of (sel sample_run) 2) <= MAX_SPEED_SAMPLES)%nat.
Proof.
  apply (window_tracks_history (fun x => x) 0%nat sample_next CurrentAlgorithm Capacity.initial 5).
  - exact sample_bounded.
  - exact sample_reachable.
Defined.

Lemma observe_standing_witness :
  is_cooling (observe 0%nat sample_next (sel sample_run) 1 10 second true 5) 1 6 = false /\
  is_cooling (sel sample_run) 1 6 = true.
Proof.
  split; [|reflexivity].
  exact (proj1 (proj2 (proj2 (observe_standing (fun x => x) 0%nat sample_next CurrentAlgorithm
    Capacity.initial 5 sample_run 1 10 second 6 2 sample_bounded sample_reachable)))).
Defined.

Lemma cooldown_expires_witness : is_cooling (sel sample_run) 1 (10 * second + 5) = false.
Proof.
  apply (cooldown_expires (fun x => x) 0%nat sample_next CurrentAlgorithm Capacity.initial 5).
  - exact sample_bounded.
  - exact sample_reachable.
  - vm_compute. discriminate.
Defined.
End Selection.
