(* ===== verification/Metrics.v ===== *)
(** * Transfer metrics

    src/src/transfer_metrics.rs: lifetime counters and histograms, and the same
    over a five-minute window kept as a ring of sixty five-second slots.  An
    atomic counter is its value; the slot hand-over ([WindowSlot::prepare]) is
    the outcome of its compare-and-exchange loop.  A generation is the number of
    five-second buckets since start. *)

From stdpp Require Import base gmap sets list strings.
From Stdlib Require Import ZArith Lia SpecFloat.
From S2P Require Import Prelude F64.

Module TransferMetrics.

Definition WINDOW_SECONDS : Z := 5 * 60.
Definition BUCKET_SECONDS : Z := 5.
Definition WINDOW_BUCKETS : nat := Z.to_nat (WINDOW_SECONDS / BUCKET_SECONDS).
Definition HISTOGRAM_BOUNDS_MS : list Z :=
  [1; 5; 10; 25; 50; 100; 250; 500; 1000; 2500; 5000; 10000; 30000; 60000; u64_max].

(** The fields of [Counters] and of [Histograms]. *)
Inductive Counter :=
| blob_get_requests | blob_get_hits | blob_get_misses | blob_head_requests | blob_head_hits
| cache_bytes_served | cache_admissions_started | cache_admissions_succeeded
| cache_admissions_failed | cache_bytes_admitted | upstream_requests | upstream_bytes_fetched.

Inductive HistogramName := cold_ttfb_ms | cold_complete_ms | warm_ttfb_ms | warm_complete_ms.

#[global] Instance Counter_eq_dec : EqDecision Counter.
Proof. solve_decision. Defined.
#[global] Instance HistogramName_eq_dec : EqDecision HistogramName.
Proof. solve_decision. Defined.

Definition Counters := Counter -> Z.
Definition Histogram := list Z.
Definition Histograms := HistogramName -> Histogram.

Definition counters_new : Counters := fun _ => 0.
Definition histogram_new : Histogram := replicate (length HISTOGRAM_BOUNDS_MS) 0.
Definition histograms_new : Histograms := fun _ => histogram_new.

(** [add]: a saturating fetch-and-add. *)
Definition add (c : Counters) (k : Counter) (amount : Z) : Counters :=
  fun j => if bool_decide (j = k) then saturating_add (c j) amount else c j.

(** [Counters::add_snapshot]. *)
Definition counters_add (c other : Counters) : Counters := fun j => saturating_add (c j) (other j).

(** [Histogram::record]: the first bound the duration does not exceed. *)
Fixpoint position_le (ms : Z) (bounds : list Z) : nat :=
  match bounds with
  | [] => 0
  | b :: rest => if ms <=? b then 0 else S (position_le ms rest)
  end.

Definition histogram_record (h : Histogram) (elapsed_ms : Z) : Histogram :=
  let millis := Z.min elapsed_ms u64_max in
  alter (fun n => saturating_add n 1)
    (Nat.min (position_le millis HISTOGRAM_BOUNDS_MS) (length HISTOGRAM_BOUNDS_MS - 1)) h.

Definition histograms_record (h : Histograms) (k : HistogramName) (elapsed_ms : Z) : Histograms :=
  fun j => if bool_decide (j = k) then histogram_record (h j) elapsed_ms else h j.

(** [Histogram::add_snapshot] and [Histograms::add_snapshot]. *)
Definition histograms_add (h other : Histograms) : Histograms :=
  fun j => zip_with saturating_add (h j) (other j).

Record WindowSlot := { generation : Z; counters : Counters; histograms : Histograms }.

Definition slot_new : WindowSlot :=
  {| generation := 0; counters := counters_new; histograms := histograms_new |}.

(** [WindowSlot::prepare]: a slot of an older generation is cleared and restamped.
    An even stamp is stable; no reset is in progress between operations. *)
Definition prepare (s : WindowSlot) (g : Z) : WindowSlot :=
  let stable := saturating_mul g 2 in
  if generation s =? stable then s
  else {| generation := stable; counters := counters_new; histograms := histograms_new |}.

(** [Inner]. *)
Record t := { lifetime : Counters; lifetime_histograms : Histograms; window : list WindowSlot }.

Definition new : t :=
  {| lifetime := counters_new; lifetime_histograms := histograms_new;
     window := replicate WINDOW_BUCKETS slot_new |}.

Definition slot_index (g : Z) : nat := Z.to_nat (g mod Z.of_nat WINDOW_BUCKETS).

Definition on_counters (f : Counters -> Counters) (s : WindowSlot) : WindowSlot :=
  {| generation := generation s; counters := f (counters s); histograms := histograms s |}.

Definition on_histograms (f : Histograms -> Histograms) (s : WindowSlot) : WindowSlot :=
  {| generation := generation s; counters := counters s; histograms := f (histograms s) |}.

(** [record_counter] and [record_histogram] in generation [g]. *)
Definition record_counter (m : t) (g : Z) (f : Counters -> Counters) : t :=
  {| lifetime := f (lifetime m); lifetime_histograms := lifetime_histograms m;
     window := alter (fun s => on_counters f (prepare s g)) (slot_index g) (window m) |}.

Definition record_histogram (m : t) (g : Z) (f : Histograms -> Histograms) : t :=
  {| lifetime := lifetime m; lifetime_histograms := f (lifetime_histograms m);
     window := alter (fun s => on_histograms f (prepare s g)) (slot_index g) (window m) |}.

(** The recording methods. *)
Inductive event :=
| record_blob_get (hit : bool)
| record_blob_head (hit : bool)
| record_cache_bytes_served (bytes : Z)
| record_cache_admission_started
| record_cache_admission_succeeded (bytes : Z)
| record_cache_admission_failed
| record_upstream_request
| record_upstream_bytes (bytes : Z)
| record_duration (k : HistogramName) (elapsed_ms : Z).

(** The counter updates of a method, in order. *)
Definition increments (e : event) : list (Counter * Z) :=
  match e with
  | record_blob_get hit => [(blob_get_requests, 1); (if hit then blob_get_hits else blob_get_misses, 1)]
  | record_blob_head hit => (blob_head_requests, 1) :: if hit then [(blob_head_hits, 1)] else []
  | record_cache_bytes_served bytes => [(cache_bytes_served, bytes)]
  | record_cache_admission_started => [(cache_admissions_started, 1)]
  | record_cache_admission_succeeded bytes =>
      [(cache_admissions_succeeded, 1); (cache_bytes_admitted, bytes)]
  | record_cache_admission_failed => [(cache_admissions_failed, 1)]
  | record_upstream_request => [(upstream_requests, 1)]
  | record_upstream_bytes bytes => [(upstream_bytes_fetched, bytes)]
  | record_duration _ _ => []
  end.

Definition add_all (c : Counters) (l : list (Counter * Z)) : Counters :=
  foldl (fun c p => add c p.1 p.2) c l.

Definition record (m : t) (g : Z) (e : event) : t :=
  match e with
  | record_duration k ms => record_histogram m g (fun h => histograms_record h k ms)
  | _ => record_counter m g (fun c => add_all c (increments e))
  end.

(** [snapshot_window]: the slots whose stable stamp is within the last sixty. *)
Definition in_window (g : Z) (s : WindowSlot) : bool :=
  let oldest := saturating_sub g (Z.of_nat WINDOW_BUCKETS - 1) in
  (generation s mod 2 =? 0) && (oldest <=? generation s / 2) && (generation s / 2 <=? g).

Definition snapshot_window (m : t) (g : Z) : Counters * Histograms :=
  foldl (fun acc s => if in_window g s
                      then (counters_add acc.1 (counters s), histograms_add acc.2 (histograms s))
                      else acc)
    (counters_new, histograms_new) (window m).

(** [cache_hit_ratio] of [view_from]. *)
Definition cache_hit_ratio (c : Counters) : option f64 :=
  let denominator := saturating_add (c blob_get_hits) (c blob_get_misses) in
  if 0 <? denominator then Some (f64_of_Z (c blob_get_hits) / f64_of_Z denominator)%f64 else None.

(** [x.ceil() as u64]. *)
Definition f64_ceil_to_u64 (x : f64) : Z :=
  match x with
  | S754_zero _ | S754_nan => 0
  | S754_infinity s => if s then 0 else u64_max
  | S754_finite s m e =>
      if s then 0
      else Z.min u64_max (if 0 <=? e then Z.pos m * 2 ^ e else div_ceil (Z.pos m) (2 ^ (- e)))
  end.

(** The scan of [percentile]. *)
Fixpoint percentile_scan (buckets bounds : list Z) (cumulative rank : Z) : option Z :=
  match buckets with
  | [] => Some u64_max
  | n :: rest =>
      let cumulative := saturating_add cumulative n in
      if rank <=? cumulative then head bounds
      else percentile_scan rest (tail bounds) cumulative rank
  end.

Definition percentile_rank (samples : Z) (quantile : f64) : Z :=
  Z.max (f64_ceil_to_u64 (f64_of_Z samples * quantile)%f64) 1.

Definition percentile (buckets : list Z) (samples : Z) (quantile : f64) : option Z :=
  if samples =? 0 then None
  else percentile_scan buckets HISTOGRAM_BOUNDS_MS 0 (percentile_rank samples quantile).

(** [Histogram::view]'s [samples]. *)
Definition samples_of (h : Histogram) : Z := foldl saturating_add 0 h.

(** ** Specification

    The recordings so far, newest first, each with its generation; a counter is
    the sum of the amounts it was increased by, capped at the largest [u64]. *)

Definition log := list (Z * event).

Definition amount (e : event) (k : Counter) : Z :=
  foldr (fun p acc => (if bool_decide (p.1 = k) then p.2 else 0) + acc) 0 (increments e).

Definition total (p : Z -> bool) (l : log) (k : Counter) : Z :=
  foldr (fun x acc => (if p x.1 then amount x.2 k else 0) + acc) 0 l.

Definition capped (z : Z) : Z := Z.min u64_max z.

Definition event_ok (e : event) : Prop := Forall (fun p => 0 <= p.2) (increments e).

(** [runs l m now]: the metrics [m] after the recordings [l], in generation [now]. *)
Inductive runs : log -> t -> Z -> Prop :=
| runs_new : runs [] new 0
| runs_tick l m now now' : runs l m now -> now <= now' <= 2 ^ 62 -> runs l m now'
| runs_record l m now e : runs l m now -> event_ok e -> runs ((now, e) :: l) (record m now e) now.

Lemma capped_add a b : 0 <= a -> 0 <= b -> saturating_add (capped a) (capped b) = capped (a + b).
Proof. unfold saturating_add, capped, u64_max. lia. Qed.

Lemma amount_nonneg e k : event_ok e -> 0 <= amount e k.
Proof.
  unfold event_ok, amount. induction 1 as [|[k' n] l Hn Hl IH]; simpl in *; [lia|].
  case_bool_decide; lia.
Qed.

Lemma total_nonneg p l k : Forall (fun x => event_ok x.2) l -> 0 <= total p l k.
Proof.
  induction 1 as [|[g e] l He Hl IH]; simpl in *; [lia|].
  pose proof (amount_nonneg e k He). destruct (p g); lia.
Qed.

Lemma total_ext p q l k :
  (forall g e, (g, e) ∈ l -> p g = q g) -> total p l k = total q l k.
Proof.
  induction l as [|[g e] l IH]; intros H; simpl; [done|].
  rewrite (H g e), IH; [done| |set_solver]. intros g' e' Hin. apply (H g' e'). set_solver.
Qed.

Lemma total_none p l k : (forall g e, (g, e) ∈ l -> p g = false) -> total p l k = 0.
Proof.
  intros H. rewrite (total_ext p (fun _ => false)) by done. clear H.
  induction l as [|x l IH]; [done|]. change (0 + total (fun _ => false) l k = 0). lia.
Qed.

Lemma add_all_spec l c k :
  Forall (fun p => 0 <= p.2) l -> 0 <= c k <= u64_max ->
  add_all c l k = capped (c k + foldr (fun p acc => (if bool_decide (p.1 = k) then p.2 else 0) + acc) 0 l).
Proof.
  intros Hl. revert c. induction Hl as [|[j n] l Hn Hl IH]; intros c Hc; simpl in *.
  - unfold capped, u64_max in *. lia.
  - assert (0 <= foldr (fun p acc => (if bool_decide (p.1 = k) then p.2 else 0) + acc) 0 l) as Hp.
    { clear -Hl. induction Hl as [|[j n] l Hn Hl IH]; simpl in *; [lia|]. case_bool_decide; lia. }
    destruct (decide (j = k)) as [->|Hne].
    + rewrite IH; unfold add; rewrite !bool_decide_eq_true_2 by done;
        unfold saturating_add, capped, u64_max in *; lia.
    + rewrite IH; unfold add; rewrite !bool_decide_eq_false_2 by congruence; [done|lia].
Qed.

Lemma slot_index_lt g : (slot_index g < WINDOW_BUCKETS)%nat.
Proof.
  unfold slot_index. pose proof (Z.mod_pos_bound g (Z.of_nat WINDOW_BUCKETS)) as H.
  assert (WINDOW_BUCKETS = 60%nat) as E by reflexivity. rewrite E in *. lia.
Qed.

(** What slot [i] holds: the totals of its latest generation [g]. *)
Definition slot_ok (l : log) (now : Z) (i : nat) (s : WindowSlot) : Prop :=
  exists g, generation s = 2 * g /\ 0 <= g <= now /\ (slot_index g = i \/ g = 0) /\
    (forall g' e, (g', e) ∈ l -> slot_index g' = i -> g' <= g) /\
    forall k, counters s k = capped (total (fun g' => (g' =? g) && (slot_index g' =? i)%nat) l k).

Definition metrics_ok (l : log) (m : t) (now : Z) : Prop :=
  0 <= now <= 2 ^ 62 /\ Forall (fun x => event_ok x.2 /\ 0 <= x.1 <= now) l /\
  (forall k, lifetime m k = capped (total (fun _ => true) l k)) /\
  length (window m) = WINDOW_BUCKETS /\
  forall i s, window m !! i = Some s -> slot_ok l now i s.

Lemma log_events_ok l now :
  Forall (fun x : Z * event => event_ok x.2 /\ 0 <= x.1 <= now) l -> Forall (fun x => event_ok x.2) l.
Proof. intros H. eapply Forall_impl; [exact H|]. by intros ? [? _]. Qed.

Lemma metrics_ok_new : metrics_ok [] new 0.
Proof.
  split; [lia|]. split; [constructor|]. split; [done|]. split; [done|].
  intros i s Hi. apply lookup_replicate in Hi as [-> _]. exists 0. split; [done|]. split; [lia|].
  split; [by right|]. split; [set_solver|done].
Qed.

(** A recording in a slot that was prepared for the current generation. *)
Lemma prepare_ok l now i s : 0 <= now <= 2 ^ 62 -> slot_index now = i ->
  Forall (fun x => event_ok x.2 /\ 0 <= x.1 <= now) l -> slot_ok l now i s ->
  generation (prepare s now) = 2 * now /\
  forall k, counters (prepare s now) k = capped (total (fun g' => (g' =? now) && (slot_index g' =? i)%nat) l k).
Proof.
  intros Hnow Hi Hl (g & Hg & Hgr & _ & Hmax & Hc). unfold prepare.
  assert (saturating_mul now 2 = 2 * now) as Es by (unfold saturating_mul, u64_max; lia).
  rewrite Es. zcase.
  - assert (g = now) by lia. subst g. done.
  - split; [done|]. intros k. simpl. rewrite total_none; [done|].
    intros g' e Hin. apply andb_false_iff. destruct (Nat.eqb_spec (slot_index g') i) as [E|]; [left|by right].
    specialize (Hmax g' e Hin E). apply Z.eqb_neq. lia.
Qed.

Lemma slot_ok_cons_other l now i s e :
  slot_index now <> i -> slot_ok l now i s -> slot_ok ((now, e) :: l) now i s.
Proof.
  intros Hne (g & Hg & Hgr & Hgi & Hmax & Hc). exists g. split_and!; try done || lia.
  - intros g' e' [[= -> ->]|Hin]%elem_of_cons; [done|]. by eapply Hmax.
  - intros k. rewrite Hc. simpl.
    rewrite (proj2 (Nat.eqb_neq (slot_index now) i) Hne). by rewrite andb_false_r.
Qed.

Lemma slot_ok_cons_here l now i s e (f : WindowSlot -> WindowSlot) :
  0 <= now <= 2 ^ 62 -> slot_index now = i -> event_ok e ->
  Forall (fun x => event_ok x.2 /\ 0 <= x.1 <= now) l -> slot_ok l now i s ->
  generation (f (prepare s now)) = generation (prepare s now) ->
  (forall k, counters (f (prepare s now)) k = add_all (counters (prepare s now)) (increments e) k) ->
  slot_ok ((now, e) :: l) now i (f (prepare s now)).
Proof.
  intros Hnow Hi He Hl Hs Hfg Hfc.
  destruct (prepare_ok l now i s Hnow Hi Hl Hs) as [Hg Hc]. exists now. rewrite Hfg.
  split_and!; [done|lia..|by left| |].
  - intros g' e' [[= -> ->]|Hin]%elem_of_cons _; [lia|]. rewrite Forall_forall in Hl.
    apply Hl in Hin. simpl in Hin. lia.
  - intros k. rewrite Hfc. pose proof (total_nonneg
      (fun g' => (g' =? now) && (slot_index g' =? i)%nat) l k (log_events_ok _ _ Hl)).
    rewrite add_all_spec; [|done|rewrite Hc; unfold capped, u64_max; lia]. rewrite Hc. simpl.
    rewrite Z.eqb_refl, (proj2 (Nat.eqb_eq _ _) Hi). simpl.
    fold (amount e k). pose proof (amount_nonneg e k He). unfold capped, u64_max in *. lia.
Qed.

Lemma slot_ok_record l m now e i s (f : WindowSlot -> WindowSlot) :
  metrics_ok l m now -> event_ok e ->
  (forall s, generation (f s) = generation s) ->
  (forall s k, counters (f s) k = add_all (counters s) (increments e) k) ->
  alter (fun s => f (prepare s now)) (slot_index now) (window m) !! i = Some s ->
  slot_ok ((now, e) :: l) now i s.
Proof.
  intros (Hnow & Hl & _ & _ & Hw) He Hfg Hfc Hi.
  destruct (decide (slot_index now = i)) as [<-|Hne].
  - rewrite list_lookup_alter_eq in Hi. destruct (window m !! slot_index now) as [s0|] eqn:E; [|done].
    simplify_eq/=. by apply slot_ok_cons_here; auto.
  - rewrite list_lookup_alter_ne in Hi by done. apply slot_ok_cons_other; auto.
Qed.

Lemma metrics_ok_record l m now e :
  metrics_ok l m now -> event_ok e -> metrics_ok ((now, e) :: l) (record m now e) now.
Proof.
  intros Hm He. pose proof Hm as (Hnow & Hl & Hlife & Hlen & Hw).
  assert (forall k, add_all (lifetime m) (increments e) k = capped (total (fun _ => true) ((now, e) :: l) k)) as Hlife'.
  { intros k. pose proof (total_nonneg (fun _ => true) l k (log_events_ok _ _ Hl)).
    rewrite add_all_spec; [|done|rewrite Hlife; unfold capped, u64_max; lia]. rewrite Hlife. simpl.
    fold (amount e k). pose proof (amount_nonneg e k He). unfold capped, u64_max in *. lia. }
  split; [lia|]. split; [constructor; [simpl; auto with lia|done]|].
  destruct e; (split; [exact Hlife'|]; split; [cbn; by rewrite length_alter|]; intros i s Hi;
    eapply (slot_ok_record l m now); [done|done| | |exact Hi]; done).
Qed.

Lemma runs_ok l m now : runs l m now -> metrics_ok l m now.
Proof.
  induction 1 as [|l m now now' Hr IH Hle|l m now e Hr IH He].
  - apply metrics_ok_new.
  - destruct IH as (? & Hl & ? & ? & Hw). split; [lia|]. split.
    { eapply Forall_impl; [exact Hl|]. simpl. intros x [? ?]. split; [done|lia]. }
    split; [done|]. split; [done|]. intros i s Hi. destruct (Hw i s Hi) as (g & ? & ? & ?).
    exists g. split; [done|]. split; [lia|done].
  - by apply metrics_ok_record.
Qed.

(** *** Summing the ring *)

Definition ring_total (l : log) (p : Z -> bool) (k : Counter) (n : nat) : Z :=
  foldr (fun i acc => total (fun g => p g && (slot_index g =? i)%nat) l k + acc) 0 (seq 0 n).

Lemma ring_total_all l p k : ring_total l p k WINDOW_BUCKETS = total p l k.
Proof.
  unfold ring_total.
  induction l as [|[x e] l IH].
  - generalize (seq 0 WINDOW_BUCKETS). intros s. induction s as [|i s IHs]; simpl; [done|]. exact IHs.
  - change (total p ((x, e) :: l) k) with ((if p x then amount e k else 0) + total p l k).
    rewrite <- IH. clear IH.
    assert (forall s, NoDup s ->
      foldr (fun i acc => total (fun g => p g && (slot_index g =? i)%nat) ((x, e) :: l) k + acc) 0 s =
      (if p x && bool_decide (slot_index x ∈ s) then amount e k else 0) +
      foldr (fun i acc => total (fun g => p g && (slot_index g =? i)%nat) l k + acc) 0 s) as Hs.
    { intros s Hs. induction Hs as [|i s Hni Hs IH]; [by destruct (p x)|]. rewrite !foldr_cons, IH.
      change (total (fun g => p g && (slot_index g =? i)%nat) ((x, e) :: l) k) with
        ((if p x && (slot_index x =? i)%nat then amount e k else 0) +
         total (fun g => p g && (slot_index g =? i)%nat) l k).
      destruct (p x); simpl; [|lia]. destruct (Nat.eqb_spec (slot_index x) i) as [->|Hne].
      - rewrite (bool_decide_eq_false_2 (i ∈ s)) by done.
        rewrite bool_decide_eq_true_2 by set_solver. lia.
      - destruct (decide (slot_index x ∈ s)); [rewrite !bool_decide_eq_true_2 by set_solver|
          rewrite !bool_decide_eq_false_2 by set_solver]; lia. }
    rewrite Hs by apply NoDup_seq. rewrite bool_decide_eq_true_2; [by rewrite andb_true_r|].
    apply elem_of_seq. pose proof (slot_index_lt x). lia.
Qed.

Lemma slot_contribution l now i s k :
  Forall (fun x => event_ok x.2 /\ 0 <= x.1 <= now) l -> slot_ok l now i s ->
  (if in_window now s then counters s k else 0) =
  capped (total (fun g => (saturating_sub now (Z.of_nat WINDOW_BUCKETS - 1) <=? g) &&
                          (slot_index g =? i)%nat) l k).
Proof.
  intros Hl (g & Hg & Hr & Hi & Hmax & Hc). unfold in_window.
  assert (WINDOW_BUCKETS = 60%nat) as E60 by reflexivity.
  rewrite Hg, Z.mul_comm, Z.mod_mul, Z.div_mul by lia. simpl (0 =? 0). rewrite andb_true_l.
  rewrite (proj2 (Z.leb_le g now)) by lia. rewrite andb_true_r.
  destruct (Z.leb_spec (saturating_sub now (Z.of_nat WINDOW_BUCKETS - 1)) g) as [Hin|Hout].
  - rewrite Hc. f_equal. apply total_ext. intros g' e He.
    destruct (Nat.eqb_spec (slot_index g') i) as [Hidx|]; [|by rewrite !andb_false_r].
    rewrite !andb_true_r. specialize (Hmax g' e He Hidx).
    rewrite Forall_forall in Hl. apply Hl in He as [_ He]. simpl in He.
    destruct Hi as [Hi| ->]; [|zcase; zcase; lia].
    assert (g' mod 60 = g mod 60) as Hm.
    { rewrite <- Hi in Hidx. unfold slot_index in Hidx. rewrite E60 in Hidx.
      pose proof (Z.mod_pos_bound g 60). pose proof (Z.mod_pos_bound g' 60). lia. }
    pose proof (Z.div_mod g 60). pose proof (Z.div_mod g' 60).
    unfold saturating_sub in *. rewrite E60 in *. zcase; zcase; try done; lia.
  - rewrite total_none; [done|]. intros g' e He.
    destruct (Nat.eqb_spec (slot_index g') i) as [Hidx|]; [|by rewrite andb_false_r].
    specialize (Hmax g' e He Hidx). rewrite andb_true_r. apply Z.leb_gt. lia.
Qed.

Lemma fold_window g acc ws k :
  (foldl (fun acc s => if in_window g s
      then (counters_add acc.1 (counters s), histograms_add acc.2 (histograms s)) else acc) acc ws).1 k =
  foldl (fun z s => saturating_add z (if in_window g s then counters s k else 0)) (acc.1 k) ws \/
  ~ (0 <= acc.1 k <= u64_max) \/ Exists (fun s => ~ (0 <= counters s k)) ws.
Proof.
  revert acc. induction ws as [|s ws IH]; intros acc; simpl; [by left|].
  destruct (decide (0 <= acc.1 k <= u64_max)) as [Ha|]; [|by right; left].
  destruct (decide (0 <= counters s k)) as [Hs|]; [|by right; right; left].
  destruct (in_window g s).
  - destruct (IH (counters_add acc.1 (counters s), histograms_add acc.2 (histograms s))) as [->|[Hb|Hb]].
    + by left.
    + exfalso. apply Hb. simpl. unfold counters_add, saturating_add, u64_max in *. lia.
    + right; right. by right.
  - destruct (IH acc) as [->|[Hb|Hb]]; [left|done|right; right; by right].
    f_equal. unfold saturating_add. lia.
Qed.

Lemma fold_ring l now k ws a z :
  Forall (fun x => event_ok x.2 /\ 0 <= x.1 <= now) l -> 0 <= z ->
  (forall i s, ws !! i = Some s -> slot_ok l now (a + i) s) ->
  foldl (fun z s => saturating_add z (if in_window now s then counters s k else 0)) (capped z) ws =
  capped (z + foldr (fun i acc => total (fun g =>
    (saturating_sub now (Z.of_nat WINDOW_BUCKETS - 1) <=? g) && (slot_index g =? i)%nat) l k + acc)
    0 (seq a (length ws))).
Proof.
  intros Hl. revert a z. induction ws as [|s ws IH]; intros a z Hz Hw; simpl; [by rewrite Z.add_0_r|].
  rewrite (slot_contribution l now a s) by (try done; rewrite <- (Nat.add_0_r a); by apply Hw).
  set (x := total _ l k). assert (0 <= x) by (apply total_nonneg; by eapply log_events_ok).
  rewrite capped_add by done. rewrite (IH (S a)); [f_equal; lia|lia|].
  intros i s' Hi. replace (S a + i)%nat with (a + S i)%nat by lia. by apply Hw.
Qed.

(** ** Properties *)

(** After any sequence of recordings at any times, each lifetime counter is the
    sum of everything recorded, and each counter of the window snapshot is the sum
    of exactly the recordings of the last sixty five-second generations (both
    capped at the largest [u64]): reusing slots neither loses a recent recording
    nor reports an expired one. *)
Theorem window_exact l m now k :
  runs l m now ->
  lifetime m k = capped (total (fun _ => true) l k) /\
  (snapshot_window m now).1 k = capped (total (fun g => now - 59 <=? g) l k).
Proof.
  intros Hr. destruct (runs_ok _ _ _ Hr) as (Hnow & Hl & Hlife & Hlen & Hw). split; [done|].
  unfold snapshot_window. destruct (fold_window now (counters_new, histograms_new) (window m) k) as [->|[H|H]].
  - simpl. change (counters_new k) with (capped 0).
    rewrite (fold_ring l now k (window m) 0 0) by (done || lia). rewrite Hlen, Z.add_0_l.
    fold (ring_total l (fun g => saturating_sub now (Z.of_nat WINDOW_BUCKETS - 1) <=? g) k WINDOW_BUCKETS).
    rewrite ring_total_all. f_equal. apply total_ext. intros g e Hin. rewrite Forall_forall in Hl.
    apply Hl in Hin as [_ Hin]. simpl in Hin. unfold saturating_sub.
    assert (WINDOW_BUCKETS = 60%nat) as -> by reflexivity. zcase; zcase; try done; lia.
  - destruct H. simpl. unfold counters_new, u64_max. lia.
  - exfalso. apply Exists_exists in H as (s & Hs & Hneg). apply list_elem_of_lookup in Hs as [i Hi].
    destruct (Hw i s Hi) as (g & _ & _ & _ & _ & Hc). apply Hneg. rewrite Hc.
    pose proof (total_nonneg (fun g' => (g' =? g) && (slot_index g' =? i)%nat) l k (log_events_ok _ _ Hl)).
    unfold capped, u64_max. lia.
Qed.

Lemma percentile_scan_spec buckets bounds c rank v :
  Forall (fun n => 0 <= n) buckets -> length bounds = length buckets ->
  0 <= c -> c < rank -> c + foldr Z.add 0 buckets <= u64_max -> rank <= c + foldr Z.add 0 buckets ->
  percentile_scan buckets bounds c rank = Some v ->
  exists i, bounds !! i = Some v /\
    c + foldr Z.add 0 (take i buckets) < rank <= c + foldr Z.add 0 (take (S i) buckets).
Proof.
  intros Hb. revert bounds c. induction Hb as [|n rest Hn Hrest IH]; intros bounds c Hlen Hc Hlt Hmax Hrank H;
    simpl in *; [lia|].
  assert (0 <= foldr Z.add 0 rest) as Hpos by (clear -Hrest; induction Hrest; simpl; lia).
  destruct bounds as [|b bounds]; [done|].
  assert (saturating_add c n = c + n) as Es by (unfold saturating_add; lia). rewrite Es in H.
  zcase_in H; simpl in H.
  - simplify_eq. exists 0%nat. simpl. split; [done|lia].
  - destruct (IH bounds (c + n)) as (i & Hi & Hr); [simpl in Hlen; lia|lia..|done|].
    exists (S i). simpl. split; [done|]. simpl in Hr. lia.
Qed.

(** A reported percentile is the upper bound of the histogram bucket that holds
    the sample of that rank: fewer than [rank] samples fall in earlier buckets and
    at least [rank] in the buckets up to it. *)
Theorem percentile_bucket buckets samples quantile v :
  length buckets = length HISTOGRAM_BOUNDS_MS -> Forall (fun n => 0 <= n) buckets ->
  foldr Z.add 0 buckets = samples -> samples <= u64_max ->
  percentile_rank samples quantile <= samples ->
  percentile buckets samples quantile = Some v ->
  exists i, HISTOGRAM_BOUNDS_MS !! i = Some v /\
    foldr Z.add 0 (take i buckets) < percentile_rank samples quantile <= foldr Z.add 0 (take (S i) buckets).
Proof.
  intros Hlen Hnn Hsum Hmax Hrank. unfold percentile. zcase; [done|]. intros H'.
  destruct (percentile_scan_spec buckets HISTOGRAM_BOUNDS_MS 0 (percentile_rank samples quantile) v)
    as (i & Hi & Hr); try done; try lia.
  - unfold percentile_rank. lia.
  - exists i. rewrite !Z.add_0_l in Hr. done.
Qed.

(** ** Witnesses *)

Lemma window_exact_witness :
  (snapshot_window (record (record new 0 (record_blob_get true)) 61 (record_upstream_bytes 7)) 61).1
    upstream_bytes_fetched = 7 /\
  (snapshot_window (record (record new 0 (record_blob_get true)) 61 (record_upstream_bytes 7)) 61).1
    blob_get_hits = 0.
Proof.
  assert (runs [(61, record_upstream_bytes 7); (0, record_blob_get true)]
    (record (record new 0 (record_blob_get true)) 61 (record_upstream_bytes 7)) 61) as H.
  { apply runs_record; [|repeat constructor; simpl; lia]. apply runs_tick with 0; [|lia].
    apply runs_record; [constructor|]. repeat constructor; simpl; lia. }
  split; [exact (proj2 (window_exact _ _ _ upstream_bytes_fetched H))
         |exact (proj2 (window_exact _ _ _ blob_get_hits H))].
Defined.

Lemma percentile_bucket_witness :
  exists i, HISTOGRAM_BOUNDS_MS !! i = Some 5 /\
    foldr Z.add 0 (take i [1; 3; 0; 0; 0; 0; 0; 0; 0; 0; 0; 0; 0; 0; 0]) < percentile_rank 4 (f64_ratio 1 2)
      <= foldr Z.add 0 (take (S i) [1; 3; 0; 0; 0; 0; 0; 0; 0; 0; 0; 0; 0; 0; 0]).
Proof.
  apply percentile_bucket; try reflexivity.
  - repeat constructor; lia.
  - vm_compute. discriminate.
  - vm_compute. discriminate.
Defined.
End TransferMetrics.
