(* ===== verification/Files.v ===== *)
(** * The file system

    The operations of [tokio::fs] the cache and the downloader use, on a finite
    map from paths to file contents.  Directories are the prefixes of the paths;
    creating one has no effect on the map.  The only error modelled is a missing
    file. *)

From stdpp Require Import base gmap sets list strings.
From Stdlib Require Import ZArith Lia Ascii Strings.Byte.
From S2P Require Import Prelude Text Errors.

Abbreviation bytes := (list Byte.byte).
Abbreviation Fs := (gmap string bytes).

Definition blen (b : bytes) : Z := Z.of_nat (length b).

Definition not_found : AppError := Io "NotFound".

(** [metadata(path)?.len()]. *)
Definition metadata (fs : Fs) (path : string) : ApiResult Z :=
  match fs !! path with Some b => Ok (blen b) | None => Err not_found end.

(** [remove_file], whose error every caller ignores or maps for a missing file. *)
Definition remove_file (fs : Fs) (path : string) : Fs := delete path fs.

(** [rename(from, to)] replaces [to]. *)
Definition rename (fs : Fs) (from to : string) : ApiResult Fs :=
  match fs !! from with
  | Some b => Ok (<[to := b]> (delete from fs))
  | None => Err not_found
  end.

(** [remove_dir_all(dir)]: every path below [dir]. *)
Definition remove_dir_all (fs : Fs) (dir : string) : Fs :=
  filter (fun p : string * bytes => starts_with (dir +:+ "/") p.1 = false) fs.

(** The components of a path below a directory, and its file name. *)
Definition components_below (dir path : string) : option (list string) :=
  let* rest := strip_prefix (dir +:+ "/") path in
  Some (split_char "/"%char rest).

Definition file_name (path : string) : string := unwrap_or (last (split_char "/"%char path)) path.

Lemma metadata_Ok fs path n : metadata fs path = Ok n <-> exists b, fs !! path = Some b /\ n = blen b.
Proof. unfold metadata. destruct (fs !! path); naive_solver. Qed.

Lemma blen_app a b : blen (a ++ b) = blen a + blen b.
Proof. unfold blen. rewrite length_app. lia. Qed.

Lemma blen_nonneg b : 0 <= blen b.
Proof. unfold blen. lia. Qed.

Lemma lookup_remove_dir_all fs dir path :
  starts_with (dir +:+ "/") path = false -> remove_dir_all fs dir !! path = fs !! path.
Proof.
  intros H. unfold remove_dir_all. destruct (fs !! path) as [b|] eqn:E.
  - by apply map_lookup_filter_Some.
  - apply map_lookup_filter_None. by left.
Qed.
