(* ===== verification/Prog.v ===== *)
(** * Handlers as programs

    A request handler or worker of the program is a sequence of atomic actions on a
    shared world (one SQL statement or transaction, one read of the clock, one update
    of an in-memory table) between which other handlers run.  [run] executes a program
    alone; [runs] interleaves it with an arbitrary environment; [obeys] says that each
    of its actions is a step of a given relation.  Jobs.v and Auth.v instantiate the
    world. *)

From stdpp Require Import base list relations.
From S2P Require Import Prelude.

Inductive program (W A : Type) : Type :=
| Ret (a : A)
| Act (B : Type) (f : W -> B * W) (k : B -> program W A).
Arguments Ret {W A} a.
Arguments Act {W A B} f k.

Fixpoint bind {W A B} (p : program W A) (k : A -> program W B) : program W B :=
  match p with
  | Ret a => k a
  | Act f k' => Act f (fun b => bind (k' b) k)
  end.

Notation "'let-' x ':=' p 'in' k" := (bind p (fun x => k))
  (at level 10, x pattern, p at level 100, k at level 200,
   format "'[v' 'let-'  x  ':='  p  'in' '/' k ']'") : donkey_scope.
Notation "'let!' x ':=' p 'in' k" :=
  (bind p (fun r => match r with Ok x => k | Err e => Ret (Err e) end))
  (at level 10, x pattern, p at level 100, k at level 200,
   format "'[v' 'let!'  x  ':='  p  'in' '/' k ']'") : donkey_scope.

Definition read {W A} (f : W -> A) : program W A := Act (fun w => (f w, w)) Ret.

(** The program alone. *)
Fixpoint run {W A} (p : program W A) (w : W) : A * W :=
  match p with
  | Ret a => (a, w)
  | Act f k => let '(b, w') := f w in run (k b) w'
  end.

(** The program with an environment that takes any number of steps before each
    of its actions and after the last. *)
Fixpoint runs {W A} (env : W -> W -> Prop) (p : program W A) (w : W) (a : A) (w' : W) : Prop :=
  match p with
  | Ret x => a = x /\ rtc env w w'
  | Act f k => exists w1, rtc env w w1 /\ runs env (k (f w1).1) (f w1).2 a w'
  end.

(** The program with interference [f n] before its [n]-th action: an executable
    interleaving. *)
Fixpoint run_with {W A} (f : nat -> W -> W) (n : nat) (p : program W A) (w : W) : A * W :=
  match p with
  | Ret a => (a, w)
  | Act g k => let '(b, w') := g (f n w) in run_with f (S n) (k b) w'
  end.

(** Every action of the program is a step of [R], whatever its earlier actions
    returned. *)
Fixpoint obeys {W A} (R : W -> W -> Prop) (p : program W A) : Prop :=
  match p with
  | Ret _ => True
  | Act f k => (forall w, R w (f w).2) /\ forall b, obeys R (k b)
  end.

(** A program on a part of a larger world. *)
Fixpoint zoom {V W A} (get : V -> W) (set : V -> W -> V) (p : program W A) : program V A :=
  match p with
  | Ret a => Ret a
  | Act f k => Act (fun v => ((f (get v)).1, set v (f (get v)).2)) (fun b => zoom get set (k b))
  end.

Lemma run_bind {W A B} (p : program W A) (k : A -> program W B) : forall w,
  run (bind p k) w = let '(a, w') := run p w in run (k a) w'.
Proof. induction p as [a|X f k' IH]; intros w; simpl; [done|]. destruct (f w). apply IH. Qed.

Lemma run_zoom {V W A} (get : V -> W) (set : V -> W -> V) (p : program W A) :
  (forall v w, get (set v w) = w) -> (forall v w w', set (set v w) w' = set v w') -> (forall v, set v (get v) = v) ->
  forall v, run (zoom get set p) v = let '(a, w) := run p (get v) in (a, set v w).
Proof.
  intros H1 H2 H3. induction p as [a|X f k IH]; intros v; simpl; [by rewrite H3|].
  rewrite IH, H1. destruct (f (get v)) as [b w]. simpl. destruct (run (k b) w). by rewrite H2.
Qed.

Section Obeys.
Context {W : Type} (R : W -> W -> Prop).

Lemma obeys_bind {A B} (p : program W A) (k : A -> program W B) :
  obeys R p -> (forall a, obeys R (k a)) -> obeys R (bind p k).
Proof.
  intros P K. induction p as [a|X f k' IH]; simpl; [done|].
  destruct P as [F P]. split; [done|]. auto.
Qed.

Lemma obeys_ret {A} (a : A) : obeys R (Ret a).
Proof. done. Qed.

Lemma obeys_act {A B} (f : W -> A * W) (k : A -> program W B) :
  (forall w, R w (f w).2) -> (forall a, obeys R (k a)) -> obeys R (Act f k).
Proof. done. Qed.

End Obeys.

Lemma obeys_zoom {V W A} (R : W -> W -> Prop) (Q : V -> V -> Prop) (get : V -> W) (set : V -> W -> V) (p : program W A) :
  (forall v w, R (get v) w -> Q v (set v w)) -> obeys R p -> obeys Q (zoom get set p).
Proof. intros H. induction p as [a|X f k IH]; [done|]. intros [Hf Hk]. split; [intros v; apply H, Hf|]. intros b. apply IH, Hk. Qed.

Section Runs.
Context {W : Type} (env : W -> W -> Prop).

Lemma run_runs {A} (p : program W A) : forall w a w', run p w = (a, w') -> runs env p w a w'.
Proof.
  induction p as [x|X f k IH]; intros w a w' R; simpl in *.
  - injection R as -> ->. split; [done|apply rtc_refl].
  - exists w. split; [apply rtc_refl|]. apply IH. by destruct (f w).
Qed.

Lemma run_with_runs {A} f (p : program W A) : (forall n w, rtc env w (f n w)) ->
  forall n w a w', run_with f n p w = (a, w') -> runs env p w a w'.
Proof.
  intros Hf. induction p as [x|X g k IH]; intros n w a w' R; simpl in *.
  - injection R as -> ->. split; [done|apply rtc_refl].
  - exists (f n w). split; [apply Hf|]. apply (IH _ (S n)). by destruct (g (f n w)).
Qed.

Lemma runs_pre {A} (p : program W A) w w1 a w' : rtc env w w1 -> runs env p w1 a w' -> runs env p w a w'.
Proof.
  destruct p as [x|B f k]; simpl.
  - intros S [-> R]. split; [done|]. by trans w1.
  - intros S (w2 & S2 & R). exists w2. split; [by trans w1|done].
Qed.

Lemma runs_bind_inv {A B} (p : program W A) (k : A -> program W B) : forall w b w',
  runs env (bind p k) w b w' -> exists a w1, runs env p w a w1 /\ runs env (k a) w1 b w'.
Proof.
  induction p as [a|X f k' IH]; simpl; intros w b w' R.
  - exists a, w. split; [|done]. split; [done|apply rtc_refl].
  - destruct R as (w1 & S & R). apply IH in R as (a & w2 & R1 & R2).
    exists a, w2. split; [|done]. by exists w1.
Qed.

Section Steps.
Context (R : W -> W -> Prop) (HR : forall x y, env x y -> R x y).

Lemma env_steps w w' : rtc env w w' -> rtc R w w'.
Proof using HR. induction 1; [apply rtc_refl|]. eapply rtc_l; eauto. Qed.

(** A program of [R]-steps in an environment of [R]-steps. *)
Lemma runs_steps {A} (p : program W A) : forall w a w', obeys R p -> runs env p w a w' -> rtc R w w'.
Proof using HR.
  induction p as [x|X f k IH]; intros w a w' P H.
  - destruct H as [-> H]. by apply env_steps.
  - destruct H as (w1 & S & H), P as [Pf Pk]. trans w1; [by apply env_steps|]. eapply rtc_l; [apply Pf|].
    by eapply IH.
Qed.
End Steps.
End Runs.
