(* ===== verification/Threads.v ===== *)
(** * Programs that run beside each other

    Rely and guarantee for the programs of Prog.v.  [secured R G p Q w] says that
    [p], started in [w], makes only [G]-steps and ends in [Q], when everything that
    runs beside it makes [R]-steps.  A pool is a family of programs that take turns in
    any order; when the steps of each are allowed by all others, every run of the pool
    is made of guaranteed steps ([pool_steps]).  [await] is a blocking lock: it tries
    again until the lock is free or its patience is out. *)

From stdpp Require Import base list relations.
From S2P Require Import Prelude Prog.

Fixpoint await {W A} (patience : nat) (try : W -> option (A * W)) : program W (option A) :=
  match patience with
  | O => Ret None
  | S n => Act (fun w => match try w with Some (a, w') => (Some a, w') | None => (None, w) end)
             (fun o => match o with Some a => Ret (Some a) | None => await n try end)
  end.

(** A future dropped while it waits: the first [n] actions of a program, and those of a
    task that is [busy] then and that dropping does not stop. *)
Fixpoint cut {W A} (busy : W -> bool) (n : nat) (p : program W A) : program W (option A) :=
  match p with
  | Ret a => Ret (Some a)
  | Act f k =>
      match n with
      | O => Act (fun w => if busy w then let '(b, w') := f w in (Some b, w') else (None, w))
               (fun o => match o with Some b => cut busy O (k b) | None => Ret None end)
      | S n => Act f (fun b => cut busy n (k b))
      end
  end.

Section Secured.
Context {W : Type} (R G : W -> W -> Prop).

Fixpoint secured {A} (p : program W A) (Q : A -> W -> Prop) (w : W) : Prop :=
  match p with
  | Ret a => forall w', rtc R w w' -> Q a w'
  | Act f k => forall w1, rtc R w w1 -> G w1 (f w1).2 /\ secured (k (f w1).1) Q (f w1).2
  end.

Lemma secured_pre {A} (p : program W A) Q w w1 : rtc R w w1 -> secured p Q w -> secured p Q w1.
Proof. destruct p as [a|B f k]; simpl; intros S H w' S'; apply H; by trans w1. Qed.

Lemma secured_mono {A} (p : program W A) (Q Q' : A -> W -> Prop) : (forall a w, Q a w -> Q' a w) ->
  forall w, secured p Q w -> secured p Q' w.
Proof.
  intros HQ. induction p as [a|B f k IH]; intros w H; simpl in *; [auto|].
  intros w1 S. destruct (H w1 S) as [H1 H2]. split; [done|]. by apply IH.
Qed.

Lemma secured_bind {A B} (p : program W A) (k : A -> program W B) Q : forall w,
  secured p (fun a => secured (k a) Q) w -> secured (bind p k) Q w.
Proof.
  induction p as [a|X f k' IH]; intros w H; simpl in *.
  - by apply H.
  - intros w1 S. destruct (H w1 S) as [H1 H2]. split; [done|]. by apply IH.
Qed.

(** The usual way to use it: the first program ends in a state stable under [R]. *)
Lemma secured_seq {A B} (p : program W A) (k : A -> program W B) P Q w :
  secured p P w -> (forall a w', P a w' -> secured (k a) Q w') -> secured (bind p k) Q w.
Proof. intros Hp Hk. apply secured_bind. eapply secured_mono; [|exact Hp]. auto. Qed.

Lemma secured_ret {A} (a : A) (Q : A -> W -> Prop) w :
  (forall x y, R x y -> Q a x -> Q a y) -> Q a w -> secured (Ret a) Q w.
Proof. intros HR H w' S. induction S; eauto. Qed.

(** One action, from a precondition the environment keeps. *)
Lemma secured_act {A B} (f : W -> B * W) (k : B -> program W A) (P : W -> Prop) Q w :
  (forall x y, R x y -> P x -> P y) -> P w ->
  (forall x, P x -> G x (f x).2 /\ secured (k (f x).1) Q (f x).2) -> secured (Act f k) Q w.
Proof. intros HR Hw Hf w1 S. apply Hf. clear Hf. induction S; eauto. Qed.

(** Programs whose every action is a [G]-step, whatever runs beside them. *)
Lemma obeys_secured {A} (p : program W A) : obeys G p -> forall w, secured p (fun _ _ => True) w.
Proof. induction p as [a|B f k IH]; intros H w; [done|]. destruct H as [Hf Hk]. intros w1 _. split; [done|]. by apply IH. Qed.

(** A program that is cut leaves what all its steps keep. *)
Lemma secured_cut {A} (J : W -> Prop) busy (p : program W A) Q :
  (forall x y, R x y -> J x -> J y) -> (forall x y, G x y -> J x -> J y) -> (forall x, G x x) -> forall n w, J w -> secured p Q w ->
  secured (cut busy n p) (fun o w => match o with Some a => Q a w | None => J w end) w.
Proof.
  intros HR HG Hrefl. assert (forall x y, rtc R x y -> J x -> J y) as HR' by (induction 1; eauto).
  induction p as [a|B f k IH]; intros n w Hw H; [done|]. destruct n as [|n]; intros w1 S; simpl.
  - destruct (busy w1).
    + destruct (H w1 S) as [H1 H2]. destruct (f w1) as [b w2]. split; [done|]. apply IH; [|done]. eapply HG; [exact H1|]. by eapply HR'.
    + split; [done|]. intros w' S'. simpl. eapply HR'; [|exact Hw]. by trans w1.
  - destruct (H w1 S) as [H1 H2]. split; [done|]. apply IH; [|done]. eapply HG; [exact H1|]. by eapply HR'.
Qed.

Lemma secured_runs {A} (env : W -> W -> Prop) (p : program W A) Q : (forall x y, env x y -> R x y) ->
  forall w a w', secured p Q w -> runs env p w a w' -> Q a w'.
Proof.
  intros He. induction p as [x|B f k IH]; intros w a w' H; simpl.
  - intros [-> S]. apply H. by eapply env_steps.
  - intros (w1 & S & Hr). destruct (H w1) as [_ Hk]; [by eapply env_steps|]. by eapply IH.
Qed.

Lemma secured_run {A} (p : program W A) Q w : secured p Q w -> Q (run p w).1 (run p w).2.
Proof.
  intros H. destruct (run p w) as [a w'] eqn:E. apply (run_runs (fun _ _ => False)) in E.
  eapply secured_runs; [|exact H|exact E]. done.
Qed.
End Secured.

(** A program on a part of a larger world, beside a property [I] of the rest. *)
Lemma secured_zoom {V W A} (R G : W -> W -> Prop) (R' G' : V -> V -> Prop) (get : V -> W) (set : V -> W -> V) (I : V -> Prop)
    (p : program W A) Q :
  (forall v w, get (set v w) = w) -> (forall x y, R' x y -> rtc R (get x) (get y)) -> (forall v w, G (get v) w -> G' v (set v w)) ->
  (forall x y, R' x y -> I x -> I y) -> (forall v w, I v -> I (set v w)) ->
  forall v, I v -> secured R G p Q (get v) -> secured R' G' (zoom get set p) (fun a v => Q a (get v) /\ I v) v.
Proof.
  intros Hgs HR HG HI HS. assert (forall x y, rtc R' x y -> rtc R (get x) (get y) /\ (I x -> I y)) as HR'.
  { induction 1 as [|x y z H _ [IH1 IH2]]; [by split; [apply rtc_refl|]|]. split; [etrans; [by apply HR|done]|].
    intros Hx. apply IH2. by eapply HI. }
  induction p as [a|B f k IH]; intros v Hv H; simpl in *.
  - intros v' S. destruct (HR' _ _ S) as [H1 H2]. split; [apply H, H1|auto].
  - intros v1 S. destruct (HR' _ _ S) as [S1 HI1]. destruct (H (get v1) S1) as [H1 H2]. split; [by apply HG|].
    apply IH; [by apply HS, HI1|]. by rewrite Hgs.
Qed.

(** What a program returns, whatever its actions find. *)
Fixpoint yields {W A} (Q : A -> Prop) (p : program W A) : Prop :=
  match p with
  | Ret a => Q a
  | Act f k => forall w, yields Q (k (f w).1)
  end.

Lemma yields_bind {W A B} (p : program W A) (k : A -> program W B) (Q : A -> Prop) (Q' : B -> Prop) :
  yields Q p -> (forall a, Q a -> yields Q' (k a)) -> yields Q' (bind p k).
Proof. intros Hp Hk. induction p as [a|X f k' IH]; simpl in *; [auto|]. intros w. apply IH, Hp. Qed.

Lemma yields_mono {W A} (p : program W A) (Q Q' : A -> Prop) : (forall a, Q a -> Q' a) -> yields Q p -> yields Q' p.
Proof. intros H. induction p as [a|X f k IH]; simpl; [auto|]. intros Hk w. by apply IH. Qed.

Lemma yields_any {W A} (p : program W A) : yields (fun _ => True) p.
Proof. induction p as [a|X f k IH]; simpl; [done|]. intros w. apply IH. Qed.

Lemma yields_runs {W A} (env : W -> W -> Prop) (p : program W A) Q : yields Q p -> forall w a w', runs env p w a w' -> Q a.
Proof.
  induction p as [x|X f k IH]; simpl; intros H w a w'; [by intros [-> _]|]. intros (w1 & _ & Hr). by eapply IH.
Qed.

(** Actions the environment cannot tell from its own rest, with what they return. *)
Lemma obeys_yields_secured {W A} (R G : W -> W -> Prop) (P : W -> Prop) (S : W -> W -> Prop) (p : program W A) Q :
  (forall x y, R x y -> P x -> P y) -> (forall x y, S x y -> P x -> P y /\ G x y) -> obeys S p -> yields Q p ->
  forall w, P w -> secured R G p (fun a w => Q a /\ P w) w.
Proof.
  intros HR HS. induction p as [a|X f k IH]; intros Ho Hy w Hw; simpl in *.
  - intros w' S'. split; [done|]. induction S'; eauto.
  - destruct Ho as [Hf Hk]. intros w1 S'. assert (P w1) as Hw1 by (clear -HR Hw S'; induction S'; eauto).
    destruct (HS _ _ (Hf w1) Hw1) as [H1 H2]. split; [done|]. by apply IH.
Qed.

Lemma obeys_any {W A} (p : program W A) : obeys (fun _ _ => True) p.
Proof. induction p as [a|X f k IH]; [done|]. split; [done|]. intros b. apply IH. Qed.

(** ** Pools *)

Section Pool.
Context {W T : Type} `{EqDecision T}.

Definition Pool : Type := T -> program W unit.
Definition turned (ts : Pool) (i : T) (p : program W unit) : Pool := fun j => if decide (j = i) then p else ts j.

(** A run of a pool beside an environment: one step of the environment or one action of
    one program at a time. *)
Inductive pool_run (env : W -> W -> Prop) : W -> Pool -> W -> Pool -> Prop :=
| pool_stop w ts : pool_run env w ts w ts
| pool_env w w1 ts w' ts' : env w w1 -> pool_run env w1 ts w' ts' -> pool_run env w ts w' ts'
| pool_turn w ts i B (f : W -> B * W) k w' ts' : ts i = Act f k ->
    pool_run env (f w).2 (turned ts i (k (f w).1)) w' ts' -> pool_run env w ts w' ts'.

Context (env : W -> W -> Prop) (R G : T -> W -> W -> Prop).
Context (Henv : forall i x y, env x y -> R i x y) (Hrely : forall i j x y, i <> j -> G i x y -> R j x y).

Definition all_secured (w : W) (ts : Pool) : Prop := forall i, secured (R i) (G i) (ts i) (fun _ _ => True) w.

Definition pool_effect (x y : W) : Prop := env x y \/ exists i, G i x y.

(** Every run of a pool is made of guaranteed steps. *)
Lemma pool_steps w ts w' ts' : pool_run env w ts w' ts' -> all_secured w ts -> all_secured w' ts' /\ rtc pool_effect w w'.
Proof using Henv Hrely.
  induction 1 as [w ts|w w1 ts w' ts' H _ IH|w ts i B f k w' ts' Hi _ IH]; intros Hs; [by split; [|apply rtc_refl]|..].
  - destruct IH as [H1 H2].
    + intros j. eapply secured_pre; [|apply Hs]. by apply rtc_once, Henv.
    + split; [done|]. eapply rtc_l; [by left|done].
  - pose proof (Hs i) as H. rewrite Hi in H. destruct (H w (rtc_refl _ _)) as [HG Hk]. destruct IH as [H1 H2].
    + intros j. unfold turned. destruct (decide (j = i)) as [->|Hne]; [done|].
      eapply secured_pre; [|apply Hs]. apply rtc_once, (Hrely i); [congruence|done].
    + split; [done|]. eapply rtc_l; [right; by exists i|done].
Qed.

(** The run a schedule gives, without an environment. *)
Fixpoint pool_exec (schedule : list T) (w : W) (ts : Pool) : W * Pool :=
  match schedule with
  | [] => (w, ts)
  | i :: l =>
      match ts i with
      | Ret _ => pool_exec l w ts
      | Act f k => let '(b, w') := f w in pool_exec l w' (turned ts i (k b))
      end
  end.

Lemma pool_exec_run l : forall w ts, pool_run env w ts (pool_exec l w ts).1 (pool_exec l w ts).2.
Proof using Type.
  induction l as [|i l IH]; intros w ts; [apply pool_stop|]. simpl. destruct (ts i) as [u|B f k] eqn:Hi; [apply IH|].
  pose proof (IH (f w).2 (turned ts i (k (f w).1))) as Hr. pose proof (pool_turn env w ts i B f k _ _ Hi Hr) as Ht.
  by destruct (f w).
Qed.
End Pool.
