(* ===== verification/Cache.v ===== *)
(** * The blob cache

    src/src/cache.rs, cache/repository.rs, cache/object_store.rs and the
    cache-entry queries of db.rs: content-addressed objects on disk indexed by a
    SQL table, with buffered hit counts, watermark eviction and expiry.  Each
    operation runs under its locks ([capacity_lock], the capacity file lock and
    the flight lock of a key), so it is one transition; [active_flights] are the
    keys whose flight lock is held.  Instants are nanoseconds. *)

From stdpp Require Import base gmap sets list strings.
From Stdlib Require Import ZArith Lia Sorted Ascii Strings.Byte.
From S2P Require Import Prelude F64 Text Errors Metrics Files.

Module Cache.

Inductive CachePolicy := BalancedPolicy | Lru | Lfu.

Definition policy_name (p : CachePolicy) : string :=
  match p with BalancedPolicy => "balanced" | Lru => "lru" | Lfu => "lfu" end.

Record CacheRuntimeConfig := {
  partial_ttl : Z;
  cache_ttl : option Z;
  max_cache_bytes : Z;
  cache_policy : CachePolicy;
  cache_high_watermark : f64;
  cache_low_watermark : f64;
  public_bearer_cache_enabled : bool
}.

Record CachedObject := {
  o_key : string; o_path : string; o_size : Z; o_media_type : string; o_digest : option string
}.

(** [CacheRecord], the row of [cache_entries]. *)
Record CacheRecord := {
  e_key : string;
  e_media_type : string;
  e_path : string;
  e_size_bytes : Z;
  e_digest : option string;
  e_hit_count : Z;
  e_created_at : Z;
  e_last_accessed_at : Z
}.

Record CacheAggregate := { agg_entries : Z; agg_bytes : Z; agg_hits : Z }.

Record CacheStore := {
  files : Fs;
  entries : gmap string CacheRecord;
  pending_hits : gmap string Z;
  active_flights : gset string;
  runtime : CacheRuntimeConfig;
  metrics : TransferMetrics.t
}.

Definition with_files (s : CacheStore) (f : Fs) : CacheStore :=
  {| files := f; entries := entries s; pending_hits := pending_hits s;
     active_flights := active_flights s; runtime := runtime s; metrics := metrics s |}.
Definition with_entries (s : CacheStore) (m : gmap string CacheRecord) : CacheStore :=
  {| files := files s; entries := m; pending_hits := pending_hits s;
     active_flights := active_flights s; runtime := runtime s; metrics := metrics s |}.
Definition with_pending (s : CacheStore) (m : gmap string Z) : CacheStore :=
  {| files := files s; entries := entries s; pending_hits := m;
     active_flights := active_flights s; runtime := runtime s; metrics := metrics s |}.
Definition with_flights (s : CacheStore) (a : gset string) : CacheStore :=
  {| files := files s; entries := entries s; pending_hits := pending_hits s;
     active_flights := a; runtime := runtime s; metrics := metrics s |}.
Definition with_metrics (s : CacheStore) (m : TransferMetrics.t) : CacheStore :=
  {| files := files s; entries := entries s; pending_hits := pending_hits s;
     active_flights := active_flights s; runtime := runtime s; metrics := m |}.

(** [update_runtime]. *)
Definition update_runtime (s : CacheStore) (r : CacheRuntimeConfig) : CacheStore :=
  {| files := files s; entries := entries s; pending_hits := pending_hits s;
     active_flights := active_flights s; runtime := r; metrics := metrics s |}.

(** ** Keys *)

Definition valid_digest_identity (digest : string) : bool :=
  starts_with "sha256:" digest && (slen digest =? 71) && all_bytes is_ascii_hexdigit (str_drop 7 digest).

(** The part of a request that identifies the object: the digest of a blob
    request, or else the whole path. *)
Definition public_identity (request_path : string) : string :=
  let path := match split_once "?" request_path with Some (p, _) => p | None => request_path end in
  match rsplit_once "/blobs/" path with
  | Some (_, digest) => if valid_digest_identity digest then digest else request_path
  | None => request_path
  end.

(** A [Bearer] credential: [value.get(..7)] equals ["bearer "] ignoring case. *)
Definition is_bearer (value : string) : bool :=
  (7 <=? slen value) && eq_ignore_ascii_case (str_take 7 value) "bearer ".

Definition scoping_authorization (authorization : option string) (public_bearer : bool) : string :=
  match authorization with
  | Some value => if public_bearer && is_bearer value then "" else value
  | None => ""
  end.

(** The bytes [CacheStore::key] feeds to the hasher. *)
Definition key_preimage (cache_scope request_path : string) (authorization : option string)
    (public_bearer : bool) : string :=
  cache_scope +:+ chr 0 +:+ public_identity request_path +:+ chr 0 +:+
  scoping_authorization authorization public_bearer.

Definition valid_key (key : string) : bool := (slen key =? 64) && all_bytes is_ascii_hexdigit key.

Section Keys.
(** The hash function: hex of SHA-256. *)
Variable sha256_hex : string -> string.

(** [CacheStore::key] and [request_key]. *)
Definition cache_key (cache_scope request_path : string) (authorization : option string)
    (public_bearer : bool) : string :=
  sha256_hex (key_preimage cache_scope request_path authorization public_bearer).

Definition request_key (s : CacheStore) (cache_scope request_path : string)
    (authorization : option string) (public_route : bool) : string :=
  cache_key cache_scope request_path authorization
    (public_route && public_bearer_cache_enabled (runtime s)).

End Keys.

Section Store.
(** Parameters: the natural logarithm of [1 + x], the data directory, and the
    order in which SQLite enumerates the rows of the table before sorting. *)
Variable ln_1p : f64 -> f64.
Variable data_dir : string.
Variable rows : gmap string CacheRecord -> list CacheRecord.

(** ** Object store paths *)

Definition objects_dir : string := data_dir +:+ "/cache/objects".
Definition temp_dir : string := data_dir +:+ "/cache/tmp".
Definition object_path (key : string) : string :=
  objects_dir +:+ "/" +:+ str_take 2 key +:+ "/" +:+ key.

(** [ObjectStore::commit]. *)
Definition commit (s : CacheStore) (key temporary : string) : ApiResult Z * CacheStore :=
  let destination := object_path key in
  match rename (files s) temporary destination with
  | Err e => (Err e, s)
  | Ok f => (metadata f destination, with_files s f)
  end.

(** ** The repository *)

(** [db::insert_cache_entry]: an existing row keeps its hit count and creation time. *)
Definition insert (s : CacheStore) (r : CacheRecord) : CacheStore :=
  with_entries s
    (<[e_key r := match entries s !! e_key r with
       | None => r
       | Some old => {| e_key := e_key r; e_media_type := e_media_type r; e_path := e_path r;
                        e_size_bytes := e_size_bytes r; e_digest := e_digest r;
                        e_hit_count := e_hit_count old; e_created_at := e_created_at old;
                        e_last_accessed_at := e_last_accessed_at r |}
       end]> (entries s)).

Definition delete_entry (s : CacheStore) (key : string) : CacheStore :=
  with_entries s (delete key (entries s)).

(** [db::add_cache_hits]. *)
Definition add_hits (count now : Z) (r : CacheRecord) : CacheRecord :=
  {| e_key := e_key r; e_media_type := e_media_type r; e_path := e_path r;
     e_size_bytes := e_size_bytes r; e_digest := e_digest r;
     e_hit_count := e_hit_count r + to_i64_saturating count;
     e_created_at := e_created_at r; e_last_accessed_at := now |}.

Definition add_cache_hits (s : CacheStore) (key : string) (count now : Z) : CacheStore :=
  with_entries s (alter (add_hits count now) key (entries s)).

Definition FLUSH_THRESHOLD : Z := 32.

(** [record_hit]: buffer, and write through every 32 hits. *)
Definition record_hit (s : CacheStore) (key : string) (now : Z) : CacheStore :=
  let count := saturating_add (unwrap_or (pending_hits s !! key) 0) 1 in
  if FLUSH_THRESHOLD <=? count
  then add_cache_hits (with_pending s (<[key := 0]> (pending_hits s))) key count now
  else with_pending s (<[key := count]> (pending_hits s)).

Definition discard_pending_hits (s : CacheStore) (key : string) : CacheStore :=
  with_pending s (delete key (pending_hits s)).

(** [flush_hits]: every key with a positive buffer is written through. *)
Definition flush_one (now : Z) (s : CacheStore) (key : string) : CacheStore :=
  match pending_hits s !! key with
  | Some count =>
      let s := with_pending s (delete key (pending_hits s)) in
      if 0 <? count then add_cache_hits s key count now else s
  | None => s
  end.

Definition pending_keys (s : CacheStore) : list string :=
  (map_to_list (filter (fun p : string * Z => 0 < p.2) (pending_hits s))).*1.

Definition flush_hits (s : CacheStore) (now : Z) : CacheStore :=
  foldl (flush_one now) s (pending_keys s).

(** [db::cache_aggregate]; SQLite's [SUM] fails when it leaves the [i64] range. *)
Definition sum_of (f : CacheRecord -> Z) (m : gmap string CacheRecord) : Z :=
  map_fold (fun _ r acc => Z.max (f r) 0 + acc) 0 m.

Definition aggregate (s : CacheStore) (now : Z) : ApiResult CacheAggregate * CacheStore :=
  let s := flush_hits s now in
  if (sum_of e_size_bytes (entries s) <=? i64_max) && (sum_of e_hit_count (entries s) <=? i64_max)
  then (Ok {| agg_entries := Z.of_nat (size (entries s));
              agg_bytes := sum_of e_size_bytes (entries s);
              agg_hits := sum_of e_hit_count (entries s) |}, s)
  else (Err (Database (DbOther "integer overflow")), s).

(** [ORDER BY ... ASC LIMIT n]. *)
Definition by_access (a b : CacheRecord) : comparison :=
  Z.compare (e_last_accessed_at a) (e_last_accessed_at b).
Definition by_hits (a b : CacheRecord) : comparison :=
  then_cmp (Z.compare (e_hit_count a) (e_hit_count b)) (by_access a b).

Definition select (cmp : CacheRecord -> CacheRecord -> comparison) (limit : Z)
    (m : gmap string CacheRecord) : list CacheRecord :=
  take (Z.to_nat limit) (sort_by cmp (rows m)).

(** [db::cache_eviction_candidates]. *)
Definition eviction_candidates (s : CacheStore) (policy : string) (limit : Z) : list CacheRecord :=
  select (if policy =?s "lfu" then by_hits else by_access) (clamp limit 1 1024) (entries s).

(** [db::expired_cache_candidates]. *)
Definition expired_candidates (s : CacheStore) (cutoff limit : Z) : list CacheRecord :=
  take (Z.to_nat (clamp limit 1 1024))
    (sort_by by_access (List.filter (fun r => e_last_accessed_at r <? cutoff) (rows (entries s)))).

(** [db::list_cache_entries] behind [CacheStore::list]: newest access first. *)
Definition list_entries (s : CacheStore) (limit now : Z) : list CacheRecord * CacheStore :=
  let s := flush_hits s now in
  (select (fun a b => by_access b a) (Z.min limit 10000) (entries s), s).

(** [db::all_cache_entries]. *)
Definition all_entries (s : CacheStore) : list CacheRecord := sort_by by_access (rows (entries s)).

(** ** Lookups *)

(** [i64 as u64]. *)
Definition i64_as_u64 (z : Z) : Z := z mod 2 ^ 64.

(** [get]: a row whose file is missing or has another size is dropped. *)
Definition get (s : CacheStore) (key : string) (now : Z) : option CachedObject * CacheStore :=
  match entries s !! key with
  | None => (None, s)
  | Some entry =>
      match metadata (files s) (e_path entry) with
      | Ok n =>
          if n =? i64_as_u64 (e_size_bytes entry)
          then (Some {| o_key := e_key entry; o_path := e_path entry; o_size := n;
                        o_media_type := e_media_type entry; o_digest := e_digest entry |},
                record_hit s key now)
          else (None, delete_entry s key)
      | Err _ => (None, delete_entry s key)
      end
  end.

Definition get_for_blob_request (s : CacheStore) (key : string) (now g : Z) : option CachedObject * CacheStore :=
  let (result, s) := get s key now in
  (result, with_metrics s (TransferMetrics.record (metrics s) g (TransferMetrics.record_blob_get (is_some result)))).

Definition get_for_head_request (s : CacheStore) (key : string) (now g : Z) : option CachedObject * CacheStore :=
  let (result, s) := get s key now in
  (result, with_metrics s (TransferMetrics.record (metrics s) g (TransferMetrics.record_blob_head (is_some result)))).

(** ** Removal and eviction *)

(** [lock] and the drop of its [CacheLease]; [None] while another flight holds the key. *)
Definition lock (s : CacheStore) (key : string) : option CacheStore :=
  if bool_decide (key ∈ active_flights s) then None
  else Some (with_flights s ({[key]} ∪ active_flights s)).

Definition unlock (s : CacheStore) (key : string) : CacheStore :=
  with_flights s (active_flights s ∖ {[key]}).

Definition remove_locked (s : CacheStore) (key : string) : CacheStore :=
  delete_entry (with_files s (remove_file (files s) (object_path key))) key.

(** [remove]; [None] while the key's flight is held by another task. *)
Definition remove (s : CacheStore) (key : string) : option (ApiResult unit * CacheStore) :=
  if negb (valid_key key) then Some (Err (BadRequest "invalid cache key"), s)
  else
    let* s := lock s key in
    Some (Ok tt, unlock (remove_locked (discard_pending_hits s key) key) key).

(** [retention_score]. *)
Definition nanos : Z := 1000000000.

Definition retention_score (entry : CacheRecord) (now : Z) (policy : CachePolicy) : f64 :=
  let age_hours := (f64_of_Z (Z.max (Z.quot (now - e_last_accessed_at entry) nanos) 0) / f64_of_Z 3600)%f64 in
  let hits := f64_of_Z (Z.max (e_hit_count entry) 0) in
  let size_mib := (f64_of_Z (Z.max (e_size_bytes entry) 0) / (f64_of_Z 1024 * f64_of_Z 1024))%f64 in
  match policy with
  | Lru => SpecFloat.SFopp age_hours
  | Lfu => (ln_1p hits - age_hours * f64_ratio 1 1000)%f64
  | BalancedPolicy =>
      (f64_of_Z 20 / (f64_of_Z 1 + age_hours / f64_of_Z 24) + ln_1p hits * f64_of_Z 3 - ln_1p size_mib)%f64
  end.

Definition retention_cmp (now : Z) (policy : CachePolicy) (a b : CacheRecord) : comparison :=
  total_cmp (retention_score a now policy) (retention_score b now policy).

Definition entry_size (r : CacheRecord) : Z := Z.max (e_size_bytes r) 0.

(** One pass of the eviction loop over a batch of candidates: skip the protected
    key and active flights, stop when enough is freed. *)
Fixpoint evict_batch (protected : string) (need : Z) (batch : list CacheRecord)
    (freed : Z) (removed : bool) (s : CacheStore) : option (ApiResult (Z * bool) * CacheStore) :=
  match batch with
  | [] => Some (Ok (freed, removed), s)
  | entry :: rest =>
      if (e_key entry =?s protected) || bool_decide (e_key entry ∈ active_flights s)
      then evict_batch protected need rest freed removed s
      else
        let* r := remove s (e_key entry) in
        match r with
        | (Err e, s) => Some (Err e, s)
        | (Ok _, s) =>
            let freed := saturating_add freed (entry_size entry) in
            if need <=? freed then Some (Ok (freed, true), s)
            else evict_batch protected need rest freed true s
        end
  end.

(** [while freed < need_to_free { ... }]; [None] when the fuel runs out. *)
Fixpoint evict_loop (fuel : nat) (protected : string) (now need freed : Z) (s : CacheStore)
    : option (ApiResult Z * CacheStore) :=
  if need <=? freed then Some (Ok freed, s)
  else
    match fuel with
    | O => None
    | S fuel =>
        match eviction_candidates s (policy_name (cache_policy (runtime s))) 512 with
        | [] => Some (Ok freed, s)
        | batch =>
            let* r := evict_batch protected need (sort_by (retention_cmp now (cache_policy (runtime s))) batch)
                        freed false s in
            match r with
            | (Err e, s) => Some (Err e, s)
            | (Ok (freed, removed), s) =>
                if removed then evict_loop fuel protected now need freed s else Some (Ok freed, s)
            end
        end
    end.

(** The two watermarks in bytes. *)
Definition high_bytes (r : CacheRuntimeConfig) : Z :=
  f64_to_u64 (f64_of_Z (max_cache_bytes r) * cache_high_watermark r)%f64.
Definition low_bytes (r : CacheRuntimeConfig) : Z :=
  f64_to_u64 (f64_of_Z (max_cache_bytes r) * cache_low_watermark r)%f64.

(** [reserve_capacity_locked]. *)
Definition reserve_capacity_locked (s : CacheStore) (incoming : Z) (protected : string) (now : Z)
    : option (ApiResult unit * CacheStore) :=
  if max_cache_bytes (runtime s) <? incoming
  then Some (Err (BadRequest "object exceeds the configured cache capacity"), s)
  else
    match aggregate s now with
    | (Err e, s) => Some (Err e, s)
    | (Ok agg, s) =>
        let current := agg_bytes agg in
        if saturating_add current incoming <=? high_bytes (runtime s) then Some (Ok tt, s)
        else
          let target_after_admission := Z.max (low_bytes (runtime s)) incoming in
          let need := saturating_sub (saturating_add current incoming) target_after_admission in
          let* r := evict_loop (S (size (entries s))) protected now need 0 s in
          match r with
          | (Err e, s) => Some (Err e, s)
          | (Ok freed, s) =>
              if freed <? need
              then Some (Err (BadRequest "cache is full and no safe eviction candidates are available"), s)
              else Some (Ok tt, s)
          end
    end.

(** ** Admission *)

Definition admit_body (s : CacheStore) (key temporary media_type : string) (digest : option string) (now : Z)
    : option (ApiResult CachedObject * CacheStore) :=
  match metadata (files s) temporary with
  | Err e => Some (Err e, s)
  | Ok incoming =>
      let* r := reserve_capacity_locked s incoming key now in
      match r with
      | (Err e, s) => Some (Err e, s)
      | (Ok _, s) =>
          match commit s key temporary with
          | (Err e, s) => Some (Err e, s)
          | (Ok n, s) =>
              let destination := object_path key in
              let s := insert s
                {| e_key := key; e_media_type := media_type; e_path := destination;
                   e_size_bytes := to_i64_saturating n; e_digest := digest; e_hit_count := 0;
                   e_created_at := now; e_last_accessed_at := now |} in
              Some (Ok {| o_key := key; o_path := destination; o_size := n;
                          o_media_type := media_type; o_digest := digest |}, s)
          end
      end
  end.

(** [admit_object], with its metrics. *)
Definition admit_object (s : CacheStore) (key temporary media_type : string) (digest : option string) (now g : Z)
    : option (ApiResult CachedObject * CacheStore) :=
  let s := with_metrics s (TransferMetrics.record (metrics s) g TransferMetrics.record_cache_admission_started) in
  let* r := admit_body s key temporary media_type digest now in
  let (result, s) := r in
  let e := match result with
           | Ok object => TransferMetrics.record_cache_admission_succeeded (o_size object)
           | Err _ => TransferMetrics.record_cache_admission_failed
           end in
  Some (result, with_metrics s (TransferMetrics.record (metrics s) g e)).

(** [CacheStore::stats]. *)
Definition stats (s : CacheStore) (now : Z) : ApiResult CacheAggregate * CacheStore := aggregate s now.

(** ** Maintenance *)

(** One pass of [cleanup_expired] over a batch of expired rows. *)
Fixpoint expire_batch (batch : list CacheRecord) (freed : Z) (removed : bool) (s : CacheStore)
    : option (ApiResult (Z * bool) * CacheStore) :=
  match batch with
  | [] => Some (Ok (freed, removed), s)
  | entry :: rest =>
      if bool_decide (e_key entry ∈ active_flights s) then expire_batch rest freed removed s
      else
        let* r := remove s (e_key entry) in
        match r with
        | (Err e, s) => Some (Err e, s)
        | (Ok _, s) => expire_batch rest (saturating_add freed (entry_size entry)) true s
        end
  end.

Fixpoint expire_loop (fuel : nat) (cutoff freed : Z) (s : CacheStore) : option (ApiResult Z * CacheStore) :=
  match expired_candidates s cutoff 512 with
  | [] => Some (Ok freed, s)
  | batch =>
      match fuel with
      | O => None
      | S fuel =>
          let* r := expire_batch batch freed false s in
          match r with
          | (Err e, s) => Some (Err e, s)
          | (Ok (freed, removed), s) =>
              if removed then expire_loop fuel cutoff freed s else Some (Ok freed, s)
          end
      end
  end.

(** [cleanup_expired]. *)
Definition cleanup_expired (s : CacheStore) (now : Z) : option (ApiResult Z * CacheStore) :=
  match cache_ttl (runtime s) with
  | None => Some (Ok 0, s)
  | Some ttl =>
      let s := flush_hits s now in
      expire_loop (S (size (entries s))) (now - ttl) 0 s
  end.

(** [ObjectStore::prune_orphans]: object files of no active flight, and stale
    partial files of no active flight ([modified] is the file's time stamp). *)
Definition orphan_object (active : gset string) (path : string) : bool :=
  is_some_and (components_below objects_dir path)
    (fun cs => negb (existsb (fun c => bool_decide (c ∈ active)) cs)).

Definition orphan_partial (active : gset string) (modified : string -> Z) (cutoff : Z) (path : string) : bool :=
  is_some_and (components_below temp_dir path)
    (fun cs => negb (is_some_and (head cs) (fun c => bool_decide (c ∈ active))) && (modified path <? cutoff)).

Definition prune_orphans (f : Fs) (active : gset string) (modified : string -> Z) (cutoff : Z) : Fs :=
  filter (fun p : string * bytes =>
    orphan_object active p.1 = false /\ orphan_partial active modified cutoff p.1 = false) f.

(** The deletion loop of [clear_all]. *)
Definition clear_one (acc : Z * CacheStore) (entry : CacheRecord) : Z * CacheStore :=
  let (freed, s) := acc in
  if bool_decide (e_key entry ∈ active_flights s) then acc
  else
    let s := with_files s (remove_file (files s) (e_path entry)) in
    let s := delete_entry (discard_pending_hits s (e_key entry)) (e_key entry) in
    (saturating_add freed (entry_size entry), s).

(** [clear_all]: refuses ([0]) while any writer holds the maintenance lock, as
    every flight does; [other_writer] stands for other processes and admissions. *)
Definition clear_all (s : CacheStore) (other_writer : bool) (modified : string -> Z) (now : Z) : Z * CacheStore :=
  if other_writer || negb (bool_decide (active_flights s = ∅)) then (0, s)
  else
    let (freed, s) := foldl clear_one (0, s) (all_entries s) in
    (freed, with_files s (prune_orphans (files s) (active_flights s) modified (now - partial_ttl (runtime s)))).

(** [reconcile_startup]: drop rows without a matching file, then object files
    without a row; [stale] are the partial directories older than their time to live. *)
Definition entry_valid (f : Fs) (r : CacheRecord) : bool :=
  match metadata f (e_path r) with Ok n => n =? Z.max (e_size_bytes r) 0 | Err _ => false end.

Definition indexed_keys (f : Fs) (l : list CacheRecord) : gset string :=
  list_to_set (e_key <$> List.filter (entry_valid f) l).

Definition remove_unindexed (f : Fs) (indexed : gset string) : Fs :=
  filter (fun p : string * bytes =>
    starts_with (objects_dir +:+ "/") p.1 = false \/ file_name p.1 ∈ indexed) f.

Definition reconcile_startup (s : CacheStore) (stale : list string) : CacheStore :=
  let s := with_files s (foldl remove_dir_all (files s) ((fun d => temp_dir +:+ "/" +:+ d) <$> stale)) in
  let all := all_entries s in
  let s' := foldl (fun s r => if entry_valid (files s) r then s else delete_entry s (e_key r)) s all in
  with_files s' (remove_unindexed (files s') (indexed_keys (files s) all)).

(** ** Well-formedness

    Every row is stored under its own valid key, names the object path of that
    key and has a size that fits [i64]. *)

Definition row_wf (key : string) (r : CacheRecord) : Prop :=
  e_key r = key /\ valid_key key = true /\ e_path r = object_path key /\ 0 <= e_size_bytes r <= i64_max.

Definition wf (s : CacheStore) : Prop := map_Forall row_wf (entries s).

(** SQLite enumerates each row of the table once. *)
Definition scans_rows : Prop := forall m, rows m ≡ₚ (map_to_list m).*2.

Definition total_bytes (s : CacheStore) : Z := sum_of e_size_bytes (entries s).

(** *** Sums over the table *)

Lemma sum_of_nonneg f m : 0 <= sum_of f m.
Proof.
  unfold sum_of. apply (map_fold_weak_ind (fun acc _ => 0 <= acc)); [lia|]. intros. lia.
Qed.

Lemma sum_of_insert f (m : gmap string CacheRecord) k r :
  m !! k = None -> sum_of f (<[k := r]> m) = Z.max (f r) 0 + sum_of f m.
Proof. intros H. unfold sum_of. rewrite map_fold_insert_L; [done| |done]. intros. lia. Qed.

Lemma sum_of_delete f (m : gmap string CacheRecord) k r :
  m !! k = Some r -> sum_of f m = Z.max (f r) 0 + sum_of f (delete k m).
Proof.
  intros H. rewrite <- (insert_delete_id m k r H) at 1. apply sum_of_insert. apply lookup_delete_eq.
Qed.

Lemma sum_of_delete_le f (m : gmap string CacheRecord) k : sum_of f (delete k m) <= sum_of f m.
Proof.
  destruct (m !! k) as [r|] eqn:E.
  - rewrite (sum_of_delete f m k r E). lia.
  - by rewrite delete_id.
Qed.

Lemma sum_of_alter f g (m : gmap string CacheRecord) k :
  (forall r, f (g r) = f r) -> sum_of f (alter g k m) = sum_of f m.
Proof.
  intros Hg. destruct (m !! k) as [r|] eqn:E; [|by rewrite alter_id by naive_solver].
  rewrite (sum_of_delete f m k r E).
  rewrite (sum_of_delete f (alter g k m) k (g r)) by (by rewrite lookup_alter_eq, E).
  rewrite Hg, delete_alter_eq. done.
Qed.

(** *** Updates that only touch hit counts and access times *)

Definition row_core (r : CacheRecord) : string * string * string * Z * option string :=
  (e_key r, e_media_type r, e_path r, e_size_bytes r, e_digest r).

Record same_rows (s s' : CacheStore) : Prop := {
  sr_files : files s' = files s;
  sr_core : row_core <$> entries s' = row_core <$> entries s;
  sr_flights : active_flights s' = active_flights s;
  sr_runtime : runtime s' = runtime s;
  sr_metrics : metrics s' = metrics s
}.

#[local] Instance same_rows_preorder : PreOrder same_rows.
Proof.
  split.
  - intros s. by split.
  - intros s1 s2 s3 [] []. split; congruence.
Qed.

Lemma add_hits_core c now k (m : gmap string CacheRecord) :
  row_core <$> alter (add_hits c now) k m = row_core <$> m.
Proof.
  apply map_eq. intros j. rewrite !lookup_fmap. destruct (decide (k = j)) as [->|].
  - rewrite lookup_alter_eq. by destruct (m !! j).
  - by rewrite lookup_alter_ne.
Qed.

Lemma add_cache_hits_same s k c now : same_rows s (add_cache_hits s k c now).
Proof. split; simpl; try done. apply add_hits_core. Qed.

Lemma record_hit_same s key now : same_rows s (record_hit s key now).
Proof.
  unfold record_hit. destruct (_ <=? _); [|by split].
  split; simpl; try done. apply add_hits_core.
Qed.

Lemma flush_one_same now s key : same_rows s (flush_one now s key).
Proof.
  unfold flush_one. destruct (pending_hits s !! key) as [c|]; [|done].
  destruct (0 <? c); [|by split]. split; simpl; try done. apply add_hits_core.
Qed.

Lemma flush_keys_same now l s : same_rows s (foldl (flush_one now) s l).
Proof.
  revert s. induction l as [|k l IH]; intros s; simpl; [done|].
  etransitivity; [apply flush_one_same|apply IH].
Qed.

Lemma flush_hits_same s now : same_rows s (flush_hits s now).
Proof. apply flush_keys_same. Qed.

Lemma same_rows_lookup s s' k r' :
  same_rows s s' -> entries s' !! k = Some r' ->
  exists r, entries s !! k = Some r /\ row_core r' = row_core r.
Proof.
  intros Hs Hk. pose proof (sr_core _ _ Hs) as Hc.
  assert ((row_core <$> entries s') !! k = Some (row_core r')) as H by (by rewrite lookup_fmap, Hk).
  rewrite Hc, lookup_fmap in H. destruct (entries s !! k) as [r|]; [|done].
  exists r. split; [done|]. symmetry. by apply (inj Some) in H.
Qed.

Lemma same_rows_wf s s' : same_rows s s' -> wf s -> wf s'.
Proof.
  intros Hs Hw k r' Hk. destruct (same_rows_lookup _ _ _ _ Hs Hk) as (r & Hr & Hc).
  unfold row_core in Hc. simplify_eq. destruct (Hw k r Hr) as (? & ? & ? & ?).
  unfold row_wf. split_and!; congruence || (destruct r, r'; simpl in *; lia).
Qed.

Lemma same_rows_total s s' : same_rows s s' -> total_bytes s' = total_bytes s.
Proof.
  intros Hs. unfold total_bytes, sum_of. pose proof (sr_core _ _ Hs) as Hc.
  assert (forall m, map_fold (fun (_ : string) r acc => Z.max (e_size_bytes r) 0 + acc) 0 m =
    map_fold (fun (_ : string) c acc => Z.max c.1.2 0 + acc) 0 (row_core <$> m)) as H.
  { intros m. by rewrite map_fold_fmap. }
  by rewrite !H, Hc.
Qed.

Lemma same_rows_size s s' : same_rows s s' -> size (entries s') = size (entries s).
Proof. intros Hs. rewrite <- (map_size_fmap row_core), <- (map_size_fmap row_core (entries s)). by rewrite (sr_core _ _ Hs). Qed.

(** *** Object paths *)

Lemma str_app_inj a x y : a +:+ x = a +:+ y -> x = y.
Proof. intros H. rewrite <- (str_drop_app a x), H. apply str_drop_app. Qed.

Lemma str_take_length n s : (n <= String.length s)%nat -> String.length (str_take n s) = n.
Proof. revert s. induction n as [|n IH]; intros [|c s] H; simpl in *; try lia. by rewrite IH by lia. Qed.

Lemma valid_key_length k : valid_key k = true -> String.length k = 64%nat.
Proof. unfold valid_key, slen. intros H. bool_hyps. lia. Qed.

Lemma object_path_inj k1 k2 :
  valid_key k1 = true -> valid_key k2 = true -> object_path k1 = object_path k2 -> k1 = k2.
Proof.
  intros H1%valid_key_length H2%valid_key_length H. unfold object_path in H.
  apply str_app_inj, str_app_inj in H.
  rewrite <- (str_drop_app (str_take 2 k1 +:+ "/") k1), <- (str_drop_app (str_take 2 k2 +:+ "/") k2).
  rewrite !str_app_assoc, H, !str_length_app, !str_take_length by lia. done.
Qed.

(** *** Removing rows *)

(** [shrinks keep s s']: [s'] is [s] after removals of keys outside [keep]. *)
Record shrinks (keep : string -> Prop) (s s' : CacheStore) : Prop := {
  sh_runtime : runtime s' = runtime s;
  sh_flights : active_flights s' = active_flights s;
  sh_metrics : metrics s' = metrics s;
  sh_entries : entries s' ⊆ entries s;
  sh_kept : forall k, keep k -> entries s' !! k = entries s !! k;
  sh_files : forall p, files s' !! p = files s !! p \/
    files s' !! p = None /\ exists k, valid_key k = true /\ ~ keep k /\ p = object_path k
}.

#[local] Instance shrinks_preorder keep : PreOrder (shrinks keep).
Proof.
  split.
  - intros s. split; try done. by left.
  - intros s1 s2 s3 [] []. split; try congruence.
    + by etransitivity.
    + intros k Hk. rewrite sh_kept1, sh_kept0 by done. done.
    + intros p. destruct (sh_files1 p) as [E|[E (k & ? & ? & ->)]].
      * rewrite E. apply sh_files0.
      * right. eauto.
Qed.

Lemma shrinks_wf keep s s' : shrinks keep s s' -> wf s -> wf s'.
Proof. intros H Hw k r Hk. apply Hw. by eapply lookup_weaken; [|apply (sh_entries _ _ _ H)]. Qed.

(** Removing a valid key that is not in flight. *)
Lemma remove_spec s key : valid_key key = true -> key ∉ active_flights s ->
  exists s', remove s key = Some (Ok tt, s') /\ entries s' = delete key (entries s) /\
    files s' = delete (object_path key) (files s) /\ active_flights s' = active_flights s /\
    runtime s' = runtime s /\ metrics s' = metrics s /\ pending_hits s' = delete key (pending_hits s).
Proof.
  intros Hv Ha. unfold remove. rewrite Hv. simpl. unfold lock.
  rewrite bool_decide_eq_false_2 by done. eexists. split; [done|]. simpl. split_and!; try done.
  apply set_eq. set_solver.
Qed.

Lemma remove_shrinks keep s key s' :
  valid_key key = true -> key ∉ active_flights s -> ~ keep key ->
  remove s key = Some (Ok tt, s') -> shrinks keep s s'.
Proof.
  intros Hv Ha Hk Hr. destruct (remove_spec s key Hv Ha) as (s2 & Hr2 & He & Hf & Hact & Hrt & Hm & _).
  rewrite Hr in Hr2. simplify_eq. split; try done.
  - rewrite He. apply delete_subseteq.
  - intros k Hk'. rewrite He. apply lookup_delete_ne. congruence.
  - intros p. rewrite Hf. destruct (decide (object_path key = p)) as [<-|Hne].
    + right. rewrite lookup_delete_eq. eauto.
    + left. by apply lookup_delete_ne.
Qed.

(** *** Batches of rows *)

(** A batch read from the table: distinct keys, rows as stored. *)
Definition batch_of (s : CacheStore) (l : list CacheRecord) : Prop :=
  NoDup (e_key <$> l) /\ Forall (fun r => entries s !! e_key r = Some r) l.

Lemma batch_perm s l l' : l' ≡ₚ l -> batch_of s l -> batch_of s l'.
Proof. intros Hp [? ?]. unfold batch_of. by rewrite Hp. Qed.

Lemma batch_take s n l : batch_of s l -> batch_of s (take n l).
Proof.
  intros [Hn Hf]. split; [|by apply Forall_take].
  rewrite <- (take_drop n l), fmap_app in Hn. by apply NoDup_app in Hn as [? _].
Qed.

Lemma batch_filter s p l : batch_of s l -> batch_of s (List.filter p l).
Proof.
  intros [Hn Hf]. unfold batch_of. induction l as [|r l IH]; [done|]. simpl in *.
  apply NoDup_cons in Hn as [Hr Hn]. inversion Hf; subst. destruct IH as [IHn IHf]; [done..|].
  destruct (p r); [|done]. split; [|by constructor]. simpl. apply NoDup_cons. split; [|done].
  contradict Hr. apply list_elem_of_fmap in Hr as (x & -> & Hx). apply list_elem_of_fmap. exists x.
  split; [done|]. rewrite list_elem_of_In, filter_In, <- list_elem_of_In in Hx. by destruct Hx.
Qed.

Lemma rows_batch s : scans_rows -> wf s -> batch_of s (rows (entries s)).
Proof.
  intros Hrows Hw. eapply batch_perm; [apply Hrows|]. unfold batch_of.
  assert (forall p, p ∈ map_to_list (entries s) -> e_key p.2 = p.1) as Hk.
  { intros [k r] Hin. apply elem_of_map_to_list in Hin. by destruct (Hw k r Hin). }
  split.
  - rewrite <- list_fmap_compose.
    replace ((e_key ∘ snd) <$> map_to_list (entries s)) with ((map_to_list (entries s)).*1).
    { apply NoDup_fst_map_to_list. }
    apply list_fmap_ext. intros i p Hi. symmetry. apply Hk. by eapply list_elem_of_lookup_2.
  - apply Forall_forall. intros r Hr. apply list_elem_of_fmap in Hr as ([k r'] & -> & Hin). simpl.
    pose proof (Hk _ Hin) as E. simpl in E. rewrite E. by apply elem_of_map_to_list.
Qed.

Lemma eviction_batch s policy limit : scans_rows -> wf s -> batch_of s (eviction_candidates s policy limit).
Proof.
  intros. unfold eviction_candidates, select. apply batch_take.
  eapply batch_perm; [apply sort_by_perm|]. by apply rows_batch.
Qed.

Lemma batch_after_removal s s' r l :
  NoDup (e_key <$> r :: l) -> Forall (fun r => entries s !! e_key r = Some r) l ->
  entries s' = delete (e_key r) (entries s) -> batch_of s' l.
Proof.
  simpl. intros [Hr Hn]%NoDup_cons Hf He. split; [done|]. rewrite He.
  apply Forall_forall. intros x Hx. rewrite lookup_delete_ne.
  - rewrite Forall_forall in Hf. by apply Hf.
  - intros E. apply Hr. rewrite E. by apply list_elem_of_fmap_2.
Qed.

(** Removing a stored row, as the loops do: what it frees and leaves. *)
Lemma remove_row keep s r :
  wf s -> entries s !! e_key r = Some r -> e_key r ∉ active_flights s -> ~ keep (e_key r) ->
  exists s', remove s (e_key r) = Some (Ok tt, s') /\ shrinks keep s s' /\
    entries s' = delete (e_key r) (entries s) /\
    total_bytes s = entry_size r + total_bytes s' /\
    (size (entries s') < size (entries s))%nat.
Proof.
  intros Hw Hr Ha Hk. destruct (Hw _ _ Hr) as (_ & Hv & _).
  destruct (remove_spec s (e_key r) Hv Ha) as (s' & Hrem & He & _). exists s'.
  split; [done|]. split; [by eapply remove_shrinks|]. split; [done|]. split.
  - unfold total_bytes. rewrite He. apply (sum_of_delete e_size_bytes _ _ _ Hr).
  - rewrite He. rewrite (map_size_delete_Some (e_key r)) by (by eexists).
    assert (size (entries s) <> 0%nat); [|lia].
    intros E. apply map_size_empty_inv in E. by rewrite E, lookup_empty in Hr.
Qed.

Section Evict.
Variable protected : string.
Variable active : gset string.

Definition kept (k : string) : Prop := k = protected \/ k ∈ active.

Lemma evict_batch_spec need batch freed removed s :
  wf s -> active_flights s = active -> batch_of s batch ->
  0 <= freed -> freed + total_bytes s <= u64_max ->
  exists freed' removed' s', evict_batch protected need batch freed removed s = Some (Ok (freed', removed'), s') /\
    shrinks kept s s' /\ freed' + total_bytes s' = freed + total_bytes s /\ freed <= freed' /\
    (removed' = true -> removed = true \/ (size (entries s') < size (entries s))%nat).
Proof.
  revert freed removed s. induction batch as [|r l IH]; intros freed removed s Hw Ha [Hn Hf] H0 Hmax; simpl.
  { eexists _, _, _. split; [done|]. split; [done|]. split_and!; try lia; auto. }
  inversion Hf as [|? ? Hr Hf']; subst. simpl in Hn. pose proof Hn as Hn0. apply NoDup_cons in Hn as [_ Hn].
  destruct ((e_key r =?s protected) || bool_decide (e_key r ∈ active_flights s)) eqn:Eskip.
  { by apply IH; [| | |lia|]. }
  apply orb_false_iff in Eskip as [Hp%str_eqb_neq Hna%bool_decide_eq_false].
  destruct (remove_row kept s r) as (s1 & -> & Hsh & He & Htot & Hsz); try done.
  { intros [?|?]; [done|]. by rewrite Ha in Hna. }
  assert (0 <= entry_size r) by (unfold entry_size; lia).
  pose proof (sum_of_nonneg e_size_bytes (entries s1)) as Hs1. fold (total_bytes s1) in Hs1.
  assert (saturating_add freed (entry_size r) = freed + entry_size r) as Esat by (unfold saturating_add; lia).
  rewrite Esat. destruct (need <=? freed + entry_size r).
  { eexists _, _, _. split; [done|]. split; [done|]. split_and!; try lia; auto. }
  destruct (IH (freed + entry_size r) true s1) as (f' & rm' & s' & -> & Hsh' & Htot' & Hle & Hrm).
  - by eapply shrinks_wf.
  - by rewrite (sh_flights _ _ _ Hsh).
  - by eapply batch_after_removal.
  - lia.
  - lia.
  - eexists _, _, _. split; [done|]. split; [by etransitivity|]. split_and!; try lia.
    intros _. right. pose proof (map_subseteq_size _ _ (sh_entries _ _ _ Hsh')). lia.
Qed.

Lemma evict_loop_spec fuel now need freed s :
  scans_rows -> wf s -> active_flights s = active -> (size (entries s) < fuel)%nat ->
  0 <= freed -> freed + total_bytes s <= u64_max ->
  exists freed' s', evict_loop fuel protected now need freed s = Some (Ok freed', s') /\
    shrinks kept s s' /\ freed' + total_bytes s' = freed + total_bytes s.
Proof.
  intros Hrows. revert freed s. induction fuel as [|fuel IH]; intros freed s Hw Ha Hfuel H0 Hmax; [lia|].
  cbn [evict_loop]. destruct (need <=? freed); [by eexists _, _|].
  pose proof (eviction_batch s (policy_name (cache_policy (runtime s))) 512 Hrows Hw) as Hb.
  destruct (eviction_candidates _ _ _) as [|r0 l0]; [by eexists _, _|].
  destruct (evict_batch_spec need (sort_by (retention_cmp now (cache_policy (runtime s))) (r0 :: l0)) freed false s)
    as (f' & rm' & s1 & -> & Hsh & Htot & Hle & Hrm); try done.
  { eapply batch_perm; [apply sort_by_perm|done]. }
  destruct rm'; [|by eexists _, _]. destruct (Hrm eq_refl) as [|Hsz]; [done|].
  destruct (IH f' s1) as (f2 & s2 & -> & Hsh2 & Htot2).
  - by eapply shrinks_wf.
  - by rewrite (sh_flights _ _ _ Hsh).
  - lia.
  - lia.
  - lia.
  - eexists _, _. split; [done|]. split; [by etransitivity|lia].
Qed.
End Evict.

(** Reserving room flushes hits, then evicts rows other than the protected key and the active flights. *)
Lemma reserve_spec s incoming protected now :
  scans_rows -> wf s -> 0 <= incoming <= i64_max ->
  exists res s1 s', reserve_capacity_locked s incoming protected now = Some (res, s') /\
    same_rows s s1 /\ shrinks (kept protected (active_flights s)) s1 s' /\
    (res = Ok tt -> incoming <= max_cache_bytes (runtime s) /\
       total_bytes s' + incoming <= Z.max (high_bytes (runtime s)) (Z.max (low_bytes (runtime s)) incoming)).
Proof.
  intros Hrows Hw Hin. unfold reserve_capacity_locked.
  destruct (Z.ltb_spec (max_cache_bytes (runtime s)) incoming) as [|Hfit].
  { by eexists _, s, s. }
  unfold aggregate. pose proof (flush_hits_same s now) as Hsame. set (s1 := flush_hits s now) in *.
  pose proof (sr_runtime _ _ Hsame) as Hrt. pose proof (same_rows_total _ _ Hsame) as Htot.
  destruct (_ && _) eqn:Eagg; [|by eexists _, s1, s1].
  apply andb_true_iff in Eagg as [Esum%Z.leb_le _]. cbn [agg_bytes]. fold (total_bytes s1) in *.
  pose proof (sum_of_nonneg e_size_bytes (entries s1)) as Hpos. fold (total_bytes s1) in Hpos.
  assert (saturating_add (total_bytes s1) incoming = total_bytes s1 + incoming) as Esat.
  { unfold saturating_add, u64_max, i64_max in *. lia. }
  rewrite Esat, Hrt. destruct (Z.leb_spec (total_bytes s1 + incoming) (high_bytes (runtime s))) as [Hhi|Hhi].
  { eexists _, s1, s1. split; [done|]. split; [done|]. split; [done|]. intros _. lia. }
  set (need := saturating_sub _ _).
  destruct (evict_loop_spec protected (active_flights s) (S (size (entries s1))) now need 0 s1)
    as (freed & s2 & -> & Hsh & Hfreed); try done.
  - by eapply same_rows_wf.
  - by rewrite (sr_flights _ _ Hsame).
  - lia.
  - unfold u64_max, i64_max in *. lia.
  - destruct (Z.ltb_spec freed need); [by eexists _, s1, s2|].
    eexists _, s1, s2. split; [done|]. split; [done|]. split; [done|]. intros _. split; [done|].
    unfold need, saturating_sub in *. lia.
Qed.

(** The row and the file of a key survive. *)
Definition survives (s s' : CacheStore) (k : string) : Prop :=
  row_core <$> (entries s' !! k) = row_core <$> (entries s !! k) /\
  files s' !! object_path k = files s !! object_path k.

Lemma survives_shrinks keep s s1 s' k :
  same_rows s s1 -> shrinks keep s1 s' -> valid_key k = true -> keep k -> survives s s' k.
Proof.
  intros Hs Hsh Hv Hk. split.
  - rewrite (sh_kept _ _ _ Hsh k Hk), <- !lookup_fmap. by rewrite (sr_core _ _ Hs).
  - rewrite <- (sr_files _ _ Hs). destruct (sh_files _ _ _ Hsh (object_path k)) as [?|(_ & j & Hj & Hnk & E)]; [done|].
    apply object_path_inj in E; [|done..]. congruence.
Qed.

(** A path outside the object store is untouched by evictions. *)
Definition outside (path : string) : Prop := forall k, valid_key k = true -> path <> object_path k.

Lemma outside_shrinks keep s s1 s' path :
  same_rows s s1 -> shrinks keep s1 s' -> outside path -> files s' !! path = files s !! path.
Proof.
  intros Hs Hsh Ho. rewrite <- (sr_files _ _ Hs).
  destruct (sh_files _ _ _ Hsh path) as [?|(_ & j & Hj & _ & E)]; [done|]. by destruct (Ho j Hj).
Qed.

Definition admitted (s s' : CacheStore) (key temporary media_type : string) (digest : option string)
    (content : bytes) (object : CachedObject) : Prop :=
  object = {| o_key := key; o_path := object_path key; o_size := blen content;
              o_media_type := media_type; o_digest := digest |} /\
  files s' !! object_path key = Some content /\ files s' !! temporary = None /\
  (exists row, entries s' !! key = Some row /\ e_key row = key /\ e_path row = object_path key /\
     e_size_bytes row = blen content /\ e_media_type row = media_type /\ e_digest row = digest) /\
  blen content <= max_cache_bytes (runtime s) /\
  total_bytes s' <= Z.max (high_bytes (runtime s)) (Z.max (low_bytes (runtime s)) (blen content)).

Lemma insert_total s r :
  0 <= e_size_bytes r -> total_bytes (insert s r) <= total_bytes s + e_size_bytes r.
Proof.
  intros Hr. unfold total_bytes, insert. simpl. destruct (entries s !! e_key r) as [old|] eqn:E.
  - rewrite <- (insert_delete_eq (entries s)), sum_of_insert by apply lookup_delete_eq. simpl.
    pose proof (sum_of_delete_le e_size_bytes (entries s) (e_key r)). lia.
  - rewrite sum_of_insert by done. lia.
Qed.

Lemma insert_wf s r : wf s -> row_wf (e_key r) r -> wf (insert s r).
Proof.
  intros Hw Hr. unfold insert, wf. simpl. apply map_Forall_insert_2; [|done].
  destruct (entries s !! e_key r) as [old|]; [|done]. done.
Qed.

(** *** Well-formedness, on every outcome *)

Lemma subset_wf s s' : entries s' ⊆ entries s -> wf s -> wf s'.
Proof. intros H Hw k r Hk. apply Hw. by eapply lookup_weaken. Qed.

Lemma remove_subset s key r s' : remove s key = Some (r, s') -> entries s' ⊆ entries s.
Proof.
  unfold remove. destruct (negb _); [by intros [= _ <-]|]. unfold lock. destruct (bool_decide _); [done|].
  intros [= _ <-]. apply delete_subseteq.
Qed.

Lemma get_wf s key now : wf s -> wf (get s key now).2.
Proof.
  intros Hw. unfold get. destruct (entries s !! key) as [r|]; [|done].
  assert (wf (delete_entry s key)) by (eapply subset_wf; [apply delete_subseteq|done]).
  destruct (metadata _ _); [|done]. destruct (_ =? _); [|done]. eapply same_rows_wf; [apply record_hit_same|done].
Qed.

Lemma evict_batch_subset protected need l : forall freed removed s r s',
  evict_batch protected need l freed removed s = Some (r, s') -> entries s' ⊆ entries s.
Proof.
  induction l as [|e l IH]; intros freed removed s r s'; cbn [evict_batch]; [by intros [= _ <-]|].
  destruct (_ || _); [apply IH|]. destruct (remove s (e_key e)) as [[[[]|x] s1]|] eqn:Er; [|..|done];
    cbn [mbind option_bind]; apply remove_subset in Er; [|by intros [= _ <-]].
  destruct (need <=? _); [by intros [= _ <-]|]. intros H%IH. by etransitivity.
Qed.

Lemma evict_loop_subset fuel protected now need : forall freed s r s',
  evict_loop fuel protected now need freed s = Some (r, s') -> entries s' ⊆ entries s.
Proof.
  induction fuel as [|fuel IH]; intros freed s r s'; cbn [evict_loop]; (destruct (need <=? freed); [by intros [= _ <-]|]); [done|].
  destruct (eviction_candidates _ _ _) as [|e l]; [by intros [= _ <-]|].
  destruct (evict_batch _ _ _ _ _ _) as [[[[f []]|x] s1]|] eqn:Eb; [| | |done]; cbn [mbind option_bind];
    apply evict_batch_subset in Eb; [|by intros [= _ <-]..]. intros H%IH. by etransitivity.
Qed.

Lemma reserve_wf s incoming protected now r s' :
  reserve_capacity_locked s incoming protected now = Some (r, s') -> wf s -> wf s'.
Proof.
  intros H Hw. pose proof (same_rows_wf _ _ (flush_hits_same s now) Hw) as Hf. revert H. unfold reserve_capacity_locked, aggregate.
  destruct (_ <? incoming); [by intros [= _ <-]|]. destruct (_ && _); [|by intros [= _ <-]].
  destruct (_ <=? _); [by intros [= _ <-]|].
  destruct (evict_loop _ _ _ _ _ _) as [[[freed|e] s1]|] eqn:E; [| |done]; cbn [mbind option_bind];
    apply evict_loop_subset in E; pose proof (subset_wf _ _ E Hf); [|by intros [= _ <-]].
  destruct (_ <? _); by intros [= _ <-].
Qed.

Lemma metadata_nonneg f p n : metadata f p = Ok n -> 0 <= n.
Proof. unfold metadata. destruct (f !! p); [|done]. intros [= <-]. apply blen_nonneg. Qed.

Lemma admit_wf s key temporary media_type digest now g r s' : valid_key key = true ->
  admit_object s key temporary media_type digest now g = Some (r, s') -> wf s -> wf s'.
Proof.
  intros Hk H Hw. revert H. unfold admit_object, admit_body. set (s0 := with_metrics s _).
  assert (wf s0) as Hw0 by done. clearbody s0.
  destruct (metadata (files s0) temporary) as [incoming|e]; [|by intros [= _ <-]].
  destruct (reserve_capacity_locked s0 incoming key now) as [[[[]|e] s1]|] eqn:Er; [| |done]; cbn [mbind option_bind];
    apply reserve_wf in Er; try done; [|by intros [= _ <-]].
  unfold commit. destruct (rename _ _ _) as [f|e]; [|by intros [= _ <-]].
  destruct (metadata f _) as [n|e] eqn:Em; [|by intros [= _ <-]]. intros [= _ <-].
  apply (insert_wf (with_files s1 f)); [done|]. apply metadata_nonneg in Em.
  repeat split; simpl; try done; unfold to_i64_saturating, i64_max in *; lia.
Qed.

(** The whole of [admit_object], on every outcome. *)
Lemma admit_spec s key temporary media_type digest content now g :
  scans_rows -> wf s -> valid_key key = true -> outside temporary ->
  files s !! temporary = Some content -> blen content <= i64_max ->
  exists r s', admit_object s key temporary media_type digest now g = Some (r, s') /\ wf s' /\
    (forall k, valid_key k = true -> k ∈ active_flights s -> k <> key -> survives s s' k) /\
    match r with
    | Ok object => admitted s s' key temporary media_type digest content object
    | Err _ => files s' !! temporary = Some content /\ survives s s' key
    end.
Proof.
  intros Hrows Hw Hv Ho Hc Hsz. unfold admit_object, admit_body. simpl.
  set (s0 := with_metrics s _). assert (wf s0) as Hw0 by done.
  assert (metadata (files s) temporary = Ok (blen content)) as -> by (unfold metadata; by rewrite Hc).
  pose proof (blen_nonneg content).
  destruct (reserve_spec s0 (blen content) key now Hrows Hw0 ltac:(lia)) as (res & s1 & s2 & -> & Hsame & Hsh & Hok).
  assert (wf s2) as Hw2 by (eapply shrinks_wf; [done|]; by eapply same_rows_wf).
  assert (files s2 !! temporary = Some content) as Ht2.
  { rewrite (outside_shrinks _ _ _ _ _ Hsame Hsh Ho). done. }
  assert (forall k, valid_key k = true -> k = key \/ k ∈ active_flights s -> survives s s2 k) as Hsurv.
  { intros k Hk Hkeep. apply (survives_shrinks _ s0 _ _ _ Hsame Hsh Hk). done. }
  destruct res as [[]|e].
  2: { eexists _, _. split; [done|]. split; [done|]. split; [intros; apply Hsurv; auto|]. split; [done|].
       apply Hsurv; auto. }
  destruct (Hok eq_refl) as [Hfit Htot]. unfold commit, rename. rewrite Ht2.
  unfold metadata. rewrite lookup_insert_eq.
  eexists _, _. split; [done|]. split; [|split].
  - apply (insert_wf (with_files s2 _)); [done|]. unfold row_wf, to_i64_saturating. simpl.
    split_and!; try done; lia.
  - intros k Hk Hact Hne. destruct (Hsurv k Hk ltac:(by right)) as [Hrow Hfile]. split; simpl.
    + by rewrite lookup_insert_ne.
    + rewrite lookup_insert_ne by (intros E; apply Hne; symmetry; by apply object_path_inj in E).
      rewrite lookup_delete_ne by (by apply Ho). done.
  - unfold admitted. split; [done|]. simpl. split; [apply lookup_insert_eq|]. split.
    { rewrite lookup_insert_ne by (intros E; by apply (Ho key Hv)). apply lookup_delete_eq. }
    split.
    { eexists. split; [apply lookup_insert_eq|].
      assert (to_i64_saturating (blen content) = blen content) as E by (unfold to_i64_saturating; lia).
      destruct (entries s2 !! key); simpl; rewrite E; done. }
    split; [done|]. etransitivity; [apply (insert_total (with_files s2 _))|].
    + simpl. unfold to_i64_saturating. lia.
    + simpl. unfold total_bytes at 1. simpl. fold (total_bytes s2).
      unfold to_i64_saturating. rewrite Z.min_l by lia. exact Htot.
Qed.

(** *** What an admission stores, without assumptions on the store *)

Lemma remove_outside s key r s' path : remove s key = Some (r, s') -> outside path -> files s' !! path = files s !! path.
Proof.
  unfold remove. destruct (valid_key key) eqn:Hv; simpl; [|by intros [= <- <-]].
  destruct (lock s key) as [s1|] eqn:El; [|done]. unfold lock in El. case_bool_decide; [done|]. simplify_eq/=.
  intros [= <- <-] Ho. simpl. apply lookup_delete_ne. intros E. by apply (Ho key Hv).
Qed.

Lemma evict_batch_outside protected need batch freed removed s r s' path :
  evict_batch protected need batch freed removed s = Some (r, s') -> outside path -> files s' !! path = files s !! path.
Proof.
  revert freed removed s. induction batch as [|e l IH]; intros freed removed s; simpl; [by intros [= <- <-]|].
  destruct (_ || _); [apply IH|]. destruct (remove s (e_key e)) as [[[[]|err] s1]|] eqn:E; [| |done].
  - intros H Ho. transitivity (files s1 !! path); [|by eapply remove_outside].
    destruct (need <=? _); [by simplify_eq|]. by eapply IH.
  - intros [= <- <-] Ho. by eapply remove_outside.
Qed.

Lemma evict_loop_outside fuel protected now need freed s r s' path :
  evict_loop fuel protected now need freed s = Some (r, s') -> outside path -> files s' !! path = files s !! path.
Proof.
  revert freed s. induction fuel as [|fuel IH]; intros freed s; cbn [evict_loop];
    (destruct (need <=? freed); [by intros [= <- <-]|]); [done|].
  destruct (eviction_candidates _ _ _) as [|e l]; [by intros [= <- <-]|].
  destruct (evict_batch _ _ _ _ _ _) as [[[[f' rm]|err] s1]|] eqn:E; [| |done].
  - intros H Ho. transitivity (files s1 !! path); [|by eapply evict_batch_outside].
    destruct rm; [by eapply IH|by simplify_eq].
  - intros [= <- <-] Ho. by eapply evict_batch_outside.
Qed.

Lemma reserve_outside s incoming protected now r s' path :
  reserve_capacity_locked s incoming protected now = Some (r, s') -> outside path -> files s' !! path = files s !! path.
Proof.
  unfold reserve_capacity_locked, aggregate. destruct (_ <? _); [by intros [= <- <-]|].
  pose proof (sr_files _ _ (flush_hits_same s now)) as Hf. set (s1 := flush_hits s now) in *.
  destruct (_ && _); [|intros [= <- <-]; by rewrite Hf].
  destruct (saturating_add _ _ <=? _); [intros [= <- <-]; by rewrite Hf|].
  destruct (evict_loop _ _ _ _ _ _) as [[[f|e] s2]|] eqn:E; [| |done].
  - intros H Ho. rewrite <- Hf. apply (evict_loop_outside _ _ _ _ _ _ _ _ path) in E; [|done].
    destruct (_ <? _); by simplify_eq.
  - intros [= <- <-] Ho. rewrite <- Hf. by eapply evict_loop_outside.
Qed.

Lemma admit_content s key temporary media_type digest now g object s' :
  outside temporary -> admit_object s key temporary media_type digest now g = Some (Ok object, s') ->
  exists content, files s !! temporary = Some content /\ files s' !! object_path key = Some content /\
    object = {| o_key := key; o_path := object_path key; o_size := blen content;
                o_media_type := media_type; o_digest := digest |}.
Proof.
  intros Ho. unfold admit_object, admit_body. simpl. set (s0 := with_metrics s _).
  destruct (metadata (files s) temporary) as [n|e] eqn:Em; [|done].
  apply metadata_Ok in Em as (content & Hc & ->).
  destruct (reserve_capacity_locked _ _ _ _) as [[[[]|e] s2]|] eqn:Er; [| done | done].
  apply (reserve_outside _ _ _ _ _ _ temporary) in Er; [|done]. change (files s0) with (files s) in Er.
  unfold commit, rename. rewrite Er, Hc. unfold metadata. rewrite lookup_insert_eq. intros [= <- <-].
  exists content. split; [done|]. simpl. split; [apply lookup_insert_eq|done].
Qed.

(** *** Expiry *)

Section Expire.
Variable s0 : CacheStore.
Variable cutoff : Z.

(** What [cleanup_expired] must not remove: active flights and rows accessed since the cutoff. *)
Definition fresh (k : string) : Prop :=
  k ∈ active_flights s0 \/ exists r, entries s0 !! k = Some r /\ cutoff <= e_last_accessed_at r.

Lemma expire_batch_spec batch freed removed s :
  wf s -> shrinks fresh s0 s -> batch_of s batch -> Forall (fun r => e_last_accessed_at r < cutoff) batch ->
  exists freed' removed' s', expire_batch batch freed removed s = Some (Ok (freed', removed'), s') /\
    shrinks fresh s s' /\
    (removed' = true -> removed = true \/ (size (entries s') < size (entries s))%nat) /\
    (removed' = false -> removed = false /\ s' = s /\ Forall (fun r => e_key r ∈ active_flights s) batch).
Proof.
  revert freed removed s. induction batch as [|r l IH]; intros freed removed s Hw H0 [Hn Hf] He; simpl.
  { eexists _, _, _. split; [done|]. split; [done|]. auto. }
  inversion Hf as [|? ? Hr Hf']; subst. inversion He as [|? ? Her He']; subst.
  assert (batch_of s l) as Hbl by (split; [by apply NoDup_cons in Hn as [_ ?]|done]).
  case_bool_decide as Hact.
  { destruct (IH freed removed s) as (f' & rm' & s' & Hx & ? & ? & Hfalse); try done.
    eexists _, _, _. split; [exact Hx|]. split; [done|]. split; [done|]. intros E.
    destruct (Hfalse E) as (? & -> & ?). auto. }
  destruct (remove_row fresh s r) as (s1 & -> & Hsh & Hdel & _ & Hsz); try done.
  { intros [Hin|(r' & Hr' & Hle)]; [by rewrite (sh_flights _ _ _ H0) in Hact|].
    pose proof (lookup_weaken _ _ _ _ Hr (sh_entries _ _ _ H0)) as E. simplify_eq. lia. }
  destruct (IH (saturating_add freed (entry_size r)) true s1) as (f' & rm' & s' & -> & Hsh' & Hrm & Hfalse).
  - by eapply shrinks_wf.
  - by etransitivity.
  - by eapply batch_after_removal.
  - done.
  - pose proof (map_subseteq_size _ _ (sh_entries _ _ _ Hsh')).
    eexists _, _, _. split; [done|]. split; [by etransitivity|]. split; [intros _; right; lia|].
    intros ->. by destruct (Hfalse eq_refl).
Qed.

Lemma expired_batch s : scans_rows -> wf s ->
  batch_of s (expired_candidates s cutoff 512) /\
  Forall (fun r => e_last_accessed_at r < cutoff) (expired_candidates s cutoff 512) /\
  ((length (expired_candidates s cutoff 512) < 512)%nat ->
   forall k r, entries s !! k = Some r -> e_last_accessed_at r < cutoff -> r ∈ expired_candidates s cutoff 512).
Proof.
  intros Hrows Hw. unfold expired_candidates. change (Z.to_nat (clamp 512 1 1024)) with 512%nat.
  set (l := List.filter _ _). assert (batch_of s l) as Hl by (apply batch_filter; by apply rows_batch).
  assert (sort_by by_access l ≡ₚ l) as Hp by apply sort_by_perm. split_and!.
  - apply batch_take. by eapply batch_perm.
  - apply Forall_take. rewrite Hp. apply Forall_forall. intros r.
    unfold l. rewrite list_elem_of_In, filter_In. intros [_ ?%Z.ltb_lt]. done.
  - intros Hlen k r Hr Hlt. rewrite length_take in Hlen. rewrite take_ge by lia. rewrite Hp.
    unfold l. rewrite list_elem_of_In, filter_In, <- list_elem_of_In, Z.ltb_lt. split; [|done].
    rewrite (Hrows (entries s)). apply list_elem_of_fmap. exists (k, r). split; [done|].
    by apply elem_of_map_to_list.
Qed.

(** Nothing expired is left, except in active flights. *)
Definition expired_cleared (s : CacheStore) : Prop :=
  (forall k r, entries s !! k = Some r -> e_last_accessed_at r < cutoff -> k ∈ active_flights s) \/
  (512 <= size (active_flights s))%nat.

Lemma all_active_cleared s : scans_rows -> wf s ->
  Forall (fun r => e_key r ∈ active_flights s) (expired_candidates s cutoff 512) -> expired_cleared s.
Proof.
  intros Hrows Hw Hact. destruct (expired_batch s Hrows Hw) as ([Hnd _] & _ & Hall).
  destruct (decide (length (expired_candidates s cutoff 512) < 512)%nat) as [Hlt|Hge]; [left|right].
  - intros k r Hr Hold. rewrite Forall_forall in Hact. specialize (Hact r (Hall Hlt k r Hr Hold)).
    by destruct (Hw k r Hr) as [<- _].
  - etransitivity; [apply Nat.nlt_ge, Hge|]. rewrite <- (length_fmap e_key).
    rewrite <- (size_list_to_set (C:=gset string)) by done. apply subseteq_size.
    intros k Hk. rewrite elem_of_list_to_set, list_elem_of_fmap in Hk. destruct Hk as (r & -> & Hr).
    rewrite Forall_forall in Hact. by apply Hact.
Qed.

Lemma expire_loop_spec fuel freed s :
  scans_rows -> wf s -> shrinks fresh s0 s -> (size (entries s) < fuel)%nat ->
  exists freed' s', expire_loop fuel cutoff freed s = Some (Ok freed', s') /\
    shrinks fresh s s' /\ expired_cleared s'.
Proof.
  intros Hrows. revert freed s. induction fuel as [|fuel IH]; intros freed s Hw H0 Hfuel; [lia|].
  cbn [expire_loop]. destruct (expired_batch s Hrows Hw) as (Hb & He & _).
  pose proof (all_active_cleared s Hrows Hw) as Hclear.
  destruct (expired_candidates s cutoff 512) as [|r l].
  { eexists _, _. split; [done|]. split; [done|]. by apply Hclear. }
  destruct (expire_batch_spec (r :: l) freed false s Hw H0 Hb He) as (f' & rm' & s1 & -> & Hsh & Hrm & Hfalse).
  destruct rm'.
  - destruct (Hrm eq_refl) as [|Hsz]; [done|]. destruct (IH f' s1) as (f2 & s2 & -> & Hsh2 & Hc).
    + by eapply shrinks_wf.
    + by etransitivity.
    + lia.
    + eexists _, _. split; [done|]. split; [by etransitivity|done].
  - destruct (Hfalse eq_refl) as (_ & -> & Hact). eexists _, _. split; [done|]. split; [done|]. by apply Hclear.
Qed.
End Expire.

(** *** Hit counts *)

(** The hits of a row: the durable count plus the buffered ones. *)
Definition hits (s : CacheStore) (k : string) : Z :=
  match entries s !! k with Some r => e_hit_count r | None => 0 end + unwrap_or (pending_hits s !! k) 0.

Definition pending_ok (s : CacheStore) : Prop := map_Forall (fun _ c => 0 <= c < FLUSH_THRESHOLD) (pending_hits s).

Lemma add_cache_hits_count s key c now k :
  c <= i64_max -> is_some (entries s !! key) = true ->
  hits (add_cache_hits s key c now) k = hits s k + (if bool_decide (k = key) then c else 0).
Proof.
  intros Hc Hk. unfold hits. simpl. case_bool_decide as E.
  - subst. rewrite lookup_alter_eq. destruct (entries s !! key); [|done]. simpl.
    unfold to_i64_saturating. lia.
  - rewrite lookup_alter_ne by done. lia.
Qed.

Lemma flush_one_hits now s key k :
  pending_ok s -> is_some (entries s !! k) = true -> hits (flush_one now s key) k = hits s k.
Proof.
  intros Hp Hk. unfold flush_one. destruct (pending_hits s !! key) as [c|] eqn:E; [|done].
  pose proof (Hp key c E) as Hc. unfold FLUSH_THRESHOLD in Hc.
  destruct (decide (k = key)) as [->|Hne].
  - destruct (Z.ltb_spec 0 c).
    + rewrite add_cache_hits_count by (unfold i64_max; simpl; done || lia).
      rewrite bool_decide_eq_true_2 by done. unfold hits. simpl. rewrite lookup_delete_eq, E. simpl. lia.
    + unfold hits. simpl. rewrite lookup_delete_eq, E. simpl. lia.
  - assert (hits (with_pending s (delete key (pending_hits s))) k = hits s k) as Hd.
    { unfold hits. simpl. by rewrite lookup_delete_ne. }
    destruct (0 <? c); [|done]. unfold hits in *. simpl in *. by rewrite lookup_alter_ne.
Qed.

Lemma flush_one_pending now s key : pending_ok s ->
  pending_ok (flush_one now s key) /\ pending_hits (flush_one now s key) = delete key (pending_hits s) /\
  forall k, is_some (entries (flush_one now s key) !! k) = is_some (entries s !! k).
Proof.
  intros Hp. unfold flush_one. destruct (pending_hits s !! key) as [c|] eqn:E.
  - assert (pending_ok (with_pending s (delete key (pending_hits s)))) as Hd by (by apply map_Forall_delete).
    destruct (0 <? c); [|done]. split; [done|]. split; [done|]. intros k. simpl.
    destruct (decide (k = key)) as [->|]; [|by rewrite lookup_alter_ne].
    rewrite lookup_alter_eq. by destruct (entries s !! key).
  - split; [done|]. split; [by rewrite delete_id|done].
Qed.

Lemma flush_keys_hits now l s k : pending_ok s -> is_some (entries s !! k) = true ->
  hits (foldl (flush_one now) s l) k = hits s k /\
  (k ∈ l -> pending_hits (foldl (flush_one now) s l) !! k = None).
Proof.
  revert s. induction l as [|x l IH]; intros s Hp Hk; simpl; [set_solver|].
  destruct (flush_one_pending now s x Hp) as (Hp' & Hd & He).
  destruct (IH (flush_one now s x) Hp') as [IHh IHp]; [by rewrite He|]. split.
  - rewrite IHh. by apply flush_one_hits.
  - intros Hin. destruct (decide (k ∈ l)) as [|Hnl]; [by apply IHp|].
    apply elem_of_cons in Hin as [->|]; [|done].
    assert (forall l s, pending_ok s -> pending_hits s !! x = None -> pending_hits (foldl (flush_one now) s l) !! x = None) as Hstay.
    { clear. induction l as [|y l IH]; intros s Hp H; simpl; [done|].
      destruct (flush_one_pending now s y Hp) as (Hp' & Hd & _). apply IH; [done|]. rewrite Hd.
      destruct (decide (y = x)) as [->|]; [apply lookup_delete_eq|by rewrite lookup_delete_ne]. }
    apply Hstay; [done|]. rewrite Hd. apply lookup_delete_eq.
Qed.

Lemma flush_keys_sub now l s : pending_ok s -> pending_hits (foldl (flush_one now) s l) ⊆ pending_hits s.
Proof.
  revert s. induction l as [|x l IH]; intros s Hp; simpl; [done|].
  destruct (flush_one_pending now s x Hp) as (Hp' & Hd & _).
  etransitivity; [by apply IH|]. rewrite Hd. apply delete_subseteq.
Qed.

(** ** Properties *)

(** C4: An admission always terminates, and when it succeeds the cache stays within
    its configured capacity: the rows, the new object included, sum to at most the
    high watermark or the larger of the low watermark and the object, hence to at
    most [max_cache_bytes] whenever both watermarks are. *)
Theorem admit_within_capacity s key temporary media_type digest content now g :
  scans_rows -> wf s -> valid_key key = true -> outside temporary ->
  files s !! temporary = Some content -> blen content <= i64_max ->
  exists r s', admit_object s key temporary media_type digest now g = Some (r, s') /\ wf s' /\
    (is_ok r = true ->
     total_bytes s' <= Z.max (high_bytes (runtime s)) (Z.max (low_bytes (runtime s)) (blen content)) /\
     (high_bytes (runtime s) <= max_cache_bytes (runtime s) ->
      low_bytes (runtime s) <= max_cache_bytes (runtime s) ->
      total_bytes s' <= max_cache_bytes (runtime s))).
Proof.
  intros Hrows Hw Hv Ho Hc Hsz.
  destruct (admit_spec s key temporary media_type digest content now g) as (r & s' & Ha & Hw' & _ & Hr); try done.
  exists r, s'. split; [done|]. split; [done|]. intros Hok. destruct r as [o|e]; [|done].
  destruct Hr as (_ & _ & _ & _ & Hfit & Htot). split; [done|]. lia.
Qed.

(** Round trip: what was admitted is what a later lookup returns, with its size,
    media type and digest, and the file it names holds the admitted bytes; the
    temporary file is gone. A failed admission leaves the temporary file and the
    previous object of the key in place. *)
Theorem admit_then_get s key temporary media_type digest content now g now' :
  scans_rows -> wf s -> valid_key key = true -> outside temporary ->
  files s !! temporary = Some content -> blen content <= i64_max ->
  exists r s', admit_object s key temporary media_type digest now g = Some (r, s') /\
    match r with
    | Ok object => (get s' key now').1 = Some object /\ files s' !! o_path object = Some content /\
        o_size object = blen content /\ o_digest object = digest /\ files s' !! temporary = None
    | Err _ => files s' !! temporary = Some content /\ survives s s' key
    end.
Proof.
  intros Hrows Hw Hv Ho Hc Hsz.
  destruct (admit_spec s key temporary media_type digest content now g) as (r & s' & Ha & _ & _ & Hr); try done.
  exists r, s'. split; [done|]. destruct r as [o|e]; [|done].
  destruct Hr as (-> & Hf & Ht & (row & Hrow & Hk & Hp & Hs & Hm & Hd) & _). simpl. split; [|done].
  unfold get, metadata. rewrite Hrow, Hp, Hf, Hs. pose proof (blen_nonneg content).
  assert (i64_as_u64 (blen content) = blen content) as ->.
  { unfold i64_as_u64. apply Z.mod_small. unfold i64_max in Hsz. lia. }
  rewrite Z.eqb_refl. simpl. by rewrite Hk, Hm, Hd.
Qed.

(** Eviction safety: neither admission nor expiry touches the row or the file of
    a key whose flight is active (an object being served or fetched). *)
Theorem active_flights_survive s key temporary media_type digest content now g k :
  scans_rows -> wf s -> valid_key key = true -> outside temporary ->
  files s !! temporary = Some content -> blen content <= i64_max ->
  valid_key k = true -> k ∈ active_flights s -> k <> key ->
  (exists r s', admit_object s key temporary media_type digest now g = Some (r, s') /\ survives s s' k) /\
  (exists r s', cleanup_expired s now = Some (r, s') /\ survives s s' k).
Proof.
  intros Hrows Hw Hv Ho Hc Hsz Hk Hact Hne. split.
  - destruct (admit_spec s key temporary media_type digest content now g) as (r & s' & Ha & _ & Hs & _); try done.
    exists r, s'. split; [done|]. by apply Hs.
  - unfold cleanup_expired. destruct (cache_ttl (runtime s)) as [ttl|]; [|by eexists _, s].
    pose proof (flush_hits_same s now) as Hsame. set (s1 := flush_hits s now) in *.
    destruct (expire_loop_spec s1 (now - ttl) (S (size (entries s1))) 0 s1) as (f & s' & -> & Hsh & _); try done.
    + by eapply same_rows_wf.
    + lia.
    + eexists _, _. split; [done|]. apply (survives_shrinks _ _ _ _ _ Hsame Hsh Hk). left.
      by rewrite (sr_flights _ _ Hsame).
Qed.

(** Expiry is exact: [cleanup_expired] terminates without error; it removes only
    rows not accessed since the cutoff, buffered hits counted, and leaves no expired
    row behind except those of active flights (unless 512 flights or more are active). *)
Theorem cleanup_expired_exact s ttl now :
  scans_rows -> wf s -> cache_ttl (runtime s) = Some ttl ->
  exists freed s', cleanup_expired s now = Some (Ok freed, s') /\ wf s' /\
    (forall k r, entries (flush_hits s now) !! k = Some r -> now - ttl <= e_last_accessed_at r ->
       entries s' !! k = Some r) /\
    expired_cleared (now - ttl) s'.
Proof.
  intros Hrows Hw Httl. unfold cleanup_expired. rewrite Httl.
  assert (wf (flush_hits s now)) as Hw1 by (eapply same_rows_wf; [apply flush_hits_same|done]).
  set (s1 := flush_hits s now) in *.
  destruct (expire_loop_spec s1 (now - ttl) (S (size (entries s1))) 0 s1) as (f & s' & -> & Hsh & Hc); try done; [lia|].
  exists f, s'. split; [done|]. split; [by eapply shrinks_wf|]. split; [|done].
  intros k r Hr Hle. rewrite (sh_kept _ _ _ Hsh k); [done|]. right. eauto.
Qed.

(** No hit is lost or counted twice: a recorded hit adds one to its row's hits and
    nothing elsewhere, and flushing moves the buffered hits into the table, leaving
    every row's total as it was and no row with a buffered hit. *)
Theorem hits_conserved s key now k :
  pending_ok s -> is_some (entries s !! key) = true -> is_some (entries s !! k) = true ->
  pending_ok (record_hit s key now) /\
  hits (record_hit s key now) k = hits s k + (if bool_decide (k = key) then 1 else 0) /\
  hits (flush_hits s now) k = hits s k /\
  unwrap_or (pending_hits (flush_hits s now) !! k) 0 <= 0.
Proof.
  intros Hp Hkey Hk.
  assert (0 <= unwrap_or (pending_hits s !! key) 0 < FLUSH_THRESHOLD) as Hb.
  { destruct (pending_hits s !! key) as [c|] eqn:E; simpl; [by apply (Hp key c)|unfold FLUSH_THRESHOLD; lia]. }
  set (c := saturating_add (unwrap_or (pending_hits s !! key) 0) 1).
  assert (c = unwrap_or (pending_hits s !! key) 0 + 1) as Ec.
  { unfold c, saturating_add, u64_max, FLUSH_THRESHOLD in *. lia. }
  unfold FLUSH_THRESHOLD in Hb. split; [|split; [|split]].
  - unfold record_hit. fold c. unfold pending_ok, FLUSH_THRESHOLD in *.
    destruct (Z.leb_spec 32 c); simpl; apply map_Forall_insert_2; try done; lia.
  - unfold record_hit. fold c. destruct (Z.leb_spec FLUSH_THRESHOLD c).
    + rewrite add_cache_hits_count by (try done; unfold i64_max; lia).
      unfold hits. simpl. case_bool_decide as E; [subst k; rewrite lookup_insert_eq; simpl; lia|].
      rewrite lookup_insert_ne by done. lia.
    + unfold hits. simpl. case_bool_decide as E; [subst k; rewrite lookup_insert_eq; simpl; lia|].
      rewrite lookup_insert_ne by done. lia.
  - unfold flush_hits. by apply flush_keys_hits.
  - destruct (pending_hits (flush_hits s now) !! k) as [n|] eqn:E; [simpl|done].
    pose proof (lookup_weaken _ _ _ _ E (flush_keys_sub now (pending_keys s) s Hp)) as Es.
    destruct (decide (0 < n)); [|lia]. exfalso.
    assert (k ∈ pending_keys s) as Hin.
    { apply list_elem_of_fmap. exists (k, n). split; [done|]. apply elem_of_map_to_list.
      by apply map_lookup_filter_Some. }
    apply (flush_keys_hits now (pending_keys s) s k Hp Hk) in Hin. unfold flush_hits in E. congruence.
Qed.
End Store.

(** *** Keys *)

Lemma digest_identity_chars d c :
  valid_digest_identity d = true -> c = "/"%char \/ c = "?"%char -> absent c d = true.
Proof.
  unfold valid_digest_identity, starts_with. intros H Hc. bool_hyps.
  destruct (strip_prefix "sha256:" d) as [r|] eqn:E; [|done]. apply strip_prefix_Some in E as ->.
  assert (str_drop 7 ("sha256:" +:+ r) = r) as Ed by reflexivity. rewrite Ed in *. rewrite absent_app. apply andb_true_iff.
  split; [by destruct Hc as [-> | ->]|].
  apply (all_bytes_impl is_ascii_hexdigit); [|done].
  destruct Hc as [-> | ->]; all_ascii.
Qed.

Lemma public_identity_absent c path : absent c path = true -> absent c (public_identity path) = true.
Proof.
  intros H. unfold public_identity.
  assert (forall p, absent c p = true ->
    absent c (match rsplit_once "/blobs/" p with
              | Some (_, d) => if valid_digest_identity d then d else path | None => path end) = true) as Hp.
  { intros p Hp. destruct (rsplit_once "/blobs/" p) as [[a d]|] eqn:E; [|done].
    destruct (valid_digest_identity d); [|done]. apply rsplit_once_Some in E as ->.
    rewrite !absent_app in Hp. by bool_hyps. }
  destruct (split_once "?" path) as [[p q]|] eqn:E; apply Hp; [|done].
  apply split_once_Some in E as ->. rewrite !absent_app in H. by bool_hyps.
Qed.

Definition nul : ascii := ascii_of_N 0.

(** Cache keys separate what must not be shared: the hashed input determines the
    route scope, the requested object and the credential (none for a bearer token on
    a public route), so two requests feed the hash the same bytes exactly when all
    three agree.  A blob request is identified by its digest alone, whatever
    repository and query string it came with. *)
Theorem cache_key_scoping scope scope' path path' auth auth' pub pub' repo digest query :
  absent nul scope = true -> absent nul scope' = true ->
  absent nul path = true -> absent nul path' = true ->
  absent "?" repo = true -> valid_digest_identity digest = true ->
  (key_preimage scope path auth pub = key_preimage scope' path' auth' pub' <->
   scope = scope' /\ public_identity path = public_identity path' /\
   scoping_authorization auth pub = scoping_authorization auth' pub') /\
  public_identity (repo +:+ "/blobs/" +:+ digest) = digest /\
  public_identity (repo +:+ "/blobs/" +:+ digest +:+ "?" +:+ query) = digest.
Proof.
  intros Hs Hs' Hp Hp' Hr Hd. split; [|split].
  - unfold key_preimage. split; [intros E|by intros (-> & -> & ->)].
    apply (separated_inj nul) in E as [-> E]; [|done..].
    apply (separated_inj nul) in E as [-> ->]; [done|by apply public_identity_absent..].
  - unfold public_identity. rewrite split_once_char_absent.
    + rewrite rsplit_once_blobs by (apply digest_identity_chars; auto). by rewrite Hd.
    + rewrite !absent_app, Hr, (digest_identity_chars digest "?") by auto. done.
  - unfold public_identity.
    replace (repo +:+ "/blobs/" +:+ digest +:+ "?" +:+ query)
      with ((repo +:+ "/blobs/" +:+ digest) +:+ String "?" query) by (by rewrite !str_app_assoc).
    rewrite split_once_char.
    + rewrite rsplit_once_blobs by (apply digest_identity_chars; auto). by rewrite Hd.
    + rewrite !absent_app, Hr, (digest_identity_chars digest "?") by auto. done.
Qed.

(** ** Witnesses *)

Definition sample_rows (m : gmap string CacheRecord) : list CacheRecord := (map_to_list m).*2.

Definition sample_runtime : CacheRuntimeConfig := {|
  partial_ttl := 3600 * nanos; cache_ttl := Some (60 * nanos); max_cache_bytes := 100;
  cache_policy := Lru; cache_high_watermark := f64_ratio 9 10; cache_low_watermark := f64_ratio 1 2;
  public_bearer_cache_enabled := true |}.

Fixpoint repeat_char (n : nat) (c : ascii) : string :=
  match n with O => "" | S n => String c (repeat_char n c) end.

Definition key_a : string := repeat_char 64 "a".
Definition key_b : string := repeat_char 64 "b".

Definition sample_row (key : string) (size last : Z) : CacheRecord := {|
  e_key := key; e_media_type := "application/octet-stream"; e_path := object_path "/d" key;
  e_size_bytes := size; e_digest := None; e_hit_count := 3; e_created_at := 0; e_last_accessed_at := last |}.

(** 80 bytes under key [b] (access time 5), 30 incoming bytes, key [a] in flight. *)
Definition sample_store : CacheStore := {|
  files := <["/d/cache/tmp/x" := replicate 30 Byte.x01]> {[ object_path "/d" key_b := replicate 80 Byte.x00 ]};
  entries := {[ key_b := sample_row key_b 80 5 ]};
  pending_hits := {[ key_b := 4 ]};
  active_flights := {[ key_a ]};
  runtime := sample_runtime;
  metrics := TransferMetrics.new |}.

Lemma sample_scans : scans_rows sample_rows.
Proof. intros m. reflexivity. Qed.

Lemma sample_wf : wf "/d" sample_store.
Proof. apply map_Forall_singleton. repeat split; vm_compute; congruence. Qed.

(** A path ends with the characters of the key; the temporary one does not have the length. *)
Lemma sample_outside : outside "/d" "/d/cache/tmp/x".
Proof.
  intros k Hk%valid_key_length E. apply (f_equal String.length) in E. unfold object_path, objects_dir in E.
  rewrite !str_length_app, Hk in E. simpl in E. lia.
Qed.

Lemma admit_within_capacity_witness :
  exists r s', admit_object (fun x => x) "/d" sample_rows sample_store key_a "/d/cache/tmp/x" "text/plain" None 10 0 = Some (r, s') /\
    wf "/d" s' /\ (is_ok r = true ->
     total_bytes s' <= Z.max (high_bytes sample_runtime) (Z.max (low_bytes sample_runtime) 30) /\
     (high_bytes sample_runtime <= 100 -> low_bytes sample_runtime <= 100 -> total_bytes s' <= 100)).
Proof.
  apply (admit_within_capacity (fun x => x) "/d" sample_rows sample_store key_a "/d/cache/tmp/x" "text/plain" None
    (replicate 30 Byte.x01) 10 0).
  - exact sample_scans.
  - exact sample_wf.
  - reflexivity.
  - exact sample_outside.
  - reflexivity.
  - vm_compute. discriminate.
Defined.

(** The sample admission evicts the 80-byte object and succeeds. *)
Example sample_admission :
  match admit_object (fun x => x) "/d" sample_rows sample_store key_a "/d/cache/tmp/x" "text/plain" None 10 0 with
  | Some (Ok o, s') => (o_size o, total_bytes s', map_to_list (entries s') !! 0%nat ≫= fun p => Some p.1)
  | _ => (0, 0, None)
  end = (30, 30, Some key_a).
Proof. vm_compute. reflexivity. Qed.

Lemma admit_then_get_witness :
  exists r s', admit_object (fun x => x) "/d" sample_rows sample_store key_a "/d/cache/tmp/x" "text/plain" None 10 0 = Some (r, s') /\
    match r with
    | Ok object => (get s' key_a 11).1 = Some object /\ files s' !! o_path object = Some (replicate 30 Byte.x01) /\
        o_size object = 30 /\ o_digest object = None /\ files s' !! "/d/cache/tmp/x" = None
    | Err _ => files s' !! "/d/cache/tmp/x" = Some (replicate 30 Byte.x01) /\ survives "/d" sample_store s' key_a
    end.
Proof.
  apply (admit_then_get (fun x => x) "/d" sample_rows sample_store key_a "/d/cache/tmp/x" "text/plain" None
    (replicate 30 Byte.x01) 10 0 11).
  - exact sample_scans.
  - exact sample_wf.
  - reflexivity.
  - exact sample_outside.
  - reflexivity.
  - vm_compute. discriminate.
Defined.

(** Key [b] in flight: admitting key [a] may not evict it. *)
Definition flying_store : CacheStore := with_flights sample_store {[ key_b ]}.

Lemma active_flights_survive_witness :
  (exists r s', admit_object (fun x => x) "/d" sample_rows flying_store key_a "/d/cache/tmp/x" "text/plain" None 10 0 = Some (r, s') /\
     survives "/d" flying_store s' key_b) /\
  (exists r s', cleanup_expired "/d" sample_rows flying_store (100 * nanos) = Some (r, s') /\
     survives "/d" flying_store s' key_b).
Proof.
  split.
  - apply (active_flights_survive (fun x => x) "/d" sample_rows flying_store key_a "/d/cache/tmp/x" "text/plain" None
      (replicate 30 Byte.x01) 10 0 key_b sample_scans sample_wf eq_refl sample_outside eq_refl); try reflexivity;
      first [discriminate | set_solver | vm_compute; discriminate].
  - apply (active_flights_survive (fun x => x) "/d" sample_rows flying_store key_a "/d/cache/tmp/x" "text/plain" None
      (replicate 30 Byte.x01) (100 * nanos) 0 key_b sample_scans sample_wf eq_refl sample_outside eq_refl); try reflexivity;
      first [discriminate | set_solver | vm_compute; discriminate].
Defined.

Lemma cleanup_expired_exact_witness :
  exists freed s', cleanup_expired "/d" sample_rows sample_store (100 * nanos) = Some (Ok freed, s') /\ wf "/d" s' /\
    (forall k r, entries (flush_hits sample_store (100 * nanos)) !! k = Some r ->
       100 * nanos - 60 * nanos <= e_last_accessed_at r -> entries s' !! k = Some r) /\
    expired_cleared (100 * nanos - 60 * nanos) s'.
Proof. apply cleanup_expired_exact; [exact sample_scans|exact sample_wf|reflexivity]. Defined.

Lemma hits_conserved_witness :
  pending_ok (record_hit sample_store key_b 9) /\
  hits (record_hit sample_store key_b 9) key_b = hits sample_store key_b + (if bool_decide (key_b = key_b) then 1 else 0) /\
  hits (flush_hits sample_store 9) key_b = hits sample_store key_b /\
  unwrap_or (pending_hits (flush_hits sample_store 9) !! key_b) 0 <= 0.
Proof.
  apply hits_conserved; [|reflexivity..]. apply map_Forall_singleton. vm_compute. split; [discriminate|reflexivity].
Defined.

Definition sample_digest : string := "sha256:" +:+ key_a.

Lemma cache_key_scoping_witness :
  key_preimage "r1" "/v2/a/blobs/x" (Some "Bearer one") true = key_preimage "r1" "/v2/a/blobs/x" (Some "Bearer two") true /\
  public_identity ("/v2/a" +:+ "/blobs/" +:+ sample_digest +:+ "?" +:+ "ns=docker.io") = sample_digest.
Proof.
  split.
  - apply (cache_key_scoping "r1" "r1" "/v2/a/blobs/x" "/v2/a/blobs/x" (Some "Bearer one") (Some "Bearer two") true true
      "/v2/a" sample_digest "ns=docker.io"); reflexivity || (split; [|split]; reflexivity).
  - apply (cache_key_scoping "r1" "r1" "/v2/a/blobs/x" "/v2/a/blobs/x" (Some "Bearer one") (Some "Bearer two") true true
      "/v2/a" sample_digest "ns=docker.io"); reflexivity.
Defined.
End Cache.
