(* ===== verification/Http.v ===== *)
(** * Upstream responses

    What src/src/scheduler.rs and src/src/upstream.rs observe of an HTTP exchange:
    header lookups, the capability probes of a blob source and the length and
    range checks.  A response body is the sequence of frames its stream yields.
    The [http_content_range] parser is a parameter. *)

From stdpp Require Import base gmap sets list strings.
From Stdlib Require Import ZArith Lia Ascii Strings.Byte.
From S2P Require Import Prelude Text Errors Files.

(** [RangeMode] of upstream.rs, and the methods the downloader sends. *)
Inductive RangeMode := Suppress | ForwardClient | Exact (start end_ : Z).
Inductive Method := GET | HEAD.

(** [HeaderMap]: names are lower case; a name may repeat. *)
Abbreviation HeaderMap := (list (string * string)).

Definition header_all (h : HeaderMap) (name : string) : list string :=
  snd <$> List.filter (fun p : string * string => p.1 =?s name) h.

(** [headers.get(name)]. *)
Definition header_get (h : HeaderMap) (name : string) : option string := head (header_all h name).

(** [HeaderValue::to_str]: visible ASCII, space and tab. *)
Definition visible (c : ascii) : bool := between 32 126 c || (code c =? 9).
Definition to_str (v : string) : option string := if all_bytes visible v then Some v else None.

Definition header_str (h : HeaderMap) (name : string) : option string :=
  let* v := header_get h name in to_str v.

(** A frame of a body stream: data, or the transport error that ends it. *)
Inductive frame := Data (b : bytes) | Fault (message : string).

Record Response := {
  r_status : Z;
  r_headers : HeaderMap;
  r_content_length : option Z;
  r_body : list frame
}.

Definition is_success (status : Z) : bool := (200 <=? status) && (status <? 300).
Definition PARTIAL_CONTENT : Z := 206.

(** [http_content_range::ContentRange]. *)
Inductive ContentRange :=
| Bytes (first_byte last_byte complete_length : Z)
| UnboundBytes (first_byte last_byte : Z)
| Unsatisfied (complete_length : Z).

(** The bytes a body delivers before it ends or fails, and whether it fails. *)
Fixpoint body_data (l : list frame) : bytes :=
  match l with
  | [] => []
  | Data b :: l' => b ++ body_data l'
  | Fault _ :: _ => []
  end.

Fixpoint body_faults (l : list frame) : bool :=
  match l with
  | [] => false
  | Data _ :: l' => body_faults l'
  | Fault _ :: _ => true
  end.

(** ** Capabilities *)

Record BlobCapabilities := {
  size : option Z;
  supports_range : bool;
  media_type : string
}.

(** [try_fold] of the decimal digits, [None] on overflow. *)
Fixpoint decimal_fold (length : Z) (s : string) : option Z :=
  match s with
  | EmptyString => Some length
  | String c s' =>
      let* m := checked_mul length 10 in
      let* n := checked_add m (code c - 48) in
      decimal_fold n s'
  end.

Definition positive_content_length (h : HeaderMap) : option Z :=
  match header_all h "content-length" with
  | [value] =>
      if is_empty value || negb (all_bytes is_ascii_digit value) then None
      else
        let* n := decimal_fold 0 value in
        if 0 <? n then Some n else None
  | _ => None
  end.

Definition identity_encoded (r : Response) : bool :=
  is_none_or (header_str (r_headers r) "content-encoding") (fun v => eq_ignore_ascii_case v "identity").

Definition response_media_type (r : Response) : string :=
  unwrap_or (header_str (r_headers r) "content-type") "application/octet-stream".

Definition capabilities_from_head (r : Response) : option BlobCapabilities :=
  let* n := positive_content_length (r_headers r) in
  Some {| size := Some n;
          supports_range := identity_encoded r &&
            is_some_and (header_str (r_headers r) "accept-ranges") (fun v => eq_ignore_ascii_case v "bytes");
          media_type := response_media_type r |}.

Section Ranges.
(** [ContentRange::parse]. *)
Variable parse_range : string -> option ContentRange.

Definition content_range (h : HeaderMap) : option ContentRange :=
  let* v := header_str h "content-range" in parse_range v.

Definition capabilities_from_probe (r : Response) : option BlobCapabilities :=
  if r_status r =? PARTIAL_CONTENT then
    let* range := content_range (r_headers r) in
    match range with
    | Bytes first last complete =>
        if negb (first =? 0) || negb (last =? 0) then None
        else Some {| size := Some complete; supports_range := identity_encoded r;
                     media_type := response_media_type r |}
    | _ => None
    end
  else if is_success (r_status r) then
    Some {| size := r_content_length r; supports_range := false; media_type := response_media_type r |}
  else None.

Definition content_range_matches (h : HeaderMap) (start end_ total : Z) : bool :=
  match content_range h with
  | Some (Bytes first last complete) => (first =? start) && (last =? end_) && (complete =? total)
  | _ => false
  end.

Lemma content_range_matches_true h start end_ total :
  content_range_matches h start end_ total = true -> content_range h = Some (Bytes start end_ total).
Proof.
  unfold content_range_matches. destruct (content_range h) as [[]|]; try done.
  intros H. bool_hyps. by subst.
Qed.
End Ranges.

(** ** The decimal length parser *)

(** The value of a digit string, without overflow. *)
Fixpoint decimal_value (acc : Z) (s : string) : Z :=
  match s with
  | EmptyString => acc
  | String c s' => decimal_value (10 * acc + (code c - 48)) s'
  end.

Lemma digit_range c : is_ascii_digit c = true -> 0 <= code c - 48 <= 9.
Proof. unfold is_ascii_digit, between. intros H. bool_hyps. lia. Qed.

Lemma decimal_value_ge s acc : all_bytes is_ascii_digit s = true -> 0 <= acc -> acc <= decimal_value acc s.
Proof.
  revert acc. induction s as [|c s IH]; simpl; intros acc H Hacc; [lia|].
  apply andb_true_iff in H as [Hc Hs]. apply digit_range in Hc.
  etransitivity; [|apply IH; [done|lia]]. lia.
Qed.

Lemma decimal_fold_spec s acc :
  all_bytes is_ascii_digit s = true -> 0 <= acc <= u64_max ->
  decimal_fold acc s = if decimal_value acc s <=? u64_max then Some (decimal_value acc s) else None.
Proof.
  revert acc. induction s as [|c s IH]; simpl; intros acc H Hacc.
  { by rewrite (proj2 (Z.leb_le acc u64_max)) by lia. }
  apply andb_true_iff in H as [Hc Hs]. apply digit_range in Hc.
  pose proof (decimal_value_ge s (10 * acc + (code c - 48)) Hs ltac:(lia)) as Hge.
  unfold checked_mul, checked_add. destruct (Z.leb_spec (acc * 10) u64_max).
  2: { rewrite (proj2 (Z.leb_gt _ _)); [done|lia]. }
  destruct (Z.leb_spec (acc * 10 + (code c - 48)) u64_max).
  2: { rewrite (proj2 (Z.leb_gt _ _)); [done|lia]. }
  replace (acc * 10 + (code c - 48)) with (10 * acc + (code c - 48)) by lia. apply IH; [done|lia].
Qed.

(** A length header is accepted exactly when it occurs once, is a non-empty string
    of decimal digits and denotes a positive number that fits 64 bits; the result is
    that number.  Repeated, signed, empty, zero or overflowing lengths are refused. *)
Theorem content_length_exact h n :
  positive_content_length h = Some n <->
  exists v, header_all h "content-length" = [v] /\ v <> "" /\ all_bytes is_ascii_digit v = true /\
    decimal_value 0 v = n /\ 0 < n <= u64_max.
Proof.
  unfold positive_content_length. split.
  - destruct (header_all h "content-length") as [|v [|v2 l]]; try done.
    destruct (is_empty v || negb (all_bytes is_ascii_digit v)) eqn:E; [done|].
    apply orb_false_iff in E as [Hne Hd%negb_false_iff].
    rewrite decimal_fold_spec by (done || (unfold u64_max; lia)).
    destruct (Z.leb_spec (decimal_value 0 v) u64_max); [|done].
    destruct (Z.ltb_spec 0 (decimal_value 0 v)); [|done]. intros [= <-]. exists v.
    split; [done|]. split; [by intros ->|]. auto.
  - intros (v & -> & Hne & Hd & Hv & Hr).
    assert (is_empty v = false) as -> by (by destruct v). rewrite Hd. simpl.
    rewrite decimal_fold_spec by (done || (unfold u64_max; lia)). rewrite Hv.
    rewrite (proj2 (Z.leb_le _ _)) by lia. by rewrite (proj2 (Z.ltb_lt _ _)) by lia.
Qed.

Example length_ok : positive_content_length [("content-length", "1024")] = Some 1024.
Proof. reflexivity. Qed.
Example length_repeated :
  positive_content_length [("content-length", "10"); ("content-length", "10")] = None.
Proof. reflexivity. Qed.
Example length_overflow : positive_content_length [("content-length", "18446744073709551616")] = None.
Proof. reflexivity. Qed.
