(* ===== verification/Download.v ===== *)
(** * Fetching a blob

    The executor half of src/src/scheduler.rs: capability detection, the parallel,
    whole and resumed downloads, recovery from alternate nodes, verification and
    admission to the cache.

    The code talks to three collaborators.  The node selector is the interface
    [Selector], which Selection.v implements.  The cache is Cache.v.  The upstream
    network is the parameter [send]: the [n]-th request of the process may receive
    any response, so no honesty is built in; between requests other tasks may change
    the selector ([interfere]).  A download that finds every candidate busy waits for
    capacity; [fuel] bounds the rounds it waits, and [None] is a download that is
    still waiting.  The chunk tasks of a parallel fetch each own one part file and
    are run in an arbitrary order ([schedule]). *)

From stdpp Require Import base gmap sets list strings pretty.
From Stdlib Require Import ZArith Lia Ascii Strings.Byte.
From S2P Require Import Prelude F64 Text Errors Budget Planner Chunks Model Scheduling Selection Metrics Files Cache Http.

(** Lemmas of a section depend on the variables of their statement only. *)
#[local] Set Default Proof Using "Type*".

(** ** What the downloader needs of the selector *)

Class Selector (S : Type) := {
  sel_order : S -> list NodeView -> Scheduling.ScheduleContext -> Scheduling.SchedulerPolicy -> Z -> list NodeView * S;
  sel_acquire : S -> Uuid -> Z -> option Uuid * S;
  sel_release : S -> Uuid -> S;
  sel_observe : S -> Uuid -> Z -> Z -> bool -> Z -> S;
  sel_cooling : S -> Uuid -> Z -> bool;
  sel_order_from : forall s l c p now v, v ∈ (sel_order s l c p now).1 -> v ∈ l;
  sel_order_some : forall s l c p now,
    existsb Selection.enabled_view l = true -> (sel_order s l c p now).1 <> []
}.

Module Download.
Import Chunks.

Record Runtime := { layout : SchedulerRuntimeConfig; scheduler_policy : Scheduling.SchedulerPolicy }.

(** [SchedulerCounters]. *)
Record Counters := {
  parallel_blobs : Z; resume_attempts : Z; retry_attempts : Z; last_chunk_size : Z
}.

Record DetectedCapabilities := {
  d_size : option Z;
  d_media_type : string;
  d_nodes : list NodeView;
  d_range_nodes : list NodeView;
  d_pending_nodes : list NodeView;
  d_fallback_nodes : list NodeView
}.

(** A request as it left for a node, and the instant at which it left. *)
Record Exchange := {
  x_at : nat;
  x_node : NodeView;
  x_method : Method;
  x_path : string;
  x_headers : HeaderMap;
  x_range : RangeMode
}.

Section Fetch.
Context {S : Type} `{!Selector S}.
Variable send : nat -> NodeView -> Method -> string -> HeaderMap -> RangeMode -> ApiResult Response.
Variable probe_lease : nat -> ApiResult unit.
Variable interfere : nat -> S -> S.
Variable clock : nat -> Z.
Variable sha256_hex : bytes -> string.
Variable sha256_prefix : bytes -> Z.
Variable parse_range : string -> option ContentRange.
Variable status_text : Z -> string.

(** The scheduler with the state it shares: the cache (whose files are the disk),
    the selector, the counters, the capability cache and the transfers reported to
    the node service.  [sent] is a history variable: every request that left for a
    node, oldest first.  No operation reads it. *)
Record World := {
  cache : Cache.CacheStore;
  sel : S;
  ticks : nat;
  stats : Counters;
  capabilities : gmap (Uuid * Z * string) BlobCapabilities;
  transfers : list (Uuid * Z * bool);
  sent : list Exchange
}.

Definition with_cache (w : World) (c : Cache.CacheStore) : World :=
  {| cache := c; sel := sel w; ticks := ticks w; stats := stats w;
     capabilities := capabilities w; transfers := transfers w; sent := sent w |}.
Definition with_sel (w : World) (s : S) : World :=
  {| cache := cache w; sel := s; ticks := ticks w; stats := stats w;
     capabilities := capabilities w; transfers := transfers w; sent := sent w |}.
Definition with_stats (w : World) (c : Counters) : World :=
  {| cache := cache w; sel := sel w; ticks := ticks w; stats := c;
     capabilities := capabilities w; transfers := transfers w; sent := sent w |}.

Definition fs (w : World) : Fs := Cache.files (cache w).
Definition with_fs (w : World) (f : Fs) : World := with_cache w (Cache.with_files (cache w) f).
Definition now (w : World) : Z := clock (ticks w).
Definition generation (w : World) : Z := now w / (5 * second).

(** One interaction with the outside: time passes and other tasks run. *)
Definition tick (w : World) : World :=
  {| cache := cache w; sel := interfere (ticks w) (sel w); ticks := Datatypes.S (ticks w); stats := stats w;
     capabilities := capabilities w; transfers := transfers w; sent := sent w |}.

Definition record_retry (w : World) : World :=
  with_stats w {| parallel_blobs := parallel_blobs (stats w); resume_attempts := resume_attempts (stats w);
                  retry_attempts := wrap64 (retry_attempts (stats w) + 1); last_chunk_size := last_chunk_size (stats w) |}.
Definition record_resume (w : World) : World :=
  with_stats w {| parallel_blobs := parallel_blobs (stats w); resume_attempts := wrap64 (resume_attempts (stats w) + 1);
                  retry_attempts := retry_attempts (stats w); last_chunk_size := last_chunk_size (stats w) |}.
Definition record_parallel_blob (w : World) (cs : Z) : World :=
  with_stats w {| parallel_blobs := wrap64 (parallel_blobs (stats w) + 1); resume_attempts := resume_attempts (stats w);
                  retry_attempts := retry_attempts (stats w); last_chunk_size := cs |}.

(** [nodes.record_transfer]. *)
Definition record_transfer (w : World) (id : Uuid) (n : Z) (ok : bool) : World :=
  {| cache := cache w; sel := sel w; ticks := ticks w; stats := stats w;
     capabilities := capabilities w; transfers := transfers w ++ [(id, n, ok)]; sent := sent w |}.

Definition observe_node (w : World) (id : Uuid) (n elapsed : Z) (ok : bool) : World :=
  with_sel w (sel_observe (sel w) id n elapsed ok (now w)).

Definition remove_path (w : World) (path : string) : World := with_fs w (remove_file (fs w) path).

(** The history with one more request. *)
Definition record_sent (w : World) (x : Exchange) : World :=
  {| cache := cache w; sel := sel w; ticks := ticks w; stats := stats w;
     capabilities := capabilities w; transfers := transfers w; sent := sent w ++ [x] |}.

(** [upstream.send], which counts the request. *)
Definition request (w : World) (node : NodeView) (m : Method) (path : string) (h : HeaderMap) (range : RangeMode)
    : ApiResult Response * World :=
  let c := cache w in
  let c := Cache.with_metrics c (TransferMetrics.record (Cache.metrics c) (generation w) TransferMetrics.record_upstream_request) in
  let x := {| x_at := ticks w; x_node := node; x_method := m; x_path := path; x_headers := h; x_range := range |} in
  (send (ticks w) node m path h range, tick (record_sent (with_cache w c) x)).

(** [Scheduler::sequence_for]. *)
Definition be_bytes (n : Z) : bytes :=
  (fun i => match Byte.of_N (Z.to_N (Z.shiftr n (8 * (7 - Z.of_nat i)) mod 256)) with Some b => b | None => x00 end)
    <$> seq 0 8.

Definition sequence_for (path : string) (part : Z) : Z :=
  let input := String.list_byte_of_string path ++ (if part =? 0 then [] else x00 :: be_bytes part) in
  sha256_prefix input.

(** ** Writing a response to disk *)

(** The receive loop shared by [stream_response_to_file] and
    [append_response_to_file]: [content] is the file so far. *)
Fixpoint write_frames (frames : list frame) (received : Z) (expected : option Z) (content : bytes)
    (m : TransferMetrics.t) (g : Z) : ApiResult Z * bytes * TransferMetrics.t :=
  match frames with
  | [] => (Ok received, content, m)
  | Fault message :: _ => (Err (Upstream message), content, m)
  | Data b :: rest =>
      let received := saturating_add received (blen b) in
      if is_some_and expected (fun e => e <? received) then (Err Integrity, content, m)
      else write_frames rest received expected (content ++ b)
             (TransferMetrics.record m g (TransferMetrics.record_upstream_bytes (blen b))) g
  end.

Definition write_response (w : World) (r : Response) (destination : string) (expected : option Z) (before : bytes)
    : ApiResult unit * World :=
  let c := cache w in
  let '(result, content, m) := write_frames (r_body r) 0 expected before (Cache.metrics c) (generation w) in
  let w := with_cache w (Cache.with_metrics (Cache.with_files c (<[destination := content]> (fs w))) m) in
  match result with
  | Err e => (Err e, w)
  | Ok received =>
      if is_some_and expected (fun e => negb (e =? received)) then (Err Integrity, w) else (Ok tt, w)
  end.

(** [File::create] truncates; [append(true).open] needs the file. *)
Definition stream_response_to_file (w : World) (r : Response) (destination : string) (expected : option Z)
    : ApiResult unit * World :=
  write_response w r destination expected [].

Definition append_response_to_file (w : World) (r : Response) (destination : string) (expected : Z)
    : ApiResult unit * World :=
  match fs w !! destination with
  | Some before => write_response w r destination (Some expected) before
  | None => (Err not_found, w)
  end.

(** ** Trying nodes *)

(** How one candidate's turn ends: the function returns, or the transfer was tried. *)
Inductive turn := Returned (r : ApiResult unit) | Tried (r : ApiResult unit) (n elapsed : Z).
Inductive flow := Return (r : ApiResult unit) | Continue (attempted : bool) (last_error : option AppError).

Section Rounds.
Variable destination : string.
(** The start of a round: an early return, or the scheduling context. *)
Variable plan_round : World -> ApiResult unit + Scheduling.ScheduleContext.
Variable attempt : NodeView -> World -> turn * World.

(** [for node in candidates { ... }]: take a lease or go on, try, report, and
    discard a file whose integrity failed. *)
Fixpoint for_candidates (l : list NodeView) (attempted : bool) (last_error : option AppError) (w : World)
    : flow * World :=
  match l with
  | [] => (Continue attempted last_error, w)
  | node :: l' =>
      let (lease, s) := sel_acquire (sel w) (node_id node) (max_concurrency node) in
      let w := with_sel w s in
      match lease with
      | None => for_candidates l' attempted last_error w
      | Some id =>
          match attempt node w with
          | (Returned r, w) => (Return r, with_sel w (sel_release (sel w) id))
          | (Tried r n elapsed, w) =>
              let w := observe_node w (node_id node) n elapsed (is_ok r) in
              let w := with_sel w (sel_release (sel w) id) in
              let w := record_transfer w (node_id node) n (is_ok r) in
              match r with
              | Ok _ => (Return (Ok tt), w)
              | Err e =>
                  let w := record_retry w in
                  let w := if is_integrity e then remove_path w destination else w in
                  for_candidates l' true (Some e) w
              end
          end
      end
  end.

(** [loop { ... if attempted { break } capacity_changed.await }]. *)
Fixpoint wait_rounds (fuel : nat) (group : list NodeView) (policy : Scheduling.SchedulerPolicy)
    (last_error : option AppError) (w : World) : option (flow * World) :=
  match fuel with
  | O => None
  | Datatypes.S fuel =>
      match plan_round w with
      | inl r => Some (Return r, w)
      | inr context =>
          let (candidates, s) := sel_order (sel w) group context policy (now w) in
          match for_candidates candidates false last_error (with_sel w s) with
          | (Continue false last_error, w) => wait_rounds fuel group policy last_error (tick w)
          | out => Some out
          end
      end
  end.

(** [for group in [nodes, pending_nodes] { if group.is_empty() { continue } ... }]. *)
Fixpoint for_groups (fuel : nat) (groups : list (list NodeView)) (policy : Scheduling.SchedulerPolicy)
    (last_error : option AppError) (w : World) : option (flow * World) :=
  match groups with
  | [] => Some (Continue false last_error, w)
  | [] :: rest => for_groups fuel rest policy last_error w
  | group :: rest =>
      let* (out, w) := wait_rounds fuel group policy last_error w in
      match out with
      | Return r => Some (Return r, w)
      | Continue _ last_error => for_groups fuel rest policy last_error w
      end
  end.

(** [Err(last_error.unwrap_or_else(|| ...))]. *)
Definition finish (message : string) (o : flow * World) : ApiResult unit * World :=
  match o with
  | (Return r, w) => (r, w)
  | (Continue _ last_error, w) => (Err (unwrap_or last_error (Upstream message)), w)
  end.
End Rounds.

Definition elapsed (w0 w : World) : Z := Z.max 0 (now w - now w0).

(** [metadata(path).map(|m| m.len()).unwrap_or(0)]. *)
Definition len_or_zero (w : World) (path : string) : Z := unwrap_or (blen <$> fs w !! path) 0.

Definition grown (w : World) (path : string) (before : Z) : Z := saturating_sub (len_or_zero w path) before.

(** ** One chunk *)

Definition chunk_transfer (h : HeaderMap) (path : string) (c : Chunk) (destination : string) (existing : Z)
    (node : NodeView) (w : World) : ApiResult unit * World :=
  let chunk_size := end_ c - start c + 1 in
  if chunk_size <? existing then (Err Integrity, remove_path w destination)
  else
    let start := start c + existing in
    if end_ c <? start then (Ok tt, w)
    else
      match request w node GET path h (Exact start (end_ c)) with
      | (Err e, w) => (Err e, w)
      | (Ok response, w) =>
          if negb (r_status response =? PARTIAL_CONTENT)
          then (Err (Upstream (Node.name (Model.node node) +:+ " ignored Range with status " +:+ status_text (r_status response))), w)
          else
            let expected := end_ c - start + 1 in
            if negb (bool_decide (r_content_length response = Some expected)) then (Err Integrity, w)
            else if negb (content_range_matches parse_range (r_headers response) start (end_ c) (total_size c))
            then (Err Integrity, w)
            else if 0 <? existing then append_response_to_file w response destination expected
            else stream_response_to_file w response destination (Some expected)
      end.

Definition chunk_attempt (h : HeaderMap) (path : string) (c : Chunk) (destination : string)
    (node : NodeView) (w : World) : turn * World :=
  let existing := len_or_zero w destination in
  let (r, w') := chunk_transfer h path c destination existing node w in
  (Tried r (grown w' destination existing) (elapsed w w'), w').

Definition chunk_context (path : string) (c : Chunk) : Scheduling.ScheduleContext :=
  {| Scheduling.sequence := sequence_for path (Z.of_nat (index c)); Scheduling.blob_size := total_size c;
     Scheduling.range_required := true; Scheduling.chunk := Some (start c, end_ c) |}.

(** [download_chunk]. *)
Definition download_chunk (fuel : nat) (nodes : list NodeView) (path : string) (h : HeaderMap) (c : Chunk)
    (destination : string) (policy : Scheduling.SchedulerPolicy) (w : World) : option (ApiResult unit * World) :=
  let* out := wait_rounds destination (fun _ => inr (chunk_context path c)) (chunk_attempt h path c destination)
                fuel nodes policy None w in
  Some (finish "all nodes failed a chunk" out).

(** ** The whole blob from one node at a time *)

Definition existing_prefix (w : World) (destination : string) (total : option Z) : option Z :=
  let* t := total in
  if 0 <? t then
    let* b := fs w !! destination in
    if blen b <? t then Some (blen b) else None
  else None.

Definition whole_transfer (h : HeaderMap) (path destination : string) (total existing : option Z)
    (node : NodeView) (w : World) : ApiResult unit * World :=
  let range := let* offset := existing in let* t := total in let* e := checked_sub t 1 in Some (offset, e) in
  match request w node GET path h (match range with Some (s, e) => Exact s e | None => Suppress end) with
  | (Err e, w) => (Err e, w)
  | (Ok response, w) =>
      if negb (is_success (r_status response))
      then (Err (Upstream (Node.name (Model.node node) +:+ " returned " +:+ status_text (r_status response))), w)
      else
        match existing with
        | Some start =>
            match total with
            | None => (Err Integrity, w)
            | Some t =>
                match checked_sub t 1 with
                | None => (Err Integrity, w)
                | Some e =>
                    if negb (r_status response =? PARTIAL_CONTENT)
                       || negb (content_range_matches parse_range (r_headers response) start e t)
                    then (Err Integrity, w)
                    else append_response_to_file w response destination (e - start + 1)
                end
            end
        | None => stream_response_to_file w response destination (r_content_length response)
        end
  end.

Definition whole_attempt (h : HeaderMap) (path destination : string) (total : option Z)
    (node : NodeView) (w : World) : turn * World :=
  let existing := existing_prefix w destination total in
  let (r, w') := whole_transfer h path destination total existing node w in
  (Tried r (grown w' destination (unwrap_or existing 0)) (elapsed w w'), w').

Definition whole_context (path : string) (total : option Z) : Scheduling.ScheduleContext :=
  {| Scheduling.sequence := sequence_for path (unwrap_or total 0); Scheduling.blob_size := unwrap_or total 0;
     Scheduling.range_required := false; Scheduling.chunk := None |}.

(** [download_whole]. *)
Definition download_whole (fuel : nat) (nodes pending : list NodeView) (path : string) (h : HeaderMap)
    (destination : string) (total : option Z) (policy : Scheduling.SchedulerPolicy) (w : World)
    : option (ApiResult unit * World) :=
  let* out := for_groups destination (fun _ => inr (whole_context path total)) (whole_attempt h path destination total)
                fuel [nodes; pending] policy None w in
  Some (finish "all nodes failed" out).

(** ** Resuming a partial file *)

Definition resume_transfer (h : HeaderMap) (path destination : string) (total offset : Z)
    (node : NodeView) (w : World) : ApiResult unit * World :=
  match request w node GET path h (Exact offset (total - 1)) with
  | (Err e, w) => (Err e, w)
  | (Ok response, w) =>
      if negb (r_status response =? PARTIAL_CONTENT)
         || negb (content_range_matches parse_range (r_headers response) offset (total - 1) total)
      then (Err Integrity, w)
      else if offset =? 0 then stream_response_to_file w response destination (Some total)
      else append_response_to_file w response destination (total - offset)
  end.

Definition resume_attempt (h : HeaderMap) (path destination : string) (total : Z)
    (node : NodeView) (w : World) : turn * World :=
  let offset := len_or_zero w destination in
  if total <=? offset then (Returned (if offset =? total then Ok tt else Err Integrity), w)
  else
    let (r, w') := resume_transfer h path destination total offset node w in
    (Tried r (grown w' destination offset) (elapsed w w'), w').

Definition resume_round (path destination : string) (total : Z) (w : World)
    : ApiResult unit + Scheduling.ScheduleContext :=
  let offset := len_or_zero w destination in
  if total <=? offset then inl (Ok tt)
  else inr {| Scheduling.sequence := sequence_for path offset; Scheduling.blob_size := total;
              Scheduling.range_required := true; Scheduling.chunk := Some (offset, total - 1) |}.

(** [download_resume]. *)
Definition download_resume (fuel : nat) (nodes pending : list NodeView) (path : string) (h : HeaderMap)
    (total : Z) (destination : string) (policy : Scheduling.SchedulerPolicy) (w : World)
    : option (ApiResult unit * World) :=
  let w := record_resume w in
  let* out := for_groups destination (resume_round path destination total) (resume_attempt h path destination total)
                fuel [nodes; pending] policy None w in
  Some (finish "all nodes failed resume" out).

(** ** Verification and recovery *)

Definition valid_blob_digest (expected_digest : string) : option string :=
  let* v := strip_prefix "sha256:" expected_digest in
  if (slen v =? 64) && all_bytes is_ascii_hexdigit v then Some v else None.

(** [verify_file]. *)
Definition verify_file (w : World) (path expected_digest : string) : ApiResult unit :=
  let? expected := ok_or (valid_blob_digest expected_digest) (BadRequest "unsupported or invalid Blob digest") in
  match fs w !! path with
  | None => Err not_found
  | Some content => if sha256_hex content =?s expected then Ok tt else Err Integrity
  end.

(** The loop of [recover_verified_blob]. *)
Fixpoint recover_loop (fuel : nat) (l : list NodeView) (path : string) (h : HeaderMap) (destination digest : string)
    (total : option Z) (policy : Scheduling.SchedulerPolicy) (last_error : option AppError) (w : World)
    : option (ApiResult unit * World) :=
  match l with
  | [] => Some (Err (unwrap_or last_error Integrity), w)
  | node :: l' =>
      let w0 := w in
      let* (r, w) := download_whole fuel [node] [] path h destination total policy w in
      match (let? _ := r in verify_file w destination digest) with
      | Ok _ => Some (Ok tt, w)
      | Err e =>
          let w := observe_node w (node_id node) 0 (elapsed w0 w) false in
          let w := record_transfer w (node_id node) 0 false in
          let w := record_retry (remove_path w destination) in
          recover_loop fuel l' path h destination digest total policy (Some e) w
      end
  end.

Definition recover_verified_blob (fuel : nat) (nodes : list NodeView) (path : string) (h : HeaderMap)
    (destination digest : string) (total : option Z) (policy : Scheduling.SchedulerPolicy) (w : World)
    : option (ApiResult unit * World) :=
  let (candidates, s) := sel_order (sel w) nodes (whole_context path total) policy (now w) in
  recover_loop fuel candidates path h destination digest total policy None (with_sel w s).

(** ** Parallel chunks *)

(** The part file names its byte range and the blob size. *)
Definition decimal (z : Z) : string := pretty (Z.to_N z).
Definition part_name (c : Chunk) : string :=
  decimal (total_size c) +:+ "-" +:+ decimal (start c) +:+ "-" +:+ decimal (end_ c) +:+ ".part".
Definition part_path (dir : string) (c : Chunk) : string := dir +:+ "/" +:+ part_name c.

(** One task: a complete part file is reused. *)
Definition chunk_task (fuel : nat) (nodes : list NodeView) (path : string) (h : HeaderMap) (dir : string)
    (policy : Scheduling.SchedulerPolicy) (c : Chunk) (w : World) : option (ApiResult (nat * string) * World) :=
  if bool_decide (blen <$> fs w !! part_path dir c = Some (end_ c - start c + 1))
  then Some (Ok (index c, part_path dir c), w)
  else
    let* (r, w) := download_chunk fuel nodes path h c (part_path dir c) policy w in
    Some (match r with Ok _ => Ok (index c, part_path dir c) | Err e => Err e end, w).

Fixpoint run_tasks (task : Chunk -> World -> option (ApiResult (nat * string) * World)) (l : list Chunk) (w : World)
    : option (list (ApiResult (nat * string)) * World) :=
  match l with
  | [] => Some ([], w)
  | c :: l' =>
      let* (r, w) := task c w in
      let* (rs, w) := run_tasks task l' w in
      Some (r :: rs, w)
  end.

(** [for result in results { let (index, path) = result?; ordered[index] = Some(path) }]. *)
Fixpoint place_parts (results : list (ApiResult (nat * string))) (ordered : list (option string))
    : ApiResult (list (option string)) :=
  match results with
  | [] => Ok ordered
  | Err e :: _ => Err e
  | Ok (i, p) :: rest => place_parts rest (<[i := Some p]> ordered)
  end.

(** Copying the parts into the merged file, in index order. *)
Fixpoint merge_parts (ordered : list (option string)) (merged : string) (w : World) : ApiResult unit * World :=
  match ordered with
  | [] => (Ok tt, w)
  | None :: _ => (Err Integrity, w)
  | Some p :: rest =>
      match fs w !! p with
      | None => (Err not_found, w)
      | Some b => merge_parts rest merged (with_fs w (<[merged := unwrap_or (fs w !! merged) [] ++ b]> (fs w)))
      end
  end.

Variable schedule : list Chunk -> list Chunk.

(** [download_parallel]. *)
Definition download_parallel (fuel : nat) (nodes : list NodeView) (path : string) (h : HeaderMap) (total : Z)
    (dir merged : string) (runtime : Runtime) (w : World) : option (ApiResult unit * World) :=
  let* cs := chunks total (chunk_size (layout runtime)) in
  let* (results, w) := run_tasks (chunk_task fuel nodes path h dir (scheduler_policy runtime)) (schedule cs) w in
  match place_parts results (replicate (length cs) None) with
  | Err e => Some (Err e, w)
  | Ok ordered => Some (merge_parts ordered merged (with_fs w (<[merged := []]> (fs w))))
  end.

(** ** Capability detection *)

Definition capability_key (node : NodeView) (path : string) : Uuid * Z * string :=
  (node_id node, Node.updated_at (Model.node node), path).

Definition probe_node (path : string) (h : HeaderMap) (node : NodeView) (w : World)
    : ApiResult BlobCapabilities * World :=
  match probe_lease (ticks w) with
  | Err e => (Err e, tick w)
  | Ok _ =>
      match request (tick w) node HEAD path h Suppress with
      | (Err e, w) => (Err e, w)
      | (Ok response, w) =>
          match (if is_success (r_status response) then capabilities_from_head response else None) with
          | Some c => (Ok c, w)
          | None =>
              match request w node GET path h (Exact 0 0) with
              | (Err e, w) => (Err e, w)
              | (Ok probe, w) =>
                  (ok_or (capabilities_from_probe parse_range probe)
                     (Upstream (Node.name (Model.node node) +:+ " does not expose Blob length or Range metadata")), w)
              end
          end
      end
  end.

(** [detect_node_capabilities]. *)
Definition detect_node_capabilities (path : string) (h : HeaderMap) (node : NodeView) (w : World)
    : ApiResult BlobCapabilities * World :=
  match capabilities w !! capability_key node path with
  | Some v => (Ok v, w)
  | None =>
      let (result, w) := probe_node path h node w in
      let w := match result with
               | Ok v => {| cache := cache w; sel := sel w; ticks := ticks w; stats := stats w;
                            capabilities := <[capability_key node path := v]> (capabilities w);
                            transfers := transfers w; sent := sent w |}
               | Err _ => w
               end in
      (result, record_transfer w (node_id node) 0 (is_ok result))
  end.

(** The order in which probes complete, and whether the discovery deadline has
    passed before the [i]-th completion. *)
Variable arrivals : list NodeView -> list NodeView.
Variable deadline_passed : nat -> bool.

Fixpoint detect_loop (path : string) (h : HeaderMap) (threshold : Z) (l : list NodeView) (i : nat) (deadline : bool)
    (baseline : option BlobCapabilities) (compatible : list (NodeView * BlobCapabilities)) (observed : list Uuid)
    (last_error : option AppError) (w : World)
    : option BlobCapabilities * list (NodeView * BlobCapabilities) * list Uuid * option AppError * World :=
  match l with
  | [] => (baseline, compatible, observed, last_error, w)
  | node :: rest =>
      if deadline && deadline_passed i then (baseline, compatible, observed, last_error, w)
      else
        let (result, w) := detect_node_capabilities path h node w in
        let observed := node_id node :: observed in
        match result with
        | Err e => detect_loop path h threshold rest (Datatypes.S i) deadline baseline compatible observed (Some e) (record_retry w)
        | Ok value =>
            if is_none_or baseline (fun previous => bool_decide (Http.size previous = Http.size value)) then
              let baseline := Some (unwrap_or baseline value) in
              let compatible := compatible ++ [(node, value)] in
              match (let* b := baseline in Http.size b) with
              | None => (baseline, compatible, observed, last_error, w)
              | Some n =>
                  if n <? threshold then (baseline, compatible, observed, last_error, w)
                  else detect_loop path h threshold rest (Datatypes.S i) true baseline compatible observed last_error w
              end
            else detect_loop path h threshold rest (Datatypes.S i) deadline baseline compatible observed last_error w
        end
  end.

(** [detect_capabilities]. *)
Definition detect_capabilities (nodes : list NodeView) (path : string) (h : HeaderMap) (threshold : Z) (w : World)
    : ApiResult DetectedCapabilities * World :=
  let '(baseline, compatible, observed, last_error, w) :=
    detect_loop path h threshold (arrivals nodes) 0 false None [] [] None w in
  match baseline with
  | Some baseline =>
      let pending := List.filter (fun v => negb (bool_decide (node_id v ∈ observed))) nodes in
      (Ok {| d_size := Http.size baseline; d_media_type := Http.media_type baseline;
             d_nodes := compatible.*1;
             d_range_nodes := (List.filter (fun p : NodeView * BlobCapabilities => Http.supports_range p.2) compatible).*1;
             d_pending_nodes := pending; d_fallback_nodes := compatible.*1 ++ pending |}, w)
  | None => (Err (unwrap_or last_error (Upstream "capability detection failed")), w)
  end.

(** ** The whole fetch *)

Variable ln_1p : f64 -> f64.
Variable data_dir : string.
Variable rows : gmap string Cache.CacheRecord -> list Cache.CacheRecord.

Definition capacity_sum (l : list NodeView) : Z := foldr (fun v acc => max_concurrency v + acc) 0 l.

Definition snapshot (w : World) (range_nodes : list NodeView) (v : NodeView) : Planner.NodeSnapshot :=
  {| Planner.url := Node.url (Model.node v);
     Planner.supports_range := bool_decide (node_id v ∈ (node_id <$> range_nodes));
     Planner.max_concurrency := max_concurrency v;
     Planner.throughput_bps := if 0 <? Metric.speed_bps (metric v) then Some (Metric.speed_bps (metric v)) else None;
     Planner.latency_ms := if is_some (Metric.last_checked_at (metric v)) && (0 <? Metric.latency_ms (metric v))
                           then Some (Metric.latency_ms (metric v)) else None;
     Planner.success_rate := Metric.success_rate (metric v);
     Planner.cooling := sel_cooling (sel w) (node_id v) (now w) |}.

Definition planner_config (r : SchedulerRuntimeConfig) (node_capacity : Z) : Planner.PlannerConfig :=
  {| Planner.small_blob_threshold := parallel_threshold r;
     Planner.max_concurrent_chunks := effective_concurrency r (Z.max node_capacity 1);
     Planner.allow_unmeasured_parallel := parallel_threshold r <? 1024 * 1024;
     Planner.min_chunk_size := if adaptive_chunking_enabled r then Planner.min_chunk_size Planner.default_config else chunk_size r;
     Planner.max_chunk_size := if adaptive_chunking_enabled r then Planner.max_chunk_size Planner.default_config else chunk_size r;
     Planner.min_parallel_benefit := Planner.min_parallel_benefit Planner.default_config |}.

Definition choose_plan (r : SchedulerRuntimeConfig) (d : DetectedCapabilities) (expected_digest : option string) (w : World)
    : ApiResult Planner.BlobDownloadPlan :=
  let size := unwrap_or (d_size d) 0 in
  let first := Node.url ∘ Model.node <$> head (d_nodes d) in
  let single u := {| Planner.strategy := Planner.SingleRequest u |} in
  if size =? 0 then ok_or (single <$> first) (Internal "index out of bounds")
  else
    match Planner.plan (planner_config r (capacity_sum (d_range_nodes d)))
            {| Planner.digest := unwrap_or expected_digest ""; Planner.size := size; Planner.media_type := d_media_type d |}
            false (snapshot w (d_range_nodes d) <$> d_nodes d) with
    | Ok plan => Ok plan
    | Err Planner.NoUsableNodes => ok_or (single <$> first) (Unavailable "no compatible nodes")
    | Err Planner.InvalidConfiguration => Err (Internal "invalid Blob planner configuration")
    end.

(** [nodes.rotate_left(position of the preferred URL)]. *)
Definition prefer (preferred : string) (l : list NodeView) : list NodeView :=
  match list_find (fun v => Node.url (Model.node v) = preferred) l with
  | Some (i, _) => rotate_left i l
  | None => l
  end.

Definition set_chunk_size (r : Runtime) (cs : Z) : Runtime :=
  {| layout := {| chunk_size := cs; adaptive_chunking_enabled := adaptive_chunking_enabled (layout r);
                  automatic_concurrency_enabled := automatic_concurrency_enabled (layout r);
                  parallel_threshold := parallel_threshold (layout r);
                  resumable_threshold := resumable_threshold (layout r);
                  chunk_concurrency := chunk_concurrency (layout r) |};
     scheduler_policy := scheduler_policy r |}.

(** Whether to fetch in parallel, the chunk size and the preferred single source. *)
Definition decode_plan (runtime : Runtime) (plan : Planner.BlobDownloadPlan) : bool * Z * option string :=
  match Planner.strategy plan with
  | Planner.MultiSourceChunked cs _ _ => (true, cs, None)
  | Planner.CacheHit => (false, chunk_size (layout runtime), None)
  | Planner.SingleRequest u => (false, chunk_size (layout runtime), Some u)
  end.

(** The transfer of [fetch_uncached]: parallel with a fallback, resumed, or whole. *)
Definition transfer (fuel : nat) (runtime : Runtime) (d : DetectedCapabilities) (plan : Planner.BlobDownloadPlan)
    (path : string) (h : HeaderMap) (dir merged : string) (w : World) : option (ApiResult unit * World) :=
  let size := unwrap_or (d_size d) 0 in
  let '(can_parallel, cs, preferred) := decode_plan runtime plan in
  let runtime := set_chunk_size runtime cs in
  let policy := scheduler_policy runtime in
  let fallback := match preferred with Some u => prefer u (d_nodes d) | None => d_nodes d end in
  if can_parallel then
    let w := record_parallel_blob w cs in
    let* (r, w) := download_parallel fuel (d_range_nodes d) path h size dir merged runtime w in
    match r with
    | Ok _ => Some (Ok tt, w)
    | Err _ => download_whole fuel fallback (d_pending_nodes d) path h merged (d_size d) policy (remove_path w merged)
    end
  else if negb (bool_decide (d_range_nodes d = []))
          && (resumable_threshold (layout runtime) <=? size)
          && is_some_and (fs w !! merged) (fun b => (0 <? blen b) && (blen b <? size))
  then download_resume fuel (d_range_nodes d) (d_pending_nodes d) path h size merged policy w
  else download_whole fuel fallback (d_pending_nodes d) path h merged (d_size d) policy w.

(** The checks after the transfer: the size, then the digest, each with one
    recovery from the alternate nodes. *)
Definition check_size (fuel : nat) (d : DetectedCapabilities) (expected_digest : option string) (path : string)
    (h : HeaderMap) (merged : string) (policy : Scheduling.SchedulerPolicy) (w : World) : option (ApiResult unit * World) :=
  match metadata (fs w) merged with
  | Err e => Some (Err e, w)
  | Ok actual =>
      if is_some_and (d_size d) (fun expected => negb (actual =? expected)) then
        match expected_digest with
        | Some digest =>
            if (1 <? length (d_fallback_nodes d))%nat
            then recover_verified_blob fuel (d_fallback_nodes d) path h merged digest (d_size d) policy w
            else Some (Err Integrity, w)
        | None => Some (Err Integrity, w)
        end
      else Some (Ok tt, w)
  end.

Definition check_digest (fuel : nat) (d : DetectedCapabilities) (expected_digest : option string) (path : string)
    (h : HeaderMap) (merged : string) (policy : Scheduling.SchedulerPolicy) (w : World) : option (ApiResult unit * World) :=
  match expected_digest with
  | None => Some (Ok tt, w)
  | Some digest =>
      match verify_file w merged digest with
      | Ok _ => Some (Ok tt, w)
      | Err error =>
          if (length (d_fallback_nodes d) <? 2)%nat then Some (Err error, w)
          else recover_verified_blob fuel (d_fallback_nodes d) path h merged digest (d_size d) policy w
      end
  end.

Definition partial_dir (key : string) : string := Cache.temp_dir data_dir +:+ "/" +:+ key.
Definition merged_path (key : string) : string := partial_dir key +:+ "/object.partial".

(** [fetch_uncached]. *)
Definition fetch_uncached (fuel : nat) (runtime : Runtime) (key path : string) (h : HeaderMap)
    (expected_digest : option string) (nodes : list NodeView) (w : World)
    : option (ApiResult Cache.CachedObject * World) :=
  match detect_capabilities nodes path h (parallel_threshold (layout runtime)) w with
  | (Err e, w) => Some (Err e, w)
  | (Ok d, w) =>
      match choose_plan (layout runtime) d expected_digest w with
      | Err e => Some (Err e, w)
      | Ok plan =>
          let merged := merged_path key in
          let policy := scheduler_policy runtime in
          let* (r, w) := transfer fuel runtime d plan path h (partial_dir key) merged w in
          match r with
          | Err e => Some (Err e, w)
          | Ok _ =>
              let* (r, w) := check_size fuel d expected_digest path h merged policy w in
              match r with
              | Err e => Some (Err e, w)
              | Ok _ =>
                  let* (r, w) := check_digest fuel d expected_digest path h merged policy w in
                  match r with
                  | Err e => Some (Err e, w)
                  | Ok _ =>
                      let* (result, c) := Cache.admit_object ln_1p data_dir rows (cache w) key merged (d_media_type d)
                                            expected_digest (now w) (generation w) in
                      let w := with_cache w c in
                      Some (result, if is_ok result then with_fs w (remove_dir_all (fs w) (partial_dir key)) else w)
                  end
              end
          end
      end
  end.

Variable key_hash : string -> string.
Variable uuid_text : Uuid -> string.

(** [fetch_blob]; [None] also when another flight holds the key. *)
Definition fetch_blob (fuel : nat) (runtime : Runtime) (path : string) (h : HeaderMap) (expected_digest : option string)
    (nodes : list NodeView) (w : World) : option (ApiResult (Cache.CachedObject * bool) * World) :=
  match nodes with
  | [] => Some (Err (Unavailable "resolved Registry route has no enabled nodes"), w)
  | node :: _ =>
      let authorization := header_str h "authorization" in
      let public_route := forallb (fun v => (Node.auth_mode (Model.node v) =?s "none")
                                            && is_none (Node.auth_secret_enc (Model.node v))) nodes in
      let key := Cache.request_key key_hash (cache w) (uuid_text (RouteSummary.id (route node))) path authorization public_route in
      let (hit, c) := Cache.get_for_blob_request (cache w) key (now w) (generation w) in
      let w := with_cache w c in
      match hit with
      | Some object => Some (Ok (object, true), w)
      | None =>
          let* c := Cache.lock (cache w) key in
          let w := tick (with_cache w c) in
          let (hit, c) := Cache.get (cache w) key (now w) in
          let w := with_cache w c in
          match hit with
          | Some object => Some (Ok (object, true), with_cache w (Cache.unlock (cache w) key))
          | None =>
              let* (r, w) := fetch_uncached fuel runtime key path h expected_digest nodes w in
              Some (let? object := r in Ok (object, false), with_cache w (Cache.unlock (cache w) key))
          end
      end
  end.

(** ** What the downloader may touch

    [frame touched w w']: from [w] to [w'] the cache index is unchanged and only
    files in [touched] changed. *)

Record frame (touched : string -> Prop) (w w' : World) : Prop := {
  fr_entries : Cache.entries (cache w') = Cache.entries (cache w);
  fr_pending : Cache.pending_hits (cache w') = Cache.pending_hits (cache w);
  fr_flights : Cache.active_flights (cache w') = Cache.active_flights (cache w);
  fr_runtime : Cache.runtime (cache w') = Cache.runtime (cache w);
  fr_files : forall p, ~ touched p -> fs w' !! p = fs w !! p
}.

#[local] Instance frame_preorder touched : PreOrder (frame touched).
Proof.
  split; [intros w; by split|]. intros w1 w2 w3 [] []. split; try congruence.
  intros p Hp. rewrite fr_files1, fr_files0 by done. done.
Qed.

Lemma frame_weaken (t t' : string -> Prop) w w' : (forall p, t p -> t' p) -> frame t w w' -> frame t' w w'.
Proof. intros Ht []. split; auto. Qed.

(** Steps that leave the cache and its files alone. *)
Lemma frame_cache_eq t w w' : cache w' = cache w -> frame t w w'.
Proof. intros E. split; unfold fs; by rewrite ?E. Qed.

Lemma frame_files t w f : (forall p, ~ t p -> f !! p = fs w !! p) -> frame t w (with_fs w f).
Proof. intros H. split; try done. Qed.

Lemma frame_remove w path : frame (fun p => p = path) w (remove_path w path).
Proof. apply frame_files. intros p Hp. apply lookup_delete_ne. congruence. Qed.

Lemma frame_request t w node m path h range : frame t w (request w node m path h range).2.
Proof. by split. Qed.

Lemma request_fs w node m path h range : fs (request w node m path h range).2 = fs w.
Proof. done. Qed.

Lemma frame_write w r dest expected before : frame (fun p => p = dest) w (write_response w r dest expected before).2.
Proof.
  unfold write_response. destruct (write_frames _ _ _ _ _ _) as [[res content] m].
  assert (frame (fun p => p = dest) w (with_cache w
    (Cache.with_metrics (Cache.with_files (cache w) (<[dest := content]> (fs w))) m))) as H.
  { split; try done. intros p Hp. unfold fs. simpl. apply lookup_insert_ne. congruence. }
  destruct res as [n|e]; [|done]. by destruct (is_some_and _ _).
Qed.

Lemma frame_stream w r dest expected : frame (fun p => p = dest) w (stream_response_to_file w r dest expected).2.
Proof. apply frame_write. Qed.

Lemma frame_append w r dest expected : frame (fun p => p = dest) w (append_response_to_file w r dest expected).2.
Proof. unfold append_response_to_file. destruct (fs w !! dest); [apply frame_write|done]. Qed.

Lemma request_frame t w node m path h range r w' :
  request w node m path h range = (r, w') -> frame t w w' /\ fs w' = fs w.
Proof. intros [= <- <-]. by split. Qed.

Ltac solve_frame :=
  repeat case_match; simplify_eq/=;
  repeat match goal with
  | H : request _ _ _ _ _ _ = (_, ?w1) |- frame ?t _ _ => apply (request_frame t) in H as [H _]
  end;
  first [ done | eassumption | apply frame_remove
        | etransitivity; [eassumption|]; first [apply frame_append | apply frame_stream] ].

Lemma frame_chunk_transfer h path c dest existing node w :
  frame (fun p => p = dest) w (chunk_transfer h path c dest existing node w).2.
Proof. unfold chunk_transfer. solve_frame. Qed.

Lemma frame_whole_transfer h path dest total existing node w :
  frame (fun p => p = dest) w (whole_transfer h path dest total existing node w).2.
Proof. unfold whole_transfer. solve_frame. Qed.

Lemma frame_resume_transfer h path dest total offset node w :
  frame (fun p => p = dest) w (resume_transfer h path dest total offset node w).2.
Proof. unfold resume_transfer. solve_frame. Qed.

(** *** Invariants of the candidate loops

    [J] holds of the world throughout if every attempt preserves it and it does not
    depend on the selector, the counters or the reports; [Q] holds when a transfer
    succeeds or the function returns early with success. *)
Section Invariant.
Variable destination : string.
Variable plan_round : World -> ApiResult unit + Scheduling.ScheduleContext.
Variable attempt : NodeView -> World -> turn * World.
Variable J Q : World -> Prop.
Hypothesis J_stable : forall w w', cache w' = cache w -> J w -> J w'.
Hypothesis Q_stable : forall w w', cache w' = cache w -> Q w -> Q w'.
Hypothesis plan_ok : forall w r, J w -> plan_round w = inl r -> r = Ok tt -> Q w.
Hypothesis attempt_ok : forall node w t w', J w -> attempt node w = (t, w') ->
  match t with
  | Returned r => J w' /\ (r = Ok tt -> Q w')
  | Tried r _ _ =>
      (r = Ok tt -> J w' /\ Q w') /\
      (forall e, r = Err e -> is_integrity e = false -> J w') /\
      (r = Err Integrity -> J (remove_path w' destination))
  end.

Definition flow_ok (o : flow * World) : Prop :=
  J o.2 /\ (o.1 = Return (Ok tt) -> Q o.2).

Lemma for_candidates_ok l attempted last w : J w -> flow_ok (for_candidates destination attempt l attempted last w).
Proof.
  revert attempted last w. induction l as [|node l IH]; intros attempted last w Hw; [by split|].
  cbn [for_candidates]. destruct (sel_acquire _ _ _) as [lease s].
  assert (J (with_sel w s)) as Hw1 by (by apply (J_stable w)). destruct lease as [id|]; [|by apply IH].
  destruct (attempt node (with_sel w s)) as [t w'] eqn:Ea. pose proof (attempt_ok _ _ _ _ Hw1 Ea) as Ht.
  destruct t as [r|r n e].
  - destruct Ht as [HJ HQ]. split; simpl; [by apply (J_stable w')|]. intros [= ->].
    by apply (Q_stable w'), HQ.
  - destruct Ht as (Hok & Herr & Hint). destruct r as [[]|err].
    + destruct (Hok eq_refl). split; [by apply (J_stable w')|]. intros _. by apply (Q_stable w').
    + apply IH. destruct (is_integrity err) eqn:Ei; [|by apply (J_stable w'), (Herr err)].
      destruct err; try done. apply (J_stable (remove_path w' destination)); [done|]. by apply Hint.
Qed.

Lemma wait_rounds_ok fuel group policy last w o :
  J w -> wait_rounds destination plan_round attempt fuel group policy last w = Some o -> flow_ok o.
Proof.
  revert last w. induction fuel as [|fuel IH]; intros last w Hw; [done|]. cbn [wait_rounds].
  destruct (plan_round w) as [r|ctx] eqn:Ep.
  { intros [= <-]. split; [done|]. simpl. intros [= ->]. by eapply plan_ok. }
  destruct (sel_order _ _ _ _ _) as [cands s].
  assert (J (with_sel w s)) as Hw1 by (by apply (J_stable w)).
  pose proof (for_candidates_ok cands false last (with_sel w s) Hw1) as Hc.
  destruct (for_candidates _ _ _ _ _ _) as [[r|[] last'] w']; intros H; simplify_eq; try done.
  apply (IH last' (tick w')); [|done]. by apply (J_stable w'); [|apply Hc].
Qed.

Lemma for_groups_ok fuel groups policy last w o :
  J w -> for_groups destination plan_round attempt fuel groups policy last w = Some o -> flow_ok o.
Proof.
  revert last w. induction groups as [|g rest IH]; intros last w Hw; simpl; [by intros [= <-]|].
  destruct g as [|v g]; [by apply IH|].
  destruct (wait_rounds _ _ _ _ _ _ _ _) as [[out w']|] eqn:E; [|done].
  pose proof (wait_rounds_ok _ _ _ _ _ _ Hw E) as [HJ HQ]. destruct out as [r|a l].
  - intros [= <-]. by split.
  - by apply IH.
Qed.

Lemma finish_ok message o r w : flow_ok o -> finish message o = (r, w) -> J w /\ (r = Ok tt -> Q w).
Proof using Type.
  intros [HJ HQ]. destruct o as [[r'|a l] w']; simpl; intros [= <- <-]; split; try done.
  intros ->. by apply HQ.
Qed.
End Invariant.

(** *** Frames of the downloads *)

Lemma frame_rounds dest plan_round attempt (w0 : World) :
  (forall node w, frame (fun p => p = dest) w (attempt node w).2) ->
  (forall fuel group policy last w o, frame (fun p => p = dest) w0 w ->
     wait_rounds dest plan_round attempt fuel group policy last w = Some o -> frame (fun p => p = dest) w0 o.2) /\
  (forall fuel groups policy last w o, frame (fun p => p = dest) w0 w ->
     for_groups dest plan_round attempt fuel groups policy last w = Some o -> frame (fun p => p = dest) w0 o.2).
Proof.
  intros Hatt. set (J := fun w => frame (fun p => p = dest) w0 w).
  assert (forall w w', cache w' = cache w -> J w -> J w') as Js.
  { intros w w' E Hw. unfold J in *. etransitivity; [done|]. by apply frame_cache_eq. }
  assert (forall w, J w -> J (remove_path w dest)) as Jr.
  { intros w Hw. unfold J in *. etransitivity; [done|]. apply frame_remove. }
  assert (forall node w t w', J w -> attempt node w = (t, w') ->
    match t with
    | Returned r => J w' /\ (r = Ok tt -> True)
    | Tried r _ _ => (r = Ok tt -> J w' /\ True) /\ (forall e, r = Err e -> is_integrity e = false -> J w') /\
        (r = Err Integrity -> J (remove_path w' dest))
    end) as Ja.
  { intros node w t w' Hw E. specialize (Hatt node w). rewrite E in Hatt. simpl in Hatt.
    assert (J w') by (unfold J; by etransitivity). destruct t; auto 10. }
  clear Jr.
  split.
  - intros fuel group policy last w o Hw Ho.
    by apply (wait_rounds_ok dest plan_round attempt J (fun _ => True) Js (fun _ _ _ _ => I)
      (fun _ _ _ _ _ => I) Ja _ _ _ _ _ _ Hw) in Ho as [? _].
  - intros fuel groups policy last w o Hw Ho.
    by apply (for_groups_ok dest plan_round attempt J (fun _ => True) Js (fun _ _ _ _ => I)
      (fun _ _ _ _ _ => I) Ja _ _ _ _ _ _ Hw) in Ho as [? _].
Qed.

Lemma finish_world message o r w : finish message o = (r, w) -> w = o.2.
Proof. destruct o as [[?|? ?] ?]; simpl; congruence. Qed.

Lemma frame_chunk fuel nodes path h c dest policy w r w' :
  download_chunk fuel nodes path h c dest policy w = Some (r, w') -> frame (fun p => p = dest) w w'.
Proof.
  unfold download_chunk. destruct (wait_rounds _ _ _ _ _ _ _ _) as [o|] eqn:E; [|done]. intros [= H].
  apply finish_world in H as ->. refine (proj1 (frame_rounds dest _ _ w _) _ _ _ _ _ _ _ E); [|done].
  intros node w1. unfold chunk_attempt. pose proof (frame_chunk_transfer h path c dest (len_or_zero w1 dest) node w1).
  by destruct (chunk_transfer _ _ _ _ _ _ _).
Qed.

Lemma frame_whole fuel nodes pending path h dest total policy w r w' :
  download_whole fuel nodes pending path h dest total policy w = Some (r, w') -> frame (fun p => p = dest) w w'.
Proof.
  unfold download_whole. destruct (for_groups _ _ _ _ _ _ _ _) as [o|] eqn:E; [|done]. intros [= H].
  apply finish_world in H as ->. refine (proj2 (frame_rounds dest _ _ w _) _ _ _ _ _ _ _ E); [|done].
  intros node w1. unfold whole_attempt.
  pose proof (frame_whole_transfer h path dest total (existing_prefix w1 dest total) node w1).
  by destruct (whole_transfer _ _ _ _ _ _ _).
Qed.

Lemma frame_resume fuel nodes pending path h total dest policy w r w' :
  download_resume fuel nodes pending path h total dest policy w = Some (r, w') -> frame (fun p => p = dest) w w'.
Proof.
  unfold download_resume. destruct (for_groups _ _ _ _ _ _ _ _) as [o|] eqn:E; [|done]. intros [= H].
  apply finish_world in H as ->. refine (proj2 (frame_rounds dest _ _ w _) _ _ _ _ _ _ _ E); [|by apply frame_cache_eq].
  intros node w1. unfold resume_attempt. destruct (_ <=? _); [done|].
  pose proof (frame_resume_transfer h path dest total (len_or_zero w1 dest) node w1).
  by destruct (resume_transfer _ _ _ _ _ _ _).
Qed.

(** Recovery only succeeds on a verified file. *)
Lemma recover_loop_ok fuel l path h dest digest total policy last w r w' :
  recover_loop fuel l path h dest digest total policy last w = Some (r, w') ->
  frame (fun p => p = dest) w w' /\ (r = Ok tt -> verify_file w' dest digest = Ok tt).
Proof.
  revert last w. induction l as [|node l IH]; intros last w; [by intros [= <- <-]|]. cbn [recover_loop].
  destruct (download_whole _ _ _ _ _ _ _ _ _) as [[r1 w1]|] eqn:E; [|done]. apply frame_whole in E.
  destruct (let? _ := r1 in verify_file w1 dest digest) as [[]|e] eqn:Ev.
  - intros [= <- <-]. split; [done|]. intros _. by destruct r1.
  - intros H. apply IH in H as [Hf Hok]. split; [|done].
    etransitivity; [exact E|]. etransitivity; [|exact Hf].
    etransitivity; [|apply frame_cache_eq; reflexivity].
    etransitivity; [apply frame_remove|]. by apply frame_cache_eq.
Qed.

Lemma recover_ok fuel nodes path h dest digest total policy w r w' :
  recover_verified_blob fuel nodes path h dest digest total policy w = Some (r, w') ->
  frame (fun p => p = dest) w w' /\ (r = Ok tt -> verify_file w' dest digest = Ok tt).
Proof.
  unfold recover_verified_blob. destruct (sel_order _ _ _ _ _) as [cands s]. intros H.
  apply recover_loop_ok in H as [Hf Hok]. split; [|done]. etransitivity; [|exact Hf]. by apply frame_cache_eq.
Qed.

(** Everything a fetch writes lies in its partial directory. *)
Definition in_dir (dir p : string) : Prop := starts_with (dir +:+ "/") p = true.

Lemma in_dir_child dir name : in_dir dir (dir +:+ "/" +:+ name).
Proof.
  unfold in_dir, starts_with. rewrite <- str_app_assoc.
  destruct (strip_prefix (dir +:+ "/") ((dir +:+ "/") +:+ name)) eqn:E; [done|].
  by rewrite (proj2 (strip_prefix_Some (dir +:+ "/") _ name) eq_refl) in E.
Qed.

Lemma frame_at dir name w w' :
  frame (fun p => p = dir +:+ "/" +:+ name) w w' -> frame (in_dir dir) w w'.
Proof. apply frame_weaken. intros p ->. apply in_dir_child. Qed.

Lemma frame_task fuel nodes path h dir policy c w r w' :
  chunk_task fuel nodes path h dir policy c w = Some (r, w') -> frame (fun p => p = part_path dir c) w w'.
Proof.
  unfold chunk_task. case_bool_decide; [by intros [= <- <-]|].
  destruct (download_chunk _ _ _ _ _ _ _ _) as [[r1 w1]|] eqn:E; [|done]. intros [= _ <-]. by eapply frame_chunk.
Qed.

Lemma frame_tasks fuel nodes path h dir policy l w rs w' :
  run_tasks (chunk_task fuel nodes path h dir policy) l w = Some (rs, w') -> frame (in_dir dir) w w'.
Proof.
  revert w rs. induction l as [|c l IH]; intros w rs; simpl; [by intros [= <- <-]|].
  destruct (chunk_task _ _ _ _ _ _ _ _) as [[r w1]|] eqn:E; [|done].
  destruct (run_tasks _ _ _) as [[rs1 w2]|] eqn:E2; [|done]. intros [= <- <-].
  etransitivity; [|by eapply IH]. apply frame_task in E. by eapply frame_at.
Qed.

Lemma frame_merge ordered merged w r w' : merge_parts ordered merged w = (r, w') -> frame (fun p => p = merged) w w'.
Proof.
  revert w. induction ordered as [|[p|] l IH]; intros w; simpl; [by intros [= <- <-]| |by intros [= <- <-]].
  destruct (fs w !! p) as [b|]; [|by intros [= <- <-]]. intros H%IH. etransitivity; [|exact H].
  apply frame_files. intros q Hq. apply lookup_insert_ne. congruence.
Qed.

Lemma frame_parallel fuel nodes path h total dir name runtime w r w' :
  download_parallel fuel nodes path h total dir (dir +:+ "/" +:+ name) runtime w = Some (r, w') ->
  frame (in_dir dir) w w'.
Proof.
  unfold download_parallel. destruct (chunks _ _) as [cs|]; [|done].
  destruct (run_tasks _ _ _) as [[results w1]|] eqn:E; [|done]. apply frame_tasks in E.
  destruct (place_parts _ _) as [ordered|e]; [|by intros [= <- <-]]. intros [= H].
  etransitivity; [exact E|]. eapply frame_at. etransitivity; [|eapply frame_merge; exact H].
  apply frame_files. intros q Hq. apply lookup_insert_ne. congruence.
Qed.

Lemma frame_transfer fuel runtime d plan path h dir name w r w' :
  transfer fuel runtime d plan path h dir (dir +:+ "/" +:+ name) w = Some (r, w') -> frame (in_dir dir) w w'.
Proof.
  unfold transfer. destruct (decode_plan runtime plan) as [[can cs] pref]. destruct can.
  - destruct (download_parallel _ _ _ _ _ _ _ _ _) as [[r1 w1]|] eqn:E; [|done]. apply frame_parallel in E.
    assert (frame (in_dir dir) w w1) as Hw1 by (etransitivity; [|exact E]; by apply frame_cache_eq).
    destruct r1 as [[]|e]; [by intros [= <- <-]|]. intros H. apply frame_whole in H.
    etransitivity; [exact Hw1|]. eapply frame_at. etransitivity; [apply frame_remove|exact H].
  - destruct (_ && _); intros H.
    + apply frame_resume in H. by eapply frame_at.
    + apply frame_whole in H. by eapply frame_at.
Qed.

Lemma frame_checks fuel d expected path h dest policy w r w' :
  (check_size fuel d expected path h dest policy w = Some (r, w') -> frame (fun p => p = dest) w w') /\
  (check_digest fuel d expected path h dest policy w = Some (r, w') ->
   frame (fun p => p = dest) w w' /\ (r = Ok tt -> forall digest, expected = Some digest -> verify_file w' dest digest = Ok tt)).
Proof.
  split.
  - unfold check_size. destruct (metadata _ _) as [n|e]; [|by intros [= <- <-]].
    destruct (is_some_and _ _); [|by intros [= <- <-]]. destruct expected as [digest|]; [|by intros [= <- <-]].
    destruct (_ <? _)%nat; [|by intros [= <- <-]]. intros H. by apply recover_ok in H as [? _].
  - unfold check_digest. destruct expected as [digest|]; [|by intros [= <- <-]].
    destruct (verify_file w dest digest) as [[]|e] eqn:E.
    { intros [= <- <-]. split; [done|]. intros _ ? [= <-]. done. }
    destruct (_ <? _)%nat; [by intros [= <- <-]|]. intros H. apply recover_ok in H as [? Hok].
    split; [done|]. intros Hr ? [= <-]. by apply Hok.
Qed.

Lemma frame_detect_node t path h node w : frame t w (detect_node_capabilities path h node w).2.
Proof.
  unfold detect_node_capabilities. destruct (capabilities w !! _); [done|].
  assert (frame t w (probe_node path h node w).2) as Hp.
  { unfold probe_node. repeat case_match; simplify_eq/=;
      repeat match goal with H : request _ _ _ _ _ _ = (_, ?w1) |- _ => apply (request_frame t) in H as [H _] end;
      try by apply frame_cache_eq.
    all: try (etransitivity; [|eassumption]; by apply frame_cache_eq).
    all: etransitivity; [|eassumption]; etransitivity; [|eassumption]; by apply frame_cache_eq. }
  destruct (probe_node path h node w) as [[v|e] w1]; simpl in *;
    (etransitivity; [exact Hp|]; by apply frame_cache_eq).
Qed.

Lemma frame_detect_loop t path h threshold l i deadline baseline compatible observed last w :
  frame t w (detect_loop path h threshold l i deadline baseline compatible observed last w).2.
Proof.
  revert i deadline baseline compatible observed last w.
  induction l as [|node l IH]; intros i deadline baseline compatible observed last w; [done|]. cbn [detect_loop].
  destruct (deadline && deadline_passed i); [done|].
  pose proof (frame_detect_node t path h node w) as Hn.
  destruct (detect_node_capabilities path h node w) as [r w1]. simpl in Hn.
  destruct r as [v|e].
  - destruct (is_none_or _ _); [|by etransitivity]. simpl.
    destruct (Http.size _) as [n|]; [|done]. destruct (n <? threshold); [done|]. by etransitivity.
  - etransitivity; [exact Hn|]. etransitivity; [|apply IH]. by apply frame_cache_eq.
Qed.

Lemma frame_detect t nodes path h threshold w : frame t w (detect_capabilities nodes path h threshold w).2.
Proof.
  unfold detect_capabilities. pose proof (frame_detect_loop t path h threshold (arrivals nodes) 0 false None [] [] None w) as H.
  destruct (detect_loop _ _ _ _ _ _ _ _ _ _ _) as [[[[b c] o] l] w1]. by destruct b.
Qed.

(** Inversion of a successful fetch: the checks passed on the file that is admitted. *)
Lemma fetch_uncached_inv fuel runtime key path h expected nodes w object w' :
  fetch_uncached fuel runtime key path h expected nodes w = Some (Ok object, w') ->
  exists w1 media c, frame (in_dir (partial_dir key)) w w1 /\
    (forall digest, expected = Some digest -> verify_file w1 (merged_path key) digest = Ok tt) /\
    Cache.admit_object ln_1p data_dir rows (cache w1) key (merged_path key) media expected (now w1) (generation w1)
      = Some (Ok object, c) /\
    cache w' = Cache.with_files c (remove_dir_all (Cache.files c) (partial_dir key)).
Proof.
  unfold fetch_uncached. pose proof (frame_detect (in_dir (partial_dir key)) nodes path h (parallel_threshold (layout runtime)) w) as Hd.
  destruct (detect_capabilities _ _ _ _ _) as [[d|e] wd]; [|done]. simpl in Hd.
  destruct (choose_plan _ _ _ _) as [plan|e]; [|done].
  destruct (transfer _ _ _ _ _ _ _ _ _) as [[rt wt]|] eqn:Et; [|done]. apply frame_transfer in Et. destruct rt as [[]|]; [|done].
  destruct (check_size _ _ _ _ _ _ _ _) as [[rs ws]|] eqn:Es; [|done]. destruct rs as [[]|]; [|done].
  apply frame_checks, (frame_at (partial_dir key) "object.partial") in Es.
  destruct (check_digest _ _ _ _ _ _ _ _) as [[rd w1]|] eqn:Ed; [|done]. destruct rd as [[]|]; [|done].
  apply frame_checks in Ed as [Ed Hv]. apply (frame_at (partial_dir key) "object.partial") in Ed.
  destruct (Cache.admit_object _ _ _ _ _ _ _ _ _ _) as [[res c]|] eqn:Ea; [|done].
  intros [= -> <-]. exists w1, (d_media_type d), c. split.
  { etransitivity; [exact Hd|]. etransitivity; [exact Et|]. by etransitivity. }
  split; [by apply Hv|]. split; [done|]. done.
Qed.

(** *** The rows of the cache

    Every fetch, however it ends, leaves the index of the cache well formed. *)

Definition rows_ok (w : World) : Prop := Cache.wf data_dir (cache w).

Lemma frame_rows t w w' : frame t w w' -> rows_ok w -> rows_ok w'.
Proof. intros Hf. unfold rows_ok, Cache.wf. by rewrite (fr_entries _ _ _ Hf). Qed.

Lemma fetch_uncached_rows fuel runtime key path h expected nodes w r w' : Cache.valid_key key = true ->
  fetch_uncached fuel runtime key path h expected nodes w = Some (r, w') -> rows_ok w -> rows_ok w'.
Proof.
  intros Hk H Hw. revert H. unfold fetch_uncached.
  pose proof (frame_rows _ _ _ (frame_detect (in_dir (partial_dir key)) nodes path h (parallel_threshold (layout runtime)) w) Hw) as Hd.
  destruct (detect_capabilities _ _ _ _ _) as [[d|e] wd]; [|by intros [= _ <-]]. simpl in Hd.
  destruct (choose_plan _ _ _ _) as [plan|e]; [|by intros [= _ <-]].
  destruct (transfer _ _ _ _ _ _ _ _ _) as [[rt wt]|] eqn:Et; [|done]. apply frame_transfer, frame_rows in Et; [|done].
  destruct rt as [[]|]; [|by intros [= _ <-]].
  destruct (check_size _ _ _ _ _ _ _ _) as [[rs ws]|] eqn:Es; [|done]. apply frame_checks, frame_rows in Es; [|done].
  destruct rs as [[]|]; [|by intros [= _ <-]].
  destruct (check_digest _ _ _ _ _ _ _ _) as [[rd w1]|] eqn:Ed; [|done]. apply frame_checks in Ed as [Ed%frame_rows _]; [|done].
  destruct rd as [[]|]; [|by intros [= _ <-]].
  destruct (Cache.admit_object _ _ _ _ _ _ _ _ _ _) as [[res c]|] eqn:Ea; [|done]. apply Cache.admit_wf in Ea; [|done..].
  intros [= -> <-]. by destruct r.
Qed.

Lemma fetch_blob_rows fuel runtime path h expected nodes w r w' :
  (forall s, Cache.valid_key (key_hash s) = true) ->
  fetch_blob fuel runtime path h expected nodes w = Some (r, w') -> rows_ok w -> rows_ok w'.
Proof.
  intros Hk H Hw. revert H. unfold fetch_blob. destruct nodes as [|v nodes]; [by intros [= _ <-]|].
  set (key := Cache.request_key _ _ _ _ _ _). assert (Cache.valid_key key = true) as Hkey by apply Hk. clearbody key.
  unfold Cache.get_for_blob_request. pose proof (Cache.get_wf data_dir (cache w) key (now w) Hw) as H1.
  destruct (Cache.get (cache w) key (now w)) as [hit c]. cbn [snd] in H1. destruct hit as [o|]; [by intros [= _ <-]|].
  unfold Cache.lock. destruct (bool_decide _); [done|]. cbn [mbind option_bind]. set (w1 := tick _).
  pose proof (Cache.get_wf data_dir (cache w1) key (now w1) H1) as H2.
  destruct (Cache.get (cache w1) key (now w1)) as [hit c2]. cbn [snd] in H2. destruct hit as [o|]; [by intros [= _ <-]|].
  destruct (fetch_uncached _ _ _ _ _ _ _ _) as [[x w2]|] eqn:E; [|done]. apply fetch_uncached_rows in E; [|done..].
  by intros [= _ <-].
Qed.

(** *** Paths *)

Lemma strip_prefix_common a x y : strip_prefix (a +:+ x) (a +:+ y) = strip_prefix x y.
Proof.
  induction a as [|c a IH]; [done|]. change (String c a +:+ x) with (String c (a +:+ x)).
  change (String c a +:+ y) with (String c (a +:+ y)). cbn [strip_prefix]. by rewrite Ascii.eqb_refl.
Qed.

Lemma object_not_partial key k : starts_with (partial_dir key +:+ "/") (Cache.object_path data_dir k) = false.
Proof.
  unfold starts_with, partial_dir, Cache.temp_dir, Cache.object_path, Cache.objects_dir.
  rewrite !str_app_assoc, strip_prefix_common. reflexivity.
Qed.

Lemma merged_outside key : Cache.outside data_dir (merged_path key).
Proof.
  intros k _ E. pose proof (object_not_partial key k) as H. rewrite <- E in H.
  pose proof (in_dir_child (partial_dir key) "object.partial") as Hc. unfold in_dir in Hc.
  change (merged_path key) with (partial_dir key +:+ "/" +:+ "object.partial") in H. congruence.
Qed.

(** ** Properties *)

(** C1: No unverified blob enters the cache.  Whatever the upstream nodes answer, when a
    fetch with an expected digest succeeds, the object it returns is a file whose
    SHA-256 is that digest, of the recorded size, whichever way it was transferred. *)
Theorem fetched_blob_is_verified fuel runtime key path h digest nodes w object w' :
  fetch_uncached fuel runtime key path h (Some digest) nodes w = Some (Ok object, w') ->
  exists content hex, fs w' !! Cache.o_path object = Some content /\
    Cache.o_size object = blen content /\ Cache.o_digest object = Some digest /\
    digest = "sha256:" +:+ hex /\ sha256_hex content = hex.
Proof.
  intros H. apply fetch_uncached_inv in H as (w1 & media & c & _ & Hv & Ha & Hc).
  specialize (Hv digest eq_refl).
  apply (Cache.admit_content _ _ _ _ _ _ _ _ _ _ _ _ (merged_outside key)) in Ha as (content & Hm & Hf & ->).
  unfold verify_file in Hv. destruct (valid_blob_digest digest) as [hex|] eqn:Ed; [|done]. simpl in Hv.
  unfold fs in Hv. rewrite Hm in Hv. destruct (sha256_hex content =?s hex) eqn:Eh; [|done].
  exists content, hex. simpl. split.
  { unfold fs. rewrite Hc. simpl. rewrite lookup_remove_dir_all by apply object_not_partial. done. }
  split; [done|]. split; [done|]. split; [|by apply str_eqb_eq].
  unfold valid_blob_digest in Ed. destruct (strip_prefix "sha256:" digest) as [v|] eqn:Ep; [|done].
  apply strip_prefix_Some in Ep as ->. by destruct (_ && _); simplify_eq.
Qed.

(** ** Honest upstreams

    A response that claims a range (or, without a range, succeeds) carries the bytes
    of the blob it names: a prefix of them if the transport fails, all of them
    otherwise. *)

Definition delivers (r : Response) (x : bytes) : Prop :=
  body_data (r_body r) `prefix_of` x /\ (body_faults (r_body r) = false -> body_data (r_body r) = x).

Definition honest (path : string) (content : bytes) : Prop :=
  forall n node h range r, send n node GET path h range = Ok r ->
    match range with
    | Exact a b => r_status r = PARTIAL_CONTENT ->
        content_range parse_range (r_headers r) = Some (Bytes a b (blen content)) -> delivers r (slice content (a, b))
    | _ => is_success (r_status r) = true -> delivers r content
    end.

Definition prefix_at (w : World) (dest : string) (target : bytes) : Prop :=
  forall b, fs w !! dest = Some b -> b `prefix_of` target.

Lemma prefix_at_stable dest target w w' : cache w' = cache w -> prefix_at w dest target -> prefix_at w' dest target.
Proof. intros E H b Hb. apply H. unfold fs in *. by rewrite <- E. Qed.

Lemma prefix_at_remove w dest target : prefix_at (remove_path w dest) dest target.
Proof. intros b. unfold fs. simpl. unfold remove_file. by rewrite lookup_delete_eq. Qed.

Lemma write_frames_spec frames received expected content m g res content' m' :
  write_frames frames received expected content m g = (res, content', m') ->
  exists taken rest, content' = content ++ taken /\ body_data frames = taken ++ rest /\
    (is_ok res = true -> rest = [] /\ body_faults frames = false).
Proof.
  revert received content m. induction frames as [|[b|e] l IH]; intros received content m; simpl.
  - intros [= <- <- <-]. exists [], []. by rewrite app_nil_r.
  - destruct (is_some_and _ _).
    + intros [= <- <- <-]. exists [], (b ++ body_data l). by rewrite app_nil_r.
    + intros (taken & rest & -> & Hb & Hok)%IH. exists (b ++ taken), rest. by rewrite Hb, !app_assoc.
  - intros [= <- <- <-]. exists [], []. by rewrite app_nil_r.
Qed.

(** Writing an honest response after a prefix extends the prefix, and completes it on success. *)
Lemma write_honest w r dest expected before rest target res w' :
  delivers r rest -> target = before ++ rest -> write_response w r dest expected before = (res, w') ->
  prefix_at w' dest target /\ (res = Ok tt -> fs w' !! dest = Some target).
Proof.
  intros [[tail Hpre] Hfull] ->. unfold write_response.
  destruct (write_frames _ _ _ _ _ _) as [[wr content] m] eqn:E.
  apply write_frames_spec in E as (taken & more & -> & Hd & Hok).
  set (w1 := with_cache w _).
  assert (fs w1 !! dest = Some (before ++ taken)) as Hf by (unfold w1, fs; simpl; apply lookup_insert_eq).
  assert (prefix_at w1 dest (before ++ rest)) as Hp.
  { intros b. rewrite Hf. intros [= <-]. exists (more ++ tail). rewrite Hpre, Hd. by rewrite !app_assoc. }
  destruct wr as [n|e]; [|by intros [= <- <-]]. destruct (is_some_and _ _); [by intros [= <- <-]|].
  intros [= <- <-]. split; [done|]. intros _. destruct (Hok eq_refl) as [-> Hnf].
  rewrite app_nil_r in Hd. by rewrite Hf, <- (Hfull Hnf), Hd.
Qed.

Lemma slice_drop (content : bytes) a b k : 0 <= a -> 0 <= k -> 
  drop (Z.to_nat k) (slice content (a, b)) = slice content (a + k, b).
Proof.
  intros Ha Hk. unfold slice. simpl. destruct (decide (k <= b - a + 1)).
  - replace (Z.to_nat (b - a + 1)) with (Z.to_nat k + Z.to_nat (b - (a + k) + 1))%nat by lia.
    rewrite <- take_drop_commute, drop_drop. f_equal. f_equal. lia.
  - rewrite drop_ge by (rewrite length_take; lia).
    by replace (Z.to_nat (b - (a + k) + 1)) with 0%nat by lia.
Qed.

Lemma slice_tail (content : bytes) k : 0 <= k -> slice content (k, blen content - 1) = drop (Z.to_nat k) content.
Proof.
  intros Hk. unfold slice. simpl. apply take_ge. rewrite length_drop. unfold blen. lia.
Qed.

(** A prefix is completed by what follows it. *)
Lemma prefix_rest (b target : bytes) : b `prefix_of` target -> target = b ++ drop (length b) target.
Proof. intros [k ->]. by rewrite drop_app_length. Qed.

Lemma prefix_full (b target : bytes) : b `prefix_of` target -> blen target <= blen b -> b = target.
Proof.
  intros [k ->]. rewrite blen_app. intros H. destruct k as [|x k]; [by rewrite app_nil_r|].
  unfold blen in H. simpl in H. lia.
Qed.

(** The bytes already on disk. *)
Definition current (w : World) (dest : string) : bytes := unwrap_or (fs w !! dest) [].

Lemma len_current w dest : len_or_zero w dest = blen (current w dest).
Proof. unfold len_or_zero, current. by destruct (fs w !! dest). Qed.

Lemma current_prefix w dest target : prefix_at w dest target -> current w dest `prefix_of` target.
Proof. intros H. unfold current. destruct (fs w !! dest) as [b|] eqn:E; [by apply H|apply prefix_nil]. Qed.

(** Continuing the file on disk with an honest response, as the chunk and resume transfers do. *)
Lemma continue_honest w r dest expected rest target res w' :
  delivers r rest -> target = current w dest ++ rest ->
  (append_response_to_file w r dest expected = (res, w') /\ 0 < blen (current w dest) \/
   stream_response_to_file w r dest (Some expected) = (res, w') /\ blen (current w dest) = 0) ->
  prefix_at w' dest target /\ (res = Ok tt -> fs w' !! dest = Some target).
Proof.
  intros Hd Ht. unfold current in *. intros [[E Hpos]|[E Hz]].
  - unfold append_response_to_file in E. destruct (fs w !! dest) as [b|]; [|unfold blen in Hpos; simpl in Hpos; lia].
    by eapply write_honest.
  - eapply (write_honest w r dest (Some expected) []); [exact Hd| |exact E].
    destruct (unwrap_or _ _); [done|]. unfold blen in Hz. simpl in Hz. lia.
Qed.

Section Honest.
Variable path : string.
Variable content : bytes.
Hypothesis upstream_honest : honest path content.

Lemma request_honest w node h a b r w' :
  request w node GET path h (Exact a b) = (Ok r, w') ->
  negb (r_status r =? PARTIAL_CONTENT) = false ->
  content_range_matches parse_range (r_headers r) a b (blen content) = true -> delivers r (slice content (a, b)).
Proof.
  unfold request. intros [= Hs _] Hst%negb_false_iff%Z.eqb_eq Hcr%content_range_matches_true.
  apply upstream_honest in Hs. by apply Hs.
Qed.

Lemma chunk_transfer_honest h c dest node w r w' :
  0 <= start c -> start c <= end_ c < blen content -> total_size c = blen content ->
  let target := slice content (start c, end_ c) in
  prefix_at w dest target -> chunk_transfer h path c dest (len_or_zero w dest) node w = (r, w') ->
  prefix_at w' dest target /\ (r = Ok tt -> fs w' !! dest = Some target).
Proof.
  intros Hs He Ht target Hp. unfold chunk_transfer. rewrite len_current.
  pose proof (current_prefix _ _ _ Hp) as Hb. pose proof (blen_nonneg (current w dest)) as Hbn.
  assert (blen target = end_ c - start c + 1) as Hlen.
  { unfold target, blen, slice. simpl. rewrite length_take, length_drop. unfold blen in He. lia. }
  destruct (_ <? _); [intros [= <- <-]; split; [apply prefix_at_remove|done]|].
  destruct (Z.ltb_spec (end_ c) (start c + blen (current w dest))) as [Hdone|Hmore].
  { intros [= <- <-]. split; [done|]. intros _. apply prefix_full in Hb; [|lia]. unfold current in *.
    destruct (fs w !! dest); simpl in *; [by subst|]. rewrite <- Hb in Hlen. unfold blen in Hlen. simpl in Hlen. lia. }
  destruct (request _ _ _ _ _ _) as [[resp|er] w2] eqn:Er; pose proof Er as Hreq;
    apply (request_frame (fun _ => False)) in Er as [_ Hfs];
    (assert (prefix_at w2 dest target) as Hp2 by (intros b; rewrite Hfs; apply Hp)); [|by intros [= <- <-]].
  destruct (negb (r_status resp =? PARTIAL_CONTENT)) eqn:Est; [by intros [= <- <-]|].
  destruct (negb (bool_decide _)); [by intros [= <- <-]|].
  destruct (content_range_matches _ _ _ _ _) eqn:Ecr; [simpl|by intros [= <- <-]].
  rewrite Ht in Ecr. pose proof (request_honest _ _ _ _ _ _ _ Hreq Est Ecr) as Hdel.
  assert (current w2 dest = current w dest) as Hcur by (unfold current; by rewrite Hfs).
  intros E. eapply (continue_honest w2 resp dest _ _ target); [exact Hdel| |].
  - rewrite Hcur, (prefix_rest _ target Hb) at 1. f_equal. unfold target.
    rewrite <- (slice_drop content (start c) (end_ c) (blen (current w dest))) by lia. f_equal. unfold blen. lia.
  - rewrite Hcur. destruct (Z.ltb_spec 0 (blen (current w dest))); [by left|right]. split; [done|lia].
Qed.

Lemma resume_transfer_honest h dest node w r w' :
  prefix_at w dest content -> len_or_zero w dest < blen content ->
  resume_transfer h path dest (blen content) (len_or_zero w dest) node w = (r, w') ->
  prefix_at w' dest content /\ (r = Ok tt -> fs w' !! dest = Some content).
Proof.
  intros Hp Hlt. unfold resume_transfer. rewrite len_current in *.
  pose proof (current_prefix _ _ _ Hp) as Hb. pose proof (blen_nonneg (current w dest)) as Hbn.
  destruct (request _ _ _ _ _ _) as [[resp|er] w2] eqn:Er; pose proof Er as Hreq;
    apply (request_frame (fun _ => False)) in Er as [_ Hfs];
    (assert (prefix_at w2 dest content) as Hp2 by (intros b; rewrite Hfs; apply Hp)); [|by intros [= <- <-]].
  destruct (negb (r_status resp =? PARTIAL_CONTENT)) eqn:Est; [by intros [= <- <-]|].
  destruct (content_range_matches _ _ _ _ _) eqn:Ecr; [simpl|by intros [= <- <-]].
  pose proof (request_honest _ _ _ _ _ _ _ Hreq Est Ecr) as Hdel. rewrite slice_tail in Hdel by lia.
  assert (current w2 dest = current w dest) as Hcur by (unfold current; by rewrite Hfs).
  assert (content = current w2 dest ++ drop (Z.to_nat (blen (current w dest))) content) as Hc.
  { rewrite Hcur, (prefix_rest _ content Hb) at 1. f_equal. f_equal. unfold blen. lia. }
  destruct (Z.eqb_spec (blen (current w dest)) 0) as [Hz|Hnz]; intros E.
  - eapply (continue_honest w2 resp dest (blen content)); [exact Hdel|exact Hc|]. right. by rewrite Hcur.
  - eapply (continue_honest w2 resp dest (blen content - blen (current w dest))); [exact Hdel|exact Hc|].
    left. rewrite Hcur. split; [done|lia].
Qed.

(** What a whole download may find on disk: a file shorter than the blob is a prefix of it. *)
Definition resumable (total : option Z) (dest : string) (w : World) : Prop :=
  forall b t, fs w !! dest = Some b -> total = Some t -> blen b < t -> b `prefix_of` content.

Lemma prefix_resumable total dest w : prefix_at w dest content -> resumable total dest w.
Proof using Type. intros H b t Hb _ _. by apply H. Qed.

Lemma whole_transfer_honest h dest total node w r w' :
  (forall t, total = Some t -> t = blen content) -> resumable total dest w ->
  whole_transfer h path dest total (existing_prefix w dest total) node w = (r, w') ->
  resumable total dest w' /\ (r = Ok tt -> fs w' !! dest = Some content).
Proof.
  intros Htot HJ. unfold whole_transfer. destruct (existing_prefix w dest total) as [n|] eqn:Ee.
  - unfold existing_prefix in Ee. destruct total as [t|]; [|done]. specialize (Htot t eq_refl) as ->.
    destruct (Z.ltb_spec 0 (blen content)); [|done]. destruct (fs w !! dest) as [b|] eqn:Eb; [|done].
    destruct (Z.ltb_spec (blen b) (blen content)) as [Hlt|]; [|done]. simplify_eq.
    assert (checked_sub (blen content) 1 = Some (blen content - 1)) as Ecs by (apply checked_sub_Some; split; lia).
    rewrite Ecs. destruct (request _ _ _ _ _ _) as [[resp|er] w2] eqn:Er; pose proof Er as Hreq;
      apply (request_frame (fun _ => False)) in Er as [_ Hfs];
      (assert (resumable (Some (blen content)) dest w2) as HJ2
         by (intros b' t; rewrite Hfs; apply HJ)); [|by intros [= <- <-]].
    destruct (negb (is_success _)); [by intros [= <- <-]|].
    destruct (negb (r_status resp =? PARTIAL_CONTENT)) eqn:Est; [by intros [= <- <-]|].
    destruct (content_range_matches _ _ _ _ _) eqn:Ecr; [simpl|by intros [= <- <-]].
    pose proof (request_honest _ _ _ _ _ _ _ Hreq Est Ecr) as Hdel. rewrite slice_tail in Hdel by apply blen_nonneg.
    unfold append_response_to_file. rewrite Hfs, Eb. intros E.
    assert (content = b ++ drop (Z.to_nat (blen b)) content) as Hc.
    { rewrite (prefix_rest b content) at 1 by (by apply (HJ b (blen content))). f_equal. f_equal. unfold blen. lia. }
    destruct (write_honest _ _ _ _ b _ content _ _ Hdel Hc E). split; [by apply prefix_resumable|done].
  - destruct (request _ _ _ _ _ _) as [[resp|er] w2] eqn:Er; pose proof Er as Hreq;
      apply (request_frame (fun _ => False)) in Er as [_ Hfs];
      (assert (resumable total dest w2) as HJ2 by (intros b' t; rewrite Hfs; apply HJ)); [|by intros [= <- <-]].
    destruct (is_success (r_status resp)) eqn:Est; [simpl|by intros [= <- <-]].
    unfold request in Hreq. injection Hreq as Hsend _. apply upstream_honest in Hsend. simpl in Hsend.
    intros E. destruct (write_honest _ _ _ _ [] content content _ _ (Hsend Est) eq_refl E).
    split; [by apply prefix_resumable|done].
Qed.

(** ** Correctness of the downloads against honest upstreams *)

Lemma resumable_stable total dest w w' : cache w' = cache w -> resumable total dest w -> resumable total dest w'.
Proof using Type. intros E H b t Hb. apply H. unfold fs in *. by rewrite <- E. Qed.

Definition complete (dest : string) (target : bytes) (w : World) : Prop := fs w !! dest = Some target.

Lemma complete_stable dest target w w' : cache w' = cache w -> complete dest target w -> complete dest target w'.
Proof using Type. unfold complete, fs. intros ->. done. Qed.

Lemma download_chunk_ok fuel nodes h c dest policy w r w' :
  0 <= start c -> start c <= end_ c < blen content -> total_size c = blen content ->
  prefix_at w dest (slice content (start c, end_ c)) ->
  download_chunk fuel nodes path h c dest policy w = Some (r, w') ->
  prefix_at w' dest (slice content (start c, end_ c)) /\
  (r = Ok tt -> fs w' !! dest = Some (slice content (start c, end_ c))).
Proof.
  intros Hs He Ht Hp. unfold download_chunk. destruct (wait_rounds _ _ _ _ _ _ _ _) as [o|] eqn:E; [|done].
  intros [= Hf]. set (target := slice content (start c, end_ c)) in *.
  eapply (finish_ok (fun w => prefix_at w dest target) (complete dest target)); [|exact Hf].
  eapply (wait_rounds_ok dest _ _ _ _ (prefix_at_stable dest target) (complete_stable dest target)); [| |exact Hp|exact E].
  - intros ? ? _ [=].
  - intros node w1 t w2 Hw1. unfold chunk_attempt.
    destruct (chunk_transfer _ _ _ _ _ _ _) as [r1 w3] eqn:E1. intros [= <- <-].
    destruct (chunk_transfer_honest h c dest node w1 r1 w3 Hs He Ht Hw1 E1) as [HP HQ].
    split; [intros Hr; split; [done|by apply HQ]|]. split; [done|]. intros _. apply prefix_at_remove.
Qed.

Lemma download_whole_ok fuel nodes pending h dest total policy w r w' :
  (forall t, total = Some t -> t = blen content) -> resumable total dest w ->
  download_whole fuel nodes pending path h dest total policy w = Some (r, w') ->
  resumable total dest w' /\ (r = Ok tt -> fs w' !! dest = Some content).
Proof.
  intros Htot Hp. unfold download_whole. destruct (for_groups _ _ _ _ _ _ _ _) as [o|] eqn:E; [|done].
  intros [= Hf]. eapply (finish_ok (resumable total dest) (complete dest content)); [|exact Hf].
  eapply (for_groups_ok dest _ _ _ _ (resumable_stable total dest) (complete_stable dest content)); [| |exact Hp|exact E].
  - intros ? ? _ [=].
  - intros node w1 t w2 Hw1. unfold whole_attempt.
    destruct (whole_transfer _ _ _ _ _ _ _) as [r1 w3] eqn:E1. intros [= <- <-].
    destruct (whole_transfer_honest h dest total node w1 r1 w3 Htot Hw1 E1) as [HP HQ].
    split; [intros Hr; split; [done|by apply HQ]|]. split; [done|]. intros _. apply prefix_resumable, prefix_at_remove.
Qed.

Lemma download_resume_ok fuel nodes pending h dest policy w r w' :
  prefix_at w dest content -> 0 < blen content ->
  download_resume fuel nodes pending path h (blen content) dest policy w = Some (r, w') ->
  prefix_at w' dest content /\ (r = Ok tt -> fs w' !! dest = Some content).
Proof.
  intros Hp Hpos. unfold download_resume. destruct (for_groups _ _ _ _ _ _ _ _) as [o|] eqn:E; [|done].
  assert (forall w, prefix_at w dest content -> (blen content <=? len_or_zero w dest) = true -> complete dest content w) as Hfull.
  { intros w1 H1 Hle%Z.leb_le. rewrite len_current in Hle. unfold complete, current in *.
    destruct (fs w1 !! dest) as [b|] eqn:Eb; simpl in Hle; [|unfold blen at 2 in Hle; simpl in Hle; lia].
    by rewrite (prefix_full b content (H1 b Eb) Hle). }
  intros [= Hf]. eapply (finish_ok (fun w => prefix_at w dest content) (complete dest content)); [|exact Hf].
  eapply (for_groups_ok dest _ _ _ _ (prefix_at_stable dest content) (complete_stable dest content)); [| | |exact E].
  - intros w1 r1 Hw1. unfold resume_round. destruct (_ <=? _) eqn:El; [|done]. intros _ _. by apply Hfull.
  - intros node w1 t w2 Hw1. unfold resume_attempt. destruct (Z.leb_spec (blen content) (len_or_zero w1 dest)) as [Hle|Hlt].
    { intros [= <- <-]. split; [done|]. intros _. apply Hfull; [done|by apply Z.leb_le]. }
    destruct (resume_transfer _ _ _ _ _ _ _) as [r1 w3] eqn:E1. intros [= <- <-].
    destruct (resume_transfer_honest h dest node w1 r1 w3 Hw1 Hlt E1) as [HP HQ].
    split; [intros Hr; split; [done|by apply HQ]|]. split; [done|]. intros _. apply prefix_at_remove.
  - done.
Qed.
End Honest.

(** *** Part files *)

Lemma absent_decimal z : absent "-" (decimal z) = true.
Proof. by apply all_bytes_pretty_N. Qed.

Lemma decimal_inj a b : 0 <= a -> 0 <= b -> decimal a = decimal b -> a = b.
Proof. intros Ha Hb H. unfold decimal in H. apply (inj (@pretty N _)) in H. lia. Qed.

Lemma part_path_start dir c c' : 0 <= start c -> 0 <= start c' -> total_size c = total_size c' ->
  part_path dir c = part_path dir c' -> start c = start c'.
Proof.
  intros Hc Hc' Ht H. unfold part_path, part_name in H. rewrite Ht in H.
  do 4 apply Cache.str_app_inj in H.
  apply (separated_inj "-") in H as [H _]; [by apply decimal_inj|apply absent_decimal..].
Qed.

Lemma part_not_merged dir c : part_path dir c <> dir +:+ "/" +:+ "object.partial".
Proof.
  unfold part_path. intros H. do 2 apply Cache.str_app_inj in H.
  apply (f_equal (absent "-")) in H. unfold part_name in H. rewrite !absent_app, !absent_decimal in H. done.
Qed.

Lemma tiling_elem cs a b l r : tiling cs a b l -> r ∈ l -> a <= r.1 <= r.2 /\ r.2 < b.
Proof.
  induction 1 as [|a e b l Hae Hcs Ht IH]; [set_solver|]. pose proof (tiling_le _ _ _ _ Ht).
  intros [->|Hin]%elem_of_cons; [simpl; lia|]. specialize (IH Hin). lia.
Qed.

Lemma tiling_starts cs a b l : tiling cs a b l -> NoDup (fst <$> l).
Proof.
  induction 1 as [|a e b l Hae Hcs Ht IH]; [constructor|]. simpl. constructor; [|done].
  rewrite list_elem_of_fmap. intros (r & E & Hr). apply (tiling_elem _ _ _ _ _ Ht) in Hr. simpl in E. lia.
Qed.

(** The layout of a parallel fetch: in-range chunks with distinct part files. *)
Definition layout_ok (content : bytes) (dir : string) (cs : list Chunk) : Prop :=
  Forall (fun c => 0 <= start c /\ start c <= end_ c < blen content /\ total_size c = blen content) cs /\
  NoDup (part_path dir <$> cs) /\ index <$> cs = seq 0 (length cs) /\
  mjoin ((fun c => slice content (start c, end_ c)) <$> cs) = content.

Lemma chunks_layout content dir cs : 0 < cs -> blen content + cs < 2 ^ 64 ->
  exists l, chunks (blen content) cs = Some l /\ layout_ok content dir l.
Proof.
  intros Hcs Hm. destruct (chunks_spec (blen content) cs) as (l & Hl & Ht & Htot & Hi); [apply blen_nonneg|lia..|].
  exists l. split; [done|].
  assert (Forall (fun c => 0 <= start c /\ start c <= end_ c < blen content /\ total_size c = blen content) l) as Hr.
  { rewrite Forall_forall in *. intros c Hc. specialize (Htot c Hc).
    pose proof (tiling_elem _ _ _ _ (range_of c) Ht ltac:(by apply list_elem_of_fmap_2)) as Hx.
    unfold range_of in Hx. simpl in Hx. lia. }
  split; [done|]. split; [|split; [done|]].
  - apply tiling_starts in Ht. rewrite <- list_fmap_compose in Ht.
    clear -Hr Ht. induction l as [|c l IH]; [constructor|]. simpl in *.
    apply Forall_cons in Hr as [Hc Hr]. apply NoDup_cons in Ht as [Hni Ht]. apply NoDup_cons.
    split; [|by apply IH]. intros (c' & E & Hc')%list_elem_of_fmap. apply Hni. rewrite Forall_forall in Hr.
    specialize (Hr c' Hc'). apply part_path_start in E; [|lia..]. apply list_elem_of_fmap. by exists c'.
  - change (fun c => slice content (start c, end_ c)) with (slice content ∘ range_of).
    rewrite list_fmap_compose, (tiling_concat content cs 0 (blen content)) by (done || lia).
    rewrite drop_0. apply take_ge. unfold blen. lia.
Qed.

Section Parallel.
Variable path : string.
Variable content : bytes.
Hypothesis upstream_honest : honest path content.
Variable dir : string.
Variable all : list Chunk.
Hypothesis all_ok : layout_ok content dir all.

(** Every part file is a prefix of its range. *)
Definition parts_ok (w : World) : Prop :=
  forall c, c ∈ all -> prefix_at w (part_path dir c) (slice content (start c, end_ c)).

Definition part_done (w : World) (c : Chunk) : Prop :=
  fs w !! part_path dir c = Some (slice content (start c, end_ c)).

Lemma part_path_neq c c' : c ∈ all -> c' ∈ all -> c <> c' -> part_path dir c <> part_path dir c'.
Proof.
  intros Hc Hc' Hne E. destruct all_ok as (_ & Hnd & _).
  apply list_elem_of_lookup in Hc as [i Hi]. apply list_elem_of_lookup in Hc' as [j Hj].
  assert (i = j) as ->; [|congruence].
  apply (NoDup_lookup (part_path dir <$> all) i j (part_path dir c)); [done|..].
  - by rewrite list_lookup_fmap, Hi.
  - by rewrite list_lookup_fmap, Hj, E.
Qed.

Lemma task_ok fuel nodes h policy c w r w' :
  c ∈ all -> parts_ok w -> chunk_task fuel nodes path h dir policy c w = Some (r, w') ->
  parts_ok w' /\ (forall x, r = Ok x -> x = (index c, part_path dir c) /\ part_done w' c) /\
  (forall c', c' ∈ all -> c' <> c -> part_done w c' -> part_done w' c').
Proof.
  intros Hc Hw H. pose proof (frame_task _ _ _ _ _ _ _ _ _ _ H) as Hfr.
  pose proof all_ok as (Hall & _). rewrite Forall_forall in Hall. destruct (Hall c Hc) as (Hs & He & Ht).
  assert (forall c', c' ∈ all -> c' <> c -> fs w' !! part_path dir c' = fs w !! part_path dir c') as Hother.
  { intros c' Hc' Hne. apply (fr_files _ _ _ Hfr). intros E. by apply (part_path_neq c' c Hc' Hc Hne). }
  assert (prefix_at w' (part_path dir c) (slice content (start c, end_ c)) /\
    (forall x, r = Ok x -> x = (index c, part_path dir c) /\ part_done w' c)) as [Hp Hd].
  { unfold chunk_task in H. case_bool_decide as Hlen.
    - simplify_eq. split; [by apply Hw|]. intros x [= <-]. split; [done|]. unfold part_done.
      destruct (fs w' !! part_path dir c) as [b|] eqn:Eb; simpl in Hlen; [|done]. injection Hlen as Hlen. f_equal.
      apply prefix_full; [by apply (Hw c Hc)|]. rewrite Hlen. unfold blen at 1.
      rewrite (slice_length content) by (unfold blen in He; lia). lia.
    - destruct (download_chunk _ _ _ _ _ _ _ _) as [[r1 w1]|] eqn:E; [|done]. injection H as <- <-.
      apply (download_chunk_ok path content upstream_honest) in E as [? Hok]; [|done..|by apply Hw].
      split; [done|]. intros x. destruct r1 as [[]|]; [|done]. intros [= <-]. split; [done|]. by apply Hok. }
  split; [|split; [done|]].
  - intros c' Hc'. destruct (decide (part_path dir c' = part_path dir c)) as [E|Hne].
    + intros b. destruct (decide (start c' = start c /\ end_ c' = end_ c)) as [[E1 E2]|Hd'].
      * rewrite E, E1, E2. apply Hp.
      * exfalso. apply (part_path_neq c' c Hc' Hc); [|done]. intros ->. by apply Hd'.
    + intros b. rewrite (fr_files _ _ _ Hfr) by done. by apply Hw.
  - intros c' Hc' Hne. unfold part_done. by rewrite Hother.
Qed.

Lemma tasks_ok fuel nodes h policy l w rs w' :
  l ⊆ all -> NoDup l -> parts_ok w -> run_tasks (chunk_task fuel nodes path h dir policy) l w = Some (rs, w') ->
  parts_ok w' /\ Forall2 (fun c r => forall x, r = Ok x -> x = (index c, part_path dir c) /\ part_done w' c) l rs /\
  (forall c, c ∈ all -> c ∉ l -> part_done w c -> part_done w' c).
Proof.
  revert w rs. induction l as [|c l IH]; intros w rs Hsub Hnd Hw; simpl.
  { intros [= <- <-]. split; [done|]. split; [constructor|done]. }
  apply NoDup_cons in Hnd as [Hni Hnd].
  destruct (chunk_task _ _ _ _ _ _ _ _) as [[r w1]|] eqn:E; [|done].
  apply task_ok in E as (Hw1 & Hr & Hkeep); [|apply Hsub; constructor|done].
  destruct (run_tasks _ _ _) as [[rs1 w2]|] eqn:E2; [|done]. intros [= <- <-].
  apply IH in E2 as (Hw2 & Hrs & Hkeep2); [|intros y Hy; apply Hsub; by constructor|done..]. split; [done|]. split.
  - constructor; [|done]. intros x Hx. destruct (Hr x Hx) as [-> Hd]. split; [done|].
    apply Hkeep2; [apply Hsub; constructor|done|done].
  - intros c' Hc' Hn Hd. apply Hkeep2; [done|intros Hl; apply Hn; by constructor|].
    apply Hkeep; [done|intros ->; apply Hn; constructor|done].
Qed.

Lemma place_ok (w : World) l rs o o' :
  Forall2 (fun c r => forall x, r = Ok x -> x = (index c, part_path dir c) /\ part_done w c) l rs ->
  NoDup (index <$> l) -> Forall (fun c => (index c < length o)%nat) l ->
  place_parts rs o = Ok o' ->
  length o' = length o /\ Forall (part_done w) l /\
  (forall c, c ∈ l -> o' !! index c = Some (Some (part_path dir c))) /\
  (forall i, i ∉ index <$> l -> o' !! i = o !! i).
Proof.
  intros H2. revert o. induction H2 as [|c r l rs Hr H2 IH]; intros o Hnd Hlt; simpl.
  { intros [= <-]. split; [done|]. split; [constructor|]. split; [by intros c ?%not_elem_of_nil|done]. }
  destruct r as [[i p]|e]; [|done]. destruct (Hr (i, p) eq_refl) as [[= -> ->] Hd].
  simpl in Hnd. apply NoDup_cons in Hnd as [Hni Hnd]. apply Forall_cons in Hlt as [Hlt Hlts].
  intros H. apply IH in H as (Hl & Hds & Hin & Hout); [|done|].
  2: { eapply Forall_impl; [exact Hlts|]. intros x. by rewrite length_insert. }
  rewrite length_insert in Hl. split; [done|]. split; [by constructor|]. split.
  - intros c' [->|Hc']%elem_of_cons; [|by apply Hin]. rewrite Hout by done. by rewrite list_lookup_insert_eq.
  - intros j [Hj1 Hj2]%not_elem_of_cons. rewrite Hout by done. by rewrite list_lookup_insert_ne.
Qed.

Lemma merge_ok merged l w before :
  (forall c, c ∈ l -> part_path dir c <> merged) -> Forall (part_done w) l -> fs w !! merged = Some before ->
  exists w', merge_parts ((fun c => Some (part_path dir c)) <$> l) merged w = (Ok tt, w') /\
    fs w' !! merged = Some (before ++ mjoin ((fun c => slice content (start c, end_ c)) <$> l)).
Proof.
  revert w before. induction l as [|c l IH]; intros w before Hne Hd Hm; simpl.
  { exists w. by rewrite app_nil_r. }
  apply Forall_cons in Hd as [Hc Hd]. unfold part_done in Hc. rewrite Hc, Hm. simpl.
  set (w1 := with_fs w _).
  destruct (IH w1 (before ++ slice content (start c, end_ c))) as (w' & Hmerge & Hw').
  - intros c' Hc'. apply Hne. by constructor.
  - rewrite Forall_forall in *. intros c' Hc'. specialize (Hd c' Hc'). unfold part_done, w1, fs in *. simpl.
    rewrite lookup_insert_ne; [done|]. intros E. apply (Hne c'); [by constructor|done].
  - unfold w1, fs. simpl. apply lookup_insert_eq.
  - exists w'. split; [exact Hmerge|]. by rewrite Hw', <- app_assoc.
Qed.

Lemma parallel_ok fuel nodes h runtime w r w' :
  schedule all ≡ₚ all -> parts_ok w -> chunks (blen content) (chunk_size (layout runtime)) = Some all ->
  download_parallel fuel nodes path h (blen content) dir (dir +:+ "/" +:+ "object.partial") runtime w = Some (r, w') ->
  parts_ok w' /\ (r = Ok tt -> fs w' !! (dir +:+ "/" +:+ "object.partial") = Some content).
Proof.
  intros Hsched Hw Hch. unfold download_parallel. rewrite Hch.
  pose proof all_ok as (Hr & Hnd & Hidx & Hjoin).
  assert (NoDup all) as Hndall by (by eapply NoDup_fmap_1).
  set (merged := dir +:+ "/" +:+ "object.partial").
  assert (forall c, part_path dir c <> merged) as Hpm by (intros c; apply part_not_merged).
  destruct (run_tasks _ _ _) as [[rs w1]|] eqn:E; [|done].
  apply tasks_ok in E as (Hw1 & Hrs & _); [|by rewrite Hsched|by rewrite Hsched|done].
  assert (forall w2 w3, frame (fun p => p = merged) w2 w3 -> parts_ok w2 -> parts_ok w3) as Hkeep.
  { intros w2 w3 Hf H2 c Hc b Hb. rewrite (fr_files _ _ _ Hf) in Hb by apply Hpm. by apply (H2 c Hc). }
  destruct (place_parts rs (replicate (length all) None)) as [ordered|e] eqn:Ep; [|by intros [= <- <-]].
  apply (place_ok w1 (schedule all)) in Ep as (Hlen & Hdone & Hat & _); [|done|..].
  2: { rewrite Hsched, Hidx. apply NoDup_seq. }
  2: { rewrite Hsched, length_replicate. apply Forall_forall. intros c Hc.
       apply (list_elem_of_fmap_2 index) in Hc. rewrite Hidx, elem_of_seq in Hc. lia. }
  assert (ordered = (fun c => Some (part_path dir c)) <$> all) as ->.
  { apply list_eq. intros i. rewrite list_lookup_fmap. destruct (all !! i) as [c|] eqn:Ei; simpl.
    - assert (index c = i) as <-.
      { assert ((index <$> all) !! i = Some (index c)) as H by (by rewrite list_lookup_fmap, Ei).
        rewrite Hidx in H. apply lookup_seq in H. lia. }
      apply Hat. rewrite Hsched. by eapply list_elem_of_lookup_2.
    - apply lookup_ge_None. rewrite Hlen, length_replicate. by apply lookup_ge_None. }
  set (w2 := with_fs w1 _).
  assert (frame (fun p => p = merged) w1 w2) as Hf2.
  { apply frame_files. intros p Hp. apply lookup_insert_ne. congruence. }
  destruct (merge_ok merged all w2 []) as (w3 & Hm & Hres).
  - intros c _. apply Hpm.
  - rewrite Hsched in Hdone. eapply Forall_impl; [exact Hdone|]. intros c. unfold part_done.
    by rewrite (fr_files _ _ _ Hf2) by apply Hpm.
  - unfold w2, fs. simpl. apply lookup_insert_eq.
  - intros [= Hx]. rewrite Hm in Hx. injection Hx as <- <-. split.
    + eapply Hkeep; [by eapply frame_merge|]. by eapply Hkeep.
    + intros _. rewrite Hres. by rewrite Hjoin.
Qed.
End Parallel.

(** C2: A parallel fetch from honest nodes assembles exactly the blob, in any completion
    order of its chunks and whatever failures, retries and partial files occur on the
    way; on any outcome every part file stays a prefix of its range, so a later fetch
    can resume it. *)
Theorem parallel_fetch_exact path content dir fuel nodes h runtime w r w' :
  honest path content -> (forall l, schedule l ≡ₚ l) ->
  0 < chunk_size (layout runtime) -> blen content + chunk_size (layout runtime) < 2 ^ 64 ->
  (forall cs, chunks (blen content) (chunk_size (layout runtime)) = Some cs -> parts_ok content dir cs w) ->
  download_parallel fuel nodes path h (blen content) dir (dir +:+ "/" +:+ "object.partial") runtime w = Some (r, w') ->
  (r = Ok tt -> fs w' !! (dir +:+ "/" +:+ "object.partial") = Some content) /\
  (forall cs, chunks (blen content) (chunk_size (layout runtime)) = Some cs -> parts_ok content dir cs w').
Proof.
  intros Hh Hs Hcs Hm Hw H. destruct (chunks_layout content dir _ Hcs Hm) as (l & Hl & Hok).
  destruct (parallel_ok path content Hh dir l Hok fuel nodes h runtime w r w') as [Hp Hr]; try done.
  - by apply Hw.
  - split; [done|]. intros cs E. by simplify_eq.
Qed.

(** C3: A whole or resumed download from honest nodes that succeeds leaves exactly the
    blob, however often it failed over and whatever prefix it found on disk; on
    failure what is left on disk is a prefix of the blob, safe to resume. *)
Theorem resumed_download_exact path content dest fuel nodes pending h policy w r w' :
  honest path content -> 0 < blen content -> prefix_at w dest content ->
  (download_whole fuel nodes pending path h dest (Some (blen content)) policy w = Some (r, w') ->
   resumable content (Some (blen content)) dest w' /\ (r = Ok tt -> fs w' !! dest = Some content)) /\
  (download_resume fuel nodes pending path h (blen content) dest policy w = Some (r, w') ->
   prefix_at w' dest content /\ (r = Ok tt -> fs w' !! dest = Some content)).
Proof.
  intros Hh Hpos Hp. split; intros H.
  - eapply (download_whole_ok path content Hh); [|by apply prefix_resumable|exact H]. by intros t [= <-].
  - by eapply (download_resume_ok path content Hh).
Qed.

(** *** Progress *)

Lemma for_candidates_attempted dest attempt l last w o w' :
  for_candidates dest attempt l true last w = (o, w') -> forall e, o <> Continue false e.
Proof.
  revert last w. induction l as [|v l IH]; intros last w; cbn [for_candidates]; [intros [= <- <-]; done|].
  destruct (sel_acquire _ _ _) as [[id|] s]; [|apply IH].
  destruct (attempt v _) as [[r|r n e] w1]; [by intros [= <- <-]|].
  destruct r; [by intros [= <- <-]|apply IH].
Qed.

(** A chunk download waits only while its candidates are busy: when the preferred
    candidate has a free slot, one round decides the download. *)
Theorem chunk_download_returns fuel nodes path h c dest policy w v rest s id s' :
  sel_order (sel w) nodes (chunk_context path c) policy (now w) = (v :: rest, s) ->
  sel_acquire s (node_id v) (max_concurrency v) = (Some id, s') ->
  exists r w', download_chunk (Datatypes.S fuel) nodes path h c dest policy w = Some (r, w').
Proof.
  intros Ho Ha. unfold download_chunk. cbn [wait_rounds]. rewrite Ho.
  destruct (for_candidates _ _ _ _ _ _) as [o w1] eqn:E.
  assert (forall e, o <> Continue false e) as Hne.
  { revert E. cbn [for_candidates]. simpl sel at 1. rewrite Ha.
    unfold chunk_attempt. destruct (chunk_transfer _ _ _ _ _ _ _) as [[[]|e] w2]; [by intros [= <- <-]|].
    apply for_candidates_attempted. }
  destruct o as [r|[] e]; [..|by destruct (Hne e)]; destruct (finish _ _) as [r' w2]; eauto.
Qed.
End Fetch.
End Download.

(** ** The selector of Selection.v implements the interface *)

Section Implementation.
Variable ln : f64 -> f64.
Context {Backoff : Type}.
Variable new_backoff : Backoff.
Variable next_backoff : Backoff -> option Z * Backoff.

Lemma ordered_perm s l c p now :
  (Selection.order_with_context ln s l c p now).1 ≡ₚ Selection.eligible (Backoff:=Backoff) s l now.
Proof.
  unfold Selection.order_with_context.
  pose proof (Selection.candidates_of_frame (Selection.eligible s l now) s now) as (_ & _ & Hc).
  destruct (Selection.candidates_of s (Selection.eligible s l now) now) as [cs s']. simpl in *.
  rewrite Scheduling.order_perm. by rewrite Hc.
Qed.

#[export] Instance node_selector : Selector (Selection.NodeSelector (Backoff:=Backoff)).
Proof using ln Backoff new_backoff next_backoff.
  unshelve refine {|
    sel_order := fun s l c p now => Selection.order_with_context ln s l c p now;
    sel_acquire := Selection.selector_try_acquire;
    sel_release := fun s id => Selection.set_capacity s (Capacity.drop_lease (Selection.capacity s) id);
    sel_observe := Selection.observe new_backoff next_backoff;
    sel_cooling := Selection.is_cooling |}.
  - intros s l c p now v H. simpl in H. rewrite (ordered_perm s l c p now) in H.
    by apply Selection.eligible_spec in H as [? _].
  - intros s l c p now Hen E. apply existsb_exists in Hen as (v & Hv & Hen). rewrite <- list_elem_of_In in Hv.
    assert (Selection.eligible s l now = []) as Hnil by (apply Permutation_nil_r; by rewrite <- (ordered_perm s l c p), E).
    assert (forall u, u ∈ l -> Selection.enabled_view u = true -> Selection.is_cooling s (node_id u) now = true) as Hall.
    { intros u Hu Heu. destruct (Selection.is_cooling s (node_id u) now) eqn:Ec; [done|].
      assert (u ∈ Selection.eligible s l now) as Hx by (apply Selection.eligible_spec; auto). rewrite Hnil in Hx. set_solver. }
    assert (v ∈ Selection.eligible s l now) as Hx by (apply Selection.eligible_spec; auto). rewrite Hnil in Hx. set_solver.
Defined.
End Implementation.

(** ** Witnesses: one node, a three-byte blob, the selector of Selection.v *)

Module DownloadWitness.
Import Download.

Definition blob : bytes := [x61; x62; x63].
Definition digest_hex : string := Cache.key_a.

(** A server that advertises ranges and answers the two ranges of a two-byte layout. *)
Definition range_header (a b : Z) : string :=
  if (a =? 0) && (b =? 1) then "bytes 0-1/3" else if (a =? 2) && (b =? 2) then "bytes 2-2/3" else "".

Definition sample_parse (v : string) : option ContentRange :=
  if v =?s "bytes 0-1/3" then Some (Bytes 0 1 3)
  else if v =?s "bytes 2-2/3" then Some (Bytes 2 2 3) else None.

Definition sample_send (_ : nat) (_ : NodeView) (m : Method) (_ : string) (_ : HeaderMap) (range : RangeMode)
    : ApiResult Response :=
  match m, range with
  | HEAD, _ => Ok {| r_status := 200; r_headers := [("content-length", "3"); ("accept-ranges", "bytes")];
                     r_content_length := Some 3; r_body := [] |}
  | GET, Exact a b =>
      Ok {| r_status := 206; r_headers := [("content-range", range_header a b)];
            r_content_length := Some (b - a + 1); r_body := [Data (Chunks.slice blob (a, b))] |}
  | GET, _ => Ok {| r_status := 200; r_headers := []; r_content_length := Some 3; r_body := [Data blob] |}
  end.

Lemma sample_honest : honest sample_send sample_parse "/b" blob.
Proof.
  intros n node h range r. destruct range as [| |a b]; simpl; intros [= <-].
  - intros _. split; [|done]. exists []. done.
  - intros _. split; [|done]. exists []. done.
  - intros _ _. split; simpl; rewrite app_nil_r; [reflexivity|done].
Qed.

#[local] Instance sample_selector : Selector (Selection.NodeSelector (Backoff:=nat)) :=
  node_selector (fun x => x) 0%nat Selection.sample_next.

Definition idle : Selection.NodeSelector (Backoff:=nat) :=
  Selection.with_capacity Scheduling.CurrentAlgorithm Capacity.initial.

Definition start_world : World :=
  {| cache := Cache.with_files Cache.sample_store ∅; sel := idle; ticks := 0%nat;
     stats := {| parallel_blobs := 0; resume_attempts := 0; retry_attempts := 0; last_chunk_size := 0 |};
     capabilities := ∅; transfers := []; sent := [] |}.

Definition runtime : Runtime :=
  {| layout := {| Chunks.chunk_size := 2; Chunks.adaptive_chunking_enabled := false;
                  Chunks.automatic_concurrency_enabled := true; Chunks.parallel_threshold := 1;
                  Chunks.resumable_threshold := 1; Chunks.chunk_concurrency := 4 |};
     scheduler_policy := Scheduling.Balanced |}.

Definition one_node : list NodeView := [sample_node 1 "https://a/" 4 1000000].

Definition fetch_result :=
  fetch_uncached (S:=Selection.NodeSelector) sample_send (fun _ => Ok tt) (fun _ s => s) (fun n => Z.of_nat n)
    (fun _ => digest_hex) (fun _ => 3) sample_parse (fun _ => "") (fun l => rev l) (fun l => l) (fun _ => false)
    (fun x => x) "/d" Cache.sample_rows 3 runtime Cache.key_a "/b" [] (Some ("sha256:" +:+ digest_hex)) one_node start_world.

Lemma fetched_blob_is_verified_witness :
  match fetch_result with
  | Some (Ok object, w') => exists content hex, fs w' !! Cache.o_path object = Some content /\
      Cache.o_size object = blen content /\ Cache.o_digest object = Some ("sha256:" +:+ digest_hex) /\
      "sha256:" +:+ digest_hex = "sha256:" +:+ hex /\ digest_hex = hex
  | _ => False
  end.
Proof.
  assert (match fetch_result with Some (Ok _, _) => true | _ => false end = true) as H by (vm_compute; reflexivity).
  destruct fetch_result as [[[object|e] w']|] eqn:E; [|done|done]. clear H. unfold fetch_result in E.
  eapply fetched_blob_is_verified. exact E.
Defined.

Definition parallel_result :=
  download_parallel (S:=Selection.NodeSelector) sample_send (fun _ s => s) (fun n => Z.of_nat n) (fun _ => 3) sample_parse (fun _ => "")
    (fun l => rev l) 3 one_node "/b" [] 3 "/d/cache/tmp/k" "/d/cache/tmp/k/object.partial" runtime start_world.

(** The chunks complete in reverse order and the merged file is the blob. *)
Lemma parallel_fetch_exact_witness :
  match parallel_result with
  | Some (r, w') => r = Ok tt /\ fs w' !! "/d/cache/tmp/k/object.partial" = Some blob
  | None => False
  end.
Proof.
  assert (match parallel_result with Some (Ok _, _) => true | _ => false end = true) as H by (vm_compute; reflexivity).
  destruct parallel_result as [[[[]|e] w']|] eqn:E; [|done|done]. clear H. unfold parallel_result in E. split; [done|].
  refine (proj1 (parallel_fetch_exact sample_send (fun _ s => s) (fun n => Z.of_nat n) (fun _ => 3) sample_parse (fun _ => "")
    (fun l => rev l) "/b" blob "/d/cache/tmp/k" 3 one_node [] runtime start_world (Ok tt) w' sample_honest _ _ _ _ E) eq_refl).
  - intros l. by rewrite <- Permutation_rev.
  - reflexivity.
  - reflexivity.
  - intros cs _ c _ b. unfold fs. simpl. by rewrite lookup_empty.
Defined.

Definition whole_result :=
  download_whole (S:=Selection.NodeSelector) sample_send (fun _ s => s) (fun n => Z.of_nat n) (fun _ => 3) sample_parse (fun _ => "")
    3 one_node [] "/b" [] "/t" (Some 3) Scheduling.SpeedFirst start_world.

Lemma resumed_download_exact_witness :
  match whole_result with
  | Some (r, w') => r = Ok tt /\ fs w' !! "/t" = Some blob
  | None => False
  end.
Proof.
  assert (match whole_result with Some (Ok _, _) => true | _ => false end = true) as H by (vm_compute; reflexivity).
  destruct whole_result as [[[[]|e] w']|] eqn:E; [|done|done]. clear H. unfold whole_result in E. split; [done|].
  refine (proj2 (proj1 (resumed_download_exact sample_send (fun _ s => s) (fun n => Z.of_nat n) (fun _ => 3) sample_parse (fun _ => "")
    "/b" blob "/t" 3 one_node [] [] Scheduling.SpeedFirst start_world (Ok tt) w' sample_honest _ _) E) eq_refl).
  - reflexivity.
  - intros b. unfold fs. simpl. by rewrite lookup_empty.
Defined.

Definition first_chunk : Chunks.Chunk :=
  {| Chunks.index := 0; Chunks.start := 0; Chunks.end_ := 1; Chunks.total_size := 3 |}.

Lemma chunk_download_returns_witness :
  exists r w', download_chunk (S:=Selection.NodeSelector) sample_send (fun _ s => s) (fun n => Z.of_nat n) (fun _ => 3)
    sample_parse (fun _ => "") 1 one_node "/b" [] first_chunk "/t" Scheduling.SpeedFirst start_world = Some (r, w').
Proof. eapply chunk_download_returns; reflexivity. Defined.
End DownloadWitness.
