(* ===== verification/Relay.v ===== *)
(** * The streaming relay

    The streaming half of src/src/registry.rs: a blob that the cache-aware path does
    not produce in time is relayed to the client while it is written to disk, resumed
    from other nodes when a body breaks off, fetched in parallel ranges where that
    pays, and admitted to the cache once its digest is verified.

    The world is that of Download.v: the cache, the selector and an arbitrary
    upstream.  The client is an oracle indexed by the world's ticks: [client] says how
    it takes a chunk, [closes] that it disconnects while the relay waits or a chunk is
    written, after how many of its bytes.  The progress deadline is an instant of the
    world's clock.  The chunk tasks of a parallel relay are consumed in sequence
    order; what running siblings do to the selector is [interfere], and the nodes they
    rule out meanwhile are [siblings].  [rechunk] is the 64 KiB reader of tokio-util
    over a body.  Loops that wait for capacity take [fuel]; [None] is a relay that is
    still waiting. *)

From stdpp Require Import base gmap sets list strings pretty.
From Stdlib Require Import ZArith Lia Ascii Strings.Byte.
From S2P Require Import Prelude F64 Text Errors Budget Chunks Model Scheduling Selection Metrics Files Cache Http Download.

#[local] Set Default Proof Using "Type*".

Module Relay.
Import Chunks.
Import (notations) Download.

Definition STREAM_READ_BYTES : nat := Z.to_nat (64 * 1024).
Definition SEQUENTIAL_STREAM_MEMORY_BYTES : Z := 1024 * 1024.
Definition MAX_RETRY_AFTER : Z := 2 * second.
Definition MAX_STALLED_RESPONSES : nat := 4.

Definition stream_disconnected : AppError := Upstream "client disconnected during Blob stream".
Definition stream_stalled : AppError := Upstream "Blob stream made no progress within its retry budget".

(** How the client takes a chunk: [send_relay_chunk] and its timeout. *)
Inductive Acceptance := Accepted | Idle | Gone.

Definition send_relay_chunk (a : Acceptance) : ApiResult unit :=
  match a with
  | Accepted => Ok tt
  | Idle => Err (Upstream "client stopped reading Blob stream")
  | Gone => Err (Upstream "client disconnected during Blob stream")
  end.

Definition measures_network_speed (elapsed non_network_wait : Z) : bool :=
  (non_network_wait <? 10 * millisecond) || (non_network_wait * 5 <? elapsed).

Definition transient_status (status : Z) : bool :=
  (status =? 429) || (status =? 408) || ((500 <=? status) && (status <? 600)).

(** [u64::from_str]: an optional plus sign and decimal digits. *)
Definition parse_u64 (s : string) : option Z :=
  let digits := unwrap_or (strip_prefix "+" s) s in
  if is_empty digits || negb (all_bytes is_ascii_digit digits) then None else decimal_fold 0 digits.

Record StreamWindow := { win_start : Z; win_end : Z; win_total : Z }.

Definition remaining_window_bytes (end_ offset : Z) : option Z :=
  let* d := checked_sub end_ offset in checked_add d 1.

(** The pieces in which [n]-byte reads return a file. *)
Fixpoint pieces_loop (fuel n : nat) (b : bytes) : list bytes :=
  match fuel with
  | O => []
  | Datatypes.S fuel => match b with [] => [] | _ => take n b :: pieces_loop fuel n (drop n b) end
  end.
Definition pieces (n : nat) (b : bytes) : list bytes := pieces_loop (length b) n b.

Section Stream.
Context {Sel : Type} `{!Selector Sel}.
Variable send : nat -> NodeView -> Method -> string -> HeaderMap -> RangeMode -> ApiResult Response.
Variable interfere : nat -> Sel -> Sel.
Variable clock : nat -> Z.
Variable sha256_hex : bytes -> string.
Variable sha256_prefix : bytes -> Z.
Variable parse_range : string -> option ContentRange.
Variable status_text : Z -> string.
Variable parse_rfc2822 : string -> option Z.
Variable rechunk : list frame -> list frame.
Variable client : nat -> Acceptance.
Variable closes : nat -> option nat.
Variable memory_wait : nat -> ApiResult unit.
Variable siblings : nat -> gset Uuid.
(** [policy.next_backoff()] of the [k]-th round since tick [n]. *)
Variable next_backoff : nat -> nat -> option Z.

(** The scheduling policy in force, and what the cache takes (Cache.v). *)
Variable policy : Scheduling.SchedulerPolicy.
Variable ln_1p : f64 -> f64.
Variable data_dir : string.
Variable rows : gmap string Cache.CacheRecord -> list Cache.CacheRecord.

Abbreviation World := (Download.World (S := Sel)).
Abbreviation request := (Download.request send interfere clock).
Abbreviation tick := (Download.tick interfere).
Abbreviation now := (Download.now clock).
Abbreviation generation := (Download.generation clock).
Abbreviation observe_node := (Download.observe_node clock).
Abbreviation elapsed := (Download.elapsed clock).
Abbreviation fs := Download.fs.
Abbreviation cache := Download.cache.
Abbreviation sel := Download.sel.
Abbreviation ticks := Download.ticks.
Abbreviation with_fs := Download.with_fs.
Abbreviation with_cache := Download.with_cache.
Abbreviation with_sel := Download.with_sel.
Abbreviation record_transfer := Download.record_transfer.
Abbreviation record_retry := Download.record_retry.
Abbreviation record_resume := Download.record_resume.
Abbreviation remove_path := Download.remove_path.
Abbreviation sequence_for := (Download.sequence_for sha256_prefix).

Definition release (w : World) (id : Uuid) : World := with_sel w (sel_release (sel w) id).

(** [tokio::time::sleep]. *)
Definition sleep (w : World) (duration : Z) : World := tick w.

Definition count_upstream_bytes (w : World) (n : Z) : World :=
  let c := cache w in
  with_cache w (Cache.with_metrics c (TransferMetrics.record (Cache.metrics c) (generation w)
                                        (TransferMetrics.record_upstream_bytes n))).

Definition append_file (w : World) (path : string) (b : bytes) : World :=
  with_fs w (<[path := unwrap_or (fs w !! path) [] ++ b]> (fs w)).

(** [stream_window]. *)
Definition stream_window (r : Response) : option StreamWindow :=
  if r_status r =? PARTIAL_CONTENT then
    let* range := content_range parse_range (r_headers r) in
    match range with
    | Bytes first last complete =>
        let* d := checked_sub last first in
        let* length := checked_add d 1 in
        if negb (bool_decide (r_content_length r = Some length)) then None
        else Some {| win_start := first; win_end := last; win_total := complete |}
    | _ => None
    end
  else if is_success (r_status r) then
    let* total := r_content_length r in
    if 0 <? total then Some {| win_start := 0; win_end := total - 1; win_total := total |} else None
  else None.

Definition window_is (r : Response) (start end_ total : Z) : bool :=
  is_some_and (stream_window r)
    (fun w => (win_start w =? start) && (win_end w =? end_) && (win_total w =? total)).

(** [bounded_retry_after] at an instant. *)
Definition bounded_retry_after (h : HeaderMap) (now : Z) : option Z :=
  let* value := header_str h "retry-after" in
  let* delay := match parse_u64 value with
                | Some s => Some (s * second)
                | None => let* deadline := parse_rfc2822 value in Some (Z.max 0 (deadline - now))
                end in
  Some (Z.min delay MAX_RETRY_AFTER).

Definition retry_after (r : Response) (now : Z) : Z :=
  unwrap_or (bounded_retry_after (r_headers r) now) 0.

(** ** Resuming on another node *)

(** A response together with the lease its node holds. *)
Record Opened := { op_index : nat; op_response : Response; op_lease : Uuid }.

Definition position (nodes : list NodeView) (id : Uuid) : option nat :=
  fst <$> list_find (fun v => node_id v = id) nodes.

(** How a pass over the candidates ends: a response, the deadline of [timeout_at]
    during a request, or no response. *)
Inductive pass :=
| Answered (o : Opened)
| TimedOut
| Exhausted (attempted : bool) (retry_delay : Z) (last_error : option string).

(** [for node in candidates { ... }] of [resume_stream_response_inner]. *)
Fixpoint resume_candidates (deadline : Z) (l : list NodeView) (nodes : list NodeView) (path : string) (h : HeaderMap)
    (start end_ total : Z) (attempted : bool) (retry_delay : Z) (last_error : option string) (w : World)
    : pass * World :=
  match l with
  | [] => (Exhausted attempted retry_delay last_error, w)
  | node :: l' =>
      match position nodes (node_id node) with
      | None => resume_candidates deadline l' nodes path h start end_ total attempted retry_delay last_error w
      | Some index =>
          let (lease, s) := sel_acquire (sel w) (node_id node) (max_concurrency node) in
          let w0 := with_sel w s in
          match lease with
          | None => resume_candidates deadline l' nodes path h start end_ total attempted retry_delay last_error w0
          | Some id =>
              let (result, w) := request w0 node GET path h (Exact start end_) in
              if deadline <=? now w then (TimedOut, release w id)
              else
              match result with
              | Ok response =>
                  if (r_status response =? PARTIAL_CONTENT) && window_is response start end_ total
                  then (Answered {| op_index := index; op_response := response; op_lease := id |},
                        observe_node w (node_id node) 0 (elapsed w0 w) true)
                  else
                    let retry_delay := if transient_status (r_status response)
                                       then Z.max retry_delay (retry_after response (now w)) else retry_delay in
                    let w := if r_status response =? 404 then w
                             else record_transfer (observe_node w (node_id node) 0 (elapsed w0 w) false)
                                    (node_id node) 0 false in
                    resume_candidates deadline l' nodes path h start end_ total true retry_delay
                      (Some (Node.name (Model.node node) +:+ " returned an invalid resume response (" +:+
                             status_text (r_status response) +:+ ")"))
                      (release w id)
              | Err e =>
                  let w := record_transfer (observe_node w (node_id node) 0 (elapsed w0 w) false)
                             (node_id node) 0 false in
                  resume_candidates deadline l' nodes path h start end_ total true retry_delay
                    (Some (display e)) (release w id)
              end
          end
      end
  end.

Definition resume_context (path : string) (start end_ total : Z) : Scheduling.ScheduleContext :=
  {| Scheduling.sequence := sequence_for path start; Scheduling.blob_size := total;
     Scheduling.range_required := true; Scheduling.chunk := Some (start, end_) |}.

(** The nodes a resume tries: the ordered ones but the current, or all. *)
Definition resume_order (ordered nodes : list NodeView) (current : Uuid) : list NodeView :=
  match List.filter (fun v => negb (N.eqb (node_id v) current)) ordered with
  | [] => nodes
  | candidates => candidates
  end.

(** [resume_stream_response]: the loop under the progress deadline. *)
Fixpoint resume_loop (fuel : nat) (round since : nat) (deadline : Z) (nodes : list NodeView) (current : Uuid)
    (path : string) (h : HeaderMap) (start end_ total : Z) (last_error : option string) (w : World)
    : option (ApiResult Opened * World) :=
  match fuel with
  | O => None
  | Datatypes.S fuel =>
      if deadline <=? now w then Some (Err stream_stalled, w)
      else
        let (ordered, s) := sel_order (sel w) nodes (resume_context path start end_ total) policy (now w) in
        match resume_candidates deadline (resume_order ordered nodes current) nodes path h start end_ total
                false 0 last_error (with_sel w s) with
        | (Answered opened, w) => Some (Ok opened, w)
        | (TimedOut, w) => Some (Err stream_stalled, w)
        | (Exhausted attempted retry_delay last_error, w) =>
            if negb attempted
            then resume_loop fuel round since deadline nodes current path h start end_ total last_error (tick w)
            else
              match next_backoff since round with
              | None => Some (Err (Upstream (unwrap_or last_error "all nodes failed to resume the Blob stream")), w)
              | Some delay =>
                  resume_loop fuel (Datatypes.S round) since deadline nodes current path h start end_ total last_error
                    (sleep w (Z.max delay retry_delay))
              end
        end
  end.

Definition resume_stream_response (fuel : nat) (deadline : Z) (nodes : list NodeView) (current_node : nat)
    (path : string) (h : HeaderMap) (start end_ total : Z) (w : World) : option (ApiResult Opened * World) :=
  if is_some (closes (ticks w)) then Some (Err stream_disconnected, w)
  else
  match nodes with
  | [] => Some (Err (Unavailable "no nodes are available for Blob resume"), w)
  | _ =>
      match nodes !! current_node with
      | None => Some (Err (Internal "index out of bounds"), w)
      | Some current =>
          resume_loop fuel 0 (ticks w) deadline nodes (node_id current) path h start end_ total None w
      end
  end.

(** ** The sequential relay *)

(** The relay in flight: the world, the file offset, the bytes hashed and sent, the
    progress deadline, and the counters of the response being read. *)
Record Wire := {
  wire : World;
  offset : Z;
  hashed : bytes;
  sent : bytes;
  deadline : Z;
  stalled_responses : nat;
  transferred : Z;
  non_network_wait : Z
}.

Definition with_wire (s : Wire) (w : World) : Wire :=
  {| wire := w; offset := offset s; hashed := hashed s; sent := sent s; deadline := deadline s;
     stalled_responses := stalled_responses s; transferred := transferred s; non_network_wait := non_network_wait s |}.

(** [transferred = 0; non_network_wait = ZERO] before a response is read. *)
Definition next_response (s : Wire) : Wire :=
  {| wire := wire s; offset := offset s; hashed := hashed s; sent := sent s; deadline := deadline s;
     stalled_responses := stalled_responses s; transferred := 0; non_network_wait := 0 |}.

Definition stall (s : Wire) : Wire :=
  {| wire := wire s; offset := offset s; hashed := hashed s; sent := sent s; deadline := deadline s;
     stalled_responses := Datatypes.S (stalled_responses s); transferred := transferred s;
     non_network_wait := non_network_wait s |}.

Section Sequential.
Variable partial : string.
Variable complete_blob : bool.
Variable no_progress_timeout : Z.

(** A non-empty chunk: hash, write, count and send it.  The write and the send take a
    tick each, during which the client may go away. *)
Definition relay_chunk (b : bytes) (s : Wire) : ApiResult unit * Wire :=
  let hashed' := if complete_blob then hashed s ++ b else hashed s in
  match closes (ticks (wire s)) with
  | Some k => (Err stream_disconnected, with_wire s (append_file (wire s) partial (take k b)))
  | None =>
      let started := wire s in
      let w := count_upstream_bytes (append_file (wire s) partial b) (blen b) in
      let accepted := send_relay_chunk (client (ticks w)) in
      let w := tick w in
      match accepted with
      | Err e =>
          (Err e, {| wire := w; offset := wrap64 (offset s + blen b); hashed := hashed'; sent := sent s;
                     deadline := deadline s; stalled_responses := stalled_responses s;
                     transferred := wrap64 (transferred s + blen b); non_network_wait := non_network_wait s |})
      | Ok _ =>
          (Ok tt, {| wire := w; offset := wrap64 (offset s + blen b); hashed := hashed'; sent := sent s ++ b;
                     deadline := now w + no_progress_timeout; stalled_responses := 0;
                     transferred := wrap64 (transferred s + blen b);
                     non_network_wait := non_network_wait s + elapsed started w |})
      end
  end.

(** The inner loop over a body: [Ok] with the stream error if it broke off. *)
Fixpoint relay_frames (end_ : Z) (l : list frame) (s : Wire) : ApiResult (option string) * Wire :=
  let s := with_wire s (tick (wire s)) in
  if deadline s <=? now (wire s) then (Ok (Some (display stream_stalled)), s)
  else
    match l with
    | [] => (Ok None, s)
    | Fault message :: _ => (Ok (Some message), s)
    | Data [] :: l => relay_frames end_ l s
    | Data b :: l =>
        match remaining_window_bytes end_ (offset s) with
        | None => (Err Integrity, s)
        | Some remaining =>
            if remaining <? blen b then (Err Integrity, s)
            else
              match relay_chunk b s with
              | (Err e, s) => (Err e, s)
              | (Ok _, s) => relay_frames end_ l s
              end
        end
    end.

(** Reporting a response that was read: [observe_node] and
    [record_transfer_observation], after its lease is dropped. *)
Definition report (id : Uuid) (started : World) (completed : bool) (s : Wire) : Wire :=
  let w := wire s in
  let e := elapsed started w in
  let n := if measures_network_speed e (non_network_wait s) then transferred s else 0 in
  with_wire s (record_transfer (observe_node w id n e completed) id (transferred s) completed).

Definition drop_lease (lease : Uuid) (s : Wire) : Wire := with_wire s (release (wire s) lease).

(** [while offset <= window.end { ... }].  [fuel] bounds the responses read, [waits]
    the rounds of each resume. *)
Fixpoint relay_loop (fuel waits : nat) (nodes : list NodeView) (path : string) (h : HeaderMap) (win : StreamWindow)
    (current_node : nat) (response : option (Response * Uuid)) (s : Wire) : option (ApiResult unit * Wire) :=
  if win_end win <? offset s then Some (Ok tt, s)
  else
  match fuel with
  | O => None
  | Datatypes.S fuel =>
      match response with
      | None => Some (Err (Upstream "Blob stream response is missing"), s)
      | Some (r, lease) =>
          let started := wire s in
          match relay_frames (win_end win) (rechunk (r_body r)) (next_response s) with
          | (Err e, s) => Some (Err e, drop_lease lease s)
          | (Ok _, s) =>
              let completed := win_end win <? offset s in
              match nodes !! current_node with
              | None => Some (Err (Internal "index out of bounds"), drop_lease lease s)
              | Some node =>
                  let s := report (node_id node) started completed (drop_lease lease s) in
                  if completed then Some (Ok tt, s)
                  else
                    let s := if transferred s =? 0 then stall s else s in
                    if (transferred s =? 0) && (MAX_STALLED_RESPONSES <=? stalled_responses s)%nat
                    then Some (Err stream_stalled, s)
                    else
                      let s := with_wire s (record_resume (record_retry (wire s))) in
                      let* (resumed, w) := resume_stream_response waits (deadline s) nodes current_node path h
                                             (offset s) (win_end win) (win_total win) (wire s) in
                      match resumed with
                      | Err e => Some (Err e, with_wire s w)
                      | Ok o => relay_loop fuel waits nodes path h win (op_index o)
                                  (Some (op_response o, op_lease o)) (with_wire s w)
                      end
              end
          end
      end
  end.

(** Replaying a partial file: the pieces the reads return are hashed and sent. *)
Fixpoint replay (l : list bytes) (s : Wire) : ApiResult unit * Wire :=
  match l with
  | [] => (Ok tt, s)
  | b :: l =>
      match closes (ticks (wire s)) with
      | Some _ => (Err stream_disconnected, s)
      | None =>
          let accepted := send_relay_chunk (client (ticks (wire s))) in
          let w := tick (wire s) in
          match accepted with
          | Err e => (Err e, {| wire := w; offset := wrap64 (offset s + blen b); hashed := hashed s ++ b;
                                sent := sent s; deadline := deadline s; stalled_responses := stalled_responses s;
                                transferred := transferred s; non_network_wait := non_network_wait s |})
          | Ok _ => replay l {| wire := w; offset := wrap64 (offset s + blen b); hashed := hashed s ++ b;
                                sent := sent s ++ b; deadline := now w + no_progress_timeout;
                                stalled_responses := stalled_responses s; transferred := transferred s;
                                non_network_wait := non_network_wait s |}
          end
      end
  end.
End Sequential.

(** ** Parallel ranges *)

(** The receive loop of [fetch_parallel_chunk]. *)
Fixpoint collect (l : list frame) (expected : Z) (acc : bytes) (w : World) : ApiResult bytes * World :=
  match l with
  | [] => (if blen acc =? expected then Ok acc else Err Integrity, w)
  | Fault message :: _ => (Err (Upstream message), w)
  | Data b :: l =>
      if expected <? saturating_add (blen acc) (blen b) then (Err Integrity, w)
      else collect l expected (acc ++ b) (count_upstream_bytes w (blen b))
  end.

(** What one node's turn yields: the bytes, whether the node is judged by it, whether
    it is unavailable for ranges, and the delay it asks for. *)
Record Attempt := { at_result : ApiResult bytes; at_penalize : bool; at_unavailable : bool; at_delay : Z }.

Definition attempt_chunk (c : StreamChunk) (path : string) (h : HeaderMap) (node : NodeView) (w : World)
    : Attempt * World :=
  let failed e := {| at_result := Err e; at_penalize := true; at_unavailable := false; at_delay := 0 |} in
  match request w node GET path h (Exact (sc_start c) (sc_end c)) with
  | (Err e, w) => (failed e, w)
  | (Ok response, w) =>
      let status := r_status response in
      if negb (is_success status) then
        ({| at_result := Err (Upstream (Node.name (Model.node node) +:+ " returned " +:+ status_text status +:+
                                        " for a stream chunk"));
            at_penalize := negb (status =? 404); at_unavailable := negb (transient_status status);
            at_delay := if transient_status status then retry_after response (now w) else 0 |}, w)
      else if negb (status =? PARTIAL_CONTENT) || negb (window_is response (sc_start c) (sc_end c) (sc_total c))
      then (failed Integrity, w)
      else
        let (result, w) := collect (r_body response) (sc_end c - sc_start c + 1) [] w in
        ({| at_result := result; at_penalize := true; at_unavailable := false; at_delay := 0 |}, w)
  end.

Definition bytes_of (r : ApiResult bytes) : Z := match r with Ok b => blen b | Err _ => 0 end.

(** [range_failures] as this task sees it: nodes of the relay its siblings have ruled
    out meanwhile included. *)
Definition range_failures (nodes : list NodeView) (failures : gset Uuid) (w : World) : gset Uuid :=
  failures ∪ (siblings (ticks w) ∩ list_to_set (node_id <$> nodes)).

Inductive chunk_pass :=
| Fetched (b : bytes)
| NotFetched (attempted : bool) (retry_delay : Z) (last_error : option AppError).

(** [for node in candidates { ... }] of [fetch_parallel_chunk]. *)
Fixpoint chunk_candidates (l nodes : list NodeView) (c : StreamChunk) (path : string) (h : HeaderMap)
    (failures : gset Uuid) (attempted : bool) (retry_delay : Z) (last_error : option AppError) (w : World)
    : chunk_pass * gset Uuid * World :=
  match l with
  | [] => (NotFetched attempted retry_delay last_error, failures, w)
  | node :: l =>
      let failures := range_failures nodes failures w in
      if bool_decide (node_id node ∈ failures)
      then chunk_candidates l nodes c path h failures attempted retry_delay last_error w
      else
        let (lease, s) := sel_acquire (sel w) (node_id node) (max_concurrency node) in
        let w0 := with_sel w s in
        match lease with
        | None => chunk_candidates l nodes c path h failures attempted retry_delay last_error w0
        | Some id =>
            let (a, w) := attempt_chunk c path h node w0 in
            let w := release w id in
            let n := bytes_of (at_result a) in
            let w := if at_penalize a
                     then record_transfer (observe_node w (node_id node) n (elapsed w0 w) (is_ok (at_result a)))
                            (node_id node) n (is_ok (at_result a))
                     else w in
            match at_result a with
            | Ok b => (Fetched b, failures, w)
            | Err e =>
                let failures := if at_unavailable a || is_integrity e
                                then failures ∪ {[node_id node]} else failures in
                chunk_candidates l nodes c path h failures true (Z.max retry_delay (at_delay a)) (Some e)
                  (record_retry w)
            end
        end
  end.

Definition range_context (path : string) (c : StreamChunk) : Scheduling.ScheduleContext :=
  {| Scheduling.sequence := sequence_for path (Z.of_nat (sequence c)); Scheduling.blob_size := sc_total c;
     Scheduling.range_required := true; Scheduling.chunk := Some (sc_start c, sc_end c) |}.

(** [fetch_parallel_chunk]. *)
Fixpoint fetch_parallel_chunk (fuel round since : nat) (nodes : list NodeView) (c : StreamChunk) (path : string)
    (h : HeaderMap) (failures : gset Uuid) (last_error : option AppError) (w : World)
    : option (ApiResult bytes * gset Uuid * World) :=
  match fuel with
  | O => None
  | Datatypes.S fuel =>
      let failures := range_failures nodes failures w in
      match List.filter (fun v => negb (bool_decide (node_id v ∈ failures))) nodes with
      | [] => Some (Err (unwrap_or last_error Integrity), failures, w)
      | eligible =>
          let (candidates, s) := sel_order (sel w) eligible (range_context path c) policy (now w) in
          match chunk_candidates candidates nodes c path h failures false 0 last_error (with_sel w s) with
          | (Fetched b, failures, w) => Some (Ok b, failures, w)
          | (NotFetched attempted retry_delay last_error, failures, w) =>
              if (length nodes <=? base.size failures)%nat
              then Some (Err (unwrap_or last_error Integrity), failures, w)
              else if negb attempted
              then fetch_parallel_chunk fuel round since nodes c path h failures last_error (tick w)
              else
                match next_backoff since round with
                | None => Some (Err (unwrap_or last_error (Upstream "all nodes failed a stream chunk")), failures, w)
                | Some delay =>
                    fetch_parallel_chunk fuel (Datatypes.S round) since nodes c path h failures last_error
                      (sleep w (Z.max delay retry_delay))
                end
          end
      end
  end.

(** The memory a chunk's task holds: refused beyond the budget, or not granted in time. *)
Definition chunk_memory (c : StreamChunk) (w : World) : ApiResult unit :=
  let? _ := Memory.acquire_check (sc_end c - sc_start c + 1) in memory_wait (ticks w).

(** [while let Some(result) = results.next().await { ... }]: the chunks in sequence
    order, each hashed, written and sent. *)
Fixpoint relay_ranges (fuel : nat) (partial : string) (nodes : list NodeView)
    (path : string) (h : HeaderMap) (l : list StreamChunk) (failures : gset Uuid) (s : Wire)
    : option (ApiResult unit * Wire) :=
  match l with
  | [] => Some (Ok tt, s)
  | c :: l =>
      match chunk_memory c (wire s) with
      | Err e => Some (Err e, s)
      | Ok _ =>
          let* (r, w) := fetch_parallel_chunk fuel 0 (ticks (wire s)) nodes c path h failures None (wire s) in
          let (result, failures) := r : ApiResult bytes * gset Uuid in
          let s := with_wire s w in
          match result with
          | Err e => Some (Err e, s)
          | Ok b =>
              match closes (ticks w) with
              | Some k => Some (Err stream_disconnected, with_wire s (append_file w partial (take k b)))
              | None =>
                  let accepted := send_relay_chunk (client (ticks w)) in
                  let w := tick (append_file w partial b) in
                  let s' sent' := {| wire := w; offset := offset s; hashed := hashed s ++ b; sent := sent';
                                     deadline := deadline s; stalled_responses := stalled_responses s;
                                     transferred := transferred s; non_network_wait := non_network_wait s |} in
                  match accepted with
                  | Err e => Some (Err e, s' (sent s))
                  | Ok _ => relay_ranges fuel partial nodes path h l failures (s' (sent s ++ b))
                  end
              end
          end
      end
  end.

(** [relay_parallel_ranges]. *)
Definition relay_parallel_ranges (fuel : nat) (partial : string) (nodes : list NodeView)
    (path : string) (h : HeaderMap) (win : StreamWindow) (config : StreamDownloadConfig) (s : Wire)
    : option (ApiResult unit * Wire) :=
  let* chunks := stream_chunks (offset s) (win_end win) (win_total win) (sd_chunk_size config) in
  relay_ranges fuel partial nodes path h chunks ∅ s.

(** ** A relay from its first response *)

(** [StreamRelay], the services apart. *)
Record StreamRelay := {
  sr_nodes : list NodeView;
  sr_current_node : nat;
  sr_response : Response;
  sr_node_lease : Uuid;
  sr_client_idle_timeout : Z;
  sr_path : string;
  sr_headers : HeaderMap;
  sr_window : StreamWindow;
  sr_key : string;
  sr_media_type : string;
  sr_expected_digest : option string;
  sr_parallel : option StreamDownloadConfig
}.

Definition partial_dir (key : string) : string := Download.partial_dir data_dir key.
Definition object_partial (key : string) : string := Download.merged_path data_dir key.

(** The directory [tempdir_in] creates at a tick: its name is fresh. *)
Variable range_dir : nat -> string.
Definition range_partial (n : nat) : string := range_dir n +:+ "/object.partial".

Definition covers_blob (win : StreamWindow) : bool :=
  (win_start win =? 0) && bool_decide (checked_add (win_end win) 1 = Some (win_total win)).

Definition progress_timeout (client_idle_timeout : Z) : Z := Z.min client_idle_timeout (30 * second).

Definition begin (win : StreamWindow) (timeout : Z) (w : World) : Wire :=
  {| wire := w; offset := win_start win; hashed := []; sent := []; deadline := now w + timeout;
     stalled_responses := 0; transferred := 0; non_network_wait := 0 |}.

(** A partial file longer than the blob is discarded; the length of what is left. *)
Definition existing_partial (partial : string) (complete : bool) (total : Z) (w : World) : Z * World :=
  let existing := if complete then Download.len_or_zero w partial else 0 in
  if total <? existing then (0, remove_path w partial) else (existing, w).

(** [format!("sha256:{:x}", hasher.finalize())]. *)
Definition digest_text (b : bytes) : string := "sha256:" +:+ sha256_hex b.

(** The end of a whole blob: the digest check, and admission to the cache. *)
Definition conclude (key media_type : string) (expected : option string) (partial : string) (s : Wire)
    : option (ApiResult unit * Wire) :=
  if is_some_and expected (fun e => negb (digest_text (hashed s) =?s e))
  then Some (Err Integrity, with_wire s (remove_path (wire s) partial))
  else
    let w := wire s in
    let* (result, c) := Cache.admit_object ln_1p data_dir rows (cache w) key partial media_type expected
                          (now w) (generation w) in
    Some (match result with Ok _ => Ok tt | Err e => Err e end, with_wire s (with_cache w c)).

(** The replay of an existing partial and the first resume: the response to read. *)
Definition start_relay (waits : nat) (r : StreamRelay) (partial : string) (existing : Z) (s : Wire)
    : option (ApiResult (nat * option (Response * Uuid)) * Wire) :=
  let win := sr_window r in
  let timeout := progress_timeout (sr_client_idle_timeout r) in
  if 0 <? existing then
    let s := drop_lease (sr_node_lease r) s in
    match replay timeout (pieces STREAM_READ_BYTES (unwrap_or (fs (wire s) !! partial) [])) s with
    | (Err e, s) => Some (Err e, s)
    | (Ok _, s) =>
        if offset s <=? win_end win then
          let s := with_wire s (record_resume (wire s)) in
          let* (resumed, w) := resume_stream_response waits (deadline s) (sr_nodes r) (sr_current_node r) (sr_path r)
                                 (sr_headers r) (offset s) (win_end win) (win_total win) (wire s) in
          match resumed with
          | Err e => Some (Err e, with_wire s w)
          | Ok o => Some (Ok (op_index o, Some (op_response o, op_lease o)), with_wire s w)
          end
        else Some (Ok (sr_current_node r, None), s)
    end
  else Some (Ok (sr_current_node r, Some (sr_response r, sr_node_lease r)), s).

Definition drop_response (response : option (Response * Uuid)) (s : Wire) : Wire :=
  match response with Some (_, lease) => drop_lease lease s | None => s end.

(** [OpenOptions::create(true).append(true).open]. *)
Definition open_append (partial : string) (w : World) : World := append_file w partial [].

(** The transfer of [relay_stream_blob_inner]: parallel ranges if configured, then
    the sequential loop for what is left. *)
Definition relay_window (fuel waits : nat) (r : StreamRelay) (partial : string) (complete : bool)
    (current : nat) (response : option (Response * Uuid)) (s : Wire) : option (ApiResult unit * Wire) :=
  let win := sr_window r in
  let sequential := relay_loop partial complete (progress_timeout (sr_client_idle_timeout r)) fuel waits
                      (sr_nodes r) (sr_path r) (sr_headers r) win current in
  match sr_parallel r with
  | Some config =>
      if offset s <=? win_end win then
        let* (result, s) := relay_parallel_ranges waits partial (sr_nodes r) (sr_path r) (sr_headers r) win config
                              (drop_response response s) in
        match result with
        | Err e => Some (Err e, s)
        | Ok _ => sequential None {| wire := wire s; offset := wrap64 (win_end win + 1); hashed := hashed s;
                                     sent := sent s; deadline := deadline s; stalled_responses := stalled_responses s;
                                     transferred := transferred s; non_network_wait := non_network_wait s |}
        end
      else sequential response s
  | None => sequential response s
  end.

(** [relay_stream_blob_inner].  The temporary directory of a range disappears with
    the relay. *)
Definition relay_stream_blob_inner (fuel waits : nat) (r : StreamRelay) (w : World)
    : option (ApiResult unit * Wire) :=
  let win := sr_window r in
  let complete := covers_blob win in
  let partial := if complete then object_partial (sr_key r) else range_partial (ticks w) in
  let cleanup (o : ApiResult unit * Wire) :=
    if complete then o else (o.1, with_wire o.2 (remove_path (wire o.2) partial)) in
  let (existing, w) := existing_partial partial complete (win_total win) w in
  let* (started, s) := start_relay waits r partial existing
                         (begin win (progress_timeout (sr_client_idle_timeout r)) w) in
  match started with
  | Err e => Some (cleanup (Err e, s))
  | Ok (current, response) =>
      let s := with_wire s (open_append partial (wire s)) in
      let* (result, s) := relay_window fuel waits r partial complete current response s in
      match result with
      | Err e => Some (cleanup (Err e, s))
      | Ok _ =>
          if complete then conclude (sr_key r) (sr_media_type r) (sr_expected_digest r) partial s
          else Some (cleanup (Ok tt, s))
      end
  end.

(** What the client's body yields: the chunks sent, then an error frame unless the
    relay completed ([relay_body]). *)
Definition relay_body (result : ApiResult unit) (sent : bytes) : list frame :=
  Data sent :: match result with Ok _ => [] | Err e => [Fault (display e)] end.

(** ** Bodies of unknown length *)

Record UnknownBlobRelay := {
  ub_key : string;
  ub_media_type : string;
  ub_expected_digest : option string;
  ub_node : NodeView;
  ub_response : Response;
  ub_node_lease : Uuid;
  ub_client_idle_timeout : Z
}.

(** The end of the receive loop: the future is dropped when the client goes away;
    otherwise the result so far and what it says of the node. *)
Inductive unknown_end := Cancelled | Finished (r : ApiResult unit) (node_outcome : option bool).

Fixpoint unknown_frames (partial : string) (timeout : Z) (l : list frame) (s : Wire) : unknown_end * Wire :=
  let s := with_wire s (tick (wire s)) in
  if deadline s <=? now (wire s) then (Finished (Err stream_stalled) (Some false), s)
  else
    match l with
    | [] => (Finished (Ok tt) None, s)
    | Fault message :: _ => (Finished (Err (Upstream message)) (Some false), s)
    | Data [] :: l => unknown_frames partial timeout l s
    | Data b :: l =>
        match closes (ticks (wire s)) with
        | Some k => (Cancelled, with_wire s (append_file (wire s) partial (take k b)))
        | None =>
            let started := wire s in
            let w := append_file (count_upstream_bytes (wire s) (blen b)) partial b in
            let accepted := send_relay_chunk (client (ticks w)) in
            let w := tick w in
            let s' sent' deadline' wait := {| wire := w; offset := offset s; hashed := hashed s ++ b; sent := sent';
                         deadline := deadline'; stalled_responses := stalled_responses s;
                         transferred := saturating_add (transferred s) (blen b); non_network_wait := wait |} in
            match accepted with
            | Err e => (Finished (Err e) None, s' (sent s) (deadline s) (non_network_wait s))
            | Ok _ => unknown_frames partial timeout l
                        (s' (sent s ++ b) (now w + timeout) (non_network_wait s + elapsed started w))
            end
        end
    end.

(** The digest check and the admission that follow a body that ended. *)
Definition unknown_conclude (u : UnknownBlobRelay) (partial : string) (s : Wire)
    : option (ApiResult unit * option bool * Wire) :=
  if is_some_and (ub_expected_digest u) (fun e => negb (digest_text (hashed s) =?s e))
  then Some (Err Integrity, Some false, with_wire s (remove_path (wire s) partial))
  else
    let w := wire s in
    let* (result, c) := Cache.admit_object ln_1p data_dir rows (cache w) (ub_key u) partial (ub_media_type u)
                          (ub_expected_digest u) (now w) (generation w) in
    Some (match result with Ok _ => Ok tt | Err e => Err e end, Some true, with_wire s (with_cache w c)).

(** Reporting the node, and clearing the partial file or its directory. *)
Definition unknown_finish (u : UnknownBlobRelay) (partial : string) (started : World) (result : ApiResult unit)
    (node_outcome : option bool) (s : Wire) : Wire :=
  let w := wire s in
  let e := elapsed started w in
  let measure_speed := is_ok result && measures_network_speed e (non_network_wait s) in
  let id := node_id (ub_node u) in
  let w := match node_outcome with
           | Some success =>
               record_transfer (observe_node w id (if measure_speed then transferred s else 0) e success)
                 id (transferred s) success
           | None => w
           end in
  let w := if is_ok result then with_fs w (remove_dir_all (fs w) (partial_dir (ub_key u))) else remove_path w partial in
  with_wire s (release w (ub_node_lease u)).

(** [relay_unknown_blob]. *)
Definition relay_unknown_blob (u : UnknownBlobRelay) (w : World) : option (ApiResult unit * Wire) :=
  let partial := object_partial (ub_key u) in
  let timeout := progress_timeout (ub_client_idle_timeout u) in
  let w := with_fs w (<[partial := []]> (fs w)) in
  let s := begin {| win_start := 0; win_end := 0; win_total := 0 |} timeout w in
  match unknown_frames partial timeout (rechunk (r_body (ub_response u))) s with
  | (Cancelled, s) => Some (Err stream_disconnected, drop_lease (ub_node_lease u) s)
  | (Finished (Err e) outcome, s) => Some (Err e, unknown_finish u partial w (Err e) outcome s)
  | (Finished (Ok _) _, s) =>
      let* (r, s) := unknown_conclude u partial s in
      let (result, outcome) := r : ApiResult unit * option bool in
      Some (result, unknown_finish u partial w result outcome s)
  end.

(** ** Opening a stream *)

Variable key_hash : string -> string.
Variable uuid_text : Uuid -> string.

(** What a request for a blob turns into: a cached object to serve, or a streamed
    response with the relay that feeds it. *)
Inductive Streamed :=
| FromCache (object : Cache.CachedObject)
| Relayed (upstream : Response) (known : option StreamWindow) (relay : StreamRelay + UnknownBlobRelay).

Definition ordered_stream_nodes (nodes : list NodeView) (path : string) (w : World) : list NodeView * World :=
  let (l, s) := sel_order (sel w) nodes
                  {| Scheduling.sequence := sequence_for path 0; Scheduling.blob_size := 0;
                     Scheduling.range_required := false; Scheduling.chunk := None |} policy (now w) in
  (l, with_sel w s).

(** Whether the parallel relay pays: [parallel] of [stream_blob]. *)
Definition parallel_config (layout : SchedulerRuntimeConfig) (nodes : list NodeView) (win : StreamWindow)
    (h : HeaderMap) : option StreamDownloadConfig :=
  let config := stream_download_config layout (win_total win) (Download.capacity_sum nodes) in
  if (1 <? sd_concurrency config) && covers_blob win && (sd_parallel_threshold config <=? win_total win)
     && is_some_and (header_str h "accept-ranges") (fun v => eq_ignore_ascii_case v "bytes")
  then Some config else None.

(** The response is usable: the relay that streams it. *)
Definition open_relay (layout : SchedulerRuntimeConfig) (nodes : list NodeView) (index : nat) (node : NodeView)
    (r : Response) (lease : Uuid) (timeout : Z) (path : string) (h : HeaderMap) (key : string)
    (expected : option string) (w : World) : Streamed * World :=
  let media := unwrap_or (header_str (r_headers r) "content-type") "application/octet-stream" in
  match stream_window r with
  | None =>
      (Relayed r None (inr {| ub_key := key; ub_media_type := media; ub_expected_digest := expected; ub_node := node;
                              ub_response := r; ub_node_lease := lease; ub_client_idle_timeout := timeout |}), w)
  | Some win =>
      let parallel := parallel_config layout nodes win (r_headers r) in
      (Relayed r (Some win)
         (inl {| sr_nodes := nodes; sr_current_node := index; sr_response := r; sr_node_lease := lease;
                 sr_client_idle_timeout := timeout; sr_path := path; sr_headers := h; sr_window := win; sr_key := key;
                 sr_media_type := media; sr_expected_digest := expected; sr_parallel := parallel |}),
       match parallel with
       | Some config => Download.record_parallel_blob w (sd_chunk_size config)
       | None => w
       end)
  end.

Inductive open_pass := Opens (s : Streamed) | Closed (attempted : gset Uuid) (last_error : option AppError).

(** [for (node_index, node) in nodes.iter().enumerate() { ... }]. *)
Fixpoint open_candidates (layout : SchedulerRuntimeConfig) (l nodes : list NodeView) (index : nat) (timeout : Z)
    (path : string) (h : HeaderMap) (key : string) (expected : option string) (attempted : gset Uuid)
    (last_error : option AppError) (w : World) : open_pass * World :=
  match l with
  | [] => (Closed attempted last_error, w)
  | node :: l =>
      let continue := open_candidates layout l nodes (Datatypes.S index) timeout path h key expected in
      if bool_decide (node_id node ∈ attempted) then continue attempted last_error w
      else
        let (lease, s) := sel_acquire (sel w) (node_id node) (max_concurrency node) in
        let w0 := with_sel w s in
        match lease with
        | None => continue attempted last_error w0
        | Some id =>
            let attempted := attempted ∪ {[node_id node]} in
            let failed w := record_transfer (observe_node w (node_id node) 0 (elapsed w0 w) false) (node_id node) 0 false in
            match request w0 node GET path h ForwardClient with
            | (Ok response, w) =>
                if is_success (r_status response) then
                  let (s, w) := open_relay layout nodes index node response id timeout path h key expected
                                  (observe_node w (node_id node) 0 (elapsed w0 w) true) in
                  (Opens s, w)
                else
                  continue attempted
                    (Some (Upstream (Node.name (Model.node node) +:+ " returned " +:+ status_text (r_status response))))
                    (release (if r_status response =? 404 then w else failed w) id)
            | (Err e, w) => continue attempted (Some e) (release (failed w) id)
            end
        end
  end.

Fixpoint open_loop (fuel : nat) (layout : SchedulerRuntimeConfig) (nodes : list NodeView) (timeout : Z)
    (path : string) (h : HeaderMap) (key : string) (expected : option string) (attempted : gset Uuid)
    (last_error : option AppError) (w : World) : option (ApiResult Streamed * World) :=
  match fuel with
  | O => None
  | Datatypes.S fuel =>
      match open_candidates layout nodes nodes 0 timeout path h key expected attempted last_error w with
      | (Opens s, w) => Some (Ok s, w)
      | (Closed attempted last_error, w) =>
          if (base.size attempted =? length nodes)%nat
          then Some (Err (unwrap_or last_error (Unavailable "all upstream nodes failed")), w)
          else open_loop fuel layout nodes timeout path h key expected attempted last_error (tick w)
      end
  end.

(** [stream_blob]: the cache, the flight lock, the cache again, the memory of a
    sequential stream and the first node that answers.  [None] also when another
    flight holds the key. *)
Definition stream_blob (fuel : nat) (layout : SchedulerRuntimeConfig) (timeout : Z) (path : string) (h : HeaderMap)
    (expected : option string) (nodes : list NodeView) (w : World) : option (ApiResult Streamed * World) :=
  let (nodes, w) := ordered_stream_nodes nodes path w in
  match nodes with
  | [] => Some (Err (Unavailable "no enabled Registry nodes are available for Blob streaming"), w)
  | node :: _ =>
      let public_route := forallb (fun v => (Node.auth_mode (Model.node v) =?s "none")
                                            && is_none (Node.auth_secret_enc (Model.node v))) nodes in
      let key := Cache.request_key key_hash (cache w) (uuid_text (RouteSummary.id (route node))) path
                   (header_str h "authorization") public_route in
      let (hit, c) := Cache.get (cache w) key (now w) in
      let w := with_cache w c in
      match hit with
      | Some object => Some (Ok (FromCache object), w)
      | None =>
          let* c := Cache.lock (cache w) key in
          let w := tick (with_cache w c) in
          let (hit, c) := Cache.get (cache w) key (now w) in
          let w := with_cache w c in
          let unlocked w := with_cache w (Cache.unlock (cache w) key) in
          match hit with
          | Some object => Some (Ok (FromCache object), unlocked w)
          | None =>
              match (let? _ := Memory.acquire_check SEQUENTIAL_STREAM_MEMORY_BYTES in memory_wait (ticks w)) with
              | Err e => Some (Err e, unlocked w)
              | Ok _ =>
                  let* (r, w) := open_loop fuel layout nodes timeout path h key expected ∅ None w in
                  Some (r, match r with Ok _ => w | Err _ => unlocked w end)
              end
          end
      end
  end.

(** The streamed response: the relay runs to its end, releasing the flight, and the
    client sees the body it was fed. *)
Definition run_relay (fuel waits : nat) (relay : StreamRelay + UnknownBlobRelay) (w : World)
    : option (ApiResult unit * bytes * World) :=
  let* (result, s) := match relay with
                      | inl r => relay_stream_blob_inner fuel waits r w
                      | inr u => relay_unknown_blob u w
                      end in
  let key := match relay with inl r => sr_key r | inr u => ub_key u end in
  let w := wire s in
  Some (result, sent s, with_cache w (Cache.unlock (cache w) key)).

(** ** Resumed responses

    What every caller of a resume relies on: files and the cache index are left alone,
    time does not run backwards, and the response announces exactly the missing
    window. *)

Definition entries (w : World) : gmap string Cache.CacheRecord := Cache.entries (cache w).

Record quiet (w w' : World) : Prop := {
  q_fs : fs w' = fs w;
  q_ticks : (ticks w <= ticks w')%nat;
  q_entries : entries w' = entries w
}.

#[local] Instance quiet_preorder : PreOrder quiet.
Proof. split; [by split|]. intros w1 w2 w3 [] []. split; [congruence|lia|congruence]. Qed.

Lemma quiet_tick w : quiet w (tick w).
Proof. split; simpl; [done|lia|done]. Qed.

Lemma quiet_same w w' : cache w' = cache w -> ticks w' = ticks w -> quiet w w'.
Proof. intros Hc Ht. split; [unfold Download.fs; by rewrite Hc|lia|unfold entries; by rewrite Hc]. Qed.

Lemma quiet_request w node m path h range r w' : request w node m path h range = (r, w') -> quiet w w'.
Proof. intros [= <- <-]. split; simpl; [done|lia|done]. Qed.

Definition answers (nodes : list NodeView) (path : string) (h : HeaderMap) (start end_ total : Z) (o : Opened) : Prop :=
  stream_window (op_response o) = Some {| win_start := start; win_end := end_; win_total := total |} /\
  (exists n node range, send n node GET path h range = Ok (op_response o)) /\
  is_Some (nodes !! op_index o).

Lemma window_is_true r a b t :
  window_is r a b t = true -> stream_window r = Some {| win_start := a; win_end := b; win_total := t |}.
Proof.
  unfold window_is. destruct (stream_window r) as [[x y z]|]; [|done]. simpl. intros H. bool_hyps. by subst.
Qed.

Lemma position_lookup nodes id i : position nodes id = Some i -> is_Some (nodes !! i).
Proof.
  unfold position. destruct (list_find _ nodes) as [[j v]|] eqn:E; [|done]. intros [= <-].
  apply list_find_Some in E as [H _]. by eexists.
Qed.

Lemma resume_candidates_spec dl l nodes path h a b t attempted delay last w p w' :
  resume_candidates dl l nodes path h a b t attempted delay last w = (p, w') ->
  quiet w w' /\ match p with Answered o => answers nodes path h a b t o | _ => True end.
Proof.
  revert attempted delay last w. induction l as [|node l IH]; intros attempted delay last w; cbn [resume_candidates].
  { intros [= <- <-]. by split. }
  destruct (position nodes (node_id node)) as [i|] eqn:Ei; [|apply IH].
  destruct (sel_acquire _ _ _) as [[id|] s0]; [|intros [Hq Hp]%IH; split; [|done]; by transitivity (with_sel w s0)].
  destruct (request (with_sel w s0) node GET path h (Exact a b)) as [res w1] eqn:Er.
  pose proof (quiet_request _ _ _ _ _ _ _ _ Er) as Hq.
  assert (quiet w w1) as Hq1 by (transitivity (with_sel w s0); [by apply quiet_same|done]).
  destruct (dl <=? now w1).
  { intros [= <- <-]. split; [|done]. transitivity w1; [done|by apply quiet_same]. }
  destruct res as [resp|e].
  - destruct ((r_status resp =? PARTIAL_CONTENT) && window_is resp a b t) eqn:Ew.
    + intros [= <- <-]. split; [transitivity w1; [done|by apply quiet_same]|]. bool_hyps.
      split; [by apply window_is_true|]. split; [|by eapply position_lookup].
      injection Er as Es _. by exists (ticks (with_sel w s0)), node, (Exact a b).
    + intros [Hq2 Hp]%IH. split; [|done]. etransitivity; [exact Hq1|]. etransitivity; [|exact Hq2].
      destruct (r_status resp =? 404); by apply quiet_same.
  - intros [Hq2 Hp]%IH. split; [|done]. etransitivity; [exact Hq1|]. etransitivity; [|exact Hq2]. by apply quiet_same.
Qed.

Lemma resume_loop_spec fuel round since dl nodes current path h a b t last w r w' :
  resume_loop fuel round since dl nodes current path h a b t last w = Some (r, w') ->
  quiet w w' /\ match r with Ok o => answers nodes path h a b t o | Err _ => True end.
Proof.
  revert round last w. induction fuel as [|fuel IH]; intros round last w; [done|]. cbn [resume_loop].
  destruct (dl <=? now w); [by intros [= <- <-]|].
  destruct (sel_order _ _ _ _ _) as [ordered s0].
  destruct (resume_candidates _ _ _ _ _ _ _ _ _ _ _ _) as [p w1] eqn:E.
  apply resume_candidates_spec in E as [Hq Hp].
  assert (quiet w w1) as Hq1 by (transitivity (with_sel w s0); [by apply quiet_same|done]).
  destruct p as [o| |attempted delay last']; [by intros [= <- <-]..|].
  assert (quiet w (tick w1)) as Hq2 by (transitivity w1; [done|apply quiet_tick]).
  destruct (negb attempted).
  - intros [H1 H2]%IH. split; [|done]. by transitivity (tick w1).
  - destruct (next_backoff since round) as [d|]; [|by intros [= <- <-]].
    intros [H1 H2]%IH. split; [|done]. by transitivity (tick w1).
Qed.

Lemma resume_spec fuel dl nodes current path h a b t w r w' :
  resume_stream_response fuel dl nodes current path h a b t w = Some (r, w') ->
  quiet w w' /\ match r with Ok o => answers nodes path h a b t o | Err _ => True end.
Proof.
  unfold resume_stream_response. destruct (is_some _); [by intros [= <- <-]|].
  destruct nodes as [|v nodes]; [by intros [= <- <-]|].
  destruct ((v :: nodes) !! current); [|by intros [= <- <-]]. apply resume_loop_spec.
Qed.

(** ** The relay invariant

    [target] is what an honest upstream would have sent; [fair] says that the upstream
    is honest.  Between steps the partial file holds exactly what was sent, which is
    what was hashed of a whole blob, and the offset is where the next byte goes. *)

Definition window_wf (win : StreamWindow) : Prop := 0 <= win_start win <= win_end win /\ win_end win < u64_max.
Definition window_length (win : StreamWindow) : Z := win_end win - win_start win + 1.

Section Invariant.
Variable partial : string.
Variable complete : bool.
Variable timeout : Z.
Variable win : StreamWindow.
Variable target : bytes.
Variable fair : Prop.
Hypothesis Hwin : window_wf win.

(** What holds of a relay that has failed, too. *)
Definition bounded (s : Wire) : Prop :=
  blen (sent s) <= window_length win /\ (fair -> sent s `prefix_of` target).

Record synced (s : Wire) : Prop := {
  sy_file : fs (wire s) !! partial = Some (sent s);
  sy_hash : complete = true -> hashed s = sent s;
  sy_offset : offset s = win_start win + blen (sent s);
  sy_bounded : bounded s
}.

Lemma synced_wire s w : fs w = fs (wire s) -> synced s -> synced (with_wire s w).
Proof. intros Hf []. split; simpl; try done. by rewrite Hf. Qed.

Lemma synced_fields s s' : wire s' = wire s -> offset s' = offset s -> hashed s' = hashed s -> sent s' = sent s ->
  synced s -> synced s'.
Proof. intros E1 E2 E3 E4 []. split; unfold bounded in *; by rewrite ?E1, ?E2, ?E3, ?E4. Qed.

Lemma fs_append w b c : fs w !! partial = Some c -> fs (append_file w partial b) !! partial = Some (c ++ b).
Proof. intros H. unfold append_file, Download.fs. simpl. rewrite lookup_insert_eq. fold (fs w). by rewrite H. Qed.

(** [feeds r s]: an honest response carries what is missing. *)
Definition feeds (l : list frame) (s : Wire) : Prop :=
  fair -> body_data l `prefix_of` drop (length (sent s)) target.

Lemma prefix_extend (a b c t : bytes) : a `prefix_of` t -> (b ++ c) `prefix_of` drop (length a) t -> (a ++ b) `prefix_of` t.
Proof. intros [k ->]. rewrite drop_app_length. intros [j ->]. exists (c ++ j). by rewrite !app_assoc. Qed.

Lemma drop_extend (a b c t : bytes) : a `prefix_of` t -> (b ++ c) `prefix_of` drop (length a) t ->
  c `prefix_of` drop (length (a ++ b)) t.
Proof.
  intros [k ->]. rewrite drop_app_length. intros [j ->]. exists j.
  rewrite <- !app_assoc, app_assoc, drop_app_length. done.
Qed.

Lemma remaining_Some off n : remaining_window_bytes (win_end win) off = Some n -> n = win_end win + 1 - off.
Proof. unfold remaining_window_bytes, checked_sub, checked_add. repeat case_match; intros; simplify_eq/=. lia. Qed.

Lemma relay_chunk_spec b rest s r s' :
  b <> [] -> blen b <= win_end win + 1 - offset s -> synced s -> (fair -> (b ++ rest) `prefix_of` drop (length (sent s)) target) ->
  relay_chunk partial complete timeout b s = (r, s') ->
  match r with
  | Err _ => bounded s'
  | Ok _ => synced s' /\ sent s' = sent s ++ b /\ stalled_responses s' = 0%nat /\
            transferred s' = wrap64 (transferred s + blen b) /\ deadline s' = now (wire s') + timeout
  end.
Proof.
  intros Hne Hb Hs Hfair. unfold relay_chunk. pose proof (sy_bounded _ Hs) as Hbd. pose proof (sy_offset _ Hs) as Ho.
  destruct (closes _) as [k|]; [by intros [= <- <-]|].
  destruct (send_relay_chunk _) as [[]|e]; intros [= <- <-]; [|done].
  split; [|done]. pose proof (blen_nonneg (sent s)). pose proof (blen_nonneg b). unfold window_wf in Hwin.
  split; simpl.
  - apply (fs_append _ b), (sy_file _ Hs).
  - intros Hc. rewrite Hc. by rewrite (sy_hash _ Hs Hc).
  - rewrite blen_app, Ho, wrap64_small; [lia|]. unfold u64_range, u64_max in *. lia.
  - unfold bounded, window_length. simpl. rewrite blen_app. split; [lia|].
    intros Hf. eapply prefix_extend; [by apply Hbd|by apply Hfair].
Qed.

Lemma relay_frames_spec l s r s' :
  synced s -> feeds l s -> relay_frames partial complete timeout (win_end win) l s = (r, s') ->
  bounded s' /\
  (is_ok r = true -> synced s' /\ exists taken, sent s' = sent s ++ taken /\
     (0 <= transferred s -> transferred s + (win_end win + 1 - offset s) <= u64_max ->
      transferred s' = transferred s + blen taken) /\
     stalled_responses s' = if bool_decide (taken = []) then stalled_responses s else 0%nat).
Proof.
  revert s. induction l as [|f l IH]; intros s Hs Hf; cbn [relay_frames];
    set (s1 := with_wire s (tick (wire s))); (assert (synced s1) as Hs1 by (by apply synced_wire)).
  all: assert (sent s1 = sent s ++ [] /\
     (0 <= transferred s -> transferred s + (win_end win + 1 - offset s) <= u64_max -> transferred s1 = transferred s + blen []) /\
     stalled_responses s1 = if bool_decide ([] =@{bytes} []) then stalled_responses s else 0%nat) as Hsame
     by (split; [by rewrite app_nil_r|]; split; [intros; unfold blen; simpl; lia|done]).
  all: destruct (deadline s1 <=? now (wire s1));
    [intros [= <- <-]; split; [apply Hs1|intros _; split; [done|by exists []]]|].
  { intros [= <- <-]. split; [apply Hs1|]. intros _. split; [done|by exists []]. }
  destruct f as [b|m].
  2: { intros [= <- <-]. split; [apply Hs1|]. intros _. split; [done|by exists []]. }
  destruct b as [|x b]; [by apply (IH s1)|]. set (c := x :: b) in *.
  destruct (remaining_window_bytes _ _) as [n|] eqn:En; [|intros [= <- <-]; by split; [apply Hs1|]].
  apply remaining_Some in En. destruct (Z.ltb_spec n (blen c)); [intros [= <- <-]; by split; [apply Hs1|]|].
  destruct (relay_chunk _ _ _ c s1) as [rc s2] eqn:Ec.
  apply (relay_chunk_spec c (body_data l)) in Ec; [|done|lia|done|exact Hf].
  destruct rc as [[]|e]; [|intros [= <- <-]; by split].
  destruct Ec as (Hs2 & Hsent & Hst & Htr & _). intros Hrun.
  apply IH in Hrun as [Hb Hok]; [|done|].
  2: { intros Hfr. rewrite Hsent. apply (drop_extend _ _ (body_data l)); [by apply (sy_bounded _ Hs)|by apply Hf]. }
  split; [done|]. intros Hr. destruct (Hok Hr) as (Hsy & taken & E & Ht & Hstl). split; [done|].
  exists (c ++ taken). split; [by rewrite E, Hsent, app_assoc|]. pose proof (sy_offset _ Hs1) as Ho1.
  pose proof (sy_offset _ Hs2) as Ho2. rewrite Hsent, blen_app in Ho2. pose proof (blen_nonneg c).
  change (offset s1) with (offset s) in *. change (sent s1) with (sent s) in *. change (transferred s1) with (transferred s) in *.
  split.
  - intros Htr0 Htr1. rewrite wrap64_small in Htr by (unfold u64_range; lia). rewrite Ht, blen_app by lia. lia.
  - rewrite (bool_decide_eq_false_2 (c ++ taken = [])) by done. rewrite Hstl, Hst. by case_bool_decide.
Qed.

(** *** The sequential loop *)

Variable path : string.
Variable h : HeaderMap.
Hypothesis rechunk_data : forall l, body_data (rechunk l) = body_data l.
Hypothesis fair_windows : fair -> forall n node range r w0, send n node GET path h range = Ok r ->
  stream_window r = Some w0 -> win_start win <= win_start w0 -> win_end w0 <= win_end win ->
  body_data (r_body r) `prefix_of` drop (Z.to_nat (win_start w0 - win_start win)) target.

Definition feeds_next (response : option (Response * Uuid)) (s : Wire) : Prop :=
  match response with Some (r, _) => feeds (r_body r) s | None => True end.

Lemma feeds_rechunk l s : feeds l s -> feeds (rechunk l) s.
Proof. unfold feeds. by rewrite rechunk_data. Qed.

Lemma answer_feeds nodes t o s :
  synced s -> answers nodes path h (offset s) (win_end win) t o -> feeds (r_body (op_response o)) s.
Proof.
  intros Hs (Hw & (n & node & range & Hsend) & _) Hf. pose proof (sy_offset _ Hs).
  pose proof (blen_nonneg (sent s)). pose proof (fair_windows Hf _ _ _ _ _ Hsend Hw) as Hp. simpl in Hp.
  replace (Z.to_nat (offset s - win_start win)) with (length (sent s)) in Hp by (unfold blen in *; lia).
  apply Hp; lia.
Qed.

Lemma relay_loop_spec fuel waits nodes current response s r s' :
  synced s -> feeds_next response s ->
  relay_loop partial complete timeout fuel waits nodes path h win current response s = Some (r, s') ->
  bounded s' /\ (r = Ok tt -> synced s' /\ win_end win < offset s').
Proof.
  revert current response s. induction fuel as [|fuel IH]; intros current response s Hs Hn; cbn [relay_loop];
    (destruct (Z.ltb_spec (win_end win) (offset s)); [intros [= <- <-]; split; [apply Hs|done]|]); [done|].
  destruct response as [[resp lease]|]; [|intros [= <- <-]; by split; [apply Hs|]].
  destruct (relay_frames _ _ _ _ _ (next_response s)) as [out s1] eqn:Ef.
  apply relay_frames_spec in Ef as [Hb Hok]; [|by apply (synced_fields s)|by apply feeds_rechunk].
  destruct out as [err|e]; [|intros [= <- <-]; by split]. destruct (Hok eq_refl) as [Hs1 _].
  destruct (nodes !! current) as [node|]; [|intros [= <- <-]; by split].
  set (done_ := win_end win <? offset s1). set (s2 := report _ _ _ _).
  assert (synced s2) as Hs2 by (by apply (synced_wire s1)).
  destruct done_ eqn:Ed.
  { intros [= <- <-]. split; [apply Hs2|]. intros _. split; [done|]. by apply Z.ltb_lt. }
  set (s3 := if transferred s2 =? 0 then stall s2 else s2).
  assert (synced s3) as Hs3 by (unfold s3; destruct (_ =? 0); [by apply (synced_fields s2)|done]).
  destruct (_ && _); [intros [= <- <-]; by split; [apply Hs3|]|].
  set (s4 := with_wire s3 _). assert (synced s4) as Hs4 by (by apply synced_wire).
  destruct (resume_stream_response _ _ _ _ _ _ _ _ _ _) as [[resumed w]|] eqn:Er; [|done].
  apply resume_spec in Er as [[Hq _ _] Ho].
  assert (synced (with_wire s4 w)) as Hs5 by (by apply synced_wire).
  destruct resumed as [o|e]; [|intros [= <- <-]; by split; [apply Hs5|]].
  apply IH; [done|]. by eapply (answer_feeds nodes _ o s4).
Qed.

(** *** Replay *)

Lemma replay_spec l b s r s' :
  sent s ++ mjoin l = b -> hashed s = sent s -> offset s = win_start win + blen (sent s) ->
  blen b <= window_length win -> (fair -> b `prefix_of` target) -> replay timeout l s = (r, s') ->
  bounded s' /\ fs (wire s') = fs (wire s) /\
  (r = Ok tt -> sent s' = b /\ hashed s' = b /\ offset s' = win_start win + blen b).
Proof.
  intros Hb Hh Ho Hlen Hfair. revert s Hb Hh Ho. induction l as [|x l IH]; intros s Hb Hh Ho; cbn [replay].
  - rewrite app_nil_r in Hb. intros [= <- <-]. subst b. by split; [split|].
  - assert (bounded s) as Hbd.
    { subst b. rewrite blen_app in Hlen. pose proof (blen_nonneg (mjoin (x :: l))). split; [lia|].
      intros Hf. etransitivity; [|by apply Hfair]. by exists (mjoin (x :: l)). }
    destruct (closes _); [by intros [= <- <-]|].
    destruct (send_relay_chunk _) as [[]|e]; [|by intros [= <- <-]].
    intros H. apply IH in H as (H1 & H2 & H3); simpl.
    + split; [done|]. split; [by rewrite H2|done].
    + by rewrite <- app_assoc.
    + by rewrite Hh.
    + unfold window_wf, window_length in *. subst b. rewrite !blen_app in *. change (mjoin (x :: l)) with (x ++ mjoin l) in *.
      rewrite blen_app in Hlen. pose proof (blen_nonneg (sent s)). pose proof (blen_nonneg x).
      pose proof (blen_nonneg (mjoin l)). rewrite Ho, wrap64_small; unfold u64_range, u64_max in *; lia.
Qed.

(** *** Parallel ranges *)

Definition fetched (c : StreamChunk) (b : bytes) : Prop :=
  blen b = sc_end c - sc_start c + 1 /\
  exists n node range r, send n node GET path h range = Ok r /\ b = body_data (r_body r) /\
    stream_window r = Some {| win_start := sc_start c; win_end := sc_end c; win_total := sc_total c |}.

Lemma collect_spec l expected acc w r w' :
  collect l expected acc w = (r, w') ->
  quiet w w' /\ (forall b, r = Ok b -> b = acc ++ body_data l /\ blen b = expected).
Proof.
  revert acc w. induction l as [|[b|m] l IH]; intros acc w; cbn [collect body_data].
  - destruct (Z.eqb_spec (blen acc) expected); intros [= <- <-]; split; try done.
    intros ? [= <-]. by rewrite app_nil_r.
  - destruct (_ <? _); [by intros [= <- <-]|]. intros [Hq Hr]%IH. split.
    { etransitivity; [|exact Hq]. by split. }
    intros x Hx. destruct (Hr x Hx) as [-> ?]. by rewrite app_assoc.
  - by intros [= <- <-].
Qed.

Lemma attempt_chunk_spec c node w a w' :
  attempt_chunk c path h node w = (a, w') ->
  quiet w w' /\ (forall b, at_result a = Ok b -> fetched c b).
Proof.
  unfold attempt_chunk. destruct (request _ _ _ _ _ _) as [[r|e] w1] eqn:Er.
  2: { intros [= <- <-]. split; [|done]. by eapply quiet_request. }
  pose proof (quiet_request _ _ _ _ _ _ _ _ Er) as Hq.
  destruct (negb (is_success _)); [by intros [= <- <-]|].
  destruct (negb (_ =? _) || _) eqn:Ew; [by intros [= <- <-]|].
  destruct (collect _ _ _ _) as [res w2] eqn:Ec. apply collect_spec in Ec as [Hq2 Hc].
  intros [= <- <-]. split; [by transitivity w1|]. intros b Hb. destruct (Hc b Hb) as [-> Hlen].
  split; [done|]. apply orb_false_iff in Ew as [_ Ew]. apply negb_false_iff, window_is_true in Ew.
  injection Er as Es _. exists (ticks w), node, (Exact (sc_start c) (sc_end c)), r. done.
Qed.

Lemma chunk_candidates_spec l nodes c failures attempted delay last w p f w' :
  chunk_candidates l nodes c path h failures attempted delay last w = (p, f, w') ->
  quiet w w' /\ match p with Fetched b => fetched c b | _ => True end.
Proof.
  revert failures attempted delay last w.
  induction l as [|node l IH]; intros failures attempted delay last w; cbn [chunk_candidates].
  { intros [= <- <- <-]. by split. }
  case_bool_decide; [apply IH|].
  destruct (sel_acquire _ _ _) as [[id|] s0].
  2: { intros [Hq Hp]%IH. split; [|done]. transitivity (with_sel w s0); [by apply quiet_same|done]. }
  destruct (attempt_chunk c path h node (with_sel w s0)) as [a w1] eqn:Ea.
  apply attempt_chunk_spec in Ea as [Hq Ha]. set (w2 := if at_penalize a then _ else _).
  assert (quiet w w2) as Hq2.
  { transitivity (with_sel w s0); [by apply quiet_same|]. transitivity w1; [done|].
    unfold w2. destruct (at_penalize a); by apply quiet_same. }
  destruct (at_result a) as [b|e] eqn:Er.
  - intros [= <- <- <-]. split; [done|]. by apply Ha.
  - intros [Hq3 Hp]%IH. split; [|done]. etransitivity; [exact Hq2|]. etransitivity; [|exact Hq3]. by apply quiet_same.
Qed.

Lemma fetch_parallel_chunk_spec fuel round since nodes c failures last w r f w' :
  fetch_parallel_chunk fuel round since nodes c path h failures last w = Some (r, f, w') ->
  quiet w w' /\ (forall b, r = Ok b -> fetched c b).
Proof.
  revert round failures last w. induction fuel as [|fuel IH]; intros round failures last w; [done|].
  cbn [fetch_parallel_chunk]. destruct (List.filter _ nodes) as [|v l]; [by intros [= <- <- <-]|].
  destruct (sel_order _ _ _ _ _) as [cands s0].
  destruct (chunk_candidates _ _ _ _ _ _ _ _ _ _) as [[p f1] w1] eqn:Ec.
  apply chunk_candidates_spec in Ec as [Hq Hp].
  assert (quiet w w1) as Hq1 by (transitivity (with_sel w s0); [by apply quiet_same|done]).
  destruct p as [b|attempted delay last'].
  { intros [= <- <- <-]. split; [done|]. by intros ? [= <-]. }
  destruct (_ <=? _)%nat; [by intros [= <- <- <-]|].
  assert (quiet w (tick w1)) as Hq2 by (transitivity w1; [done|apply quiet_tick]).
  destruct (negb attempted).
  - intros [H1 H2]%IH. split; [|done]. by transitivity (tick w1).
  - destruct (next_backoff since round); [|by intros [= <- <- <-]].
    intros [H1 H2]%IH. split; [|done]. by transitivity (tick w1).
Qed.

(** The state with its offset after what was sent. *)
Definition realign (s : Wire) : Wire :=
  {| wire := wire s; offset := win_start win + blen (sent s); hashed := hashed s; sent := sent s;
     deadline := deadline s; stalled_responses := stalled_responses s; transferred := transferred s;
     non_network_wait := non_network_wait s |}.

Lemma relay_ranges_spec fuel nodes cs l failures s r s' :
  complete = true -> synced (realign s) ->
  tiling cs (win_start win + blen (sent s)) (win_end win + 1) (stream_range_of <$> l) ->
  relay_ranges fuel partial nodes path h l failures s = Some (r, s') ->
  bounded s' /\ (r = Ok tt -> synced (realign s') /\ win_start win + blen (sent s') = win_end win + 1).
Proof.
  intros Hcomp. revert failures s. induction l as [|c l IH]; intros failures s Hs Ht; cbn [relay_ranges].
  { intros [= <- <-]. split; [apply Hs|]. intros _. split; [done|]. by inversion Ht. }
  pose proof (sy_bounded _ Hs) as Hbd. change (bounded s) in Hbd.
  destruct (chunk_memory c (wire s)); [|by intros [= <- <-]].
  destruct (fetch_parallel_chunk _ _ _ _ _ _ _ _ _ _) as [[[res f] w]|] eqn:Ef; [|done].
  apply fetch_parallel_chunk_spec in Ef as [[Hq _ _] Hf].
  destruct res as [b|e]; [|by intros [= <- <-]]. destruct (Hf b eq_refl) as [Hlen (n & node & range & resp & Hsend & Hb & Hw)].
  destruct (closes _); [by intros [= <- <-]|]. destruct (send_relay_chunk _) as [[]|e]; [|by intros [= <- <-]].
  apply tiling_cons_inv in Ht as (Hst & Hae & _ & Htl). pose proof (tiling_le _ _ _ _ Htl).
  apply IH; [|simpl; rewrite blen_app; by replace (win_start win + (blen (sent s) + blen b)) with (sc_end c + 1) by lia].
  pose proof (blen_nonneg (sent s)). split; simpl.
  - unfold append_file, Download.fs. simpl. rewrite lookup_insert_eq. fold (fs w). rewrite Hq.
    by rewrite (sy_file _ Hs : fs (wire s) !! partial = Some (sent s)).
  - intros _. by rewrite (sy_hash _ Hs Hcomp : hashed s = sent s).
  - done.
  - unfold bounded, window_length. simpl. rewrite blen_app. split; [lia|]. intros Hfr.
    pose proof (fair_windows Hfr _ _ _ _ _ Hsend Hw) as Hp. simpl in Hp. rewrite <- Hb in Hp.
    replace (Z.to_nat (sc_start c - win_start win)) with (length (sent s)) in Hp by (unfold blen in *; lia).
    apply (prefix_extend _ _ []); [by apply Hbd|]. rewrite app_nil_r. apply Hp; lia.
Qed.

(** *** The whole relay *)

Lemma synced_realign s : synced s -> synced (realign s).
Proof using Type. intros []. by split. Qed.

Lemma drop_response_wire response s : synced s -> synced (drop_response response s).
Proof. destruct response as [[r lease]|]; [|done]. intros Hs. by apply synced_wire. Qed.

Lemma relay_window_spec fuel waits r current response s res s' :
  sr_window r = win -> sr_path r = path -> sr_headers r = h -> progress_timeout (sr_client_idle_timeout r) = timeout ->
  (forall config, sr_parallel r = Some config -> complete = true /\ sd_chunk_size config <= u64_max) ->
  synced s -> feeds_next response s ->
  relay_window fuel waits r partial complete current response s = Some (res, s') ->
  bounded s' /\ (res = Ok tt -> synced s' /\ win_end win < offset s').
Proof.
  intros Hw Hp Hh Hto Hpar Hs Hn. unfold relay_window. rewrite Hw, Hp, Hh, Hto.
  destruct (sr_parallel r) as [config|]; [|by apply relay_loop_spec].
  destruct (Z.leb_spec (offset s) (win_end win)) as [Hle|]; [|by apply relay_loop_spec].
  destruct (Hpar config eq_refl) as [Hcomp Hcs]. unfold relay_parallel_ranges.
  pose proof (drop_response_wire response s Hs) as Hd. set (sd := drop_response response s) in *.
  pose proof (sy_offset _ Hs) as Ho. pose proof (sy_offset _ Hd) as Hod. pose proof (blen_nonneg (sent s)).
  pose proof (blen_nonneg (sent sd)).
  assert (offset sd = offset s) as Eo by (unfold sd; by destruct response as [[]|]). unfold window_wf in Hwin.
  destruct (stream_chunks_spec (offset sd) (win_end win) (win_total win) (sd_chunk_size config))
    as (l & -> & Ht & _); [lia..|]. rewrite Hod in Ht.
  destruct (relay_ranges _ _ _ _ _ _ _ _) as [[res1 s1]|] eqn:Er; [|done].
  apply (relay_ranges_spec _ _ (Z.max (sd_chunk_size config) 1)) in Er as [Hb Hok]; [|done|by apply synced_realign|done].
  destruct res1 as [[]|e]; [|by intros [= <- <-]]. destruct (Hok eq_refl) as [Hs1 He].
  apply relay_loop_spec; [|done]. apply (synced_fields (realign s1)); try done. simpl.
  rewrite wrap64_small; [lia|]. unfold u64_range. lia.
Qed.
End Invariant.

(** The reads of a file return it in order. *)
Lemma pieces_join n b : (0 < n)%nat -> mjoin (pieces n b) = b.
Proof.
  intros Hn. unfold pieces. assert (forall fuel b, (length b <= fuel)%nat -> mjoin (pieces_loop fuel n b) = b) as H.
  { induction fuel as [|fuel IH]; intros x Hx; [by destruct x; simpl in *; [|lia]|]. destruct x as [|y x]; [done|].
    cbn [pieces_loop]. change (take n (y :: x) ++ mjoin (pieces_loop fuel n (drop n (y :: x))) = y :: x).
    rewrite IH; [apply take_drop|]. rewrite length_drop. simpl in *. lia. }
  by apply H.
Qed.

Definition partial_of (r : StreamRelay) (w : World) : string :=
  if covers_blob (sr_window r) then object_partial (sr_key r) else range_partial (ticks w).

Record relay_wf (r : StreamRelay) : Prop := {
  rw_window : window_wf (sr_window r);
  rw_parallel : forall config, sr_parallel r = Some config ->
    covers_blob (sr_window r) = true /\ sd_chunk_size config <= u64_max
}.

Lemma covers_blob_true win : covers_blob win = true -> win_start win = 0 /\ win_total win = window_length win.
Proof.
  unfold covers_blob, window_length, checked_add. intros [Hs%Z.eqb_eq He%bool_decide_eq_true]%andb_true_iff.
  destruct (_ <=? _); simplify_eq. lia.
Qed.

Section Whole.
Variable r : StreamRelay.
Variable w : World.
Variable target : bytes.
Variable fair : Prop.
Hypothesis Hr : relay_wf r.
Hypothesis fresh_dir : covers_blob (sr_window r) = false -> fs w !! range_partial (ticks w) = None.
Hypothesis fair_partial : fair -> forall b, fs w !! partial_of r w = Some b -> b `prefix_of` target.
Hypothesis rechunk_data : forall l, body_data (rechunk l) = body_data l.
Hypothesis fair_first : fair -> body_data (r_body (sr_response r)) `prefix_of` target.
Hypothesis fair_windows : fair -> forall n node range x w0,
  send n node GET (sr_path r) (sr_headers r) range = Ok x -> stream_window x = Some w0 ->
  win_start (sr_window r) <= win_start w0 -> win_end w0 <= win_end (sr_window r) ->
  body_data (r_body x) `prefix_of` drop (Z.to_nat (win_start w0 - win_start (sr_window r))) target.

Abbreviation win := (sr_window r).
Abbreviation partial := (partial_of r w).
Abbreviation complete := (covers_blob (sr_window r)).
Abbreviation timeout := (progress_timeout (sr_client_idle_timeout r)).
Abbreviation synced_r := (synced partial complete win target fair).
Abbreviation bounded_r := (bounded win target fair).

Lemma begin_bounded w' : bounded_r (begin win timeout w').
Proof. unfold bounded, window_length. simpl. pose proof (rw_window _ Hr) as [? ?]. split; [unfold blen; simpl; lia|]. intros _. apply prefix_nil. Qed.

Lemma existing_spec existing w1 :
  existing_partial partial complete (win_total win) w = (existing, w1) ->
  exists b, unwrap_or (fs w1 !! partial) [] = b /\ blen b = existing /\ (0 < existing -> fs w1 !! partial = Some b) /\
    (0 < existing -> complete = true) /\ blen b <= window_length win /\ (fair -> b `prefix_of` target).
Proof.
  pose proof (rw_window _ Hr) as Hwf. unfold window_wf in Hwf. unfold existing_partial, Download.len_or_zero.
  destruct complete eqn:Ec.
  - apply covers_blob_true in Ec as [H0 Ht]. rewrite Ht.
    destruct (Z.ltb_spec (window_length win) (unwrap_or (blen <$> fs w !! partial) 0)); intros [= <- <-].
    + exists []. unfold Download.remove_path, Download.fs. simpl. unfold remove_file. rewrite lookup_delete_eq.
      unfold window_length. split; [done|]. split; [done|]. split; [lia|]. split; [lia|]. split; [unfold blen; simpl; lia|].
      intros _. apply prefix_nil.
    + exists (unwrap_or (fs w !! partial) []). split; [done|].
      destruct (fs w !! partial) as [b|] eqn:Eb; simpl in *.
      * split_and!; try done. intros Hf. by apply fair_partial.
      * unfold blen; simpl. split_and!; try done; try lia. intros _. apply prefix_nil.
  - assert ((win_total win <? 0) = true \/ (win_total win <? 0) = false) as Hlt by (by destruct (_ <? _); auto).
    unfold partial_of. rewrite Ec. specialize (fresh_dir eq_refl).
    assert (forall f : Fs, f = fs w \/ f = delete (range_partial (ticks w)) (fs w) -> f !! range_partial (ticks w) = None) as Hn.
    { intros f [-> | ->]; [done|]. apply lookup_delete_eq. }
    destruct Hlt as [-> | ->]; intros [= <- <-]; exists []; unfold window_length, blen; simpl.
    all: rewrite Hn by (auto; by right); split_and!; try done; try lia; intros _; apply prefix_nil.
Qed.

Lemma open_synced s b :
  fs (wire s) !! partial = Some b \/ (fs (wire s) !! partial = None /\ b = []) ->
  sent s = b -> (complete = true -> hashed s = b) -> offset s = win_start win + blen b -> bounded_r s ->
  synced_r (with_wire s (open_append partial (wire s))).
Proof.
  intros Hf Hs Hh Ho Hb. split; simpl; subst b; try done.
  unfold open_append, append_file, Download.fs. simpl. rewrite lookup_insert_eq. fold (fs (wire s)).
  destruct Hf as [-> | [-> E]]; simpl; [by rewrite app_nil_r|by rewrite E].
Qed.

(** After the start of a relay, the file holds what was replayed. *)
Definition started_ok (s : Wire) (res : ApiResult (nat * option (Response * Uuid))) : Prop :=
  match res with
  | Err _ => True
  | Ok (_, response) =>
      synced_r (with_wire s (open_append partial (wire s))) /\ feeds_next target fair response s
  end.

Lemma start_relay_spec waits existing w1 res s :
  existing_partial partial complete (win_total win) w = (existing, w1) ->
  start_relay waits r partial existing (begin win timeout w1) = Some (res, s) ->
  bounded_r s /\ started_ok s res.
Proof.
  intros He. destruct (existing_spec _ _ He) as (b & Hb & Hlen & Hfile & Hcomp & Hle & Hfair). unfold start_relay.
  destruct (Z.ltb_spec 0 existing) as [Hpos|Hz].
  2: { intros [= <- <-]. split; [apply begin_bounded|]. assert (b = []) as -> by (destruct b; [done|unfold blen in *; simpl in *; lia]).
       split; [|exact fair_first]. apply (open_synced _ []).
       - simpl. destruct (fs w1 !! partial) as [x|] eqn:E; [left; by simpl in Hb; subst|by right].
       - done.
       - done.
       - simpl. unfold blen. simpl. lia.
       - apply begin_bounded. }
  specialize (Hfile Hpos). specialize (Hcomp Hpos). set (s0 := drop_lease _ _).
  change (fs (wire s0)) with (fs w1). rewrite Hfile. cbn [unwrap_or].
  destruct (replay _ _ s0) as [rr s1] eqn:Er.
  apply (replay_spec timeout win target fair (rw_window _ Hr) _ _ fair_windows _ b) in Er as (Hb1 & Hfs & Hok); try done.
  2: { simpl. apply pieces_join. unfold STREAM_READ_BYTES. lia. }
  2: { simpl. unfold blen. simpl. lia. }
  destruct rr as [[]|e]; [|by intros [= <- <-]]. destruct (Hok eq_refl) as (Hsent & Hhash & Hoff).
  assert (synced_r s1) as Hs1.
  { split; [by rewrite Hfs, Hsent|by rewrite Hhash, Hsent|by rewrite Hsent|done]. }
  assert (forall w2, fs w2 = fs (wire s1) -> synced_r (with_wire (with_wire s1 w2) (open_append partial w2))) as Hopen.
  { intros w2 E2. apply (open_synced (with_wire s1 w2) b); try done. left. simpl. rewrite E2, Hfs. exact Hfile. }
  destruct (offset s1 <=? win_end win).
  2: { intros [= <- <-]. split; [done|]. split; [|done]. by apply (Hopen (wire s1)). }
  destruct (resume_stream_response _ _ _ _ _ _ _ _ _ _) as [[resumed w2]|] eqn:Eres; [|done].
  apply resume_spec in Eres as [[Hq _ _] Ho].
  destruct resumed as [o|e]; intros [= <- <-]; [|by split]. split; [done|]. split.
  - by apply (Hopen w2).
  - by eapply (answer_feeds partial complete win target fair (rw_window _ Hr) _ _ fair_windows _ _ o s1).
Qed.

Definition delivered (s : Wire) : Prop :=
  blen (sent s) = window_length win /\
  (complete = true -> fs (wire s) !! Cache.object_path data_dir (sr_key r) = Some (sent s) /\
     forall d, sr_expected_digest r = Some d -> d = digest_text (sent s)).

Lemma conclude_spec s res s' :
  complete = true -> synced_r s -> blen (sent s) = window_length win ->
  conclude (sr_key r) (sr_media_type r) (sr_expected_digest r) partial s = Some (res, s') ->
  bounded_r s' /\ (res = Ok tt -> delivered s').
Proof.
  intros Hc Hs Hlen. unfold conclude. destruct (is_some_and _ _) eqn:Ed.
  { intros [= <- <-]. split; [|done]. apply (sy_bounded _ _ _ _ _ _ Hs). }
  destruct (Cache.admit_object _ _ _ _ _ _ _ _ _ _) as [[ra c]|] eqn:Ea; [|done].
  intros [= <- <-]. split; [apply (sy_bounded _ _ _ _ _ _ Hs)|]. destruct ra as [o|e]; [|done]. intros _. split; [done|].
  intros _. unfold partial_of in *. rewrite Hc in *. unfold object_partial in *.
  apply (Cache.admit_content _ _ _ _ _ _ _ _ _ _ _ _ (Download.merged_outside data_dir (sr_key r))) in Ea as (x & Hx & Hf & _).
  pose proof (sy_file _ _ _ _ _ _ Hs) as Hsf. unfold Download.fs in Hsf. rewrite Hx in Hsf. injection Hsf as ->.
  split; [exact Hf|]. intros d Hd. rewrite Hd in Ed. simpl in Ed. apply negb_false_iff, str_eqb_eq in Ed.
  rewrite <- Ed. simpl. by rewrite (sy_hash _ _ _ _ _ _ Hs eq_refl).
Qed.

Lemma relay_inner_spec fuel waits res s :
  relay_stream_blob_inner fuel waits r w = Some (res, s) -> bounded_r s /\ (res = Ok tt -> delivered s).
Proof.
  unfold relay_stream_blob_inner. fold (partial_of r w).
  destruct (existing_partial _ _ _ _) as [existing w1] eqn:Ee.
  destruct (start_relay _ _ _ _ _) as [[started s1]|] eqn:Es; [|done].
  apply (start_relay_spec _ _ _ _ _ Ee) in Es as [Hb1 Hst].
  destruct started as [[current response]|e].
  2: { intros E. destruct complete; simplify_eq/=; by split. }
  destruct Hst as [Hs1 Hf]. set (s2 := with_wire s1 _) in *.
  destruct (relay_window _ _ _ _ _ _ _ _) as [[res1 s3]|] eqn:Ew; [|done].
  apply (relay_window_spec partial complete timeout win target fair (rw_window _ Hr) _ _ rechunk_data fair_windows)
    in Ew as [Hb3 Hok]; try done; [|apply (rw_parallel _ Hr)].
  destruct res1 as [[]|e].
  2: { intros E. destruct complete; simplify_eq/=; by split. }
  destruct (Hok eq_refl) as [Hs3 Hend]. pose proof (sy_offset _ _ _ _ _ _ Hs3) as Ho.
  assert (blen (sent s3) = window_length win) as Hlen by (destruct Hb3 as [Hb3 _]; unfold window_length in *; lia).
  pose proof (conclude_spec s3 res s) as Hconc. unfold delivered in *. destruct complete; [by apply Hconc|].
  intros [= <- <-]. by split.
Qed.
End Whole.

(** ** Bodies of unknown length *)

Lemma unknown_frames_spec partial timeout l s e s' :
  fs (wire s) !! partial = Some (sent s) -> hashed s = sent s ->
  unknown_frames partial timeout l s = (e, s') ->
  forall o, e = Finished (Ok tt) o -> fs (wire s') !! partial = Some (sent s') /\ hashed s' = sent s'.
Proof.
  revert s. induction l as [|f l IH]; intros s Hf Hh; cbn [unknown_frames]; (destruct (_ <=? _); [by intros [= <- <-]|]).
  { by intros [= <- <-]. }
  destruct f as [[|x b]|m]; [by refine (IH _ _ _)| |by intros [= <- <-]].
  destruct (closes _); [by intros [= <- <-]|]. destruct (send_relay_chunk _) as [[]|err]; [|by intros [= <- <-]].
  refine (IH _ _ _); simpl; [|by rewrite Hh]. by apply (fs_append partial).
Qed.

Lemma unknown_spec u w s :
  relay_unknown_blob u w = Some (Ok tt, s) ->
  fs (wire s) !! Cache.object_path data_dir (ub_key u) = Some (sent s) /\
  (forall d, ub_expected_digest u = Some d -> d = digest_text (sent s)).
Proof.
  unfold relay_unknown_blob. set (s0 := begin _ _ _).
  destruct (unknown_frames _ _ _ s0) as [e s1] eqn:Ef.
  assert (fs (wire s0) !! object_partial (ub_key u) = Some (sent s0)) as H0
    by (unfold Download.fs; simpl; apply lookup_insert_eq).
  pose proof (unknown_frames_spec _ _ _ _ _ _ H0 eq_refl Ef) as Hu.
  destruct e as [|[[]|err] o]; [done| |done]. destruct (Hu o eq_refl) as [Hf Hh]. unfold unknown_conclude.
  destruct (is_some_and _ _) eqn:Ed; [done|].
  destruct (Cache.admit_object _ _ _ _ _ _ _ _ _ _) as [[ra c]|] eqn:Ea; [|done].
  destruct ra as [obj|err]; [|done]. intros [= <-].
  apply (Cache.admit_content _ _ _ _ _ _ _ _ _ _ _ _ (Download.merged_outside data_dir (ub_key u))) in Ea as (x & Hx & Hfx & _).
  unfold Download.fs, object_partial in Hf. rewrite Hx in Hf. injection Hf as ->. split.
  - unfold Download.fs. simpl. rewrite lookup_remove_dir_all; [exact Hfx|]. apply Download.object_not_partial.
  - intros d Hd. rewrite Hd in Ed. simpl in Ed. apply negb_false_iff, str_eqb_eq in Ed. rewrite <- Ed. simpl. by rewrite Hh.
Qed.

(** ** Opening a stream *)

(** What the opened relay knows of the response it starts from. *)
Definition opened (layout : SchedulerRuntimeConfig) (path : string) (h : HeaderMap) (expected : option string)
    (up : Response) (known : option StreamWindow) (relay : StreamRelay + UnknownBlobRelay) : Prop :=
  (exists n node range, send n node GET path h range = Ok up) /\ known = stream_window up /\
  match relay with
  | inl r => known = Some (sr_window r) /\ sr_response r = up /\ sr_path r = path /\ sr_headers r = h /\
      sr_expected_digest r = expected /\
      exists nodes, sr_parallel r = parallel_config layout nodes (sr_window r) (r_headers up)
  | inr u => known = None /\ ub_response u = up /\ ub_expected_digest u = expected
  end.

Definition opened_pass layout path h expected (p : open_pass) : Prop :=
  match p with Opens (Relayed up known relay) => opened layout path h expected up known relay | _ => True end.

Lemma open_candidates_spec layout l nodes index timeout path h key expected attempted last w p w' :
  open_candidates layout l nodes index timeout path h key expected attempted last w = (p, w') ->
  opened_pass layout path h expected p.
Proof.
  revert index attempted last w. induction l as [|node l IH]; intros index attempted last w; cbn [open_candidates].
  { by intros [= <- <-]. }
  case_bool_decide; [apply IH|]. destruct (sel_acquire _ _ _) as [[id|] s0]; [|apply IH].
  destruct (request (with_sel w s0) node GET path h ForwardClient) as [[resp|e] w1] eqn:Er; [|apply IH].
  destruct (is_success (r_status resp)); [|apply IH]. injection Er as Hsend _.
  unfold open_relay. destruct (stream_window resp) as [win|] eqn:Ew; intros [= <- <-].
  all: split; [by eexists _, _, _|]; split; [done|]. 
  - split_and!; try done. by exists nodes.
  - done.
Qed.

Lemma open_loop_spec fuel layout nodes timeout path h key expected attempted last w up known relay w' :
  open_loop fuel layout nodes timeout path h key expected attempted last w = Some (Ok (Relayed up known relay), w') ->
  opened layout path h expected up known relay.
Proof.
  revert attempted last w. induction fuel as [|fuel IH]; intros attempted last w; [done|]. cbn [open_loop].
  destruct (open_candidates _ _ _ _ _ _ _ _ _ _ _ _) as [p w1] eqn:E. apply open_candidates_spec in E.
  destruct p as [st|attempted' last']; [by intros [= -> <-]|]. destruct (_ =? _)%nat; [done|]. apply IH.
Qed.

Lemma stream_blob_spec fuel layout timeout path h expected nodes w up known relay w' :
  stream_blob fuel layout timeout path h expected nodes w = Some (Ok (Relayed up known relay), w') ->
  opened layout path h expected up known relay.
Proof.
  unfold stream_blob. destruct (ordered_stream_nodes nodes path w) as [[|v l] w1]; [done|].
  destruct (Cache.get _ _ _) as [[o|] c]; [done|]. destruct (Cache.lock _ _) as [c2|]; [|done].
  destruct (Cache.get _ _ _) as [[o|] c3]; [done|].
  destruct (match Memory.acquire_check _ with Ok _ => _ | Err _ => _ end); [|done].
  destruct (open_loop _ _ _ _ _ _ _ _ _ _ _) as [[res w2]|] eqn:E; [|done].
  intros [= -> _]. by apply open_loop_spec in E.
Qed.

Lemma parallel_config_wf layout nodes win hs config :
  chunk_size layout <= u64_max -> parallel_config layout nodes win hs = Some config ->
  covers_blob win = true /\ sd_chunk_size config <= u64_max.
Proof.
  intros Hc. unfold parallel_config. destruct (_ && _) eqn:E; [|done]. intros [= <-]. bool_hyps. split; [done|].
  unfold stream_download_config. simpl. destruct (adaptive_chunking_enabled layout) eqn:Ea.
  - etransitivity; [apply effective_chunk_size_adaptive; done|]. unfold MIB, u64_max. lia.
  - unfold effective_chunk_size. rewrite Ea. simpl. done.
Qed.

Lemma opened_wf layout path h expected up known r :
  chunk_size layout <= u64_max -> window_wf (sr_window r) -> opened layout path h expected up known (inl r) -> relay_wf r.
Proof.
  intros Hc Hw (_ & _ & _ & _ & _ & _ & _ & nodes & Hp). split; [done|]. intros config Hcfg.
  rewrite Hcfg in Hp. by eapply parallel_config_wf.
Qed.

Lemma run_relay_inv fuel waits relay w result sent' w' :
  run_relay fuel waits relay w = Some (result, sent', w') ->
  exists s, sent s = sent' /\ fs w' = fs (wire s) /\
    match relay with
    | inl r => relay_stream_blob_inner fuel waits r w = Some (result, s)
    | inr u => relay_unknown_blob u w = Some (result, s)
    end.
Proof.
  unfold run_relay. destruct relay as [r|u].
  - destruct (relay_stream_blob_inner _ _ _ _) as [[res s]|]; [|done]. intros [= <- <- <-]. by exists s.
  - destruct (relay_unknown_blob _ _) as [[res s]|]; [|done]. intros [= <- <- <-]. by exists s.
Qed.

Lemma relay_body_data result b : body_data (relay_body result b) = b.
Proof. unfold relay_body. destruct result; simpl; by rewrite app_nil_r. Qed.

Lemma relay_body_clean result b : body_faults (relay_body result b) = false -> result = Ok tt.
Proof. unfold relay_body. by destruct result as [[]|]. Qed.

Lemma slice_prefix (content : bytes) a b c : b <= c -> slice content (a, b) `prefix_of` slice content (a, c).
Proof.
  intros H. unfold slice. simpl. replace (Z.to_nat (b - a + 1)) with (Z.to_nat (b - a + 1) `min` Z.to_nat (c - a + 1))%nat by lia.
  rewrite <- take_take. exists (drop (Z.to_nat (b - a + 1)) (take (Z.to_nat (c - a + 1)) (drop (Z.to_nat a) content))).
  by rewrite take_drop.
Qed.

Definition relay_key (relay : StreamRelay + UnknownBlobRelay) : string :=
  match relay with inl r => sr_key r | inr u => ub_key u end.

(** ** Termination

    Time passes at every tick, by at least [step]. *)
Section Progress.
Variable step : Z.
Hypothesis step_pos : 0 < step.
Hypothesis clock_steps : forall n, clock n + step <= clock (Datatypes.S n).

Lemma now_mono (w w' : World) : (ticks w <= ticks w')%nat -> now w <= now w'.
Proof.
  unfold Download.now. generalize (ticks w) (ticks w'). intros m n. induction 1 as [|n _ IH]; [lia|].
  pose proof (clock_steps n). lia.
Qed.

Lemma now_tick (w : World) : now w + step <= now (tick w).
Proof. apply clock_steps. Qed.

Lemma resume_loop_returns fuel round since dl nodes current path h a b t last w :
  (1 <= fuel)%nat -> dl - now w <= step * (Z.of_nat fuel - 1) ->
  exists out, resume_loop fuel round since dl nodes current path h a b t last w = Some out.
Proof.
  revert round last w. induction fuel as [|fuel IH]; intros round last w Hf Hd; [lia|]. cbn [resume_loop].
  destruct (Z.leb_spec dl (now w)); [by eexists|]. assert (1 <= fuel)%nat by (destruct fuel; [lia|lia]).
  destruct (sel_order _ _ _ _ _) as [ordered s0].
  destruct (resume_candidates _ _ _ _ _ _ _ _ _ _ _ _) as [p w1] eqn:E.
  apply resume_candidates_spec in E as [[_ Hq _] _]. apply now_mono in Hq. change (now (with_sel w s0)) with (now w) in Hq.
  pose proof (now_tick w1). destruct p as [o| |attempted delay last']; [by eexists..|].
  destruct (negb attempted); [apply IH; [done|nia]|].
  destruct (next_backoff since round); [|by eexists]. apply IH; [done|]. unfold sleep. nia.
Qed.

Lemma resume_returns fuel dl nodes current path h a b t w :
  (1 <= fuel)%nat -> dl - now w <= step * (Z.of_nat fuel - 1) ->
  exists out, resume_stream_response fuel dl nodes current path h a b t w = Some out.
Proof.
  intros Hf Hd. unfold resume_stream_response. destruct (is_some _); [by eexists|].
  destruct nodes as [|v nodes]; [by eexists|]. destruct ((v :: nodes) !! current); [|by eexists].
  by apply resume_loop_returns.
Qed.

(** The deadline is never further away than the timeout. *)
Definition due (timeout : Z) (s : Wire) : Prop := deadline s <= now (wire s) + timeout.

Lemma due_wire timeout s w : (ticks (wire s) <= ticks w)%nat -> due timeout s -> due timeout (with_wire s w).
Proof. unfold due. simpl. intros H%now_mono. lia. Qed.

Lemma relay_frames_due partial complete timeout end_ l s r s' :
  due timeout s -> relay_frames partial complete timeout end_ l s = (r, s') -> due timeout s'.
Proof.
  revert s. induction l as [|f l IH]; intros s Hs; cbn [relay_frames]; set (s1 := with_wire s (tick (wire s)));
    (assert (due timeout s1) as Hs1 by (apply due_wire; [simpl; lia|done]));
    (destruct (_ <=? _); [by intros [= <- <-]|]).
  { by intros [= <- <-]. }
  destruct f as [[|x b]|m]; [by apply IH| |by intros [= <- <-]].
  destruct (remaining_window_bytes _ _); [|by intros [= <- <-]]. destruct (_ <? _); [by intros [= <- <-]|].
  unfold relay_chunk. destruct (closes _).
  { intros [= <- <-]. apply (due_wire _ s1); [simpl; lia|done]. }
  destruct (send_relay_chunk _) as [[]|e].
  - apply IH. unfold due. simpl. lia.
  - intros [= <- <-]. unfold due in *. simpl in *. pose proof (now_tick (tick (wire s))).
    unfold Download.now in *. simpl in *. lia.
Qed.

Section Loop.
Variable partial : string.
Variable complete : bool.
Variable timeout : Z.
Variable win : StreamWindow.
Variable waits : nat.
Hypothesis Hwin : window_wf win.
Hypothesis waits_enough : (1 <= waits)%nat /\ timeout <= step * (Z.of_nat waits - 1).

Abbreviation synced_any := (synced partial complete win [] False).

Lemma relay_loop_returns fuel nodes path h current response s :
  synced_any s -> due timeout s -> (stalled_responses s < MAX_STALLED_RESPONSES)%nat ->
  4 * (win_end win + 1 - offset s) + 4 - Z.of_nat (stalled_responses s) <= Z.of_nat fuel ->
  exists out, relay_loop partial complete timeout fuel waits nodes path h win current response s = Some out.
Proof.
  revert current response s. unfold MAX_STALLED_RESPONSES. 
  induction fuel as [|fuel IH]; intros current response s Hs Hdue Hst Hfuel; cbn [relay_loop];
    (destruct (Z.ltb_spec (win_end win) (offset s)); [by eexists|]); [lia|].
  destruct response as [[resp lease]|]; [|by eexists].
  destruct (relay_frames _ _ _ _ _ (next_response s)) as [out s1] eqn:Ef.
  pose proof (relay_frames_due _ _ _ _ _ (next_response s) _ _ Hdue Ef) as Hd1.
  pose proof (sy_offset _ _ _ _ _ _ Hs) as Ho. pose proof (blen_nonneg (sent s)). destruct Hwin as [Hw1 Hw2].
  apply (relay_frames_spec partial complete timeout win [] False Hwin) in Ef as [_ Hok]; [|by apply (synced_fields _ _ _ _ _ Hwin s)|by intros []].
  destruct out as [err|e]; [|by eexists]. destruct (Hok eq_refl) as (Hs1 & taken & Hsent & Htr & Hstl).
  specialize (Htr ltac:(simpl; lia) ltac:(simpl; lia)). simpl in Htr, Hstl, Hsent.
  destruct (nodes !! current) as [node|]; [|by eexists]. set (s2 := report _ _ _ _).
  assert (synced_any s2) as Hs2 by (by apply (synced_wire _ _ _ _ _ Hwin s1)).
  destruct (win_end win <? offset s1); [by eexists|].
  set (s3 := if transferred s2 =? 0 then stall s2 else s2).
  assert (synced_any s3) as Hs3 by (unfold s3; destruct (_ =? 0); [by apply (synced_fields _ _ _ _ _ Hwin s2)|done]).
  destruct (_ && _) eqn:Estop; [by eexists|].
  pose proof (sy_offset _ _ _ _ _ _ Hs1) as Ho1. rewrite Hsent, blen_app in Ho1.
  assert (offset s3 = offset s1 /\ wire s3 = wire s2 /\ deadline s3 = deadline s1) as (Eo & Ew & Edl)
    by (unfold s3; by destruct (_ =? 0)).
  assert ((stalled_responses s3 < 4)%nat /\
    4 * (win_end win + 1 - offset s3) + 4 - Z.of_nat (stalled_responses s3) <= Z.of_nat fuel) as [Hst3 Hfuel3].
  { rewrite Eo. unfold s3 in *. change (transferred s2) with (transferred s1) in *. case_bool_decide as Et.
    - subst taken. change (blen []) with 0 in *. rewrite Htr in *. cbn [Z.add Z.eqb] in *.
      apply andb_false_iff in Estop as [Estop|Estop%Nat.leb_gt].
      + simpl in Estop. by rewrite Htr in Estop.
      + simpl in Estop |- *. unfold MAX_STALLED_RESPONSES in Estop. lia.
    - assert (0 < blen taken) by (destruct taken; [done|unfold blen; simpl; lia]).
      destruct (Z.eqb_spec (transferred s1) 0); [lia|]. change (stalled_responses s2) with (stalled_responses s1).
      rewrite Hstl. lia. }
  set (s4 := with_wire s3 _).
  destruct (resume_returns waits (deadline s4) nodes current path h (offset s4) (win_end win) (win_total win) (wire s4))
    as [[resumed w] Hres]; [lia| |].
  { unfold due in Hd1. change (deadline s4) with (deadline s3). change (now (wire s4)) with (now (wire s3)).
    rewrite Edl, Ew. change (now (wire s2)) with (now (wire s1)). lia. }
  rewrite Hres. destruct resumed as [o|e]; [|by eexists]. apply resume_spec in Hres as [[Hq Hqt _] _].
  apply IH; [|apply due_wire; [done|]|done|done].
  - by apply (synced_wire _ _ _ _ _ Hwin s4), (synced_wire _ _ _ _ _ Hwin s3).
  - unfold due in *. simpl. rewrite Edl, Ew. exact Hd1.
Qed.
End Loop.

(** The relay leaves the cache index alone until it admits the blob. *)
Lemma relay_frames_kept partial complete timeout end_ l s r s' :
  relay_frames partial complete timeout end_ l s = (r, s') -> entries (wire s') = entries (wire s).
Proof using Type.
  revert s. induction l as [|f l IH]; intros s; cbn [relay_frames]; (destruct (_ <=? _); [by intros [= <- <-]|]).
  { by intros [= <- <-]. }
  destruct f as [[|x b]|m]; [by intros ->%IH| |by intros [= <- <-]].
  destruct (remaining_window_bytes _ _); [|by intros [= <- <-]]. destruct (_ <? _); [by intros [= <- <-]|].
  unfold relay_chunk. destruct (closes _); [by intros [= <- <-]|].
  destruct (send_relay_chunk _) as [[]|e]; [by intros ->%IH|by intros [= <- <-]].
Qed.

Lemma relay_loop_kept partial complete timeout fuel waits nodes path h win current response s r s' :
  relay_loop partial complete timeout fuel waits nodes path h win current response s = Some (r, s') ->
  entries (wire s') = entries (wire s).
Proof using Type.
  revert current response s. induction fuel as [|fuel IH]; intros current response s; cbn [relay_loop];
    (destruct (_ <? _); [by intros [= <- <-]|]); [done|].
  destruct response as [[resp lease]|]; [|by intros [= <- <-]].
  destruct (relay_frames _ _ _ _ _ _) as [out s1] eqn:Ef. apply relay_frames_kept in Ef. simpl in Ef.
  destruct out as [err|e]; [|by intros [= <- <-]]. destruct (nodes !! current); [|by intros [= <- <-]].
  destruct (_ <? _); [by intros [= <- <-]|]. set (s2 := report _ _ _ _).
  set (s3 := if transferred s2 =? 0 then stall s2 else s2).
  assert (entries (wire s3) = entries (wire s)) as E3 by (unfold s3; by destruct (_ =? 0)).
  destruct (_ && _); [by intros [= <- <-]|].
  destruct (resume_stream_response _ _ _ _ _ _ _ _ _ _) as [[resumed w]|] eqn:Er; [|done].
  apply resume_spec in Er as [[_ _ He] _]. change (entries w = entries (wire s3)) in He.
  destruct resumed as [o|e]; [|intros [= <- <-]; simpl; congruence]. intros ->%IH. simpl. congruence.
Qed.

Lemma replay_kept timeout l s r s' :
  replay timeout l s = (r, s') ->
  entries (wire s') = entries (wire s) /\ stalled_responses s' = stalled_responses s /\ (due timeout s -> due timeout s').
Proof.
  revert s. induction l as [|b l IH]; intros s; cbn [replay]; [by intros [= <- <-]|].
  destruct (closes _); [by intros [= <- <-]|]. destruct (send_relay_chunk _) as [[]|e].
  - intros (-> & -> & Hd)%IH. split; [done|]. split; [done|]. intros _. apply Hd. unfold due. simpl. lia.
  - intros [= <- <-]. split; [done|]. split; [done|]. unfold due. simpl. pose proof (now_tick (wire s)). lia.
Qed.

Lemma start_relay_kept waits r partial existing s res s' :
  start_relay waits r partial existing s = Some (res, s') ->
  entries (wire s') = entries (wire s) /\ stalled_responses s' = stalled_responses s /\
  (due (progress_timeout (sr_client_idle_timeout r)) s -> due (progress_timeout (sr_client_idle_timeout r)) s').
Proof.
  unfold start_relay. destruct (0 <? existing); [|by intros [= <- <-]]. set (s0 := drop_lease _ _).
  destruct (replay _ _ _) as [rr s1] eqn:Er. apply replay_kept in Er as (He & Hs & Hd).
  change (due (progress_timeout (sr_client_idle_timeout r)) s0) with (due (progress_timeout (sr_client_idle_timeout r)) s) in Hd.
  destruct rr as [[]|e]; [|by intros [= <- <-]]. destruct (_ <=? _); [|by intros [= <- <-]].
  destruct (resume_stream_response _ _ _ _ _ _ _ _ _ _) as [[resumed w]|] eqn:Es; [|done].
  apply resume_spec in Es as [[_ Ht He2] _]. simpl in Ht. change (entries w = entries (wire s1)) in He2.
  assert (due (progress_timeout (sr_client_idle_timeout r)) s -> due (progress_timeout (sr_client_idle_timeout r)) (with_wire s1 w)) as Hd2.
  { intros H%Hd. by apply due_wire. }
  destruct resumed as [o|e]; intros [= <- <-]; (split; [by transitivity (entries (wire s1))|]); (split; [done|]); exact Hd2.
Qed.

Lemma start_relay_returns waits r partial existing s :
  (1 <= waits)%nat -> progress_timeout (sr_client_idle_timeout r) <= step * (Z.of_nat waits - 1) ->
  due (progress_timeout (sr_client_idle_timeout r)) s ->
  exists out, start_relay waits r partial existing s = Some out.
Proof.
  intros Hw1 Hw2 Hd. unfold start_relay. destruct (0 <? existing); [|by eexists]. set (s0 := drop_lease _ _).
  destruct (replay _ _ _) as [rr s1] eqn:Er. apply replay_kept in Er as (_ & _ & Hd1). specialize (Hd1 Hd).
  destruct rr as [[]|e]; [|by eexists]. destruct (_ <=? _); [|by eexists].
  set (s2 := with_wire s1 _).
  destruct (resume_returns waits (deadline s2) (sr_nodes r) (sr_current_node r) (sr_path r) (sr_headers r)
    (offset s2) (win_end (sr_window r)) (win_total (sr_window r)) (wire s2)) as [[resumed w] ->]; [done| |by destruct resumed; eexists].
  unfold due in Hd1. change (now (wire s2)) with (now (wire s1)). change (deadline s2) with (deadline s1). lia.
Qed.

End Progress.

(** ** The rows of the cache

    A relay changes the index of the cache only by admitting its blob under its own
    key; opening a stream only drops rows without their file. *)

Abbreviation rows_ok := (Download.rows_ok data_dir).

Lemma same_entries w w' : entries w' = entries w -> rows_ok w -> rows_ok w'.
Proof using Type. intros E. unfold Download.rows_ok, Cache.wf. unfold entries in E. by rewrite E. Qed.

Lemma replay_entries timeout l s r s' : replay timeout l s = (r, s') -> entries (wire s') = entries (wire s).
Proof using Type.
  revert s. induction l as [|b l IH]; intros s; cbn [replay]; [by intros [= <- <-]|].
  destruct (closes _); [by intros [= <- <-]|]. destruct (send_relay_chunk _); [by intros ->%IH|by intros [= <- <-]].
Qed.

Lemma start_relay_entries waits r partial existing s res s' :
  start_relay waits r partial existing s = Some (res, s') -> entries (wire s') = entries (wire s).
Proof using Type.
  unfold start_relay. destruct (0 <? existing); [|by intros [= <- <-]].
  destruct (replay _ _ _) as [rr s1] eqn:Er. apply replay_entries in Er. change (entries (wire s1) = entries (wire s)) in Er.
  destruct rr as [[]|e]; [|by intros [= <- <-]]. destruct (_ <=? _); [|by intros [= <- <-]].
  destruct (resume_stream_response _ _ _ _ _ _ _ _ _ _) as [[resumed w]|] eqn:Es; [|done].
  apply resume_spec in Es as [[_ _ He2] _]. change (entries w = entries (wire s1)) in He2.
  destruct resumed; intros [= <- <-]; exact (eq_trans He2 Er).
Qed.

Lemma fetch_parallel_chunk_quiet fuel round since nodes c path h failures last w r f w' :
  fetch_parallel_chunk fuel round since nodes c path h failures last w = Some (r, f, w') -> quiet w w'.
Proof using Type.
  intros H. eapply (fetch_parallel_chunk_spec {| win_start := 0; win_end := 0; win_total := 0 |} [] False) in H as [? _]; [done| |done].
  split; [done|]. done.
Qed.

Lemma relay_ranges_entries fuel partial nodes path h l : forall failures s r s',
  relay_ranges fuel partial nodes path h l failures s = Some (r, s') -> entries (wire s') = entries (wire s).
Proof using Type.
  induction l as [|c l IH]; intros failures s r s'; cbn [relay_ranges]; [by intros [= <- <-]|].
  destruct (chunk_memory c (wire s)); [|by intros [= <- <-]].
  destruct (fetch_parallel_chunk _ _ _ _ _ _ _ _ _ _) as [[[res f] w]|] eqn:Ef; [|done].
  apply fetch_parallel_chunk_quiet in Ef as [_ _ Hq]. destruct res as [b|e]; [|by intros [= <- <-]].
  destruct (closes _); [by intros [= <- <-]|]. destruct (send_relay_chunk _); [|by intros [= <- <-]].
  by intros ->%IH.
Qed.

Lemma relay_window_entries fuel waits r partial complete current response s res s' :
  relay_window fuel waits r partial complete current response s = Some (res, s') -> entries (wire s') = entries (wire s).
Proof using Type.
  unfold relay_window. destruct (sr_parallel r) as [config|]; [|apply relay_loop_kept].
  destruct (_ <=? _); [|apply relay_loop_kept]. unfold relay_parallel_ranges.
  destruct (stream_chunks _ _ _ _) as [chunks|]; [|done]. cbn [mbind option_bind].
  destruct (relay_ranges _ _ _ _ _ _ _ _) as [[res1 s1]|] eqn:E; [|done]. apply relay_ranges_entries in E.
  assert (entries (wire s1) = entries (wire s)) as E1 by (rewrite E; by destruct response as [[]|]).
  destruct res1 as [[]|e]; cbn [mbind option_bind]; [|intros [= <- <-]; done]. intros ->%relay_loop_kept. done.
Qed.

Lemma conclude_rows key media expected partial s r s' : Cache.valid_key key = true ->
  conclude key media expected partial s = Some (r, s') -> rows_ok (wire s) -> rows_ok (wire s').
Proof using Type.
  intros Hk H Hw. revert H. unfold conclude. destruct (is_some_and _ _); [by intros [= _ <-]|].
  destruct (Cache.admit_object _ _ _ _ _ _ _ _ _ _) as [[res c]|] eqn:Ea; [|done]. apply Cache.admit_wf in Ea; [|done..].
  by intros [= _ <-].
Qed.

Lemma relay_inner_rows fuel waits r w res s : Cache.valid_key (sr_key r) = true ->
  relay_stream_blob_inner fuel waits r w = Some (res, s) -> rows_ok w -> rows_ok (wire s).
Proof using Type.
  intros Hk H Hw. revert H. unfold relay_stream_blob_inner. set (partial := if covers_blob _ then _ else _).
  destruct (existing_partial _ _ _ _) as [existing w1] eqn:Ee.
  assert (rows_ok w1) as H1 by (unfold existing_partial in Ee; destruct (_ <? _); by injection Ee as _ <-).
  destruct (start_relay _ _ _ _ _) as [[started s1]|] eqn:Es; [|done]. apply start_relay_entries in Es.
  assert (rows_ok (wire s1)) as H2 by (by apply (same_entries w1)).
  destruct started as [[current response]|e]; cbn [mbind option_bind]; [|destruct (covers_blob _); by intros [= _ <-]].
  destruct (relay_window _ _ _ _ _ _ _ _) as [[res1 s3]|] eqn:Ew; [|done]. apply relay_window_entries in Ew.
  assert (rows_ok (wire s3)) as H3 by (by apply (same_entries (wire s1))).
  destruct res1 as [[]|e]; cbn [mbind option_bind]; [|destruct (covers_blob _); by intros [= _ <-]].
  destruct (covers_blob _); [|by intros [= _ <-]]. intros H. by eapply conclude_rows.
Qed.

Lemma unknown_frames_entries partial timeout l : forall s e s',
  unknown_frames partial timeout l s = (e, s') -> entries (wire s') = entries (wire s).
Proof using Type.
  induction l as [|f l IH]; intros s e s'; cbn [unknown_frames]; (destruct (_ <=? _); [by intros [= <- <-]|]).
  { by intros [= <- <-]. }
  destruct f as [[|x b]|m]; [by intros ->%IH| |by intros [= <- <-]].
  destruct (closes _); [by intros [= <- <-]|]. destruct (send_relay_chunk _); [by intros ->%IH|by intros [= <- <-]].
Qed.

Lemma unknown_finish_entries u partial started r o s :
  entries (wire (unknown_finish u partial started r o s)) = entries (wire s).
Proof using Type. unfold unknown_finish. by destruct o, (is_ok r). Qed.

Lemma relay_unknown_rows u w res s : Cache.valid_key (ub_key u) = true ->
  relay_unknown_blob u w = Some (res, s) -> rows_ok w -> rows_ok (wire s).
Proof using Type.
  intros Hk H Hw. revert H. unfold relay_unknown_blob. destruct (unknown_frames _ _ _ _) as [e s1] eqn:Ef.
  apply unknown_frames_entries in Ef. assert (rows_ok (wire s1)) as H1 by (by apply (same_entries w)).
  destruct e as [|[[]|e] o]; [by intros [= _ <-]| |intros [= _ <-]; eapply same_entries; [apply unknown_finish_entries|done]].
  unfold unknown_conclude. destruct (is_some_and _ _); cbn [mbind option_bind].
  { intros [= _ <-]. eapply same_entries; [apply unknown_finish_entries|done]. }
  destruct (Cache.admit_object _ _ _ _ _ _ _ _ _ _) as [[ra c]|] eqn:Ea; [|done]. apply Cache.admit_wf in Ea; [|done..].
  cbn [mbind option_bind]. intros [= _ <-]. eapply same_entries; [apply unknown_finish_entries|done].
Qed.

Lemma run_relay_rows fuel waits relay w res sent' w' :
  Cache.valid_key (match relay with inl r => sr_key r | inr u => ub_key u end) = true ->
  run_relay fuel waits relay w = Some (res, sent', w') -> rows_ok w -> rows_ok w'.
Proof using Type.
  intros Hk H Hw. revert H. unfold run_relay. destruct relay as [r|u].
  - destruct (relay_stream_blob_inner _ _ _ _) as [[res1 s]|] eqn:E; [|done]. apply relay_inner_rows in E; [|done..].
    by intros [= _ _ <-].
  - destruct (relay_unknown_blob _ _) as [[res1 s]|] eqn:E; [|done]. apply relay_unknown_rows in E; [|done..].
    by intros [= _ _ <-].
Qed.

Definition streamed_key (key : string) (s : Streamed) : Prop :=
  match s with FromCache _ => True | Relayed _ _ (inl r) => sr_key r = key | Relayed _ _ (inr u) => ub_key u = key end.

Lemma open_candidates_entries layout l nodes index timeout path h key expected attempted last w p w' :
  open_candidates layout l nodes index timeout path h key expected attempted last w = (p, w') ->
  entries w' = entries w /\ match p with Opens s => streamed_key key s | Closed _ _ => True end.
Proof using Type.
  revert index attempted last w. induction l as [|node l IH]; intros index attempted last w; cbn [open_candidates].
  { by intros [= <- <-]. }
  case_bool_decide; [apply IH|]. destruct (sel_acquire _ _ _) as [[id|] s0]; [|by intros [-> ?]%IH].
  destruct (request (with_sel w s0) node GET path h ForwardClient) as [r1 w1] eqn:Er.
  apply quiet_request in Er as [_ _ Eq]. change (entries w1 = entries w) in Eq.
  destruct r1 as [resp|e]; [|intros [-> ?]%IH; split; [exact Eq|done]].
  destruct (is_success (r_status resp)).
  - unfold open_relay. destruct (stream_window resp) as [win|]; [|by intros [= <- <-]].
    destruct (parallel_config _ _ _ _); by intros [= <- <-].
  - destruct (r_status resp =? 404); intros [-> ?]%IH; split; try exact Eq; done.
Qed.

Lemma open_loop_entries fuel layout nodes timeout path h key expected attempted last w r w' :
  open_loop fuel layout nodes timeout path h key expected attempted last w = Some (r, w') ->
  entries w' = entries w /\ match r with Ok s => streamed_key key s | Err _ => True end.
Proof using Type.
  revert attempted last w. induction fuel as [|fuel IH]; intros attempted last w; [done|]. cbn [open_loop].
  destruct (open_candidates _ _ _ _ _ _ _ _ _ _ _ _) as [p w1] eqn:E. apply open_candidates_entries in E as [E Hp].
  destruct p as [st|attempted' last']; [by intros [= <- <-]|]. destruct (_ =? _)%nat; [by intros [= <- <-]|].
  by intros [-> ?]%IH.
Qed.

(** Opening a stream: the rows stay well formed, and a relay is for a valid key. *)
Lemma stream_blob_rows fuel layout timeout path h expected nodes w r w' :
  (forall s, Cache.valid_key (key_hash s) = true) ->
  stream_blob fuel layout timeout path h expected nodes w = Some (r, w') -> rows_ok w ->
  rows_ok w' /\ forall up known relay, r = Ok (Relayed up known relay) ->
    Cache.valid_key (match relay with inl r => sr_key r | inr u => ub_key u end) = true.
Proof using Type.
  intros Hk H Hw. revert H. unfold stream_blob. destruct (ordered_stream_nodes nodes path w) as [ordered w0] eqn:Eo.
  assert (rows_ok w0) as H0 by (unfold ordered_stream_nodes in Eo; destruct (sel_order _ _ _ _ _); by injection Eo as _ <-).
  destruct ordered as [|v l]; [intros [= <- <-]; by split|]. set (key := Cache.request_key _ _ _ _ _ _).
  assert (Cache.valid_key key = true) as Hkey by apply Hk. clearbody key.
  pose proof (Cache.get_wf data_dir (cache w0) key (now w0) H0) as H1.
  destruct (Cache.get (cache w0) key (now w0)) as [[o|] c]; cbn [snd] in H1; [intros [= <- <-]; by split|].
  unfold Cache.lock. destruct (bool_decide _); [done|]. cbn [mbind option_bind]. set (w1 := tick _).
  pose proof (Cache.get_wf data_dir (cache w1) key (now w1) H1) as H2.
  destruct (Cache.get (cache w1) key (now w1)) as [[o|] c2]; cbn [snd] in H2; [intros [= <- <-]; by split|].
  destruct (match Memory.acquire_check _ with Ok _ => _ | Err _ => _ end); [|intros [= <- <-]; by split].
  destruct (open_loop _ _ _ _ _ _ _ _ _ _ _) as [[res w2]|] eqn:E; [|done]. apply open_loop_entries in E as [E Hs].
  assert (rows_ok w2) as H3 by (eapply same_entries; [exact E|exact H2]). cbn [mbind option_bind].
  intros [= <- <-]. split; [by destruct res|]. intros up known relay ->. simpl in Hs. by destruct relay; rewrite Hs.
Qed.

(** ** Properties *)

(** C5: A client never takes damaged bytes for a blob.  Whatever the upstream nodes send
    and however often the relay resumes, replays or goes parallel, the client receives
    at most the bytes its response announced.  A body that ends without an error
    carries exactly the announced number of bytes; if it is the whole blob, or its
    length was unknown, its SHA-256 is the requested digest and it is what the cache
    then holds. *)
Theorem streamed_blob_verified fuel layout timeout path h digest nodes w up known relay w1 fuel' waits result sent' w2 :
  stream_blob fuel layout timeout path h (Some digest) nodes w = Some (Ok (Relayed up known relay), w1) ->
  run_relay fuel' waits relay w1 = Some (result, sent', w2) ->
  chunk_size layout <= u64_max -> (forall win, known = Some win -> window_wf win) ->
  (forall l, body_data (rechunk l) = body_data l) -> fs w1 !! range_partial (ticks w1) = None ->
  let body := relay_body result sent' in
  (forall win, known = Some win -> blen (body_data body) <= window_length win) /\
  (body_faults body = false ->
     (forall win, known = Some win -> blen (body_data body) = window_length win) /\
     (is_none_or known covers_blob = true ->
        digest = digest_text (body_data body) /\
        fs w2 !! Cache.object_path data_dir (relay_key relay) = Some (body_data body))).
Proof.
  intros Ho Hrun Hc Hwf Hre Hfresh. apply stream_blob_spec in Ho. cbv zeta. rewrite relay_body_data.
  apply run_relay_inv in Hrun as (s & <- & -> & Hrun). destruct relay as [r|u]; simpl relay_key.
  - pose proof Ho as (_ & _ & -> & _ & _ & _ & Hd & _).
    pose proof (opened_wf _ _ _ _ _ _ _ Hc (Hwf _ eq_refl) Ho) as Hr.
    apply (relay_inner_spec r w1 [] False Hr) in Hrun as [[Hb _] Hok]; try done.
    split; [by intros ? [= <-]|]. intros Hclean%relay_body_clean. destruct (Hok Hclean) as [Hlen Hcov].
    split; [by intros ? [= <-]|]. intros Hcb. destruct (Hcov Hcb) as [Hf Hdig]. split; [by apply Hdig|done].
  - destruct Ho as (_ & _ & -> & _ & Hd). split; [done|]. intros ->%relay_body_clean.
    apply unknown_spec in Hrun as [Hf Hdig]. split; [done|]. intros _. split; [by apply Hdig|done].
Qed.

(** C6: With honest upstreams the relay is the blob: if every response carries bytes of the
    window it announces, possibly broken off anywhere, then the client receives a
    prefix of the window it asked for, and all of it when its body ends without an
    error, across any number of resumes, replays of an earlier partial file and
    parallel ranges. *)
Theorem streamed_blob_faithful fuel layout timeout path h expected nodes w up win r w1 fuel' waits result sent' w2 content :
  stream_blob fuel layout timeout path h expected nodes w = Some (Ok (Relayed up (Some win) (inl r)), w1) ->
  run_relay fuel' waits (inl r) w1 = Some (result, sent', w2) ->
  chunk_size layout <= u64_max -> window_wf win ->
  (forall l, body_data (rechunk l) = body_data l) -> fs w1 !! range_partial (ticks w1) = None ->
  (forall n node range x w0, send n node GET path h range = Ok x -> stream_window x = Some w0 ->
     body_data (r_body x) `prefix_of` slice content (win_start w0, win_end w0)) ->
  (covers_blob win = true -> forall b, fs w1 !! object_partial (sr_key r) = Some b ->
     b `prefix_of` slice content (win_start win, win_end win)) ->
  let body := relay_body result sent' in
  body_data body `prefix_of` slice content (win_start win, win_end win) /\
  (body_faults body = false -> body_data body = slice content (win_start win, win_end win)).
Proof.
  intros Ho Hrun Hc Hwf Hre Hfresh Hhon Hpart. apply stream_blob_spec in Ho. cbv zeta. rewrite relay_body_data.
  apply run_relay_inv in Hrun as (s & <- & _ & Hrun).
  pose proof Ho as ((n & node & range & Hsend) & Hst & [= ->] & Hup & <- & <- & _).
  pose proof (opened_wf _ _ _ _ _ _ _ Hc Hwf Ho) as Hr.
  apply (relay_inner_spec r w1 (slice content (win_start (sr_window r), win_end (sr_window r))) True Hr) in Hrun
    as [[_ Hp] Hok]; try done.
  - split; [by apply Hp|]. intros Hclean%relay_body_clean. destruct (Hok Hclean) as [Hlen _].
    destruct (Hp I) as [k Hk]. rewrite Hk. pose proof (f_equal length Hk) as Hl. rewrite length_app in Hl.
    assert (length k = 0%nat) as ->%nil_length_inv; [|by rewrite app_nil_r].
    assert (length (slice content (win_start (sr_window r), win_end (sr_window r))) <= Z.to_nat (window_length (sr_window r)))%nat
      by (unfold slice, window_length; simpl; rewrite length_take; lia).
    unfold blen in Hlen. lia.
  - intros _ b. unfold partial_of. destruct (covers_blob (sr_window r)); [by apply Hpart|]. by rewrite Hfresh.
  - intros _. rewrite Hup. by eapply Hhon.
  - intros _ m nd rg x w0 Hx Hw0 Hs0 He0. destruct Hwf as [Hwf0 _].
    etransitivity; [by eapply Hhon|]. rewrite Download.slice_drop by lia.
    replace (win_start (sr_window r) + (win_start w0 - win_start (sr_window r))) with (win_start w0) by lia.
    by apply slice_prefix.
Qed.

(** C7: The sequential relay always ends.  However the nodes answer, stall or break off and
    whatever the client does, a relay of a well-formed store returns: it reads at most
    four responses more than four per byte of its window, each resume ends at the
    progress deadline, and the admission of the finished blob returns.  The fuel of the
    model is those bounds. *)
Theorem sequential_relay_returns step fuel waits r w :
  0 < step -> (forall n, clock n + step <= clock (Datatypes.S n)) ->
  (forall l, body_data (rechunk l) = body_data l) -> relay_wf r -> sr_parallel r = None ->
  (covers_blob (sr_window r) = false -> fs w !! range_partial (ticks w) = None) ->
  (1 <= waits)%nat -> progress_timeout (sr_client_idle_timeout r) <= step * (Z.of_nat waits - 1) ->
  4 * window_length (sr_window r) + 4 <= Z.of_nat fuel ->
  Cache.scans_rows rows -> Cache.wf data_dir (cache w) -> Cache.valid_key (sr_key r) = true ->
  win_end (sr_window r) < i64_max ->
  exists result s, relay_stream_blob_inner fuel waits r w = Some (result, s).
Proof.
  intros Hstep Hclock Hre Hr Hpar Hfresh Hw1 Hw2 Hfuel Hrows Hwf Hkey Hmax. unfold relay_stream_blob_inner. fold (partial_of r w).
  set (timeout := progress_timeout _) in *.
  destruct (existing_partial _ _ _ _) as [existing w1] eqn:Ee.
  assert (entries w1 = entries w) as Ew1 by (unfold existing_partial in Ee; destruct (_ <? _) in Ee; by simplify_eq/=).
  assert (due timeout (begin (sr_window r) timeout w1)) as Hdue by (unfold due; simpl; lia).
  destruct (start_relay_returns step Hstep Hclock waits r (partial_of r w) existing _ Hw1 Hw2 Hdue) as [[started s1] Es].
  rewrite Es. pose proof (start_relay_kept step Hstep Hclock _ _ _ _ _ _ _ Es) as (He1 & Hst1 & Hd1). specialize (Hd1 Hdue).
  apply (start_relay_spec r w [] False Hr Hfresh) in Es as [_ Hst]; try done.
  destruct started as [[current response]|e]; [|by destruct (covers_blob _); eexists _, _].
  destruct Hst as [Hs1 _]. set (s2 := with_wire s1 _) in *. unfold relay_window. rewrite Hpar. fold timeout.
  pose proof (sy_offset _ _ _ _ _ _ Hs1) as Ho. pose proof (blen_nonneg (sent s2)). simpl in Hst1. unfold window_length in *.
  destruct (relay_loop_returns step Hstep Hclock (partial_of r w) (covers_blob (sr_window r)) timeout (sr_window r) waits
    (rw_window _ Hr) (conj Hw1 Hw2) fuel (sr_nodes r) (sr_path r) (sr_headers r) current response s2)
    as [[res s3] El]; [done|by apply (due_wire step Hstep Hclock)|change (stalled_responses s2) with (stalled_responses s1); rewrite Hst1; simpl; unfold MAX_STALLED_RESPONSES; lia
                      |change (stalled_responses s2) with (stalled_responses s1); rewrite Hst1; lia|].
  rewrite El. pose proof (relay_loop_kept _ _ _ _ _ _ _ _ _ _ _ _ _ _ El) as Ek.
  destruct res as [[]|e]; [|by destruct (covers_blob _); eexists _, _].
  destruct (covers_blob (sr_window r)) eqn:Ec; [|by eexists _, _]. unfold conclude.
  destruct (is_some_and _ _); [by eexists _, _|].
  apply (relay_loop_spec (partial_of r w) true timeout (sr_window r) [] False (rw_window _ Hr) _ _ Hre) in El
    as [[Hlen _] Hok]; try done; [|destruct response as [[]|]; [by intros []|done]].
  destruct (Hok eq_refl) as [Hs3 _]. pose proof (sy_file _ _ _ _ _ _ Hs3) as Hf.
  unfold partial_of in *. rewrite Ec in *. pose proof (rw_window _ Hr) as [Hwin _]. unfold window_length in Hlen.
  destruct (Cache.admit_spec ln_1p data_dir rows (cache (wire s3)) (sr_key r) (object_partial (sr_key r)) (sr_media_type r)
    (sr_expected_digest r) (sent s3) (now (wire s3)) (generation (wire s3))) as (ra & c & -> & _); try done; [| |lia|by eexists _, _].
  - unfold Cache.wf. change (map_Forall (Cache.row_wf data_dir) (entries (wire s3))). rewrite Ek. change (entries (wire s2)) with (entries (wire s1)).
    rewrite He1. change (map_Forall (Cache.row_wf data_dir) (entries w1)). by rewrite Ew1.
  - apply Download.merged_outside.
Qed.
End Stream.
End Relay.

(** ** Witnesses: a three-byte blob whose first response breaks off *)

Module RelayWitness.
Import Relay.

Definition blob : bytes := DownloadWitness.blob.
Definition digest : string := "sha256:" +:+ DownloadWitness.digest_hex.

(** The first answer carries one byte and fails; the resume gets the rest. *)
Definition broken_send (_ : nat) (_ : NodeView) (_ : Method) (_ : string) (_ : HeaderMap) (range : RangeMode)
    : ApiResult Response :=
  match range with
  | Exact 1 2 => Ok {| r_status := 206; r_headers := [("content-range", "bytes 1-2/3")];
                       r_content_length := Some 2; r_body := [Data (Chunks.slice blob (1, 2))] |}
  | Exact _ _ => Ok {| r_status := 416; r_headers := []; r_content_length := None; r_body := [] |}
  | _ => Ok {| r_status := 200; r_headers := []; r_content_length := Some 3; r_body := [Data (take 1 blob); Fault "reset"] |}
  end.

Definition parse (v : string) : option ContentRange := if v =?s "bytes 1-2/3" then Some (Bytes 1 2 3) else None.

Definition clock (n : nat) : Z := Z.of_nat n * millisecond.

Definition layout : Chunks.SchedulerRuntimeConfig := Download.layout DownloadWitness.runtime.

#[local] Instance selector : Selector (Selection.NodeSelector (Backoff:=nat)) := DownloadWitness.sample_selector.

Definition start_world : Download.World (S := Selection.NodeSelector) :=
  Download.with_cache DownloadWitness.start_world
    (Cache.with_flights (Download.cache DownloadWitness.start_world) ∅).

Definition opened_stream :=
  stream_blob (Sel := Selection.NodeSelector) broken_send (fun _ s => s) clock (fun _ => 3) parse (fun _ => "")
    (fun _ => Ok tt) Scheduling.Balanced (fun _ => Cache.key_a) (fun _ => "r") 3 layout (10 * second) "/b" []
    (Some digest) DownloadWitness.one_node start_world.

Definition run (relay : StreamRelay + UnknownBlobRelay) (w : Download.World) :=
  run_relay (Sel := Selection.NodeSelector) broken_send (fun _ s => s) clock (fun _ => DownloadWitness.digest_hex) (fun _ => 3)
    parse (fun _ => "") (fun _ => None) (fun l => l) (fun _ => Accepted) (fun _ => None) (fun _ => Ok tt) (fun _ => ∅)
    (fun _ _ => Some 0) Scheduling.Balanced (fun x => x) "/d" Cache.sample_rows (fun _ => "/d/cache/tmp/donkey-range-1")
    16 4 relay w.

Definition relay_outcome : option (Response * StreamWindow * (StreamRelay + UnknownBlobRelay) * Download.World * bytes * Download.World) :=
  match opened_stream with
  | Some (Ok (Relayed up (Some win) relay), w1) =>
      match run relay w1 with Some (Ok _, b, w2) => Some (up, win, relay, w1, b, w2) | _ => None end
  | _ => None
  end.

Definition list_byte_eqb (a b : bytes) : bool := forallb (fun p => Byte.eqb p.1 p.2) (zip a b) && (length a =? length b)%nat.

Example relay_resumes :
  match relay_outcome with Some (_, win, _, _, b, _) => list_byte_eqb b blob && covers_blob win | None => false end = true.
Proof. vm_compute. reflexivity. Qed.

Lemma fresh_range (w1 : Download.World) up known relay :
  opened_stream = Some (Ok (Relayed up known relay), w1) ->
  Download.fs w1 !! range_partial (fun _ => "/d/cache/tmp/donkey-range-1") (Download.ticks w1) = None.
Proof.
  assert (match opened_stream with
          | Some (_, w) => is_none (Download.fs w !! range_partial (fun _ => "/d/cache/tmp/donkey-range-1") (Download.ticks w))
          | None => true end = true) as H by (vm_compute; reflexivity).
  intros E. rewrite E in H. by destruct (_ !! _).
Qed.

Lemma known_window up known relay w1 :
  opened_stream = Some (Ok (Relayed up known relay), w1) -> forall win, known = Some win -> window_wf win /\ covers_blob win = true.
Proof.
  assert (match opened_stream with
          | Some (Ok (Relayed _ (Some win) _), _) => (win_start win =? 0) && (win_end win =? 2) && covers_blob win
          | _ => true end = true) as H by (vm_compute; reflexivity).
  intros E win ->. rewrite E in H. bool_hyps. unfold window_wf, u64_max. split; [lia|done].
Qed.

Lemma streamed_blob_verified_witness :
  match relay_outcome with
  | Some (up, win, relay, w1, b, w2) =>
      digest = digest_text (fun _ => DownloadWitness.digest_hex) b /\
      Download.fs w2 !! Cache.object_path "/d" (relay_key relay) = Some b
  | None => False
  end.
Proof.
  assert (match relay_outcome with Some _ => true | None => false end = true) as H by (vm_compute; reflexivity).
  unfold relay_outcome in *. destruct opened_stream as [[[[o|up known relay]|e] w1]|] eqn:Eo; try done.
  destruct known as [win|]; [|done]. destruct (run relay w1) as [[[[[]|e] b] w2]|] eqn:Er; try done. clear H.
  pose proof (known_window _ _ _ _ Eo win eq_refl) as [Hwf Hcov]. pose proof (fresh_range _ _ _ _ Eo) as Hfresh.
  unfold opened_stream in Eo. unfold run in Er.
  edestruct streamed_blob_verified as [_ Hend]; [exact Eo|exact Er| | |done|exact Hfresh|].
  - unfold u64_max. simpl. lia.
  - by intros ? [= <-].
  - destruct Hend as [_ Hdone]; [reflexivity|]. destruct Hdone as [Hd Hf]; [exact Hcov|].
    rewrite relay_body_data in Hd, Hf. by split.
Defined.

Lemma broken_honest n node range x w0 :
  broken_send n node GET "/b" [] range = Ok x -> stream_window parse x = Some w0 ->
  body_data (r_body x) `prefix_of` Chunks.slice blob (win_start w0, win_end w0).
Proof.
  assert (forall s e, Exact s e = Exact 1 2 \/ broken_send n node GET "/b" [] (Exact s e) =
    Ok {| r_status := 416; r_headers := []; r_content_length := None; r_body := [] |}) as Hs.
  { intros s e. unfold broken_send. repeat case_match; auto. }
  destruct range as [| |s e]; [..|destruct (Hs s e) as [-> | ->]]; intros [= <-] Hw; vm_compute in Hw; simplify_eq;
    simpl; by eexists.
Qed.

Lemma streamed_blob_faithful_witness :
  match relay_outcome with
  | Some (up, win, inl r, w1, b, w2) => b = Chunks.slice blob (win_start win, win_end win)
  | _ => False
  end.
Proof.
  assert (match relay_outcome with Some (_, _, inl _, _, _, _) => true | _ => false end = true) as H by (vm_compute; reflexivity).
  unfold relay_outcome in *. destruct opened_stream as [[[[o|up known relay]|e] w1]|] eqn:Eo; try done.
  destruct known as [win|]; [|done]. destruct (run relay w1) as [[[[[]|e] b] w2]|] eqn:Er; try done.
  destruct relay as [r|u]; [|done]. clear H.
  pose proof (known_window _ _ _ _ Eo win eq_refl) as [Hwf Hcov]. pose proof (fresh_range _ _ _ _ Eo) as Hfresh.
  assert (forall x, Download.fs w1 !! object_partial "/d" (sr_key r) = Some x -> False) as Hempty.
  { assert (match opened_stream with
            | Some (Ok (Relayed _ _ (inl r)), w) => is_none (Download.fs w !! object_partial "/d" (sr_key r))
            | _ => true end = true) as H by (vm_compute; reflexivity).
    rewrite Eo in H. intros x Hx. by rewrite Hx in H. }
  unfold opened_stream in Eo. unfold run in Er.
  edestruct streamed_blob_faithful as [_ Hend]; [exact Eo|exact Er| |exact Hwf|done|exact Hfresh| | |].
  - unfold u64_max. simpl. lia.
  - intros n node range x w0. apply broken_honest.
  - intros _ x Hx. by apply Hempty in Hx.
  - rewrite relay_body_data in Hend. by apply Hend.
Defined.

Definition sample_relay : StreamRelay :=
  {| sr_nodes := DownloadWitness.one_node; sr_current_node := 0;
     sr_response := {| r_status := 200; r_headers := []; r_content_length := Some 3; r_body := [] |};
     sr_node_lease := 1%N; sr_client_idle_timeout := 10 * millisecond; sr_path := "/b"; sr_headers := [];
     sr_window := {| win_start := 0; win_end := 2; win_total := 3 |}; sr_key := Cache.key_a; sr_media_type := "m";
     sr_expected_digest := Some digest; sr_parallel := None |}.

(** A relay whose nodes answer every resume with an empty body still returns. *)
Definition silent_send (_ : nat) (_ : NodeView) (_ : Method) (_ : string) (_ : HeaderMap) (range : RangeMode)
    : ApiResult Response :=
  Ok {| r_status := 206; r_headers := []; r_content_length := None; r_body := [] |}.

Lemma sequential_relay_returns_witness :
  exists result s, relay_stream_blob_inner (Sel := Selection.NodeSelector) silent_send (fun _ s => s) clock
    (fun _ => DownloadWitness.digest_hex) (fun _ => 3) parse (fun _ => "") (fun _ => None) (fun l => l) (fun _ => Accepted)
    (fun _ => None) (fun _ => Ok tt) (fun _ => ∅) (fun _ _ => Some 0) Scheduling.Balanced (fun x => x) "/d" Cache.sample_rows
    (fun _ => "/d/cache/tmp/donkey-range-1") 16 11 sample_relay start_world = Some (result, s).
Proof.
  eapply (sequential_relay_returns silent_send _ clock _ _ _ _ _ _ _ _ _ _ _ _ _ "/d" Cache.sample_rows _ millisecond 16 11).
  - unfold millisecond. lia.
  - intros n. unfold clock. lia.
  - done.
  - split; [vm_compute; repeat split; congruence|done].
  - done.
  - vm_compute. discriminate.
  - lia.
  - vm_compute. discriminate.
  - vm_compute. discriminate.
  - exact Cache.sample_scans.
  - exact Cache.sample_wf.
  - reflexivity.
  - unfold i64_max. simpl. lia.
Defined.
End RelayWitness.
