(* ===== verification/Jobs.v ===== *)
(** * Image jobs

    The job queue of the image tools: [JobKind], [JobStatus],
    [transition_update], the worker's completion and recovery passes, the
    cancel, retry and purge handlers and job creation of
    src/src/image_tools.rs, the [JobStore] of src/src/image_tools/job_store.rs
    and the [image_jobs], [image_job_owners], [image_job_lineage] and
    [image_sync_rules] statements of src/src/db.rs, with the table triggers.

    One SQL statement or transaction is one atomic function on [Db].  A handler
    is a [program] of Prog.v over the tables.  [db_step] collects every statement the component
    issues; invariants are proved over all its interleavings.  Instants are
    nanoseconds.  Failures of the database connection itself are not modelled. *)

From stdpp Require Import base gmap sets list strings pretty relations.
From Stdlib Require Import ZArith Lia Ascii.
From S2P Require Import Prelude Text Errors Prog.

(** ** Kinds and states *)

Module JobKind.

Inductive t : Type := Export | Extract | Copy.

Definition parse (value : string) : option t :=
  if value =?s "export" then Some Export
  else if value =?s "extract" then Some Extract
  else if value =?s "copy" then Some Copy
  else None.

Definition as_str (k : t) : string :=
  match k with Export => "export" | Extract => "extract" | Copy => "copy" end.

End JobKind.

Module JobStatus.

Inductive t : Type := Pending | Running | Completed | Skipped | Failed | Cancelled.

#[global] Instance eq_dec : EqDecision t.
Proof. solve_decision. Defined.

Definition parse (value : string) : option t :=
  if value =?s "pending" then Some Pending
  else if value =?s "running" then Some Running
  else if value =?s "completed" then Some Completed
  else if value =?s "skipped" then Some Skipped
  else if value =?s "failed" then Some Failed
  else if value =?s "cancelled" then Some Cancelled
  else None.

Definition as_str (s : t) : string :=
  match s with
  | Pending => "pending"
  | Running => "running"
  | Completed => "completed"
  | Skipped => "skipped"
  | Failed => "failed"
  | Cancelled => "cancelled"
  end.

Definition can_transition_to (self next : t) : bool :=
  match self, next with
  | Pending, (Running | Cancelled) => true
  | Running, (Completed | Skipped | Failed | Cancelled) => true
  | (Failed | Cancelled | Skipped), Pending => true
  | _, _ => false
  end.

Lemma parse_as_str s : parse (as_str s) = Some s.
Proof. by destruct s. Qed.

Lemma parse_Some v s : parse v = Some s -> v = as_str s.
Proof.
  unfold parse. repeat case_match; intros [= <-];
    match goal with H : (v =?s ?c) = true |- _ => apply str_eqb_eq in H; by subst end.
Qed.

End JobStatus.

Inductive JobOutcome : Type := OutcomeCompleted | OutcomeSkipped.

(** ** Rows *)

Record JobInput := {
  kind : string;
  source_ref : string;
  source_node_id : option Uuid;
  source_credential_id : option Uuid;
  destination_ref : option string;
  destination_credential_id : option Uuid;
  platform_os : string;
  platform_arch : string;
  output_format : option string
}.

(** A row of [image_jobs]; the primary key is the key of the table, and the
    columns no statement of this file changes after the insert are grouped in
    [job_input] (a deletion in Tools clears the references to what it deletes). *)
Record image_job := {
  job_input : JobInput;
  job_status : string;
  resolved_digest : option string;
  index_digest : option string;
  stage : string;
  progress_bytes : Z;
  total_bytes : Z;
  artifact_path : option string;
  artifact_name : option string;
  error : option string;
  idempotency_key : option string;
  cancel_requested : bool;
  lease_until : option Z;
  created_at : Z;
  updated_at : Z;
  started_at : option Z;
  finished_at : option Z
}.

(** The assignments of an [UPDATE image_jobs SET ...]. *)
Inductive assignment : Type :=
| SetStatus (v : string)
| SetResolvedDigest (v : option string)
| SetIndexDigest (v : option string)
| SetStage (v : string)
| SetProgressBytes (v : Z)
| SetTotalBytes (v : Z)
| SetArtifactPath (v : option string)
| SetArtifactName (v : option string)
| SetError (v : option string)
| SetIdempotencyKey (v : option string)
| SetCancelRequested (v : bool)
| SetLeaseUntil (v : option Z)
| SetUpdatedAt (v : Z)
| SetStartedAt (v : option Z)
| SetFinishedAt (v : option Z).

Definition assign (a : assignment) (j : image_job) : image_job :=
  {| job_input := job_input j;
     job_status := match a with SetStatus v => v | _ => job_status j end;
     resolved_digest := match a with SetResolvedDigest v => v | _ => resolved_digest j end;
     index_digest := match a with SetIndexDigest v => v | _ => index_digest j end;
     stage := match a with SetStage v => v | _ => stage j end;
     progress_bytes := match a with SetProgressBytes v => v | _ => progress_bytes j end;
     total_bytes := match a with SetTotalBytes v => v | _ => total_bytes j end;
     artifact_path := match a with SetArtifactPath v => v | _ => artifact_path j end;
     artifact_name := match a with SetArtifactName v => v | _ => artifact_name j end;
     error := match a with SetError v => v | _ => error j end;
     idempotency_key := match a with SetIdempotencyKey v => v | _ => idempotency_key j end;
     cancel_requested := match a with SetCancelRequested v => v | _ => cancel_requested j end;
     lease_until := match a with SetLeaseUntil v => v | _ => lease_until j end;
     created_at := created_at j;
     updated_at := match a with SetUpdatedAt v => v | _ => updated_at j end;
     started_at := match a with SetStartedAt v => v | _ => started_at j end;
     finished_at := match a with SetFinishedAt v => v | _ => finished_at j end |}.

Definition assign_all (c : list assignment) (j : image_job) : image_job :=
  fold_left (fun j a => assign a j) c j.

Record job_owner := { worker_id : Uuid; attempt : Z; claimed_at : Z }.

Record job_lineage := {
  sync_rule_id : Uuid;
  scheduled_for : option Z;
  trigger : string
}.

Record image_sync_rule := {
  rule_name : string;
  enabled : bool;
  rule_source_ref : string;
  rule_source_node_id : option Uuid;
  rule_source_credential_id : option Uuid;
  rule_destination_ref : string;
  rule_destination_credential_id : Uuid;
  rule_platform_os : string;
  rule_platform_arch : string;
  cron : string;
  timezone : string;
  last_digest : option string;
  last_run_at : option Z;
  next_run_at : option Z;
  rule_created_at : Z;
  rule_updated_at : Z
}.

Definition rule_ran (digest : option string) (now : Z) (r : image_sync_rule) : image_sync_rule :=
  {| rule_name := rule_name r; enabled := enabled r; rule_source_ref := rule_source_ref r;
     rule_source_node_id := rule_source_node_id r;
     rule_source_credential_id := rule_source_credential_id r;
     rule_destination_ref := rule_destination_ref r;
     rule_destination_credential_id := rule_destination_credential_id r;
     rule_platform_os := rule_platform_os r; rule_platform_arch := rule_platform_arch r;
     cron := cron r; timezone := timezone r;
     last_digest := digest; last_run_at := Some now; next_run_at := next_run_at r;
     rule_created_at := rule_created_at r; rule_updated_at := now |}.

Definition rule_scheduled (next now : Z) (r : image_sync_rule) : image_sync_rule :=
  {| rule_name := rule_name r; enabled := enabled r; rule_source_ref := rule_source_ref r;
     rule_source_node_id := rule_source_node_id r;
     rule_source_credential_id := rule_source_credential_id r;
     rule_destination_ref := rule_destination_ref r;
     rule_destination_credential_id := rule_destination_credential_id r;
     rule_platform_os := rule_platform_os r; rule_platform_arch := rule_platform_arch r;
     cron := cron r; timezone := timezone r;
     last_digest := last_digest r; last_run_at := last_run_at r; next_run_at := Some next;
     rule_created_at := rule_created_at r; rule_updated_at := now |}.

(** The tables; of [nodes] and [registry_credentials] the identifiers. *)
Record Db := {
  jobs : gmap Uuid image_job;
  owners : gmap Uuid job_owner;
  lineage : gmap Uuid job_lineage;
  rules : gmap Uuid image_sync_rule;
  nodes : gset Uuid;
  credentials : gset Uuid
}.

Definition with_jobs (d : Db) (m : gmap Uuid image_job) : Db :=
  {| jobs := m; owners := owners d; lineage := lineage d; rules := rules d;
     nodes := nodes d; credentials := credentials d |}.
Definition with_owners (d : Db) (m : gmap Uuid job_owner) : Db :=
  {| jobs := jobs d; owners := m; lineage := lineage d; rules := rules d;
     nodes := nodes d; credentials := credentials d |}.
Definition with_lineage (d : Db) (m : gmap Uuid job_lineage) : Db :=
  {| jobs := jobs d; owners := owners d; lineage := m; rules := rules d;
     nodes := nodes d; credentials := credentials d |}.
Definition with_rules (d : Db) (m : gmap Uuid image_sync_rule) : Db :=
  {| jobs := jobs d; owners := owners d; lineage := lineage d; rules := m;
     nodes := nodes d; credentials := credentials d |}.

(** ** Triggers *)

Definition exists_in (o : option Uuid) (table : gset Uuid) : bool :=
  is_none_or o (fun i => bool_decide (i ∈ table)).

(** The conditions of [trg_image_jobs_validate_insert] and
    [trg_image_jobs_validate_update] that concern the row alone. *)
Definition row_bounds (j : image_job) : bool :=
  is_some (JobKind.parse (kind (job_input j))) &&
  is_some (JobStatus.parse (job_status j)) &&
  (0 <=? progress_bytes j) && (0 <=? total_bytes j) &&
  negb ((0 <? total_bytes j) && (total_bytes j <? progress_bytes j)).

Definition row_valid (d : Db) (j : image_job) : bool :=
  row_bounds j &&
  exists_in (source_node_id (job_input j)) (nodes d) &&
  exists_in (source_credential_id (job_input j)) (credentials d) &&
  exists_in (destination_credential_id (job_input j)) (credentials d).

(** [length(trim(x)) = 0]: SQLite's [trim] removes spaces. *)
Definition blank (s : string) : bool := all_bytes (Ascii.eqb " "%char) s.

(** [trg_image_sync_rules_validate_insert] and [.._update]. *)
Definition rule_valid (d : Db) (r : image_sync_rule) : bool :=
  negb (blank (rule_name r)) && negb (blank (rule_source_ref r)) &&
  negb (blank (rule_destination_ref r)) &&
  exists_in (rule_source_node_id r) (nodes d) &&
  exists_in (rule_source_credential_id r) (credentials d) &&
  bool_decide (rule_destination_credential_id r ∈ credentials d).

(** [RAISE(ABORT, message)] *)
Definition raise (message : string) : DbErr := DbSqlite (Some "1811") message.
Definition invalid_job : DbErr := raise "invalid image job".
Definition invalid_rule : DbErr := raise "invalid image sync rule".

(** [UPDATE image_jobs SET c WHERE id = i AND p]: the rows affected. *)
Definition update_by_id (i : Uuid) (p : image_job -> bool) (c : list assignment) (d : Db)
  : result (Z * Db) DbErr :=
  match jobs d !! i with
  | Some j =>
      if p j then
        let j' := assign_all c j in
        if row_valid d j' then Ok (1, with_jobs d (<[i := j']> (jobs d)))
        else Err invalid_job
      else Ok (0, d)
  | None => Ok (0, d)
  end.

(** [UPDATE image_jobs SET c WHERE p]: a trigger that raises undoes the whole
    statement. *)
Definition update_where (p : image_job -> bool) (c : list assignment) (d : Db)
  : result (Z * Db) DbErr :=
  let hit := filter (fun r : Uuid * image_job => p r.2 = true) (jobs d) in
  if forallb (fun r => row_valid d (assign_all c r.2)) (map_to_list hit)
  then Ok (Z.of_nat (size hit),
           with_jobs d ((fun j => if p j then assign_all c j else j) <$> jobs d))
  else Err invalid_job.

(** [DELETE FROM image_jobs WHERE id = i]; the owner and lineage rows cascade. *)
Definition delete_by_id (i : Uuid) (d : Db) : Db :=
  with_lineage (with_owners (with_jobs d (delete i (jobs d))) (delete i (owners d)))
    (delete i (lineage d)).

(** [INSERT INTO image_jobs]: the primary key, the unique idempotency key and
    the insert trigger. *)
Definition by_idempotency_key (key : string) (d : Db) : option (Uuid * image_job) :=
  head (filter (fun r : Uuid * image_job => idempotency_key r.2 = Some key) (map_to_list (jobs d))).

Definition insert_job (i : Uuid) (j : image_job) (d : Db) : result Db DbErr :=
  if negb (row_valid d j) then Err invalid_job
  else if is_some (jobs d !! i)
          || is_some_and (idempotency_key j) (fun key => is_some (by_idempotency_key key d))
  then Err (DbUniqueConstraint "UNIQUE constraint failed")
  else Ok (with_jobs d (<[i := j]> (jobs d))).

(** ** Fenced statements

    The statements a worker issues under its token [(worker, attempt)]. *)

Definition JOB_LEASE_MINUTES : Z := 10.
Definition lease_until_of (now : Z) : Z := now + JOB_LEASE_MINUTES * 60 * 1000000000.

Definition is_status (s : JobStatus.t) (j : image_job) : bool := job_status j =?s JobStatus.as_str s.

(** [EXISTS (SELECT 1 FROM image_job_owners WHERE job_id = ? AND worker_id = ? AND attempt = ?)] *)
Definition owned (d : Db) (i worker : Uuid) (a : Z) : bool :=
  is_some_and (owners d !! i) (fun o => (worker_id o =? worker)%N && (attempt o =? a)).

(** [UPDATE image_jobs SET c WHERE id = ? AND status = 'running' AND EXISTS (...)] *)
Definition update_owned (i worker : Uuid) (a : Z) (c : list assignment) (d : Db)
  : result (bool * Db) DbErr :=
  let? (rows, d') := update_by_id i (fun j => is_status JobStatus.Running j && owned d i worker a) c d in
  Ok (rows =? 1, d').

Definition claim_image_job (i worker : Uuid) (now lease : Z) (d : Db)
  : result (option Z * Db) DbErr :=
  let a := Z.min i64_max (from_option attempt 0 (owners d !! i) + 1) in
  let? (rows, d') := update_by_id i (is_status JobStatus.Pending)
    [SetStatus "running"; SetStage "resolving"; SetLeaseUntil (Some lease);
     SetStartedAt (Some now); SetUpdatedAt now] d in
  if negb (rows =? 1) then Ok (None, d')
  else Ok (Some a, with_owners d' (<[i := {| worker_id := worker; attempt := a; claimed_at := now |}]> (owners d'))).

Definition image_job_owner (d : Db) (i : Uuid) : option (Uuid * Z) :=
  (fun o => (worker_id o, attempt o)) <$> owners d !! i.

Record ImageJobFinish := {
  fin_worker : Uuid;
  fin_attempt : Z;
  fin_status : string;
  fin_error : option string;
  fin_now : Z;
  fin_cancel_requested : bool
}.

(** [UPDATE image_sync_rules SET last_digest = (SELECT resolved_digest ...), ...
    WHERE id = (SELECT sync_rule_id FROM image_job_lineage WHERE job_id = ?)] *)
Definition record_rule_run (i : Uuid) (now : Z) (d : Db) : result Db DbErr :=
  match sync_rule_id <$> lineage d !! i with
  | Some rule =>
      match rules d !! rule with
      | Some r =>
          let r' := rule_ran (jobs d !! i ≫= resolved_digest) now r in
          if rule_valid d r' then Ok (with_rules d (<[rule := r']> (rules d))) else Err invalid_rule
      | None => Ok d
      end
  | None => Ok d
  end.

Definition finish_columns (f : ImageJobFinish) : list assignment :=
  [SetStatus (fin_status f); SetError (fin_error f); SetLeaseUntil None;
   SetFinishedAt (Some (fin_now f)); SetUpdatedAt (fin_now f)].

Definition finish_image_job_owned (i : Uuid) (f : ImageJobFinish) (d : Db)
  : result (bool * Db) DbErr :=
  let? (rows, d') := update_by_id i
    (fun j => is_status JobStatus.Running j && Bool.eqb (cancel_requested j) (fin_cancel_requested f)
              && owned d i (fin_worker f) (fin_attempt f))
    (finish_columns f) d in
  if rows =? 1 then
    let? d'' := (if fin_status f =?s "completed" then record_rule_run i (fin_now f) d' else Ok d') in
    Ok (true, with_owners d'' (if owned d'' i (fin_worker f) (fin_attempt f)
                               then delete i (owners d'') else owners d''))
  else Ok (false, d').

Definition renew_image_job (i worker : Uuid) (a now lease : Z) : Db -> result (bool * Db) DbErr :=
  update_owned i worker a [SetLeaseUntil (Some lease); SetUpdatedAt now].

Definition update_image_job_manifest_owned (i worker : Uuid) (a : Z)
  (digest : string) (index : option string) (total now : Z) : Db -> result (bool * Db) DbErr :=
  update_owned i worker a
    [SetResolvedDigest (Some digest); SetIndexDigest index; SetTotalBytes total; SetUpdatedAt now].

Definition update_image_job_progress_owned (i worker : Uuid) (a : Z)
  (stage : string) (progress total lease now : Z) : Db -> result (bool * Db) DbErr :=
  update_owned i worker a
    [SetStage stage; SetProgressBytes progress; SetTotalBytes total; SetUpdatedAt now;
     SetLeaseUntil (Some lease)].

Definition update_image_job_stage_owned (i worker : Uuid) (a : Z)
  (stage : string) (lease now : Z) : Db -> result (bool * Db) DbErr :=
  update_owned i worker a [SetStage stage; SetUpdatedAt now; SetLeaseUntil (Some lease)].

Definition update_image_job_artifact_owned (i worker : Uuid) (a : Z)
  (path name : string) (now : Z) : Db -> result (bool * Db) DbErr :=
  update_owned i worker a
    [SetArtifactPath (Some path); SetArtifactName (Some name); SetUpdatedAt now].

(** ** Transitions *)

Definition transition_columns (to : JobStatus.t) (now : Z) (err : option string) : list assignment :=
  [SetStatus (JobStatus.as_str to);
   SetStage (match to with
             | JobStatus.Pending => "queued"
             | JobStatus.Running => "resolving"
             | _ => JobStatus.as_str to
             end);
   SetError err; SetUpdatedAt now] ++
  match to with
  | JobStatus.Running =>
      [SetStartedAt (Some now); SetFinishedAt None;
       SetLeaseUntil (Some (lease_until_of now)); SetCancelRequested false]
  | JobStatus.Pending =>
      [SetProgressBytes 0; SetTotalBytes 0; SetStartedAt None; SetFinishedAt None;
       SetLeaseUntil None; SetCancelRequested false]
  | _ =>
      [SetFinishedAt (Some now); SetLeaseUntil None;
       SetCancelRequested (bool_decide (to = JobStatus.Cancelled))]
  end.

(** [transition_update]: the assignments and the filter on the old status. *)
Definition transition_update (from to : JobStatus.t) (now : Z) (err : option string)
  : ApiResult (list assignment * (image_job -> bool)) :=
  if negb (JobStatus.can_transition_to from to)
  then Err (BadRequest "illegal image job transition")
  else Ok (transition_columns to now err, is_status from).

Definition abandoned_lease (now : Z) (j : image_job) : bool :=
  is_none_or (lease_until j) (fun l => l <=? now).

Definition recovered_columns (now : Z) : list assignment :=
  [SetStatus "pending"; SetStage "recovered"; SetError None; SetCancelRequested false;
   SetLeaseUntil None; SetStartedAt None; SetFinishedAt None; SetUpdatedAt now].

(** ** Programs

    [active_attempts] is the [DashMap] of each worker process, [job_dirs] the
    job directories on disk, [remove_error] the error kind, other than
    [NotFound], that removing a directory meets. *)

Record JobsWorld := {
  db : Db;
  clock : Z;
  active_attempts : gmap (Uuid * Uuid) Z;
  job_dirs : gset Uuid;
  remove_error : Uuid -> option string
}.

Definition with_db (w : JobsWorld) (d : Db) : JobsWorld :=
  {| db := d; clock := clock w; active_attempts := active_attempts w;
     job_dirs := job_dirs w; remove_error := remove_error w |}.
Definition with_active (w : JobsWorld) (m : gmap (Uuid * Uuid) Z) : JobsWorld :=
  {| db := db w; clock := clock w; active_attempts := m;
     job_dirs := job_dirs w; remove_error := remove_error w |}.
Definition with_dirs (w : JobsWorld) (s : gset Uuid) : JobsWorld :=
  {| db := db w; clock := clock w; active_attempts := active_attempts w;
     job_dirs := s; remove_error := remove_error w |}.

Abbreviation prog := (program JobsWorld).

Definition Utc_now : prog Z := Act (fun w => (clock w, w)) Ret.
Definition query {A} (f : Db -> A) : prog (ApiResult A) := Act (fun w => (Ok (f (db w)), w)) Ret.

Definition step_db {A} (f : Db -> result (A * Db) DbErr) (w : JobsWorld) : ApiResult A * JobsWorld :=
  match f (db w) with
  | Ok (a, d) => (Ok a, with_db w d)
  | Err e => (Err (Database e), w)
  end.
Definition exec {A} (f : Db -> result (A * Db) DbErr) : prog (ApiResult A) := Act (step_db f) Ret.

Definition fail {A} (e : AppError) : prog (ApiResult A) := Ret (Err e).
Definition find_by_id (i : Uuid) : prog (ApiResult (option image_job)) := query (fun d => jobs d !! i).
Definition job_not_found : AppError := NotFound "image job".

(** ** The job store of one worker process *)

Section job_store.
Context (worker : Uuid).

Definition active_attempt (i : Uuid) : prog (option Z) := read (fun w => active_attempts w !! (worker, i)).

Definition activate (i : Uuid) (a : Z) : prog unit :=
  Act (fun w => (tt, with_active w (<[(worker, i) := a]> (active_attempts w)))) Ret.

Definition deactivate (i : Uuid) : prog unit :=
  Act (fun w => (tt, with_active w (delete (worker, i) (active_attempts w)))) Ret.

Definition claim_selected (i : Uuid) : prog (ApiResult (option (image_job * Z))) :=
  let- now := Utc_now in
  let! claimed := exec (claim_image_job i worker now (lease_until_of now)) in
  match claimed with
  | None => Ret (Ok None)
  | Some a =>
      let! found := find_by_id i in
      match found with
      | None => fail job_not_found
      | Some job =>
          let- _ := activate i a in
          Ret (Ok (Some (job, a)))
      end
  end.

(** [ORDER BY created_at ASC], the rows with equal times in table order. *)
Definition oldest_pending (d : Db) : option Uuid :=
  fst <$> min_by (fun a b : Uuid * image_job => Z.compare (created_at a.2) (created_at b.2))
    (filter (fun r => is_status JobStatus.Pending r.2 = true) (map_to_list (jobs d))).

Definition claim_next : prog (ApiResult (option (Uuid * image_job * Z))) :=
  let! next := query oldest_pending in
  match next with
  | None => Ret (Ok None)
  | Some i =>
      let! claimed := claim_selected i in
      Ret (Ok ((fun '(job, a) => (i, job, a)) <$> claimed))
  end.

Definition renew (i : Uuid) (a : Z) : prog (ApiResult bool) :=
  let- now := Utc_now in
  exec (renew_image_job i worker a now (lease_until_of now)).

Definition owns (i : Uuid) (a : Z) : prog (ApiResult bool) :=
  query (fun d => is_some_and (image_job_owner d i)
                    (fun '(w, current) => (w =? worker)%N && (current =? a))).

Definition finish (i : Uuid) (a : Z) (status : string) (error : option string)
  (cancel_requested : bool) : prog (ApiResult bool) :=
  let- now := Utc_now in
  exec (finish_image_job_owned i
    {| fin_worker := worker; fin_attempt := a; fin_status := status; fin_error := error;
       fin_now := now; fin_cancel_requested := cancel_requested |}).

Definition ownership_result (updated : bool) : ApiResult unit :=
  if updated then Ok tt else Err (Conflict "image job ownership has changed").

(** The fenced statement when the worker holds an active attempt, the plain
    statement otherwise. *)
Definition fenced_or (i : Uuid) (fenced : Z -> prog (ApiResult bool)) (plain : prog (ApiResult Z))
  : prog (ApiResult unit) :=
  let- active := active_attempt i in
  match active with
  | Some a => let! updated := fenced a in Ret (ownership_result updated)
  | None => let! _ := plain in Ret (Ok tt)
  end.

Definition update_manifest (i : Uuid) (digest : string) (index : option string) (total : Z)
  : prog (ApiResult unit) :=
  fenced_or i
    (fun a => let- now := Utc_now in
              exec (update_image_job_manifest_owned i worker a digest index (to_i64_saturating total) now))
    (exec (update_by_id i (fun _ => true)
       [SetResolvedDigest (Some digest); SetIndexDigest index; SetTotalBytes (to_i64_saturating total)])).

Definition update_progress (i : Uuid) (stage : string) (current total : Z) : prog (ApiResult unit) :=
  let- now := Utc_now in
  fenced_or i
    (fun a => exec (update_image_job_progress_owned i worker a stage
                      (to_i64_saturating current) (to_i64_saturating total) (lease_until_of now) now))
    (exec (update_by_id i (is_status JobStatus.Running)
       [SetStage stage; SetProgressBytes (to_i64_saturating current);
        SetTotalBytes (to_i64_saturating total); SetUpdatedAt now;
        SetLeaseUntil (Some (lease_until_of now))])).

Definition update_stage (i : Uuid) (stage : string) : prog (ApiResult unit) :=
  let- now := Utc_now in
  fenced_or i
    (fun a => exec (update_image_job_stage_owned i worker a stage (lease_until_of now) now))
    (exec (update_by_id i (is_status JobStatus.Running)
       [SetStage stage; SetUpdatedAt now; SetLeaseUntil (Some (lease_until_of now))])).

Definition update_artifact (i : Uuid) (path name : string) : prog (ApiResult unit) :=
  fenced_or i
    (fun a => let- now := Utc_now in
              exec (update_image_job_artifact_owned i worker a path name now))
    (exec (update_by_id i (fun _ => true)
       [SetArtifactPath (Some path); SetArtifactName (Some name)])).

Definition is_cancelled (i : Uuid) : prog (ApiResult bool) :=
  query (fun d => is_some_and (jobs d !! i) cancel_requested).

Definition check_cancelled (i : Uuid) : prog (ApiResult unit) :=
  let- active := active_attempt i in
  let! lost := match active with
               | Some a => let! mine := owns i a in Ret (Ok (negb mine))
               | None => Ret (Ok false)
               end in
  if (lost : bool) then fail (Conflict "image job lease was lost")
  else
    let! cancelled := is_cancelled i in
    if (cancelled : bool) then fail (BadRequest "image job was cancelled") else Ret (Ok tt).

End job_store.

(** ** Completion and recovery *)

(** [chars().take(n)] of a UTF-8 string: a character starts at a byte that is
    not a continuation byte. *)
Fixpoint take_chars (n : nat) (s : string) : string :=
  match s with
  | EmptyString => EmptyString
  | String c r =>
      if between 128 191 c then String c (take_chars n r)
      else match n with
           | O => EmptyString
           | S n => String c (take_chars n r)
           end
  end.

Definition safe_error (e : AppError) : string :=
  match e with
  | BadRequest message => take_chars 500 message
  | Upstream _ => "upstream Registry request failed; check server logs"
  | Integrity => "image content integrity check failed"
  | _ => "image task failed; check server logs"
  end.

(** The target state and error of [finish_job]. *)
Definition finish_target (cancel : bool) (outcome : ApiResult JobOutcome) : JobStatus.t * option string :=
  if cancel then (JobStatus.Cancelled, None)
  else match outcome with
       | Ok OutcomeCompleted => (JobStatus.Completed, None)
       | Ok OutcomeSkipped => (JobStatus.Skipped, None)
       | Err e => (JobStatus.Failed, Some (safe_error e))
       end.

Definition finish_job (worker i : Uuid) (a : Z) (outcome : ApiResult JobOutcome) : prog (ApiResult unit) :=
  let! mine := owns worker i a in
  if negb mine then fail (Conflict "image job ownership has changed")
  else
    let! found := find_by_id i in
    match found with
    | None => fail job_not_found
    | Some current =>
        let '(target, err) := finish_target (cancel_requested current) outcome in
        let! finished := finish worker i a (JobStatus.as_str target) err (cancel_requested current) in
        if (finished : bool) then Ret (Ok tt)
        else fail (BadRequest "image job is no longer in a finishable state")
    end.

Definition is_abandoned (now : Z) (j : image_job) : bool :=
  is_status JobStatus.Running j && abandoned_lease now j.

Definition recover_abandoned_jobs (now : Z) : prog (ApiResult Z) :=
  let! has_abandoned :=
    query (fun d => existsb (fun r : Uuid * image_job => is_abandoned now r.2) (map_to_list (jobs d))) in
  if negb has_abandoned then Ret (Ok 0)
  else
    match transition_update JobStatus.Running JobStatus.Cancelled now None with
    | Err e => fail e
    | Ok (columns, from) =>
        let! cancelled :=
          exec (update_where (fun j => from j && cancel_requested j && abandoned_lease now j) columns) in
        let! recovered :=
          exec (update_where (fun j => is_abandoned now j && negb (cancel_requested j))
                  (recovered_columns now)) in
        Ret (Ok (cancelled + recovered))
    end.

(** ** Cancel, retry and purge *)

Definition NO_CONTENT : Z := 204.

Definition parse_status (j : image_job) : ApiResult JobStatus.t :=
  ok_or (JobStatus.parse (job_status j)) (BadRequest "image job has an unknown status").

(** [cancel_job_from_status]: [fuel] bounds the turns of the loop; [None] means
    it was still turning. *)
Fixpoint cancel_job_from_status (fuel : nat) (i : Uuid) (status : JobStatus.t)
  : prog (option (ApiResult Z)) :=
  match fuel with
  | O => Ret None
  | S fuel =>
      let- now := Utc_now in
      let- rows :=
        match status with
        | JobStatus.Pending =>
            match transition_update JobStatus.Pending JobStatus.Cancelled now None with
            | Err e => fail e
            | Ok (columns, from) => exec (update_by_id i from columns)
            end
        | JobStatus.Running =>
            exec (update_by_id i (is_status JobStatus.Running)
                    [SetCancelRequested true; SetUpdatedAt now])
        | _ => fail (BadRequest "image job cannot be cancelled")
        end in
      match rows with
      | Err e => Ret (Some (Err e))
      | Ok rows =>
          if rows =? 1 then Ret (Some (Ok NO_CONTENT))
          else
            let- found := find_by_id i in
            match found with
            | Err e => Ret (Some (Err e))
            | Ok None => Ret (Some (Err job_not_found))
            | Ok (Some model) =>
                if is_status JobStatus.Running model && cancel_requested model
                then Ret (Some (Ok NO_CONTENT))
                else match parse_status model with
                     | Err e => Ret (Some (Err e))
                     | Ok status => cancel_job_from_status fuel i status
                     end
            end
      end
  end.

Definition cancel_job (fuel : nat) (i : Uuid) : prog (option (ApiResult Z)) :=
  let- found := find_by_id i in
  match found with
  | Err e => Ret (Some (Err e))
  | Ok None => Ret (Some (Err job_not_found))
  | Ok (Some model) =>
      match parse_status model with
      | Err e => Ret (Some (Err e))
      | Ok status => cancel_job_from_status fuel i status
      end
  end.

Definition retry_job (i : Uuid) : prog (ApiResult image_job) :=
  let! found := find_by_id i in
  match found with
  | None => fail job_not_found
  | Some model =>
      match parse_status model with
      | Err e => fail e
      | Ok status =>
          if negb (JobStatus.can_transition_to status JobStatus.Pending)
          then fail (BadRequest "image job cannot be retried")
          else
            let- now := Utc_now in
            match transition_update status JobStatus.Pending now None with
            | Err e => fail e
            | Ok (columns, from) =>
                let! rows := exec (update_by_id i from columns) in
                let! found := find_by_id i in
                if negb (rows =? 1)
                then fail (if is_none found then job_not_found
                           else BadRequest "image job cannot be retried")
                else match found with
                     | None => fail job_not_found
                     | Some model => Ret (Ok model)
                     end
            end
      end
  end.

(** [ArtifactStore::remove_job] *)
Definition remove_job (i : Uuid) : prog (ApiResult unit) :=
  Act (fun w => match remove_error w i with
                | None => (Ok tt, with_dirs w (job_dirs w ∖ {[i]}))
                | Some k => (Err (Io k), w)
                end) Ret.

Definition released_columns : list assignment :=
  [SetArtifactPath None; SetArtifactName None; SetIdempotencyKey None].

Definition remove_job_storage (i : Uuid) : prog (ApiResult unit) :=
  let! _ := remove_job i in
  let! _ := exec (update_by_id i (fun _ => true) released_columns) in
  Ret (Ok tt).

Definition purge_job (i : Uuid) : prog (ApiResult Z) :=
  let! found := find_by_id i in
  match found with
  | None => fail job_not_found
  | Some job =>
      match parse_status job with
      | Err e => fail e
      | Ok (JobStatus.Pending | JobStatus.Running) =>
          fail (BadRequest "running image jobs must be cancelled first")
      | Ok _ =>
          let! _ := remove_job_storage i in
          let! _ := exec (fun d => Ok (tt, delete_by_id i d)) in
          Ret (Ok NO_CONTENT)
      end
  end.

Definition completed_job (i : Uuid) : prog (ApiResult image_job) :=
  let! found := find_by_id i in
  match found with
  | None => fail job_not_found
  | Some job =>
      if negb (is_status JobStatus.Completed job) then fail (BadRequest "image job is not completed")
      else Ret (Ok job)
  end.

(** ** Creation

    [reference_ok] is [str::parse::<Reference>] of the oci-client crate;
    [upcoming] is what [next_run] computes with the cron and chrono-tz crates at
    an instant. *)

Definition hex_digit (n : N) : string := chr (if (n <? 10)%N then 48 + n else 87 + n).

Fixpoint hex_digits (width : nat) (n : N) : string :=
  match width with
  | O => EmptyString
  | S width => hex_digits width (n / 16) +:+ hex_digit (n mod 16)
  end.

(** [Display for Uuid]: 8-4-4-4-12 hexadecimal digits. *)
Definition uuid_string (u : Uuid) : string :=
  hex_digits 8 (u / 2 ^ 96) +:+ "-" +:+ hex_digits 4 (u / 2 ^ 80 mod 2 ^ 16) +:+ "-" +:+
  hex_digits 4 (u / 2 ^ 64 mod 2 ^ 16) +:+ "-" +:+ hex_digits 4 (u / 2 ^ 48 mod 2 ^ 16) +:+ "-" +:+
  hex_digits 12 (u mod 2 ^ 48).

Definition timestamp_millis (t : Z) : Z := t / 1000000.

Definition slot_key (rule : Uuid) (at_ : Z) : string :=
  "sync-rule:" +:+ uuid_string rule +:+ ":" +:+ pretty (timestamp_millis at_).

Definition pending_job (input : JobInput) (k : JobKind.t) (key : option string) (now : Z) : image_job :=
  {| job_input :=
       {| kind := JobKind.as_str k; source_ref := source_ref input;
          source_node_id := source_node_id input;
          source_credential_id := source_credential_id input;
          destination_ref := destination_ref input;
          destination_credential_id := destination_credential_id input;
          platform_os := platform_os input; platform_arch := platform_arch input;
          output_format := output_format input |};
     job_status := JobStatus.as_str JobStatus.Pending;
     resolved_digest := None; index_digest := None; stage := "queued";
     progress_bytes := 0; total_bytes := 0; artifact_path := None; artifact_name := None;
     error := None; idempotency_key := key; cancel_requested := false; lease_until := None;
     created_at := now; updated_at := now; started_at := None; finished_at := None |}.

Section creation.
Context (reference_ok : string -> bool).
Context (upcoming : string -> string -> Z -> ApiResult Z).

Definition validate_job (input : JobInput) : ApiResult unit :=
  if is_none (JobKind.parse (kind input))
  then Err (BadRequest "job kind must be export, extract, or copy")
  else if (1024 <? slen (source_ref input)) || negb (reference_ok (source_ref input))
  then Err (BadRequest "invalid source image reference")
  else if is_some (source_node_id input) && is_some (source_credential_id input)
  then Err (BadRequest "choose either a source acceleration node or a direct source credential")
  else if (kind input =?s "copy")
          && (is_none (destination_ref input) || is_none (destination_credential_id input))
  then Err (BadRequest "copy jobs require destination_ref and destination_credential_id")
  else if negb ((platform_os input =?s "linux") || (platform_os input =?s "windows"))
          || negb ((platform_arch input =?s "amd64") || (platform_arch input =?s "arm64")
                   || (platform_arch input =?s "arm") || (platform_arch input =?s "386"))
  then Err (BadRequest "unsupported image platform")
  else Ok tt.

(** [create_job] with [new_id] the identifier [Uuid::new_v4] draws. *)
Definition create_job (new_id : Uuid) (input : JobInput) (key : option string)
  : prog (ApiResult (Uuid * image_job)) :=
  match validate_job input with
  | Err e => fail e
  | Ok _ =>
      match JobKind.parse (kind input) with
      | None => fail (BadRequest "unsupported image job kind")
      | Some k =>
          let! existing := query (fun d => key ≫= fun key => by_idempotency_key key d) in
          match existing with
          | Some existing => Ret (Ok existing)
          | None =>
              let- now := Utc_now in
              let model := pending_job input k key now in
              let- inserted := exec (fun d => let? d' := insert_job new_id model d in Ok (tt, d')) in
              match inserted with
              | Ok _ => Ret (Ok (new_id, model))
              | Err e =>
                  if is_some key then
                    let! existing := query (fun d => key ≫= fun key => by_idempotency_key key d) in
                    match existing with
                    | Some existing => Ret (Ok existing)
                    | None => fail e
                    end
                  else fail e
              end
          end
      end
  end.

Definition rule_job_input (r : image_sync_rule) : JobInput :=
  {| kind := "copy"; source_ref := rule_source_ref r; source_node_id := rule_source_node_id r;
     source_credential_id := rule_source_credential_id r;
     destination_ref := Some (rule_destination_ref r);
     destination_credential_id := Some (rule_destination_credential_id r);
     platform_os := rule_platform_os r; platform_arch := rule_platform_arch r;
     output_format := None |}.

(** The transaction of [create_rule_job] at instant [now]; an error rolls it
    back. *)
Definition create_rule_job (new_id rule_id : Uuid) (slot : option Z) (trigger : string) (now : Z) (d : Db)
  : result (option (Uuid * image_job) * Db) AppError :=
  let? rule := ok_or (rules d !! rule_id) (NotFound "sync rule") in
  let scheduled := trigger =?s "schedule" in
  if scheduled && (negb (enabled rule) || negb (bool_decide (next_run_at rule = slot))
                   || is_none_or (next_run_at rule) (fun next => now <? next))
  then Ok (None, d)
  else
    let input := rule_job_input rule in
    let? _ := validate_job input in
    let key := if scheduled then Some (slot_key rule_id (unwrap_or slot now)) else None in
    let? (job, d) :=
      match key ≫= fun key => by_idempotency_key key d with
      | Some existing => Ok (existing, d)
      | None =>
          let model := pending_job input JobKind.Copy key now in
          let? d := map_err Database (insert_job new_id model d) in
          Ok ((new_id, model),
              with_lineage d (<[new_id := {| sync_rule_id := rule_id; scheduled_for := slot;
                                             trigger := trigger |}]> (lineage d)))
      end in
    if scheduled then
      let? next := upcoming (cron rule) (timezone rule) now in
      let rule' := rule_scheduled next now rule in
      if rule_valid d rule' then Ok (Some job, with_rules d (<[rule_id := rule']> (rules d)))
      else Err (Database invalid_rule)
    else Ok (Some job, d).

(** [create_rule_job] as an action of a handler. *)
Definition create_rule_job_now (new_id rule_id : Uuid) (slot : option Z) (trigger : string)
  : prog (ApiResult (option (Uuid * image_job))) :=
  Act (fun w => match create_rule_job new_id rule_id slot trigger (clock w) (db w) with
                | Ok (r, d) => (Ok r, with_db w d)
                | Err e => (Err e, w)
                end) Ret.

Definition run_rule (new_id i : Uuid) : prog (ApiResult (Uuid * image_job)) :=
  let! job := create_rule_job_now new_id i None "manual" in
  match job with
  | Some job => Ret (Ok job)
  | None => fail (NotFound "sync rule")
  end.

Definition due_rules (now : Z) (d : Db) : list (Uuid * image_sync_rule) :=
  filter (fun r => enabled r.2 && is_some_and (next_run_at r.2) (fun next => next <=? now) = true)
    (map_to_list (rules d)).

(** [enqueue_due_rules]: the rules read once, then one transaction each;
    [ids] are the identifiers drawn. *)
Fixpoint enqueue_each (due : list (Uuid * image_sync_rule)) (ids : nat -> Uuid) (now : Z)
  : prog (ApiResult unit) :=
  match due with
  | (i, rule) :: due =>
      let! _ := create_rule_job_now (ids 0%nat) i
                  (match next_run_at rule with Some n => Some n | None => Some now end) "schedule" in
      enqueue_each due (fun n => ids (S n)) now
  | [] => Ret (Ok tt)
  end.

Definition enqueue_due_rules (ids : nat -> Uuid) : prog (ApiResult unit) :=
  let- now := Utc_now in
  let! due := query (due_rules now) in
  enqueue_each due ids now.

End creation.

Definition delete_rule (i : Uuid) (d : Db) : Db :=
  with_lineage (with_rules d (delete i (rules d)))
    (filter (fun l : Uuid * job_lineage => sync_rule_id l.2 <> i) (lineage d)).

(** ** Interleavings

    [db_step d d']: one statement or transaction that some worker or handler
    issues, with any arguments it can have, takes the tables from [d] to [d'].
    [upsert_rule] stands for the inserts and updates of [create_rule] and
    [update_rule]. *)

(** What [finish_job] passes to the finishing statement. *)
Definition finish_args (f : ImageJobFinish) : Prop :=
  exists outcome, (fin_status f, fin_error f) =
    (fun '(s, e) => (JobStatus.as_str s, e)) (finish_target (fin_cancel_requested f) outcome).

Definition plain_column (a : assignment) : bool :=
  match a with
  | SetResolvedDigest _ | SetIndexDigest _ | SetTotalBytes _ | SetArtifactPath _
  | SetArtifactName _ | SetIdempotencyKey None => true
  | _ => false
  end.

Definition worker_column (a : assignment) : bool :=
  match a with
  | SetResolvedDigest _ | SetIndexDigest _ | SetTotalBytes _ | SetArtifactPath _
  | SetArtifactName _ | SetStage _ | SetProgressBytes _ | SetUpdatedAt _
  | SetLeaseUntil (Some _) => true
  | _ => false
  end.

Inductive db_step : Db -> Db -> Prop :=
| step_claim i worker now lease r d d' :
    claim_image_job i worker now lease d = Ok (r, d') -> db_step d d'
| step_finish i f r d d' :
    finish_args f -> finish_image_job_owned i f d = Ok (r, d') -> db_step d d'
| step_owned i worker a c r d d' :
    forallb worker_column c = true -> update_owned i worker a c d = Ok (r, d') -> db_step d d'
| step_plain i c r d d' :
    forallb plain_column c = true -> update_by_id i (fun _ => true) c d = Ok (r, d') -> db_step d d'
| step_running i c r d d' :
    forallb worker_column c = true ->
    update_by_id i (is_status JobStatus.Running) c d = Ok (r, d') -> db_step d d'
| step_request_cancel i now r d d' :
    update_by_id i (is_status JobStatus.Running) [SetCancelRequested true; SetUpdatedAt now] d
      = Ok (r, d') -> db_step d d'
| step_transition i from to now r d d' :
    (from, to) = (JobStatus.Pending, JobStatus.Cancelled) \/
    (to = JobStatus.Pending /\ JobStatus.can_transition_to from to = true) ->
    update_by_id i (is_status from) (transition_columns to now None) d = Ok (r, d') -> db_step d d'
| step_recover_cancelled now r d d' :
    update_where (fun j => is_status JobStatus.Running j && cancel_requested j && abandoned_lease now j)
      (transition_columns JobStatus.Cancelled now None) d = Ok (r, d') -> db_step d d'
| step_recover now r d d' :
    update_where (fun j => is_abandoned now j && negb (cancel_requested j)) (recovered_columns now) d
      = Ok (r, d') -> db_step d d'
| step_delete i d : db_step d (delete_by_id i d)
| step_insert i input k key now d d' :
    insert_job i (pending_job input k key now) d = Ok d' -> db_step d d'
| step_rule_job reference_ok upcoming new_id i slot trigger now r d d' :
    create_rule_job reference_ok upcoming new_id i slot trigger now d = Ok (r, d') -> db_step d d'
| step_upsert_rule i r d : rule_valid d r = true -> db_step d (with_rules d (<[i := r]> (rules d)))
| step_delete_rule i d : db_step d (delete_rule i d).

(** A world step leaves the tables or performs one statement on them. *)
Definition atom (w w' : JobsWorld) : Prop := db w' = db w \/ db_step (db w) (db w').

(** Every action of a program of this component is an [atom]. *)
Abbreviation within := (obeys atom).

Definition empty_tables (d : Db) : Prop :=
  jobs d = ∅ /\ owners d = ∅ /\ lineage d = ∅.

Definition reachable (d : Db) : Prop := exists d0, empty_tables d0 /\ rtc db_step d0 d.

(** *** What a statement does to one row *)

Inductive row_step : image_job -> image_job -> Prop :=
| row_same j : row_step j j
| row_claim j now lease :
    is_status JobStatus.Pending j = true ->
    row_step j (assign_all [SetStatus "running"; SetStage "resolving"; SetLeaseUntil (Some lease);
                            SetStartedAt (Some now); SetUpdatedAt now] j)
| row_finish j f :
    is_status JobStatus.Running j = true -> finish_args f ->
    cancel_requested j = fin_cancel_requested f ->
    row_step j (assign_all (finish_columns f) j)
| row_worker j c :
    is_status JobStatus.Running j = true -> forallb worker_column c = true ->
    row_step j (assign_all c j)
| row_plain j c : forallb plain_column c = true -> row_step j (assign_all c j)
| row_request_cancel j now :
    is_status JobStatus.Running j = true ->
    row_step j (assign_all [SetCancelRequested true; SetUpdatedAt now] j)
| row_cancel j now :
    is_status JobStatus.Pending j = true ->
    row_step j (assign_all (transition_columns JobStatus.Cancelled now None) j)
| row_retry j from now :
    is_status from j = true -> JobStatus.can_transition_to from JobStatus.Pending = true ->
    row_step j (assign_all (transition_columns JobStatus.Pending now None) j)
| row_recover_cancelled j now :
    is_abandoned now j = true -> cancel_requested j = true ->
    row_step j (assign_all (transition_columns JobStatus.Cancelled now None) j)
| row_recover j now :
    is_abandoned now j = true -> cancel_requested j = false ->
    row_step j (assign_all (recovered_columns now) j).

(** The same for a row that may appear or go. *)
Inductive entry_step : option image_job -> option image_job -> Prop :=
| entry_none : entry_step None None
| entry_row j j' : row_step j j' -> entry_step (Some j) (Some j')
| entry_insert input k key now : entry_step None (Some (pending_job input k key now))
| entry_delete j : entry_step (Some j) None.

(** ** Statements: lemmas *)

Lemma update_by_id_Ok i p c d r d' : update_by_id i p c d = Ok (r, d') ->
  (r = 1 /\ exists j, jobs d !! i = Some j /\ p j = true /\ row_valid d (assign_all c j) = true /\
     d' = with_jobs d (<[i := assign_all c j]> (jobs d))) \/
  (r = 0 /\ d' = d /\ forall j, jobs d !! i = Some j -> p j = false).
Proof.
  unfold update_by_id. destruct (jobs d !! i) as [j|] eqn:E.
  - destruct (p j) eqn:P; [destruct (row_valid _ _) eqn:V|]; intros [= <- <-]; [left|right].
    + split; [done|]. by exists j.
    + split_and!; [done..|]. intros j' [= <-]. done.
  - intros [= <- <-]. right. by split_and!.
Qed.

Lemma update_owned_Ok i worker a c d b d' : update_owned i worker a c d = Ok (b, d') ->
  (b = true /\ owned d i worker a = true /\
   exists j, jobs d !! i = Some j /\ is_status JobStatus.Running j = true /\
     d' = with_jobs d (<[i := assign_all c j]> (jobs d))) \/
  (b = false /\ d' = d).
Proof.
  unfold update_owned. destruct (update_by_id _ _ _ _) as [[r d1]|] eqn:E; [|done].
  intros [= <- <-]. apply update_by_id_Ok in E as [(-> & j & Hj & P & _ & ->) | (-> & -> & _)].
  - left. apply andb_true_iff in P as [P O]. split_and!; [done..|]. by exists j.
  - by right.
Qed.

Lemma update_where_Ok p c d r d' : update_where p c d = Ok (r, d') ->
  d' = with_jobs d ((fun j => if p j then assign_all c j else j) <$> jobs d) /\
  r = Z.of_nat (size (filter (fun q : Uuid * image_job => p q.2 = true) (jobs d))) /\
  forall i j, jobs d !! i = Some j -> p j = true -> row_valid d (assign_all c j) = true.
Proof.
  unfold update_where. destruct (forallb _ _) eqn:V; [|done]. intros [= <- <-].
  split_and!; [done..|]. intros i j Hj P. rewrite forallb_forall in V.
  apply (V (i, j)), list_elem_of_In, elem_of_map_to_list, map_lookup_filter_Some. done.
Qed.

Lemma insert_job_Ok i j d d' : insert_job i j d = Ok d' ->
  jobs d !! i = None /\ row_valid d j = true /\ d' = with_jobs d (<[i := j]> (jobs d)) /\
  forall key, idempotency_key j = Some key -> by_idempotency_key key d = None.
Proof.
  unfold insert_job. destruct (row_valid d j); [|done]. simpl.
  destruct (jobs d !! i); [done|]. simpl.
  destruct (is_some_and _ _) eqn:K; [done|]. intros [= <-]. split_and!; [done..|].
  intros key Hk. rewrite Hk in K. simpl in K. by destruct (by_idempotency_key key d).
Qed.

Lemma record_rule_run_Ok i now d d' : record_rule_run i now d = Ok d' ->
  jobs d' = jobs d /\ owners d' = owners d /\ lineage d' = lineage d.
Proof. unfold record_rule_run. repeat case_match; by intros [= <-]. Qed.

Lemma finish_Ok i f d b d' : finish_image_job_owned i f d = Ok (b, d') ->
  (b = true /\ owned d i (fin_worker f) (fin_attempt f) = true /\
   exists j, jobs d !! i = Some j /\ is_status JobStatus.Running j = true /\
     cancel_requested j = fin_cancel_requested f /\
     jobs d' = <[i := assign_all (finish_columns f) j]> (jobs d) /\
     owners d' = delete i (owners d) /\ lineage d' = lineage d) \/
  (b = false /\ d' = d).
Proof.
  unfold finish_image_job_owned. destruct (update_by_id _ _ _ _) as [[r d1]|] eqn:E; [|done].
  apply update_by_id_Ok in E as [(-> & j & Hj & P & _ & ->) | (-> & -> & _)]; simpl.
  - apply andb_true_iff in P as [P O]. apply andb_true_iff in P as [P C].
    apply Bool.eqb_prop in C. intros H. left.
    match type of H with match ?e with _ => _ end = _ => destruct e as [d2|] eqn:E2; [|done] end.
    injection H as <- <-.
    assert (jobs d2 = <[i := assign_all (finish_columns f) j]> (jobs d) /\
            owners d2 = owners d /\ lineage d2 = lineage d) as (J & W & L).
    { destruct (fin_status f =?s "completed"); [|by injection E2 as <-].
      apply record_rule_run_Ok in E2 as (-> & -> & ->). done. }
    split_and!; [done..|]. exists j. split_and!; [done..| |done].
    unfold owned in *. simpl. rewrite W, O. done.
  - intros [= <- <-]. by right.
Qed.

Lemma claim_Ok i worker now lease d r d' : claim_image_job i worker now lease d = Ok (r, d') ->
  (exists j, r = Some (Z.min i64_max (from_option attempt 0 (owners d !! i) + 1)) /\
     jobs d !! i = Some j /\ is_status JobStatus.Pending j = true /\
     jobs d' = <[i := assign_all [SetStatus "running"; SetStage "resolving"; SetLeaseUntil (Some lease);
                                  SetStartedAt (Some now); SetUpdatedAt now] j]> (jobs d) /\
     owners d' = <[i := {| worker_id := worker;
                           attempt := Z.min i64_max (from_option attempt 0 (owners d !! i) + 1);
                           claimed_at := now |}]> (owners d) /\
     lineage d' = lineage d) \/
  (r = None /\ d' = d).
Proof.
  unfold claim_image_job. destruct (update_by_id _ _ _ _) as [[n d1]|] eqn:E; [|done].
  apply update_by_id_Ok in E as [(-> & j & Hj & P & _ & ->) | (-> & -> & _)].
  - intros [= <- <-]. left. by exists j.
  - intros [= <- <-]. by right.
Qed.

Lemma create_rule_job_Ok reference_ok upcoming new_id i slot trigger now d r d' :
  create_rule_job reference_ok upcoming new_id i slot trigger now d = Ok (r, d') ->
  owners d' = owners d /\
  (jobs d' = jobs d \/
   exists input key, jobs d !! new_id = None /\
     jobs d' = <[new_id := pending_job input JobKind.Copy key now]> (jobs d) /\
     (forall key', key = Some key' -> by_idempotency_key key' d = None)).
Proof.
  unfold create_rule_job. destruct (rules d !! i) as [rule|]; [|done]. cbn [ok_or].
  destruct (_ && _); [intros [= <- <-]; by auto|].
  destruct (validate_job _ _); [|done]. cbv zeta.
  match goal with |- match ?e with _ => _ end = _ -> _ => destruct e as [[job d1]|] eqn:E; [|done] end.
  assert (owners d1 = owners d /\
   (jobs d1 = jobs d \/ exists input key, jobs d !! new_id = None /\
     jobs d1 = <[new_id := pending_job input JobKind.Copy key now]> (jobs d) /\
     (forall key', key = Some key' -> by_idempotency_key key' d = None))) as G.
  { revert E. destruct (_ ≫= _) as [ex|]; [intros [= <- <-]; by auto|].
    destruct (insert_job _ _ _) as [d2|] eqn:I; [|done]. cbn [map_err]. intros [= <- <-].
    apply insert_job_Ok in I as (N & _ & -> & K). split; [done|]. right.
    eexists _, _. split_and!; [done..|]. exact K. }
  destruct (trigger =?s "schedule").
  - destruct (upcoming _ _ _); [|done]. destruct (rule_valid _ _); [|done].
    intros [= <- <-]. exact G.
  - intros [= <- <-]. exact G.
Qed.

Lemma entry_refl o : entry_step o o.
Proof. destruct o; constructor. constructor. Qed.
#[local] Hint Resolve entry_refl : core.

Lemma entry_insert_at (m : gmap Uuid image_job) i j j' k :
  m !! i = Some j -> row_step j j' -> entry_step (m !! k) (<[i := j']> m !! k).
Proof.
  intros Hi R. destruct (decide (k = i)) as [->|N].
  - rewrite lookup_insert_eq, Hi. by constructor.
  - by rewrite lookup_insert_ne by done.
Qed.

(** Every statement acts on every row by [entry_step]. *)
Lemma step_rows d d' k : db_step d d' -> entry_step (jobs d !! k) (jobs d' !! k).
Proof.
  intros S. destruct S as
    [i worker now lease r d d' E|i f r d d' F E|i worker a c r d d' C E|i c r d d' C E
    |i c r d d' C E|i now r d d' E|i from to now r d d' T E|now r d d' E|now r d d' E
    |i d|i input kd key now d d' E|ro up new_id i slot tr now r d d' E|i r d V|i d].
  - apply claim_Ok in E as [(j & _ & Hj & P & -> & _) | (_ & ->)]; [|done].
    eapply entry_insert_at; [done|by constructor].
  - apply finish_Ok in E as [(_ & _ & j & Hj & P & Hc & -> & _) | (_ & ->)]; [|done].
    eapply entry_insert_at; [done|by constructor].
  - apply update_owned_Ok in E as [(_ & _ & j & Hj & P & ->) | (_ & ->)]; [|done].
    eapply entry_insert_at; [done|by constructor].
  - apply update_by_id_Ok in E as [(_ & j & Hj & _ & _ & ->) | (_ & -> & _)]; [|done].
    eapply entry_insert_at; [done|by apply row_plain].
  - apply update_by_id_Ok in E as [(_ & j & Hj & P & _ & ->) | (_ & -> & _)]; [|done].
    eapply entry_insert_at; [done|by apply row_worker].
  - apply update_by_id_Ok in E as [(_ & j & Hj & P & _ & ->) | (_ & -> & _)]; [|done].
    eapply entry_insert_at; [done|by apply row_request_cancel].
  - apply update_by_id_Ok in E as [(_ & j & Hj & P & _ & ->) | (_ & -> & _)]; [|done].
    eapply entry_insert_at; [done|].
    destruct T as [[= -> ->] | [-> T]]; [by apply row_cancel|by eapply row_retry].
  - apply update_where_Ok in E as (-> & _). simpl. rewrite lookup_fmap.
    destruct (jobs d !! k) as [j|]; [|constructor]. simpl. constructor.
    case_match eqn:P; [|constructor]. bool_hyps. apply row_recover_cancelled; [|done].
    unfold is_abandoned. by apply andb_true_iff.
  - apply update_where_Ok in E as (-> & _). simpl. rewrite lookup_fmap.
    destruct (jobs d !! k) as [j|]; [|constructor]. simpl. constructor.
    case_match eqn:P; [|constructor]. apply andb_true_iff in P as [P C].
    apply row_recover; [done|]. by apply negb_true_iff.
  - simpl. destruct (decide (k = i)) as [->|N].
    + rewrite lookup_delete_eq. destruct (jobs d !! i); constructor.
    + by rewrite lookup_delete_ne by done.
  - apply insert_job_Ok in E as (N & _ & -> & _). simpl. destruct (decide (k = i)) as [->|Ne].
    + rewrite lookup_insert_eq, N. constructor.
    + by rewrite lookup_insert_ne by done.
  - apply create_rule_job_Ok in E as (_ & [-> | (input & key & N & -> & _)]); [done|].
    destruct (decide (k = new_id)) as [->|Ne].
    + rewrite lookup_insert_eq, N. constructor.
    + by rewrite lookup_insert_ne by done.
  - done.
  - done.
Qed.

(** *** Lifecycle invariant

    What each state says about the lease, the cancellation flag and the times. *)
Definition lifecycle (j : image_job) : Prop :=
  match JobStatus.parse (job_status j) with
  | Some JobStatus.Pending =>
      lease_until j = None /\ cancel_requested j = false /\ started_at j = None /\ finished_at j = None
  | Some JobStatus.Running =>
      is_Some (lease_until j) /\ is_Some (started_at j) /\ finished_at j = None
  | Some JobStatus.Cancelled =>
      lease_until j = None /\ is_Some (finished_at j) /\ cancel_requested j = true
  | Some _ =>
      lease_until j = None /\ is_Some (finished_at j) /\ cancel_requested j = false
  | None => False
  end.

Lemma is_status_eq s j : is_status s j = true -> job_status j = JobStatus.as_str s.
Proof. apply str_eqb_eq. Qed.

Lemma is_status_parse s j : is_status s j = true -> JobStatus.parse (job_status j) = Some s.
Proof. intros ->%is_status_eq. apply JobStatus.parse_as_str. Qed.

(** Worker columns keep the state, the flag and the times, and leave no row
    without a lease. *)
Lemma worker_columns_keep c : forall j, forallb worker_column c = true ->
  job_status (assign_all c j) = job_status j /\
  cancel_requested (assign_all c j) = cancel_requested j /\
  started_at (assign_all c j) = started_at j /\
  finished_at (assign_all c j) = finished_at j /\
  idempotency_key (assign_all c j) = idempotency_key j /\
  job_input (assign_all c j) = job_input j /\
  (is_Some (lease_until j) -> is_Some (lease_until (assign_all c j))).
Proof.
  induction c as [|a c IH]; intros j H; [done|]. simpl in H. apply andb_true_iff in H as [A H].
  specialize (IH (assign a j) H). unfold assign_all in *. simpl.
  destruct IH as (-> & -> & -> & -> & -> & -> & L).
  destruct a; try done; simpl; split_and!; try done.
  intros _. apply L. simpl. by destruct v.
Qed.

Lemma plain_columns_keep c : forall j, forallb plain_column c = true ->
  job_status (assign_all c j) = job_status j /\
  cancel_requested (assign_all c j) = cancel_requested j /\
  started_at (assign_all c j) = started_at j /\
  finished_at (assign_all c j) = finished_at j /\
  lease_until (assign_all c j) = lease_until j /\
  job_input (assign_all c j) = job_input j /\
  (idempotency_key (assign_all c j) = idempotency_key j \/ idempotency_key (assign_all c j) = None).
Proof.
  induction c as [|a c IH]; intros j H; [split_and!; by auto|]. simpl in H. apply andb_true_iff in H as [A H].
  specialize (IH (assign a j) H). unfold assign_all in *. simpl.
  destruct IH as (-> & -> & -> & -> & -> & -> & L).
  destruct a as [| | | | | | | | |[]| | | | |]; try done; simpl in *; split_and!; try done.
  right. destruct L as [L|L]; exact L.
Qed.

Lemma finish_target_cases cancel outcome :
  (cancel = true /\ (finish_target cancel outcome).1 = JobStatus.Cancelled) \/
  (cancel = false /\ ((finish_target cancel outcome).1 = JobStatus.Completed \/
     (finish_target cancel outcome).1 = JobStatus.Skipped \/
     (finish_target cancel outcome).1 = JobStatus.Failed)).
Proof. destruct cancel; [by left|]. right. split; [done|]. destruct outcome as [[]|]; simpl; auto. Qed.

Lemma finish_args_status f : finish_args f ->
  (fin_cancel_requested f = true /\ fin_status f = JobStatus.as_str JobStatus.Cancelled) \/
  (fin_cancel_requested f = false /\
   (fin_status f = JobStatus.as_str JobStatus.Completed \/ fin_status f = JobStatus.as_str JobStatus.Skipped \/
    fin_status f = JobStatus.as_str JobStatus.Failed)).
Proof.
  intros [o E]. destruct (finish_target _ _) as [s e] eqn:T. injection E as -> _.
  pose proof (finish_target_cases (fin_cancel_requested f) o) as G. rewrite T in G. simpl in G.
  naive_solver.
Qed.

Lemma row_lifecycle j j' : row_step j j' -> lifecycle j -> lifecycle j'.
Proof.
  intros R L. destruct R as
    [j|j now lease P|j f P F C|j c P W|j c W|j now P|j now P|j from now P T|j now P C|j now P C].
  - done.
  - unfold lifecycle in *. rewrite (is_status_parse _ _ P) in L. simpl. by naive_solver.
  - unfold lifecycle in *. rewrite (is_status_parse _ _ P) in L. simpl.
    destruct (finish_args_status f F) as [[E ->] | [E [-> | [-> | ->]]]]; simpl; rewrite C, E; by naive_solver.
  - destruct (worker_columns_keep c j W) as (S1 & S2 & S3 & S4 & _ & _ & S7).
    unfold lifecycle in *. rewrite S1, (is_status_parse _ _ P) in *. rewrite S3, S4. naive_solver.
  - destruct (plain_columns_keep c j W) as (S1 & S2 & S3 & S4 & S5 & _).
    unfold lifecycle in *. by rewrite S1, S2, S3, S4, S5.
  - unfold lifecycle in *. simpl. by rewrite (is_status_parse _ _ P) in *.
  - unfold lifecycle. simpl. by naive_solver.
  - unfold lifecycle. simpl. by naive_solver.
  - unfold lifecycle. simpl. by naive_solver.
  - unfold lifecycle. simpl. by naive_solver.
Qed.

Lemma entry_lifecycle o o' : entry_step o o' ->
  (forall j, o = Some j -> lifecycle j) -> forall j', o' = Some j' -> lifecycle j'.
Proof.
  intros [|j j1 R|input k key now|] L j' E; simplify_eq.
  - eapply row_lifecycle; [done|by apply L].
  - unfold lifecycle. simpl. done.
Qed.

(** *** Owner rows *)

Definition running_at (d : Db) (i : Uuid) : Prop :=
  exists j, jobs d !! i = Some j /\ is_status JobStatus.Running j = true.

Definition next_attempt (d : Db) (i : Uuid) : Z :=
  Z.min i64_max (from_option attempt 0 (owners d !! i) + 1).

(** A statement keeps the owner of a job, hands a pending job to a claimer
    under the next attempt, or drops the owner of a job it ends or deletes. *)
Inductive owner_step (d d' : Db) (i : Uuid) : Prop :=
| owner_kept : owners d' !! i = owners d !! i -> (running_at d' i -> running_at d i) ->
    (is_Some (jobs d !! i) -> is_Some (jobs d' !! i)) -> owner_step d d' i
| owner_claimed worker now :
    owners d' !! i = Some {| worker_id := worker; attempt := next_attempt d i; claimed_at := now |} ->
    running_at d' i -> owner_step d d' i
| owner_dropped : owners d' !! i = None -> ~ running_at d' i -> owner_step d d' i.

Lemma owner_kept_rows d d' i : owners d' = owners d ->
  (forall j', jobs d' !! i = Some j' -> is_status JobStatus.Running j' = true -> running_at d i) ->
  (is_Some (jobs d !! i) -> is_Some (jobs d' !! i)) -> owner_step d d' i.
Proof.
  intros O R S. apply owner_kept; [by rewrite O| |done]. intros (j' & Hj' & P). by eapply R.
Qed.

(** Rewriting one row to a row that is running only if it was. *)
Lemma owner_kept_insert d i j j' k : jobs d !! i = Some j ->
  (is_status JobStatus.Running j' = true -> is_status JobStatus.Running j = true) ->
  owner_step d (with_jobs d (<[i := j']> (jobs d))) k.
Proof.
  intros Hj R. apply owner_kept_rows; [done| |].
  - intros x Hx P. simpl in Hx. destruct (decide (k = i)) as [->|N].
    + rewrite lookup_insert_eq in Hx. injection Hx as <-. exists j. auto.
    + rewrite lookup_insert_ne in Hx by done. by exists x.
  - intros S. simpl. destruct (decide (k = i)) as [->|N].
    + by rewrite lookup_insert_eq.
    + by rewrite lookup_insert_ne.
Qed.

Lemma owner_kept_where d (p : image_job -> bool) c k :
  (forall j, is_status JobStatus.Running (assign_all c j) = false) ->
  owner_step d (with_jobs d ((fun j => if p j then assign_all c j else j) <$> jobs d)) k.
Proof.
  intros R. apply owner_kept_rows; [done| |]; simpl; rewrite lookup_fmap.
  - intros x Hx P. destruct (jobs d !! k) as [j|] eqn:Hj; [|done]. simpl in Hx. injection Hx as <-.
    exists j. split; [done|]. destruct (p j); [|done]. by rewrite R in P.
  - intros [j ->]. simpl. eauto.
Qed.

Lemma owner_kept_new d d' i j k : jobs d !! i = None -> owners d' = owners d ->
  jobs d' = <[i := j]> (jobs d) -> is_status JobStatus.Running j = false -> owner_step d d' k.
Proof.
  intros N O J R. apply owner_kept_rows; [done| |].
  - intros x Hx P. rewrite J in Hx. destruct (decide (k = i)) as [->|Ne].
    + rewrite lookup_insert_eq in Hx. injection Hx as <-. by rewrite R in P.
    + rewrite lookup_insert_ne in Hx by done. by exists x.
  - intros [x Hx]. rewrite J. destruct (decide (k = i)) as [->|Ne]; [by rewrite N in Hx|].
    rewrite lookup_insert_ne by done. eauto.
Qed.

Lemma same_rows_owner d d' k : jobs d' = jobs d -> owners d' = owners d -> owner_step d d' k.
Proof.
  intros J O. apply owner_kept_rows; [done| |]; rewrite J; [|done].
  intros x Hx P. by exists x.
Qed.

Lemma status_change_running c j s : job_status (assign_all c j) = JobStatus.as_str s ->
  s <> JobStatus.Running -> is_status JobStatus.Running (assign_all c j) = false.
Proof. intros E N. unfold is_status. rewrite E. by destruct s. Qed.

Lemma finish_not_running f j : finish_args f ->
  is_status JobStatus.Running (assign_all (finish_columns f) j) = false.
Proof.
  intros F. destruct (finish_args_status f F) as [[_ E] | [_ [E | [E | E]]]];
    unfold is_status; simpl; by rewrite E.
Qed.

Lemma step_owners d d' k : db_step d d' -> owner_step d d' k.
Proof.
  intros S. destruct S as
    [i worker now lease r d d' E|i f r d d' F E|i worker a c r d d' C E|i c r d d' C E
    |i c r d d' C E|i now r d d' E|i from to now r d d' T E|now r d d' E|now r d d' E
    |i d|i input kd key now d d' E|ro up new_id i slot tr now r d d' E|i r d V|i d].
  - apply claim_Ok in E as [(j & _ & Hj & P & J & O & _) | (_ & ->)]; [|by apply same_rows_owner].
    destruct (decide (k = i)) as [->|N].
    + eapply owner_claimed; [by rewrite O, lookup_insert_eq|].
      eexists. by rewrite J, lookup_insert_eq.
    + apply owner_kept; [by rewrite O, lookup_insert_ne| |].
      * intros (x & Hx & Px). rewrite J, lookup_insert_ne in Hx by done. by exists x.
      * by rewrite J, lookup_insert_ne.
  - apply finish_Ok in E as [(_ & _ & j & Hj & P & Hc & J & O & _) | (_ & ->)]; [|by apply same_rows_owner].
    destruct (decide (k = i)) as [->|N].
    + apply owner_dropped; [by rewrite O, lookup_delete_eq|].
      intros (x & Hx & Px). rewrite J, lookup_insert_eq in Hx.
      pose proof (finish_not_running f j F). congruence.
    + apply owner_kept; [by rewrite O, lookup_delete_ne| |].
      * intros (x & Hx & Px). rewrite J, lookup_insert_ne in Hx by done. by exists x.
      * by rewrite J, lookup_insert_ne.
  - apply update_owned_Ok in E as [(_ & _ & j & Hj & P & ->) | (_ & ->)]; [|by apply same_rows_owner].
    by eapply owner_kept_insert.
  - apply update_by_id_Ok in E as [(_ & j & Hj & _ & _ & ->) | (_ & -> & _)]; [|by apply same_rows_owner].
    eapply owner_kept_insert; [done|]. unfold is_status.
    by destruct (plain_columns_keep c j C) as (-> & _).
  - apply update_by_id_Ok in E as [(_ & j & Hj & P & _ & ->) | (_ & -> & _)]; [|by apply same_rows_owner].
    by eapply owner_kept_insert.
  - apply update_by_id_Ok in E as [(_ & j & Hj & P & _ & ->) | (_ & -> & _)]; [|by apply same_rows_owner].
    by eapply owner_kept_insert.
  - apply update_by_id_Ok in E as [(_ & j & Hj & P & _ & ->) | (_ & -> & _)]; [|by apply same_rows_owner].
    eapply owner_kept_insert; [done|]. by destruct T as [[= -> ->] | [-> T]].
  - apply update_where_Ok in E as (-> & _). by apply owner_kept_where.
  - apply update_where_Ok in E as (-> & _). by apply owner_kept_where.
  - destruct (decide (k = i)) as [->|N].
    + apply owner_dropped; [apply lookup_delete_eq|].
      intros (x & Hx & _). simpl in Hx. by rewrite lookup_delete_eq in Hx.
    + apply owner_kept; [by apply lookup_delete_ne| |].
      * intros (x & Hx & P). simpl in Hx. rewrite lookup_delete_ne in Hx by done. by exists x.
      * simpl. by rewrite lookup_delete_ne.
  - apply insert_job_Ok in E as (N & _ & -> & _). by eapply owner_kept_new.
  - apply create_rule_job_Ok in E as (O & [J | (input & key & N & J & _)]);
      [by apply same_rows_owner|by eapply owner_kept_new].
  - by apply same_rows_owner.
  - by apply same_rows_owner.
Qed.

(** *** Idempotency keys *)

Lemma by_key_None key d i j : by_idempotency_key key d = None ->
  jobs d !! i = Some j -> idempotency_key j <> Some key.
Proof.
  unfold by_idempotency_key. intros H Hj E. apply head_None in H.
  assert ((i, j) ∈ filter (fun r : Uuid * image_job => idempotency_key r.2 = Some key)
            (map_to_list (jobs d))) as M.
  { apply list_elem_of_filter. split; [done|]. by apply elem_of_map_to_list. }
  rewrite H in M. by apply elem_of_nil in M.
Qed.

Lemma by_key_Some key d i j : by_idempotency_key key d = Some (i, j) ->
  jobs d !! i = Some j /\ idempotency_key j = Some key.
Proof.
  unfold by_idempotency_key. intros H%head_Some_elem_of.
  apply list_elem_of_filter in H as [K M]. by apply elem_of_map_to_list in M.
Qed.

Lemma row_key j j' key : row_step j j' -> idempotency_key j' = Some key -> idempotency_key j = Some key.
Proof.
  intros [] K; try done.
  - destruct (worker_columns_keep c j0 H0) as (_ & _ & _ & _ & E & _). by rewrite E in K.
  - destruct (plain_columns_keep c j0 H) as (_ & _ & _ & _ & _ & _ & [E|E]); rewrite E in K; done.
Qed.

(** A statement that adds a row adds nothing else, under a key no row has. *)
Lemma step_new_row d d' i j' : db_step d d' -> jobs d !! i = None -> jobs d' !! i = Some j' ->
  (forall key, idempotency_key j' = Some key -> by_idempotency_key key d = None) /\
  forall i', i' <> i -> jobs d' !! i' = jobs d !! i'.
Proof.
  intros S N H.
  assert (forall i0 j j1, jobs d !! i0 = Some j -> jobs d' <> <[i0 := j1]> (jobs d)) as Upd.
  { intros i0 j j1 Hj E. rewrite E in H.
    rewrite lookup_insert_ne in H by congruence. congruence. }
  assert (forall f : image_job -> image_job, jobs d' <> f <$> jobs d) as Map.
  { intros f E. by rewrite E, lookup_fmap, N in H. }
  destruct S as
    [i0 worker now lease r d d' E|i0 f r d d' F E|i0 worker a c r d d' C E|i0 c r d d' C E
    |i0 c r d d' C E|i0 now r d d' E|i0 from to now r d d' T E|now r d d' E|now r d d' E
    |i0 d|i0 input kd key now d d' E|ro up new_id i0 slot tr now r d d' E|i0 r d V|i0 d].
  - apply claim_Ok in E as [(j & _ & Hj & P & J & O & _) | (_ & ->)]; [|congruence]. by eapply Upd in J.
  - apply finish_Ok in E as [(_ & _ & j & Hj & P & Hc & J & O & _) | (_ & ->)]; [|congruence]. by eapply Upd in J.
  - apply update_owned_Ok in E as [(_ & _ & j & Hj & P & ->) | (_ & ->)]; [|congruence]. by edestruct Upd.
  - apply update_by_id_Ok in E as [(_ & j & Hj & _ & _ & ->) | (_ & -> & _)]; [|congruence]. by edestruct Upd.
  - apply update_by_id_Ok in E as [(_ & j & Hj & P & _ & ->) | (_ & -> & _)]; [|congruence]. by edestruct Upd.
  - apply update_by_id_Ok in E as [(_ & j & Hj & P & _ & ->) | (_ & -> & _)]; [|congruence]. by edestruct Upd.
  - apply update_by_id_Ok in E as [(_ & j & Hj & P & _ & ->) | (_ & -> & _)]; [|congruence]. by edestruct Upd.
  - apply update_where_Ok in E as (-> & _). by edestruct Map.
  - apply update_where_Ok in E as (-> & _). by edestruct Map.
  - simpl in H. apply lookup_delete_Some in H as [_ H]. congruence.
  - apply insert_job_Ok in E as (N0 & _ & -> & K). simpl in H. destruct (decide (i = i0)) as [->|Ne].
    + rewrite lookup_insert_eq in H. injection H as <-. split; [exact K|].
      intros i' Hi. simpl. by rewrite lookup_insert_ne.
    + rewrite lookup_insert_ne in H by done. congruence.
  - apply create_rule_job_Ok in E as (O & [J | (input & key & N0 & J & K)]); [congruence|].
    rewrite J in H. destruct (decide (i = new_id)) as [->|Ne].
    + rewrite lookup_insert_eq in H. injection H as <-. split; [exact K|].
      intros i' Hi. by rewrite J, lookup_insert_ne.
    + rewrite lookup_insert_ne in H by done. congruence.
  - simpl in H. congruence.
  - simpl in H. congruence.
Qed.

(** *** The tables' invariant *)

Definition unique_keys (d : Db) : Prop :=
  forall i1 i2 j1 j2 key, jobs d !! i1 = Some j1 -> jobs d !! i2 = Some j2 ->
    idempotency_key j1 = Some key -> idempotency_key j2 = Some key -> i1 = i2.

Definition table_inv (d : Db) : Prop :=
  (forall i j, jobs d !! i = Some j -> lifecycle j) /\
  (forall i, running_at d i -> is_Some (owners d !! i)) /\
  (forall i o, owners d !! i = Some o -> is_Some (jobs d !! i) /\ 0 < attempt o <= i64_max) /\
  unique_keys d.

Lemma step_unique_keys d d' : db_step d d' -> unique_keys d -> unique_keys d'.
Proof.
  intros S U.
  assert (forall i j' key, jobs d' !! i = Some j' -> idempotency_key j' = Some key ->
    jobs d !! i <> None -> exists j, jobs d !! i = Some j /\ idempotency_key j = Some key) as Old.
  { intros i j' key Hj K N. pose proof (step_rows d d' i S) as R. rewrite Hj in R.
    inversion R as [|? ? RS E1 E2|? ? ? ? E1 E2|]; subst; [|congruence].
    eexists. split; [done|]. by eapply row_key. }
  assert (forall i i' j j' key, jobs d !! i = None -> jobs d' !! i = Some j ->
    jobs d' !! i' = Some j' -> idempotency_key j = Some key -> idempotency_key j' = Some key ->
    i' = i) as New.
  { intros i i' j j' key N Hj Hj' K K'. destruct (decide (i' = i)) as [|Ne]; [done|].
    destruct (step_new_row d d' i j S N Hj) as [F Same].
    rewrite Same in Hj' by done. by eapply by_key_None in Hj'; [|by apply F]. }
  intros i1 i2 j1 j2 key H1 H2 K1 K2.
  destruct (jobs d !! i1) as [x1|] eqn:E1; [|symmetry; by eapply New].
  destruct (jobs d !! i2) as [x2|] eqn:E2; [|by eapply New].
  destruct (Old i1 j1 key H1 K1) as (y1 & Y1 & L1); [congruence|].
  destruct (Old i2 j2 key H2 K2) as (y2 & Y2 & L2); [congruence|].
  by eapply U.
Qed.

Lemma step_inv d d' : db_step d d' -> table_inv d -> table_inv d'.
Proof.
  intros S (L & R & O & U). split_and!.
  - intros i j Hj. eapply entry_lifecycle; [apply (step_rows d d' i S)|by apply L|done].
  - intros i Hr. destruct (step_owners d d' i S) as [E K _|worker now E _|E N].
    + rewrite E. auto.
    + by rewrite E.
    + done.
  - intros i o Ho. destruct (step_owners d d' i S) as [E _ K|worker now E (j & Hj & _)|E N].
    + rewrite E in Ho. apply O in Ho as [J B]. auto.
    + rewrite Ho in E. injection E as ->. simpl. split; [by eexists|].
      unfold next_attempt. destruct (owners d !! i) as [o'|] eqn:E'; simpl; [|by compute].
      apply O in E' as [_ B]. unfold i64_max in *. lia.
    + congruence.
  - by eapply step_unique_keys.
Qed.

Lemma steps_inv d d' : rtc db_step d d' -> table_inv d -> table_inv d'.
Proof. induction 1; [done|]. eauto using step_inv. Qed.

Lemma empty_inv d : empty_tables d -> table_inv d.
Proof.
  intros (J & O & _). unfold table_inv, unique_keys, running_at. rewrite J, O. split_and!.
  - intros i j H. by rewrite lookup_empty in H.
  - intros i (j & H & _). by rewrite lookup_empty in H.
  - intros i o H. by rewrite lookup_empty in H.
  - intros i1 i2 j1 j2 key H. by rewrite lookup_empty in H.
Qed.

(** *** Handlers act by [db_step] *)

Create HintDb within.

Lemma within_read {A} (f : JobsWorld -> A) : within (Act (fun w => (f w, w)) Ret).
Proof. split; [|done]. intros w. by left. Qed.

Lemma within_local {A B} (f : JobsWorld -> A * JobsWorld) (k : A -> prog B) :
  (forall w, db (f w).2 = db w) -> (forall a, within (k a)) -> within (Act f k).
Proof. intros F K. split; [|done]. intros w. left. apply F. Qed.

Lemma within_exec {A} (f : Db -> result (A * Db) DbErr) :
  (forall d a d', f d = Ok (a, d') -> db_step d d') -> within (exec f).
Proof.
  intros F. split; [|done]. intros w. unfold step_db.
  destruct (f (db w)) as [[a d]|e] eqn:E; simpl; [right; simpl; by eapply F|by left].
Qed.

Ltac within :=
  repeat first
    [ progress intros
    | solve [auto with within]
    | apply obeys_ret
    | apply within_exec
    | apply within_read
    | apply obeys_bind
    | apply within_local
    | progress unfold Utc_now, query, read, fail, find_by_id
    | match goal with |- db _ = _ => solve [simpl; repeat case_match; done] end
    | progress cbv beta iota
    | case_match ].

Lemma claim_selected_within worker i : within (claim_selected worker i).
Proof. unfold claim_selected, activate. within. by eapply step_claim. Qed.
#[export] Hint Resolve claim_selected_within : within.

Lemma claim_next_within worker : within (claim_next worker).
Proof. unfold claim_next. within. Qed.

Lemma update_owned_step i worker a c d r d' : update_owned i worker a c d = Ok (r, d') ->
  forallb worker_column c = true -> db_step d d'.
Proof. intros E C. by eapply step_owned. Qed.

Lemma update_plain_step i c d r d' : update_by_id i (fun _ => true) c d = Ok (r, d') ->
  forallb plain_column c = true -> db_step d d'.
Proof. intros E C. by eapply step_plain. Qed.

Lemma update_running_step i c d r d' : update_by_id i (is_status JobStatus.Running) c d = Ok (r, d') ->
  forallb worker_column c = true -> db_step d d'.
Proof. intros E C. by eapply step_running. Qed.

Lemma renew_within worker i a : within (renew worker i a).
Proof. unfold renew. within. eapply update_owned_step; [eassumption|done]. Qed.

Lemma fenced_or_within worker i fenced plain :
  (forall a, within (fenced a)) -> within plain -> within (fenced_or worker i fenced plain).
Proof. intros F P. unfold fenced_or, active_attempt. within. Qed.

Lemma update_manifest_within worker i digest index total :
  within (update_manifest worker i digest index total).
Proof.
  apply fenced_or_within; within; [eapply update_owned_step; [eassumption|done]|eapply update_plain_step; [eassumption|done]].
Qed.

Lemma update_progress_within worker i stage current total :
  within (update_progress worker i stage current total).
Proof.
  unfold update_progress. within;
    [eapply update_owned_step; [eassumption|done]|eapply update_running_step; [eassumption|done]].
Qed.

Lemma update_stage_within worker i stage : within (update_stage worker i stage).
Proof.
  unfold update_stage. within;
    [eapply update_owned_step; [eassumption|done]|eapply update_running_step; [eassumption|done]].
Qed.

Lemma update_artifact_within worker i path name : within (update_artifact worker i path name).
Proof.
  apply fenced_or_within; within; [eapply update_owned_step; [eassumption|done]|eapply update_plain_step; [eassumption|done]].
Qed.

Lemma check_cancelled_within worker i : within (check_cancelled worker i).
Proof. unfold check_cancelled, active_attempt, owns, is_cancelled. within. Qed.

Lemma finish_job_within worker i a outcome : within (finish_job worker i a outcome).
Proof.
  unfold finish_job, owns, finish. within. eapply step_finish; [|done].
  exists outcome. simpl. by match goal with H : finish_target _ _ = _ |- _ => rewrite H end.
Qed.

Lemma recover_within now : within (recover_abandoned_jobs now).
Proof.
  unfold recover_abandoned_jobs. within; [by eapply step_recover_cancelled|by eapply step_recover].
Qed.

Lemma cancel_from_within fuel : forall i s, within (cancel_job_from_status fuel i s).
Proof.
  induction fuel as [|fuel IH]; intros i s; [done|]. cbn [cancel_job_from_status].
  within; eauto using step_request_cancel.
  eapply step_transition; [by left|done].
Qed.
#[export] Hint Resolve cancel_from_within : within.

Lemma cancel_job_within fuel i : within (cancel_job fuel i).
Proof. unfold cancel_job. within. Qed.

Lemma transition_Ok from to now err c p : transition_update from to now err = Ok (c, p) ->
  JobStatus.can_transition_to from to = true /\ c = transition_columns to now err /\ p = is_status from.
Proof. unfold transition_update. destruct (JobStatus.can_transition_to from to); [|done]. by intros [= <- <-]. Qed.

Lemma retry_job_within i : within (retry_job i).
Proof.
  unfold retry_job. within.
  match goal with H : transition_update _ _ _ _ = _ |- _ => apply transition_Ok in H as (T & -> & ->) end.
  eapply step_transition; [by right|done].
Qed.

Lemma remove_storage_within i : within (remove_job_storage i).
Proof.
  unfold remove_job_storage, remove_job. within. eapply update_plain_step; [eassumption|done].
Qed.
#[export] Hint Resolve remove_storage_within : within.

Lemma purge_job_within i : within (purge_job i).
Proof. unfold purge_job. within; match goal with H : Ok _ = Ok _ |- _ => injection H as <- <- end; apply step_delete. Qed.

Lemma create_job_within reference_ok new_id input key : within (create_job reference_ok new_id input key).
Proof. unfold create_job. within; simplify_eq; by eapply step_insert. Qed.

Lemma create_rule_job_within reference_ok upcoming new_id i slot trigger :
  within (create_rule_job_now reference_ok upcoming new_id i slot trigger).
Proof.
  split; [|done]. intros w. simpl.
  destruct (create_rule_job _ _ _ _ _ _ _ _) as [[r d]|] eqn:E; simpl; [right; by eapply step_rule_job|by left].
Qed.
#[export] Hint Resolve create_rule_job_within : within.

Lemma run_rule_within reference_ok upcoming new_id i : within (run_rule reference_ok upcoming new_id i).
Proof. unfold run_rule. within. Qed.

Lemma enqueue_each_within reference_ok upcoming due : forall ids now,
  within (enqueue_each reference_ok upcoming due ids now).
Proof. induction due as [|[i r] due IH]; intros ids now; cbn [enqueue_each]; within. Qed.
#[export] Hint Resolve enqueue_each_within : within.

Lemma enqueue_within reference_ok upcoming ids : within (enqueue_due_rules reference_ok upcoming ids).
Proof. unfold enqueue_due_rules. within. Qed.

(** *** Interleaved runs *)

Section runs_lemmas.
Context (env : JobsWorld -> JobsWorld -> Prop).

Lemma runs_exec_inv {A} (f : Db -> result (A * Db) DbErr) w r w' : runs env (exec f) w r w' ->
  exists w1 w2, rtc env w w1 /\ step_db f w1 = (r, w2) /\ rtc env w2 w'.
Proof.
  intros (w1 & S & -> & K). exists w1, (step_db f w1).2. split_and!; [done| |done].
  by destruct (step_db f w1).
Qed.

Lemma runs_query_inv {A} (f : Db -> A) w r w' : runs env (query f) w r w' ->
  exists w1, rtc env w w1 /\ r = Ok (f (db w1)) /\ rtc env w1 w'.
Proof. intros (w1 & S & -> & K). by exists w1. Qed.

End runs_lemmas.

Lemma atoms_steps w w' : rtc atom w w' -> rtc db_step (db w) (db w').
Proof.
  induction 1 as [|x y z [E|S] _ IH]; [apply rtc_refl|by rewrite <- E|by eapply rtc_l].
Qed.

(** The operations the API and the workers run. *)
Inductive handler : forall {A}, prog A -> Prop :=
| h_claim worker : handler (claim_next worker)
| h_renew worker i a : handler (renew worker i a)
| h_manifest worker i digest index total : handler (update_manifest worker i digest index total)
| h_progress worker i stage current total : handler (update_progress worker i stage current total)
| h_stage worker i stage : handler (update_stage worker i stage)
| h_artifact worker i path name : handler (update_artifact worker i path name)
| h_check worker i : handler (check_cancelled worker i)
| h_finish worker i a outcome : handler (finish_job worker i a outcome)
| h_recover now : handler (recover_abandoned_jobs now)
| h_cancel fuel i : handler (cancel_job fuel i)
| h_retry i : handler (retry_job i)
| h_purge i : handler (purge_job i)
| h_create reference_ok new_id input key : handler (create_job reference_ok new_id input key)
| h_run_rule reference_ok upcoming new_id i : handler (run_rule reference_ok upcoming new_id i)
| h_enqueue reference_ok upcoming ids : handler (enqueue_due_rules reference_ok upcoming ids).

Lemma handler_within {A} (p : prog A) : handler p -> within p.
Proof.
  destruct 1.
  - apply claim_next_within.
  - apply renew_within.
  - apply update_manifest_within.
  - apply update_progress_within.
  - apply update_stage_within.
  - apply update_artifact_within.
  - apply check_cancelled_within.
  - apply finish_job_within.
  - apply recover_within.
  - apply cancel_job_within.
  - apply retry_job_within.
  - apply purge_job_within.
  - apply create_job_within.
  - apply run_rule_within.
  - apply enqueue_within.
Qed.

(** ** Properties *)

(** C37: However the handlers and workers interleave, statement by statement, from
    empty tables: the tables satisfy [table_inv].  A pending job has no lease,
    no start and no cancellation flag; a running job has a lease, a start and an
    owner row; a finished one has a finish time and no lease, and carries the
    cancellation flag exactly when it is cancelled; every owner row belongs to an
    existing job under a positive attempt; no two jobs share an idempotency key. *)
Theorem jobs_invariant {A} (env : JobsWorld -> JobsWorld -> Prop) (p : prog A) w a w' :
  (forall x y, env x y -> atom x y) -> handler p -> reachable (db w) -> runs env p w a w' ->
  reachable (db w') /\ table_inv (db w').
Proof.
  intros E H (d0 & Z0 & S0) R.
  assert (rtc db_step d0 (db w')) as S.
  { trans (db w); [done|]. apply atoms_steps. eapply runs_steps; [done|by apply handler_within|done]. }
  split; [by exists d0|]. eapply steps_inv; [done|]. by apply empty_inv.
Qed.

Definition superseded (d : Db) (i : Uuid) (a : Z) : Prop :=
  exists o, owners d !! i = Some o /\ a < attempt o.

Lemma superseded_not_owned d i worker a : superseded d i a -> owned d i worker a = false.
Proof.
  intros (o & Ho & L). unfold owned. rewrite Ho. simpl.
  destruct (Z.eqb_spec (attempt o) a); [lia|]. apply andb_false_r.
Qed.

Lemma superseded_step d d' i a : db_step d d' -> is_Some (owners d' !! i) -> a < i64_max ->
  superseded d i a -> superseded d' i a.
Proof.
  intros S K B (o & Ho & L). destruct (step_owners d d' i S) as [E _ _|worker now E _|E _].
  - exists o. by rewrite E.
  - eexists. split; [done|]. simpl. unfold next_attempt. rewrite Ho. simpl. lia.
  - rewrite E in K. by destruct K.
Qed.

Lemma superseded_path d d' i a : a < i64_max ->
  rtc (fun d d' => db_step d d' /\ is_Some (owners d' !! i)) d d' ->
  superseded d i a -> superseded d' i a.
Proof. intros B. induction 1 as [|x y z [S K] _ IH]; [done|]. eauto using superseded_step. Qed.

Lemma not_owned_rejected d i worker a c : owned d i worker a = false ->
  update_owned i worker a c d = Ok (false, d).
Proof.
  intros O. unfold update_owned, update_by_id. destruct (jobs d !! i); [|done].
  by rewrite O, andb_false_r.
Qed.

Lemma not_owned_unfinished d i f : owned d i (fin_worker f) (fin_attempt f) = false ->
  finish_image_job_owned i f d = Ok (false, d).
Proof.
  intros O. unfold finish_image_job_owned, update_by_id. destruct (jobs d !! i); [|done].
  by rewrite O, andb_false_r.
Qed.

(** C36: Fencing.  Once a job that the worker [w1] held under attempt [a1] has been
    claimed again, then however the system goes on, as long as the job has not
    been finished or deleted, no write of the superseded token has an effect:
    lease renewals, manifest, progress, stage and artifact updates (all of them
    [update_owned]) and completion report that the row is not owned and leave
    every table as it was. *)
Theorem stale_worker_fenced d0 d1 d2 i w1 a1 w2 a2 now lease c f :
  image_job_owner d0 i = Some (w1, a1) -> a1 < i64_max ->
  claim_image_job i w2 now lease d0 = Ok (Some a2, d1) ->
  rtc (fun d d' => db_step d d' /\ is_Some (owners d' !! i)) d1 d2 ->
  fin_worker f = w1 -> fin_attempt f = a1 ->
  a1 < a2 /\
  update_owned i w1 a1 c d2 = Ok (false, d2) /\ finish_image_job_owned i f d2 = Ok (false, d2).
Proof.
  intros H0 B C P Fw Fa. apply claim_Ok in C as [(j & [= ->] & _ & _ & _ & O & _) | [[=] _]].
  unfold image_job_owner in H0. destruct (owners d0 !! i) as [o|] eqn:E0; [|done].
  injection H0 as <- <-. simpl in *.
  assert (superseded d1 i (attempt o)) as S1.
  { eexists. split; [by rewrite O, lookup_insert_eq|]. simpl. lia. }
  assert (superseded d2 i (attempt o)) as S2.
  { by eapply superseded_path. }
  split_and!; [lia|by apply not_owned_rejected, superseded_not_owned|].
  apply not_owned_unfinished. rewrite Fw, Fa. by apply superseded_not_owned.
Qed.

Lemma row_transition j j' s s' : row_step j j' ->
  JobStatus.parse (job_status j) = Some s -> JobStatus.parse (job_status j') = Some s' ->
  s' = s \/ JobStatus.can_transition_to s s' = true \/
  (s = JobStatus.Running /\ s' = JobStatus.Pending /\ cancel_requested j = false /\
   exists now, abandoned_lease now j = true).
Proof.
  intros R P P'. destruct R as
    [j|j now lease Q|j f Q F C|j c Q W|j c W|j now Q|j now Q|j from now Q T|j now Q C|j now Q C].
  - left. congruence.
  - rewrite (is_status_parse _ _ Q) in P. cbv in P'. simplify_eq. right; by left.
  - rewrite (is_status_parse _ _ Q) in P. right; left. simplify_eq. cbn in P'.
    destruct (finish_args_status f F) as [[_ E] | [_ [E | [E | E]]]]; rewrite E in P';
      cbv in P'; by simplify_eq.
  - left. destruct (worker_columns_keep c j W) as (E & _). rewrite E in P'. congruence.
  - left. destruct (plain_columns_keep c j W) as (E & _). rewrite E in P'. congruence.
  - left. simpl in P'. congruence.
  - rewrite (is_status_parse _ _ Q) in P. cbv in P'. simplify_eq. right; by left.
  - rewrite (is_status_parse _ _ Q) in P. cbv in P'. simplify_eq. right; by left.
  - unfold is_abandoned in Q. apply andb_true_iff in Q as [Q _].
    rewrite (is_status_parse _ _ Q) in P. cbv in P'. simplify_eq. right; by left.
  - unfold is_abandoned in Q. apply andb_true_iff in Q as [Q L].
    rewrite (is_status_parse _ _ Q) in P. cbv in P'. simplify_eq. right; right.
    split_and!; [done..|]. by exists now.
Qed.

(** Every change of a job's state that any statement makes is one that
    [can_transition_to] allows, with one exception: recovery returns a running
    job that nobody asked to cancel to pending, and only when its lease is
    missing or has run out. *)
Theorem job_transitions d d' i j j' s s' :
  db_step d d' -> jobs d !! i = Some j -> jobs d' !! i = Some j' ->
  JobStatus.parse (job_status j) = Some s -> JobStatus.parse (job_status j') = Some s' ->
  s' = s \/ JobStatus.can_transition_to s s' = true \/
  (s = JobStatus.Running /\ s' = JobStatus.Pending /\ cancel_requested j = false /\
   exists now, abandoned_lease now j = true).
Proof.
  intros S Hj Hj'. pose proof (step_rows d d' i S) as R. rewrite Hj, Hj' in R.
  inversion R as [|? ? RS E1 E2| |]; subst. by apply row_transition.
Qed.

(** A running job whose cancellation has been requested. *)
Definition cancelling (d : Db) (i : Uuid) : Prop :=
  exists j, jobs d !! i = Some j /\ is_status JobStatus.Running j = true /\ cancel_requested j = true.

Definition cancelled_or_gone (d : Db) (i : Uuid) : Prop :=
  forall j, jobs d !! i = Some j -> job_status j = JobStatus.as_str JobStatus.Cancelled.

Lemma row_cancelling j j' : row_step j j' -> is_status JobStatus.Running j = true ->
  cancel_requested j = true ->
  (is_status JobStatus.Running j' = true /\ cancel_requested j' = true) \/
  job_status j' = JobStatus.as_str JobStatus.Cancelled.
Proof.
  intros R P C. pose proof (is_status_parse _ _ P) as PP. destruct R as
    [j|j now lease Q|j f Q F Hc|j c Q W|j c W|j now Q|j now Q|j from now Q T|j now Q _|j now Q Hc].
  - by left.
  - apply is_status_parse in Q. congruence.
  - right. destruct (finish_args_status f F) as [[_ E] | [E _]]; [done|congruence].
  - left. destruct (worker_columns_keep c j W) as (E & E' & _). unfold is_status in *. by rewrite E, E'.
  - left. destruct (plain_columns_keep c j W) as (E & E' & _). unfold is_status in *. by rewrite E, E'.
  - left. done.
  - apply is_status_parse in Q. congruence.
  - apply is_status_parse in Q. rewrite PP in Q. injection Q as <-. done.
  - by right.
  - congruence.
Qed.

Lemma step_cancelling d d' i : db_step d d' -> cancelling d i ->
  cancelling d' i \/ cancelled_or_gone d' i.
Proof.
  intros S (j & Hj & P & C). pose proof (step_rows d d' i S) as R. rewrite Hj in R.
  destruct (jobs d' !! i) as [j'|] eqn:Hj'.
  - inversion R as [|? ? RS E1 E2| |]; subst. destruct (row_cancelling j j' RS P C) as [[P' C'] | E].
    + left. by exists j'.
    + right. intros x Hx. congruence.
  - right. intros x Hx. congruence.
Qed.

(** Cancellation is never lost.  Once a running job carries the cancellation
    flag, then through any interleaving of workers, recoveries, retries and
    clients it stays running with the flag until it is cancelled or deleted: a
    worker that read the row before the request cannot complete, skip or fail
    it, and recovery cannot put it back in the queue. *)
Theorem cancellation_not_lost d d' i :
  cancelling d i ->
  rtc (fun x y => db_step x y /\ ~ cancelled_or_gone y i) d d' -> cancelling d' i.
Proof.
  intros C. induction 1 as [|x y z [S N] _ IH]; [done|]. apply IH.
  by destruct (step_cancelling x y i S C).
Qed.

(** C38: [finish_job] is one statement.  Whatever other workers and clients do
    between its ownership check, its read of the row and its write, a run that
    succeeds is this: others' steps, then in one step, from world [w1] to world
    [w2], the row of the job and its owner row change and nothing else of the
    jobs, their owners and their lineage, then others' steps.  At that step the
    job was running and owned by this worker under this token, and the state and
    the error written are those [finish_target] assigns to the cancellation flag
    the row carried at that very step, not at the earlier read. *)
Theorem finish_job_atomic (env : JobsWorld -> JobsWorld -> Prop) worker i a outcome w w' :
  runs env (finish_job worker i a outcome) w (Ok tt) w' ->
  exists w1 w2 j now,
    rtc env w w1 /\ w2 = with_db w1 (db w2) /\ rtc env w2 w' /\
    owned (db w1) i worker a = true /\
    jobs (db w1) !! i = Some j /\ is_status JobStatus.Running j = true /\
    (let '(s, e) := finish_target (cancel_requested j) outcome in
     jobs (db w2) =
       <[i := assign_all [SetStatus (JobStatus.as_str s); SetError e; SetLeaseUntil None;
                          SetFinishedAt (Some now); SetUpdatedAt now] j]> (jobs (db w1))) /\
    owners (db w2) = delete i (owners (db w1)) /\ lineage (db w2) = lineage (db w1).
Proof.
  unfold finish_job. intros R.
  apply runs_bind_inv in R as (mine & x1 & R1 & R).
  apply runs_query_inv in R1 as (y1 & A1 & -> & B1).
  destruct (negb _); [by destruct R|].
  apply runs_bind_inv in R as (found & x2 & R2 & R).
  apply runs_query_inv in R2 as (y2 & A2 & -> & B2).
  destruct (jobs (db y2) !! i) as [current|]; [|by destruct R].
  destruct (finish_target (cancel_requested current) outcome) as [target err] eqn:T.
  apply runs_bind_inv in R as (finished & x3 & R3 & R).
  unfold finish in R3. apply runs_bind_inv in R3 as (now & x4 & R4 & R3).
  destruct R4 as (x5 & A3 & _ & B3).
  apply runs_exec_inv in R3 as (y3 & y4 & A4 & F & S).
  destruct finished as [[]|]; [|by destruct R|by destruct R].
  destruct R as [_ R]. unfold step_db in F.
  destruct (finish_image_job_owned _ _ _) as [[b d]|] eqn:E; [|done]. injection F as -> <-.
  apply finish_Ok in E as [(_ & O & j & Hj & P & C & J & Ow & L) | [[=] _]].
  exists y3, (with_db y3 d), j, now. split_and!; [|done|by trans x3|done..| |done|done].
  - trans y1; [done|]. trans x1; [done|]. trans y2; [done|]. trans x2; [done|].
    trans x5; [done|]. by trans x4.
  - simpl in C. rewrite C, T. exact J.
Qed.

Lemma cancel_turn_sound (env : JobsWorld -> JobsWorld -> Prop) fuel : forall i s w r w',
  runs env (cancel_job_from_status fuel i s) w (Some (Ok r)) w' ->
  r = NO_CONTENT /\ exists w1 j, rtc env w1 w' /\ jobs (db w1) !! i = Some j /\
    ((is_status JobStatus.Running j = true /\ cancel_requested j = true) \/
     is_status JobStatus.Cancelled j = true).
Proof.
  induction fuel as [|fuel IH]; intros i s w r w' R; [by destruct R|].
  cbn [cancel_job_from_status] in R.
  apply runs_bind_inv in R as (now & x1 & _ & R).
  apply runs_bind_inv in R as (rows & x2 & R1 & R).
  destruct rows as [rows|]; [|by destruct R].
  destruct (Z.eqb_spec rows 1) as [->|].
  - destruct R as [[= ->] S]. split; [done|].
    destruct s; try (by destruct R1); apply runs_exec_inv in R1 as (y & z & _ & F & S');
      unfold step_db in F; destruct (update_by_id _ _ _ _) as [[n d]|] eqn:E; try done;
      injection F as -> <-; apply update_by_id_Ok in E as [(_ & j & Hj & P & _ & ->) | [[=] _]].
    + eexists (with_db y _), _. split_and!; [by trans x2|by apply lookup_insert_eq|by right].
    + eexists (with_db y _), _. split_and!; [by trans x2|by apply lookup_insert_eq|by left].
  - apply runs_bind_inv in R as (found & x3 & R2 & R).
    apply runs_query_inv in R2 as (y & _ & -> & S).
    destruct (jobs (db y) !! i) as [model|] eqn:Hm; [|by destruct R].
    destruct (_ && _) eqn:P.
    + destruct R as [[= ->] S']. split; [done|]. apply andb_true_iff in P.
      exists y, model. split_and!; [by trans x3|done|by left].
    + destruct (parse_status model); [|by destruct R]. by eapply IH.
Qed.

(** When the cancel handler answers 204, then at some instant of its run,
    whatever ran beside it and however often its loop turned, the job was
    cancelled, or running with the cancellation flag set. *)
Theorem cancel_job_sound (env : JobsWorld -> JobsWorld -> Prop) fuel i w r w' :
  runs env (cancel_job fuel i) w (Some (Ok r)) w' ->
  r = NO_CONTENT /\ exists w1 j, rtc env w1 w' /\ jobs (db w1) !! i = Some j /\
    ((is_status JobStatus.Running j = true /\ cancel_requested j = true) \/
     is_status JobStatus.Cancelled j = true).
Proof.
  unfold cancel_job. intros R. apply runs_bind_inv in R as (found & x & R1 & R).
  apply runs_query_inv in R1 as (y & _ & -> & _).
  destruct (jobs (db y) !! i) as [model|]; [|by destruct R].
  destruct (parse_status model); [|by destruct R]. by eapply cancel_turn_sound.
Qed.

(** *** Without interference *)

(** The answer of the cancel handler and the row it leaves. *)
Definition cancel_spec (now : Z) (o : option image_job) : ApiResult Z * option image_job :=
  match o with
  | None => (Err job_not_found, None)
  | Some j =>
      match JobStatus.parse (job_status j) with
      | Some JobStatus.Pending =>
          (Ok NO_CONTENT, Some (assign_all (transition_columns JobStatus.Cancelled now None) j))
      | Some JobStatus.Running =>
          (Ok NO_CONTENT, Some (assign_all [SetCancelRequested true; SetUpdatedAt now] j))
      | Some _ => (Err (BadRequest "image job cannot be cancelled"), Some j)
      | None => (Err (BadRequest "image job has an unknown status"), Some j)
      end
  end.

Lemma row_valid_same d j j' : job_input j' = job_input j -> is_some (JobStatus.parse (job_status j')) = true ->
  progress_bytes j' = progress_bytes j -> total_bytes j' = total_bytes j ->
  row_valid d j = true -> row_valid d j' = true.
Proof.
  intros I S P T. unfold row_valid, row_bounds. rewrite I, S, P, T.
  destruct (is_some (JobStatus.parse (job_status j))); [done|]. by rewrite andb_false_r.
Qed.

(** Alone, the cancel handler needs one turn of its loop, and answers and
    leaves the row as [cancel_spec] says, every other row untouched. *)
Theorem cancel_job_alone fuel i w :
  (forall j, jobs (db w) !! i = Some j -> row_valid (db w) j = true) ->
  let '(r, w') := run (cancel_job (S fuel) i) w in
  r = Some (cancel_spec (clock w) (jobs (db w) !! i)).1 /\
  jobs (db w') !! i = (cancel_spec (clock w) (jobs (db w) !! i)).2 /\
  forall k, k <> i -> jobs (db w') !! k = jobs (db w) !! k.
Proof.
  intros V. unfold cancel_job. rewrite run_bind. cbn [run find_by_id query].
  destruct (jobs (db w) !! i) as [j|] eqn:Hj; [|done].
  specialize (V j eq_refl). cbn [cancel_spec]. unfold parse_status.
  destruct (JobStatus.parse (job_status j)) as [[]|] eqn:P; cbn [ok_or]; try done;
    cbn [cancel_job_from_status]; rewrite run_bind; cbn [run Utc_now]; rewrite run_bind;
    apply JobStatus.parse_Some in P; cbn -[update_by_id assign_all jobs];
    unfold step_db, update_by_id; rewrite Hj; unfold is_status; rewrite P; cbn -[assign_all jobs];
    rewrite (row_valid_same (db w) j) by (done || (simpl; by rewrite P)); cbn -[assign_all];
    (split_and!; [done|by apply lookup_insert_eq|intros k Nk; by apply lookup_insert_ne]).
Qed.

(** What recovery makes of a row. *)
Definition recovered_row (now : Z) (j : image_job) : image_job :=
  if is_abandoned now j then
    assign_all (if cancel_requested j then transition_columns JobStatus.Cancelled now None
                else recovered_columns now) j
  else j.

Definition abandoned_count (now : Z) (d : Db) : Z :=
  Z.of_nat (size (filter (fun r : Uuid * image_job => is_abandoned now r.2 = true) (jobs d))).

Lemma update_where_valid p c d : (forall i j, jobs d !! i = Some j -> p j = true ->
    row_valid d (assign_all c j) = true) ->
  update_where p c d =
    Ok (Z.of_nat (size (filter (fun r : Uuid * image_job => p r.2 = true) (jobs d))),
        with_jobs d ((fun j => if p j then assign_all c j else j) <$> jobs d)).
Proof.
  intros V. unfold update_where. rewrite (proj2 (forallb_forall _ _)); [done|].
  intros [i j] H%list_elem_of_In. apply elem_of_map_to_list, map_lookup_filter_Some in H as [Hj P].
  simpl. by eapply V.
Qed.

(** The rows that satisfy [p] split by [q]; a map that keeps both predicates of
    a row keeps the count. *)
Lemma count_split (p q : image_job -> bool) (m : gmap Uuid image_job) :
  (size (filter (fun r : Uuid * image_job => p r.2 && q r.2 = true) m) +
   size (filter (fun r : Uuid * image_job => p r.2 && negb (q r.2) = true) m) =
   size (filter (fun r : Uuid * image_job => p r.2 = true) m))%nat.
Proof.
  induction m as [|i j m Hi IH] using map_ind; [done|].
  rewrite !map_filter_insert. cbn [snd].
  assert (forall P : Uuid * image_job -> Prop, forall `{!forall r, Decision (P r)},
    filter P m !! i = None) as None_i.
  { intros P D. apply map_lookup_filter_None. by left. }
  rewrite (delete_id m i) by done.
  destruct (p j), (q j); simpl; rewrite ?map_size_insert_None by apply None_i; lia.
Qed.

Lemma count_fmap (p q : image_job -> bool) (f : image_job -> image_job) (m : gmap Uuid image_job) :
  (forall i j, m !! i = Some j -> p (f j) = q j) ->
  size (filter (fun r : Uuid * image_job => p r.2 = true) (f <$> m)) =
  size (filter (fun r : Uuid * image_job => q r.2 = true) m).
Proof.
  intros H. rewrite map_filter_fmap, map_size_fmap. f_equal. apply map_filter_ext.
  intros i j Hj. simpl. by rewrite (H i j Hj).
Qed.

Lemma recovered_rows_fmap now (m : gmap Uuid image_job) :
  (fun j : image_job => if is_abandoned now j && negb (cancel_requested j) then assign_all (recovered_columns now) j else j)
    <$> ((fun j : image_job => if is_status JobStatus.Running j && cancel_requested j && abandoned_lease now j
                   then assign_all (transition_columns JobStatus.Cancelled now None) j else j) <$> m)
  = recovered_row now <$> m.
Proof.
  rewrite <- map_fmap_compose. apply map_fmap_ext. intros i j _. unfold recovered_row, is_abandoned. simpl.
  destruct (is_status JobStatus.Running j) eqn:R; simpl; [|by rewrite R].
  destruct (cancel_requested j) eqn:C, (abandoned_lease now j) eqn:A; simpl; try done;
    rewrite ?R, ?A, ?C; done.
Qed.

(** The two statements of recovery count each abandoned job once. *)
Lemma recovered_count now (d : Db) :
  Z.of_nat (size (filter (fun r : Uuid * image_job =>
      is_status JobStatus.Running r.2 && cancel_requested r.2 && abandoned_lease now r.2 = true) (jobs d))) +
  Z.of_nat (size (filter (fun r : Uuid * image_job => is_abandoned now r.2 && negb (cancel_requested r.2) = true)
      ((fun j : image_job => if is_status JobStatus.Running j && cancel_requested j && abandoned_lease now j
           then assign_all (transition_columns JobStatus.Cancelled now None) j else j) <$> jobs d)))
  = abandoned_count now d.
Proof.
  set (q := fun j => is_abandoned now j && negb (cancel_requested j)).
  etransitivity; [apply f_equal, f_equal, (count_fmap q q)|].
  - intros i j _. unfold q. destruct (_ && abandoned_lease now j) eqn:P; [|done].
    apply andb_true_iff in P as [P A]. apply andb_true_iff in P as [P C].
    unfold is_abandoned. simpl. by rewrite C, andb_false_r.
  - unfold abandoned_count, q. rewrite <- (count_split (is_abandoned now) cancel_requested), Nat2Z.inj_add.
    do 3 f_equal. apply map_filter_ext. intros i j _. unfold is_abandoned. simpl.
    by destruct (is_status _ _), (cancel_requested j), (abandoned_lease now j).
Qed.

Lemma row_valid_with_jobs d m j : row_valid (with_jobs d m) j = row_valid d j.
Proof. unfold row_valid. reflexivity. Qed.

Lemma recovered_not_abandoned now j : is_abandoned now (recovered_row now j) = false.
Proof.
  unfold recovered_row. destruct (is_abandoned now j) eqn:A; [|done].
  destruct (cancel_requested j); unfold is_abandoned, is_status; simpl; reflexivity.
Qed.

(** The two statements of recovery, one after the other. *)
Lemma recover_statements now d :
  (forall i j, jobs d !! i = Some j -> row_valid d j = true) ->
  exists n1 d1 n2 d2,
    update_where (fun j => is_status JobStatus.Running j && cancel_requested j && abandoned_lease now j)
      (transition_columns JobStatus.Cancelled now None) d = Ok (n1, d1) /\
    update_where (fun j => is_abandoned now j && negb (cancel_requested j)) (recovered_columns now) d1
      = Ok (n2, d2) /\
    n1 + n2 = abandoned_count now d /\ jobs d2 = recovered_row now <$> jobs d /\ owners d2 = owners d.
Proof.
  intros V. eexists _, _, _, _. split_and!.
  - apply update_where_valid. intros i j Hj P. eapply row_valid_same; [..|by eapply V]; done.
  - apply update_where_valid. cbn [jobs with_jobs]. intros i j Hj P. rewrite lookup_fmap in Hj.
    destruct (jobs d !! i) as [x|] eqn:Hx; [|done]. injection Hj as <-.
    rewrite row_valid_with_jobs. apply (row_valid_same d x); [..|by eapply V]; by case_match.
  - apply recovered_count.
  - cbn [jobs with_jobs]. apply recovered_rows_fmap.
  - done.
Qed.

Lemma no_abandoned_rows now d :
  existsb (fun r : Uuid * image_job => is_abandoned now r.2) (map_to_list (jobs d)) = false ->
  abandoned_count now d = 0 /\ recovered_row now <$> jobs d = jobs d.
Proof.
  intros X. assert (forall i j, jobs d !! i = Some j -> is_abandoned now j = false) as N.
  { intros i j Hj. apply not_true_iff_false. intros A. apply not_true_iff_false in X. apply X.
    apply existsb_exists. exists (i, j). split; [by apply list_elem_of_In, elem_of_map_to_list|done]. }
  split.
  - unfold abandoned_count. rewrite (proj2 (map_empty (filter _ _))); [done|].
    intros i. apply map_lookup_filter_None. destruct (jobs d !! i) as [j|] eqn:Hj; [|by left].
    right. intros x [= <-]. simpl. by rewrite (N i j Hj).
  - rewrite <- (map_fmap_id (jobs d)) at 2. apply map_fmap_ext.
    intros i j Hj. unfold recovered_row. by rewrite (N i j Hj).
Qed.

(** Recovery is complete and precise.  On rows the table accepts, recovery at
    [now] succeeds; it cancels the running jobs without a live lease that were
    asked to stop, returns the other such jobs to the queue, leaves every other
    row as it was, counts the jobs it moved, and leaves no running job whose
    lease is missing or has run out. *)
Theorem recovery_exact now w :
  (forall i j, jobs (db w) !! i = Some j -> row_valid (db w) j = true) ->
  exists w', run (recover_abandoned_jobs now) w = (Ok (abandoned_count now (db w)), w') /\
    jobs (db w') = recovered_row now <$> jobs (db w) /\ owners (db w') = owners (db w) /\
    forall i j, jobs (db w') !! i = Some j -> is_abandoned now j = false.
Proof.
  intros V.
  assert (exists w', run (recover_abandoned_jobs now) w = (Ok (abandoned_count now (db w)), w') /\
    jobs (db w') = recovered_row now <$> jobs (db w) /\ owners (db w') = owners (db w))
    as (w' & R & J & O).
  { unfold recover_abandoned_jobs. rewrite run_bind. cbn [run query].
    destruct (existsb _ _) eqn:X; cbn [negb].
    - destruct (recover_statements now (db w) V) as (n1 & d1 & n2 & d2 & U1 & U2 & <- & J & O).
      exists (with_db w d2). cbn [transition_update JobStatus.can_transition_to negb].
      rewrite run_bind. cbn [run exec]. unfold step_db at 1. rewrite U1.
      rewrite run_bind. cbn [run exec]. unfold step_db. cbn [db with_db]. rewrite U2. by split_and!.
    - destruct (no_abandoned_rows now (db w) X) as [-> J]. by exists w. }
  exists w'. split_and!; [done..|]. intros i j. rewrite J, lookup_fmap.
  destruct (jobs (db w) !! i); [|done]. intros [= <-]. apply recovered_not_abandoned.
Qed.

Lemma by_key_inserted key i j d : jobs d !! i = None -> by_idempotency_key key d = None ->
  idempotency_key j = Some key ->
  by_idempotency_key key (with_jobs d (<[i := j]> (jobs d))) = Some (i, j).
Proof.
  intros N F K. destruct (by_idempotency_key key (with_jobs d _)) as [[i' j']|] eqn:E.
  - apply by_key_Some in E as [Hj K']. simpl in Hj. destruct (decide (i' = i)) as [->|Ne].
    + rewrite lookup_insert_eq in Hj. congruence.
    + rewrite lookup_insert_ne in Hj by done. by eapply by_key_None in Hj.
  - exfalso. eapply by_key_None; [done| |done]. apply lookup_insert_eq.
Qed.

Section creation_properties.
Context (reference_ok : string -> bool).
Context (upcoming : string -> string -> Z -> ApiResult Z).
(** The cron crate yields occurrences after the instant it is asked at. *)
Hypothesis upcoming_later : forall c t now next, upcoming c t now = Ok next -> now < next.

(** Posting a job twice under one idempotency key, possibly with different
    (valid) content, creates one job: the second call answers the job of the
    first and changes nothing. *)
Theorem create_job_idempotent id1 id2 input1 input2 key w i j w1 :
  run (create_job reference_ok id1 input1 (Some key)) w = (Ok (i, j), w1) ->
  validate_job reference_ok input2 = Ok tt ->
  run (create_job reference_ok id2 input2 (Some key)) w1 = (Ok (i, j), w1).
Proof using Type.
  intros R V.
  assert (by_idempotency_key key (db w1) = Some (i, j)) as B.
  { revert R. unfold create_job. destruct (validate_job reference_ok input1); [|done].
    destruct (JobKind.parse (kind input1)) as [k|]; [|done].
    rewrite run_bind. cbn [run query mbind option_bind].
    destruct (by_idempotency_key key (db w)) as [[i0 j0]|] eqn:E; [by intros [= <- <- <-]|].
    rewrite run_bind. cbn [run Utc_now]. rewrite run_bind. cbn [run exec]. unfold step_db.
    destruct (insert_job _ _ _) as [d|e] eqn:I.
    - intros [= <- <- <-]. apply insert_job_Ok in I as (N & _ & -> & _). by apply by_key_inserted.
    - cbn [is_some]. rewrite run_bind. cbn [run query mbind option_bind]. by rewrite E. }
  unfold create_job. rewrite V. unfold validate_job in V.
  destruct (JobKind.parse (kind input2)); [|done].
  rewrite run_bind. cbn [run query mbind option_bind]. by rewrite B.
Qed.

(** A due slot of a synchronisation rule enqueues one copy job: after the
    scheduled transaction for the slot has created or found its job, the job
    carries the slot's key, and no later scheduled transaction for the same slot
    does anything. *)
Theorem rule_slot_once new_id new_id' i slot now now' d job d1 :
  create_rule_job reference_ok upcoming new_id i slot "schedule" now d = Ok (Some job, d1) ->
  jobs d1 !! job.1 = Some job.2 /\
  idempotency_key job.2 = Some (slot_key i (unwrap_or slot now)) /\
  create_rule_job reference_ok upcoming new_id' i slot "schedule" now' d1 = Ok (None, d1).
Proof using upcoming_later.
  intros H. unfold create_rule_job in H. destruct (rules d !! i) as [rule|] eqn:Hr; [|done].
  cbn [ok_or andb str_eqb] in H. change ("schedule" =?s "schedule") with true in H. cbn [andb] in H.
  destruct (negb (enabled rule) || _ || _) eqn:G; [done|].
  apply orb_false_iff in G as [G G3]. apply orb_false_iff in G as [_ G2].
  apply negb_false_iff, bool_decide_eq_true in G2. rewrite G2 in G3.
  destruct slot as [s|]; [|done]. simpl in G3. apply Z.ltb_ge in G3.
  destruct (validate_job _ _); [|done]. cbv zeta in H. cbn [mbind option_bind unwrap_or] in H.
  match type of H with match ?e with _ => _ end = _ => destruct e as [[job0 d0]|] eqn:E; [|done] end.
  destruct (upcoming (cron rule) (timezone rule) now) as [next|] eqn:U; [|done].
  destruct (rule_valid _ _); [|done]. injection H as <- <-. apply upcoming_later in U.
  assert (jobs d0 !! job0.1 = Some job0.2 /\ idempotency_key job0.2 = Some (slot_key i s)) as [J K].
  { revert E. destruct (by_idempotency_key _ d) as [[x y]|] eqn:B.
    - intros [= <- <-]. by apply by_key_Some in B.
    - destruct (insert_job _ _ _) as [d2|] eqn:I; [|done]. cbn [map_err]. intros [= <- <-].
      apply insert_job_Ok in I as (_ & _ & -> & _). simpl. by rewrite lookup_insert_eq. }
  split_and!; [done..|]. unfold create_rule_job. cbn [rules with_rules]. rewrite lookup_insert_eq.
  cbn [ok_or]. change ("schedule" =?s "schedule") with true. cbn [andb].
  rewrite (bool_decide_eq_false_2 (next_run_at _ = _)) by (simpl; intros [=]; lia).
  cbn [negb]. by rewrite orb_true_r.
Qed.

End creation_properties.

(** A run alone is an interleaved run. *)

(** ** Instances *)

Module JobsWitness.

Definition input0 : JobInput :=
  {| kind := "export"; source_ref := "docker.io/library/nginx:1"; source_node_id := None;
     source_credential_id := None; destination_ref := None; destination_credential_id := None;
     platform_os := "linux"; platform_arch := "amd64"; output_format := Some "oci" |}.

Definition rule0 : image_sync_rule :=
  {| rule_name := "nightly"; enabled := true; rule_source_ref := "docker.io/library/nginx:1";
     rule_source_node_id := None; rule_source_credential_id := None;
     rule_destination_ref := "registry.example/nginx:1"; rule_destination_credential_id := 5%N;
     rule_platform_os := "linux"; rule_platform_arch := "amd64"; cron := "0 0 3 * * *"; timezone := "UTC";
     last_digest := None; last_run_at := None; next_run_at := Some 50; rule_created_at := 0;
     rule_updated_at := 0 |}.

Definition tables : Db :=
  {| jobs := ∅; owners := ∅; lineage := ∅; rules := {[9%N := rule0]}; nodes := ∅;
     credentials := {[5%N]} |}.

Definition world (d : Db) : JobsWorld :=
  {| db := d; clock := 100; active_attempts := ∅; job_dirs := ∅; remove_error := fun _ => None |}.

(** The tables after a statement, or as they were when it fails. *)
Definition after {A E} (d : Db) (r : result (A * Db) E) : Db :=
  match r with Ok (_, d') => d' | Err _ => d end.

Definition job0 : image_job := pending_job input0 JobKind.Export (Some "key") 0.
Definition queued : Db := with_jobs tables {[1%N := job0]}.
Definition claimed : Db := after queued (claim_image_job 1 7 0 10 queued).
Definition progressed : Db :=
  after claimed (update_image_job_progress_owned 1 7 1 "downloading" 80 100 10 0 claimed).
Definition recovered : Db :=
  after progressed (update_where (fun j => is_abandoned 20 j && negb (cancel_requested j))
                      (recovered_columns 20) progressed).
Definition reclaimed : Db := after recovered (claim_image_job 1 8 20 90 recovered).
Definition flagged : Db :=
  after claimed (update_by_id 1 (is_status JobStatus.Running) [SetCancelRequested true; SetUpdatedAt 5] claimed).

Lemma queued_reachable : reachable queued.
Proof.
  exists tables. split; [done|]. apply rtc_once. eapply (step_insert 1 input0 JobKind.Export (Some "key") 0).
  vm_compute. reflexivity.
Qed.

Lemma jobs_invariant_witness :
  table_inv (db (run (claim_next 7) (world queued)).2).
Proof.
  apply (jobs_invariant atom (claim_next 7) (world queued) (run (claim_next 7) (world queued)).1).
  - done.
  - apply h_claim.
  - apply queued_reachable.
  - apply run_runs. by destruct (run (claim_next 7) (world queued)).
Defined.

Lemma stale_worker_fenced_witness :
  renew_image_job 1 7 1 30 90 reclaimed = Ok (false, reclaimed).
Proof.
  apply (stale_worker_fenced recovered reclaimed reclaimed 1 7 1 8 2 20 90
    [SetLeaseUntil (Some 90); SetUpdatedAt 30]
    {| fin_worker := 7; fin_attempt := 1; fin_status := "completed"; fin_error := None; fin_now := 30;
       fin_cancel_requested := false |}).
  - vm_compute. reflexivity.
  - vm_compute. reflexivity.
  - vm_compute. reflexivity.
  - apply rtc_refl.
  - reflexivity.
  - reflexivity.
Defined.

Definition claimed_row : image_job :=
  assign_all [SetStatus "running"; SetStage "resolving"; SetLeaseUntil (Some 10); SetStartedAt (Some 0);
              SetUpdatedAt 0] job0.

Lemma job_transitions_witness :
  JobStatus.Running = JobStatus.Pending \/
  JobStatus.can_transition_to JobStatus.Pending JobStatus.Running = true \/
  (JobStatus.Pending = JobStatus.Running /\ JobStatus.Running = JobStatus.Pending /\
   cancel_requested job0 = false /\ exists now, abandoned_lease now job0 = true).
Proof.
  apply (job_transitions queued claimed 1 job0 claimed_row).
  - eapply (step_claim 1 7 0 10). vm_compute. reflexivity.
  - vm_compute. reflexivity.
  - vm_compute. reflexivity.
  - reflexivity.
  - reflexivity.
Defined.

Lemma flagged_cancelling : cancelling flagged 1.
Proof. eexists. split_and!; vm_compute; reflexivity. Qed.

(** The worker renews its lease after the request. *)
Definition flagged_renewed : Db := after flagged (renew_image_job 1 7 1 6 70 flagged).

Lemma flagged_renewed_running : ~ cancelled_or_gone flagged_renewed 1.
Proof.
  assert (job_status <$> jobs flagged_renewed !! 1%N = Some "running") as E by (vm_compute; reflexivity).
  intros G. unfold cancelled_or_gone in G. destruct (jobs flagged_renewed !! 1%N) as [j|]; [|done].
  specialize (G j eq_refl). injection E as E. by rewrite E in G.
Qed.

Lemma cancellation_not_lost_witness : cancelling flagged_renewed 1.
Proof.
  apply (cancellation_not_lost flagged).
  - apply flagged_cancelling.
  - apply rtc_once. split.
    + eapply (step_owned 1 7 1 [SetLeaseUntil (Some 70); SetUpdatedAt 6]); vm_compute; reflexivity.
    + apply flagged_renewed_running.
Defined.

Lemma finish_job_atomic_witness :
  exists w1 w2 j now,
    rtc atom (world claimed) w1 /\ w2 = with_db w1 (db w2) /\
    rtc atom w2 (run (finish_job 7 1 1 (Ok OutcomeCompleted)) (world claimed)).2 /\
    owned (db w1) 1 7 1 = true /\
    jobs (db w1) !! 1%N = Some j /\ is_status JobStatus.Running j = true /\
    (let '(s, e) := finish_target (cancel_requested j) (Ok OutcomeCompleted) in
     jobs (db w2) =
       <[1%N := assign_all [SetStatus (JobStatus.as_str s); SetError e; SetLeaseUntil None;
                            SetFinishedAt (Some now); SetUpdatedAt now] j]> (jobs (db w1))) /\
    owners (db w2) = delete 1%N (owners (db w1)) /\ lineage (db w2) = lineage (db w1).
Proof.
  apply (finish_job_atomic atom 7 1 1 (Ok OutcomeCompleted) (world claimed)).
  apply run_runs. vm_compute. reflexivity.
Defined.

Lemma cancel_job_sound_witness :
  204 = NO_CONTENT /\ exists w1 j, rtc atom w1 (run (cancel_job 1 1) (world claimed)).2 /\
    jobs (db w1) !! 1%N = Some j /\
    ((is_status JobStatus.Running j = true /\ cancel_requested j = true) \/
     is_status JobStatus.Cancelled j = true).
Proof.
  apply (cancel_job_sound atom 1 1 (world claimed)). apply run_runs. vm_compute. reflexivity.
Defined.

Lemma claimed_rows_valid i j : jobs claimed !! i = Some j -> row_valid claimed j = true.
Proof.
  intros H. assert (map_Forall (fun _ j => row_valid claimed j = true) (jobs claimed)) as F.
  { apply (bool_decide_unpack _). vm_compute. exact I. }
  exact (F i j H).
Qed.

Lemma cancel_job_alone_witness :
  let '(r, w') := run (cancel_job 1 1) (world claimed) in
  r = Some (cancel_spec 100 (jobs claimed !! 1%N)).1 /\
  jobs (db w') !! 1%N = (cancel_spec 100 (jobs claimed !! 1%N)).2 /\
  forall k, k <> 1%N -> jobs (db w') !! k = jobs claimed !! k.
Proof. exact (cancel_job_alone 0 1 (world claimed) (claimed_rows_valid 1)). Defined.

Lemma recovery_exact_witness :
  exists w', run (recover_abandoned_jobs 20) (world claimed) = (Ok 1, w') /\
    jobs (db w') = recovered_row 20 <$> jobs claimed /\ owners (db w') = owners claimed /\
    forall i j, jobs (db w') !! i = Some j -> is_abandoned 20 j = false.
Proof. exact (recovery_exact 20 (world claimed) claimed_rows_valid). Defined.

Lemma create_job_idempotent_witness :
  run (create_job (fun _ => true) 3 input0 (Some "key"))
    (run (create_job (fun _ => true) 2 input0 (Some "key")) (world tables)).2 =
  (Ok (2%N, pending_job input0 JobKind.Export (Some "key") 100),
   (run (create_job (fun _ => true) 2 input0 (Some "key")) (world tables)).2).
Proof.
  apply (create_job_idempotent (fun _ => true) 2 3 input0 input0 "key" (world tables)).
  - vm_compute. reflexivity.
  - vm_compute. reflexivity.
Defined.

Definition daily (c t : string) (now : Z) : ApiResult Z := Ok (now + 86400000000000).

Lemma rule_slot_once_witness :
  create_rule_job (fun _ => true) daily 4 9 (Some 50) "schedule" 70
    (after tables (create_rule_job (fun _ => true) daily 3 9 (Some 50) "schedule" 60 tables)) =
  Ok (None, after tables (create_rule_job (fun _ => true) daily 3 9 (Some 50) "schedule" 60 tables)).
Proof.
  apply (rule_slot_once (fun _ => true) daily) with (new_id := 3%N) (now := 60) (d := tables)
    (job := (3%N, pending_job (rule_job_input rule0) JobKind.Copy (Some (slot_key 9 50)) 60)).
  - unfold daily. intros c t now next [= <-]. lia.
  - vm_compute. reflexivity.
Defined.

(** Finishing deletes the owner row, so the attempt numbers of a job restart
    when it is retried: the same worker is given the token [(7, 1)] twice, with
    a completed run in between. *)
Definition failed_once : Db :=
  after claimed (finish_image_job_owned 1
    {| fin_worker := 7; fin_attempt := 1; fin_status := "failed"; fin_error := None; fin_now := 30;
       fin_cancel_requested := false |} claimed).
Definition retried : Db :=
  after failed_once (update_by_id 1 (is_status JobStatus.Failed)
    (transition_columns JobStatus.Pending 40 None) failed_once).

Theorem attempt_token_reused :
  image_job_owner claimed 1 = Some (7%N, 1) /\
  image_job_owner failed_once 1 = None /\
  image_job_owner (after retried (claim_image_job 1 7 50 60 retried)) 1 = Some (7%N, 1).
Proof. vm_compute. done. Qed.

(** Recovery keeps the progress of the lost attempt: when the reference has
    moved to a smaller image, the next attempt's manifest update violates the
    table's trigger. *)
Theorem smaller_image_after_recovery :
  progress_bytes <$> jobs reclaimed !! 1%N = Some 80 /\
  update_image_job_manifest_owned 1 8 2 "sha256:new" None 60 25 reclaimed = Err invalid_job /\
  is_ok (update_image_job_manifest_owned 1 8 2 "sha256:new" None 100 25 reclaimed) = true.
Proof. vm_compute. done. Qed.

End JobsWitness.
