(* ===== verification/Security.v ===== *)
(** * Outbound address policy

    src/src/security.rs and the authorisation half of src/src/connect.rs: which
    upstream URLs, connection overrides and CONNECT targets the process may reach.
    [IpAddr] and its parser are those of the Rust standard library.  The DNS
    resolver, the [url], [ipnet], [base64] and [http] crates are parameters. *)

From stdpp Require Import base gmap sets list strings.
From Stdlib Require Import ZArith Lia Ascii.
From S2P Require Import Prelude Text Errors Http.

(** ** Addresses *)

Inductive IpAddr : Type :=
| V4 (a : Z)
| V6 (a : Z).

#[export] Instance IpAddr_eq_dec : EqDecision IpAddr.
Proof. solve_decision. Defined.

Definition address_ok (ip : IpAddr) : Prop :=
  match ip with V4 a => 0 <= a < 2 ^ 32 | V6 a => 0 <= a < 2 ^ 128 end.

(** [Ipv6Addr::to_ipv4_mapped]: [::ffff:a.b.c.d]. *)
Definition to_ipv4_mapped (a : Z) : option Z :=
  if Z.shiftr a 32 =? 65535 then Some (Z.land a (Z.ones 32)) else None.

(** *** [IpAddr::from_str]

    The recursive-descent parser of [core::net]: a reader takes the rest of the
    input and gives a value and what is left, or leaves the input as it was. *)

Definition to_digit (radix : Z) (c : ascii) : option Z :=
  let d := if is_ascii_digit c then Some (code c - 48)
           else if between 97 102 c then Some (code c - 87)
           else if between 65 70 c then Some (code c - 55)
           else None in
  let* v := d in if v <? radix then Some v else None.

(** The digits from [s] on: [None] on overflow or when there are too many. *)
Fixpoint read_digits (radix bound : Z) (room : nat) (acc : Z) (any : bool) (s : string)
  : option (Z * bool * string) :=
  match s with
  | String c r =>
      match to_digit radix c with
      | Some d =>
          let v := acc * radix + d in
          if bound <? v then None
          else match room with
               | O => None
               | S room => read_digits radix bound room v true r
               end
      | None => Some (acc, any, s)
      end
  | EmptyString => Some (acc, any, s)
  end.

Definition read_number (radix bound : Z) (max_digits : nat) (allow_zero_prefix : bool) (s : string)
  : option (Z * string) :=
  let* (v, any, r) := read_digits radix bound max_digits 0 false s in
  let leading_zero := is_some_and (first_byte s) (Ascii.eqb "0"%char) in
  let digits := slen s - slen r in
  if negb any then None
  else if negb allow_zero_prefix && leading_zero && (1 <? digits) then None
  else Some (v, r).

Definition read_given_char (c : ascii) (s : string) : option string :=
  match s with
  | String c' r => if Ascii.eqb c' c then Some r else None
  | EmptyString => None
  end.

(** [read_separator(sep, index, inner)]: the separator before every item but the
    first. *)
Definition read_separator {A} (sep : ascii) (index : nat) (inner : string -> option (A * string))
  (s : string) : option (A * string) :=
  match index with
  | O => inner s
  | S _ => let* r := read_given_char sep s in inner r
  end.

Fixpoint read_octets (n index : nat) (acc : Z) (s : string) : option (Z * string) :=
  match n with
  | O => Some (acc, s)
  | S n =>
      let* (v, r) := read_separator "."%char index (read_number 10 255 3 false) s in
      read_octets n (S index) (acc * 256 + v) r
  end.

Definition read_ipv4_addr (s : string) : option (Z * string) := read_octets 4 0 0 s.

(** [read_groups]: up to [limit] groups from the [index]-th on, in order, whether
    an embedded IPv4 address ended them, and the rest. *)
Fixpoint read_groups (limit index : nat) (s : string) : list Z * bool * string :=
  match limit with
  | O => ([], false, s)
  | S limit' =>
      match (if (0 <? limit')%nat then read_separator ":"%char index read_ipv4_addr s else None) with
      | Some (v4, r) => ([v4 / 65536; v4 mod 65536], true, r)
      | None =>
          match read_separator ":"%char index (read_number 16 65535 4 true) s with
          | Some (g, r) =>
              let '(gs, v4, rest) := read_groups limit' (S index) r in (g :: gs, v4, rest)
          | None => ([], false, s)
          end
      end
  end.

Definition segments (gs : list Z) : Z := foldl (fun acc g => acc * 65536 + g) 0 gs.

Definition read_ipv6_addr (s : string) : option (Z * string) :=
  let '(head, head_ipv4, r) := read_groups 8 0 s in
  if (length head =? 8)%nat then Some (segments head, r)
  else if (head_ipv4 : bool) then None
  else
    let* r := read_given_char ":"%char r in
    let* r := read_given_char ":"%char r in
    let '(tail, _, r) := read_groups (7 - length head) 0 r in
    Some (segments (head ++ repeat 0 (8 - length head - length tail) ++ tail), r).

Definition read_ip_addr (s : string) : option (IpAddr * string) :=
  match read_ipv4_addr s with
  | Some (a, r) => Some (V4 a, r)
  | None => let* (a, r) := read_ipv6_addr s in Some (V6 a, r)
  end.

Definition parse_ip (s : string) : option IpAddr :=
  let* (ip, r) := read_ip_addr s in
  if is_empty r then Some ip else None.

Example parse_v4 : parse_ip "192.168.0.1" = Some (V4 3232235521).
Proof. reflexivity. Qed.
Example parse_v4_zero : parse_ip "127.0.0.01" = None.
Proof. reflexivity. Qed.
Example parse_v6 : parse_ip "::ffff:10.0.0.1" = Some (V6 (65535 * 2 ^ 32 + 167772161)).
Proof. reflexivity. Qed.
Example parse_v6_middle : parse_ip "2001:db8::1" = Some (V6 (8193 * 2 ^ 112 + 3512 * 2 ^ 96 + 1)).
Proof. reflexivity. Qed.

(** ** Denied networks *)

Definition DENIED_NETWORKS : list string :=
  ["0.0.0.0/8"; "10.0.0.0/8"; "100.64.0.0/10"; "127.0.0.0/8"; "169.254.0.0/16"; "172.16.0.0/12";
   "192.0.0.0/24"; "192.0.2.0/24"; "192.168.0.0/16"; "198.18.0.0/15"; "198.51.100.0/24";
   "203.0.113.0/24"; "224.0.0.0/4"; "240.0.0.0/4";
   "::/128"; "::1/128"; "64:ff9b:1::/48"; "100::/64"; "2001::/23"; "2001:db8::/32"; "2002::/16";
   "fc00::/7"; "fe80::/10"; "ff00::/8"].

(** The addresses a CIDR literal denotes, as its documentation defines them: from
    the network address, [2 ^ (width - length)] of them. *)
Definition in_cidr (literal : string) (ip : IpAddr) : Prop :=
  exists host len base, split_once "/" literal = Some (host, len) /\ parse_ip host = Some base /\
    exists l, read_number 10 128 3 false len = Some (l, ""%string) /\
      match base, ip with
      | V4 b, V4 a => b <= a < b + 2 ^ (32 - l)
      | V6 b, V6 a => b <= a < b + 2 ^ (128 - l)
      | _, _ => False
      end.

(** The settings of [Config] the checks read. *)
Record SecurityConfig := {
  allow_private_upstreams : bool;
  allow_insecure_upstreams : bool;
  connect_allow : list string;
  connect_remap : list (string * string);
  proxy_auth : option string
}.

(** What the code uses of [url::Url]. *)
Record UrlApi (Url : Type) := {
  url_parse : string -> option Url;
  url_username : Url -> string;
  url_password : Url -> option string;
  url_scheme : Url -> string;
  url_host_str : Url -> option string;
  url_path : Url -> string;
  url_port_or_known_default : Url -> option Z;
  url_clear_fragment : Url -> Url;
  url_clear_query : Url -> Url;
  url_set_path : string -> Url -> Url
}.
Arguments url_parse {Url}.
Arguments url_username {Url}.
Arguments url_password {Url}.
Arguments url_scheme {Url}.
Arguments url_host_str {Url}.
Arguments url_path {Url}.
Arguments url_port_or_known_default {Url}.
Arguments url_clear_fragment {Url}.
Arguments url_clear_query {Url}.
Arguments url_set_path {Url}.

Section policy.
(** [IpNet::contains] of a parsed literal, [lookup_host], the [url] crate,
    [base64::STANDARD.decode] and [http::uri::Authority] (host and port). *)
Context (net_contains : string -> IpAddr -> bool).
Context (lookup_host : string -> Z -> option (list IpAddr)).
Context {Url : Type} (api : UrlApi Url).
Context (base64_decode : string -> option string).
Context (parse_authority : string -> option (string * option Z)).

Definition denied (ip : IpAddr) : bool := existsb (fun n => net_contains n ip) DENIED_NETWORKS.

Definition is_non_public (ip : IpAddr) : bool :=
  match ip with
  | V6 a => match to_ipv4_mapped a with
            | Some v4 => denied (V4 v4)
            | None => denied ip
            end
  | V4 _ => denied ip
  end.

(** The loop over a DNS answer: the first address that is not allowed is an
    error; duplicates are dropped. *)
Fixpoint screen (config : SecurityConfig) (refuse : AppError) (unique : list IpAddr) (answer : list IpAddr)
  : ApiResult (list IpAddr) :=
  match answer with
  | [] => Ok unique
  | ip :: answer =>
      if negb (allow_private_upstreams config) && is_non_public ip then Err refuse
      else screen config refuse (if bool_decide (ip ∈ unique) then unique else unique ++ [ip]) answer
  end.

(** ** Upstream URLs *)

Record ValidatedUpstream := { vu_url : Url; vu_addresses : list IpAddr }.

(** The fragment goes; a base also loses its query and ends in a slash. *)
Definition edited_url (normalize_base : bool) (url : Url) : Url :=
  let url := url_clear_fragment api url in
  if normalize_base then
    let url := url_clear_query api url in
    if negb (ends_with "/" (url_path api url)) then url_set_path api (url_path api url +:+ "/") url else url
  else url.

Definition validate_url (raw : string) (config : SecurityConfig) (normalize_base : bool)
  : ApiResult ValidatedUpstream :=
  if 2048 <? slen raw then Err (BadRequest "upstream URL is too long")
  else
    let? url := ok_or (url_parse api raw) (BadRequest "invalid upstream URL") in
    if negb (url_username api url =?s "") || is_some (url_password api url)
    then Err (BadRequest "credentials are not allowed in upstream URLs")
    else if negb ((url_scheme api url =?s "https")
                  || (url_scheme api url =?s "http") && allow_insecure_upstreams config)
    then Err (BadRequest "upstream must use HTTPS")
    else
      let? host := ok_or (url_host_str api url) (BadRequest "upstream URL has no host") in
      let host := to_ascii_lowercase host in
      let url := edited_url normalize_base url in
      let? port := ok_or (url_port_or_known_default api url) (BadRequest "upstream has no usable port") in
      let? answer := ok_or (lookup_host host port) (BadRequest "upstream DNS lookup failed") in
      let? addresses := screen config
        (BadRequest "private or reserved upstream addresses are disabled") [] answer in
      if bool_decide (addresses = []) then Err (BadRequest "upstream DNS returned no addresses")
      else Ok {| vu_url := url; vu_addresses := addresses |}.

Definition validate_upstream (raw : string) (config : SecurityConfig) : ApiResult ValidatedUpstream :=
  validate_url raw config true.
Definition validate_target_url (raw : string) (config : SecurityConfig) : ApiResult ValidatedUpstream :=
  validate_url raw config false.

(** The settings [client_for] gives the HTTP client builder; durations in
    nanoseconds. *)
Record ClientSettings := {
  c_timeout : Z;
  c_connect_timeout : Z;
  c_follow_redirects : bool;
  c_resolve_host : string;
  c_resolve_addrs : list (IpAddr * Z)
}.

Definition client_for (upstream : ValidatedUpstream) (timeout : Z) : ApiResult ClientSettings :=
  let? host := ok_or (url_host_str api (vu_url upstream)) (BadRequest "upstream URL has no host") in
  let port := unwrap_or (url_port_or_known_default api (vu_url upstream)) 443 in
  Ok {| c_timeout := timeout; c_connect_timeout := Z.min timeout (10 * 1000000000);
        c_follow_redirects := false; c_resolve_host := host;
        c_resolve_addrs := (fun ip => (ip, port)) <$> vu_addresses upstream |}.

(** ** Connection overrides *)

Definition bad_connect_ip : AppError := BadRequest "connect_ip must be an IP address or hostname".

Definition label_ok (label : string) : bool :=
  negb (is_empty label || (63 <? slen label) || starts_with "-" label || ends_with "-" label
        || negb (all_bytes (fun c => is_ascii_alphanumeric c || Ascii.eqb c "-"%char) label)).

Definition hostname_ok (host : string) : bool :=
  negb (is_empty host
        || any_byte (fun c => char_in c "/:@[]?#%") host
        || existsb (fun label => negb (label_ok label)) (split_char "."%char host)).

Definition without_dot (value : string) : string := unwrap_or (strip_suffix "." value) value.

Definition validate_connect_target_syntax (raw target_type : string) : ApiResult unit :=
  let value := trim raw in
  if is_empty value || (253 <? slen value) || existsb (fun w => contains w value) white_space
  then Err bad_connect_ip
  else if is_some (parse_ip value) then
    if negb (target_type =?s "ip") then Err (BadRequest "connect_ip_type does not match target")
    else Ok tt
  else if negb (target_type =?s "domain")
  then Err (BadRequest "connect_ip_type does not match target")
  else if negb (hostname_ok (without_dot value)) then Err bad_connect_ip
  else Ok tt.

Definition resolve_connect_target (raw target_type : string) (port : Z) (config : SecurityConfig)
  : ApiResult (list IpAddr) :=
  let? _ := validate_connect_target_syntax raw target_type in
  let value := trim raw in
  let? answer :=
    match parse_ip value with
    | Some ip => Ok [ip]
    | None => ok_or (lookup_host (to_ascii_lowercase (without_dot value)) port)
                (BadRequest "connect_ip DNS lookup failed")
    end in
  let? unique := screen config (BadRequest "private connect_ip is disabled") [] answer in
  if bool_decide (unique = []) then Err (BadRequest "connect_ip DNS returned no addresses")
  else Ok unique.

(** ** CONNECT *)

Definition authorize_proxy (headers : HeaderMap) (expected : option string) : ApiResult unit :=
  match expected with
  | None => Err Forbidden
  | Some expected =>
      match header_str headers "proxy-authorization" ≫= strip_prefix "Basic " with
      | None => Err Unauthorized
      | Some encoded =>
          let? decoded := ok_or (base64_decode encoded) Unauthorized in
          if negb (slen decoded =? slen expected) || negb (decoded =?s expected)
          then Err Unauthorized else Ok tt
      end
  end.

Definition split_authority (authority : string) : ApiResult (string * Z) :=
  let? (host, port) := ok_or (parse_authority authority) (BadRequest "invalid CONNECT authority") in
  Ok (to_ascii_lowercase (trim_matches (fun c => char_in c "[]") host), unwrap_or port 443).

(** The loop of [validate_connect_target]: every address is checked, the first is
    taken. *)
Fixpoint select_address (config : SecurityConfig) (port : Z) (selected : option (IpAddr * Z))
  (answer : list IpAddr) : ApiResult (option (IpAddr * Z)) :=
  match answer with
  | [] => Ok selected
  | ip :: answer =>
      if negb (allow_private_upstreams config) && is_non_public ip then Err Forbidden
      else select_address config port
             (match selected with Some s => Some s | None => Some (ip, port) end) answer
  end.

Definition host_allowed (config : SecurityConfig) (host : string) : bool :=
  existsb (fun allowed => (host =?s allowed) || ends_with ("." +:+ allowed) host) (connect_allow config).

Definition validate_connect_target (authority : string) (config : SecurityConfig)
  : ApiResult (IpAddr * Z) :=
  let? (host, port) := split_authority authority in
  if negb (host_allowed config host) then Err Forbidden
  else
    let? answer := ok_or (lookup_host host port) (BadRequest "CONNECT DNS lookup failed") in
    let? selected := select_address config port None answer in
    ok_or selected (BadRequest "CONNECT DNS returned no addresses").

Inductive ConnectTarget : Type :=
| Remapped (target : string)
| Resolved (address : IpAddr * Z).

(** [connect] up to the tunnel: where it leads. *)
Definition connect (config : SecurityConfig) (headers : HeaderMap) (authority : option string)
  : ApiResult ConnectTarget :=
  let? _ := authorize_proxy headers (proxy_auth config) in
  let? authority := ok_or (to_ascii_lowercase <$> authority)
    (BadRequest "CONNECT request has no authority") in
  if 300 <? slen authority then Err (BadRequest "CONNECT target is too long")
  else match find (fun item => item.1 =?s authority) (connect_remap config) with
       | Some item => Ok (Remapped item.2)
       | None =>
           let? address := validate_connect_target authority config in
           Ok (Resolved address)
       end.

(** The status [handle] answers a CONNECT request with. *)
Definition connect_status (r : ApiResult ConnectTarget) : Z :=
  match r with
  | Ok _ => 200
  | Err Unauthorized => 407
  | Err e => status e
  end.

(** ** Properties *)

(** The address the policy judges: an IPv4-mapped address is its IPv4 address. *)
Definition canonical (ip : IpAddr) : IpAddr :=
  match ip with
  | V6 a => match to_ipv4_mapped a with Some v4 => V4 v4 | None => ip end
  | V4 _ => ip
  end.

Definition reserved (ip : IpAddr) : Prop := exists n, n ∈ DENIED_NETWORKS /\ in_cidr n (canonical ip).

Lemma screen_Ok config refuse answer : forall unique l, screen config refuse unique answer = Ok l ->
  NoDup unique -> NoDup l /\ (forall ip, ip ∈ l <-> ip ∈ unique \/ ip ∈ answer) /\
  forall ip, ip ∈ answer -> allow_private_upstreams config = true \/ is_non_public ip = false.
Proof using Type.
  induction answer as [|x answer IH]; intros unique l H N; cbn [screen] in H.
  - injection H as <-. split_and!; [done| |].
    + intros ip. split; [by left|]. intros [M|M]; [done|]. by apply elem_of_nil in M.
    + intros ip M. by apply elem_of_nil in M.
  - destruct (negb _ && _) eqn:P; [done|]. apply IH in H as (D & M & Q).
    + split_and!; [done| |].
      * intros ip. rewrite M, elem_of_cons. case_bool_decide as B.
        -- split; [intros [?|?]; auto|]. intros [?|[->|?]]; auto.
        -- rewrite elem_of_app, list_elem_of_singleton. split; [intros [[?|?]|?]; auto|].
           intros [?|[->|?]]; auto.
      * intros ip E. apply elem_of_cons in E as [->|E]; [|by apply Q].
        apply andb_false_iff in P as [P|P]; [left; by apply negb_false_iff|by right].
    + case_bool_decide as B; [done|]. apply NoDup_app. split_and!; [done| |apply NoDup_singleton].
      intros y Hy ->%list_elem_of_singleton. done.
Qed.

Lemma select_address_Ok config port answer : forall selected r,
  select_address config port selected answer = Ok r ->
  r = match selected with Some s => Some s | None => (fun ip => (ip, port)) <$> head answer end /\
  forall ip, ip ∈ answer -> allow_private_upstreams config = true \/ is_non_public ip = false.
Proof using Type.
  induction answer as [|x answer IH]; intros selected r H; cbn [select_address] in H.
  - injection H as <-. split; [by destruct selected|]. intros ip M. by apply elem_of_nil in M.
  - destruct (negb _ && _) eqn:P; [done|]. apply IH in H as [-> Q]. split.
    + by destruct selected.
    + intros ip E. apply elem_of_cons in E as [->|E]; [|by apply Q].
      apply andb_false_iff in P as [P|P]; [left; by apply negb_false_iff|by right].
Qed.

(** [contains], as the ipnet crate documents it. *)
Hypothesis ipnet_contains : forall n ip, n ∈ DENIED_NETWORKS -> net_contains n ip = true <-> in_cidr n ip.

Lemma is_non_public_canonical ip : is_non_public ip = denied (canonical ip).
Proof using Type. unfold is_non_public, canonical. destruct ip as [a|a]; [reflexivity|]. case_match; reflexivity. Qed.

Lemma is_non_public_reserved ip : is_non_public ip = true <-> reserved ip.
Proof using ipnet_contains.
  rewrite is_non_public_canonical. unfold denied, reserved. rewrite existsb_exists. split.
  - intros (n & I & C). apply list_elem_of_In in I. exists n. split; [done|]. by apply ipnet_contains.
  - intros (n & I & C). exists n. split; [by apply list_elem_of_In|]. by apply ipnet_contains.
Qed.

Lemma public_not_reserved ip : is_non_public ip = false -> ~ reserved ip.
Proof using ipnet_contains. intros P R. apply is_non_public_reserved in R. congruence. Qed.

(** What an accepted URL promises. *)
Lemma validate_url_Ok raw config normalize_base v :
  validate_url raw config normalize_base = Ok v ->
  exists url host port answer, url_parse api raw = Some url /\ url_username api url = ""%string /\
    url_password api url = None /\
    (url_scheme api url = "https"%string \/ url_scheme api url = "http"%string /\ allow_insecure_upstreams config = true) /\
    url_host_str api url = Some host /\ vu_url v = edited_url normalize_base url /\
    lookup_host (to_ascii_lowercase host) port = Some answer /\ (forall ip, ip ∈ vu_addresses v <-> ip ∈ answer) /\
    NoDup (vu_addresses v) /\ vu_addresses v <> [] /\
    (allow_private_upstreams config = true \/ forall ip, ip ∈ vu_addresses v -> ~ reserved ip).
Proof using ipnet_contains.
  intros V. unfold validate_url in V. destruct (2048 <? slen raw); [done|].
  destruct (url_parse api raw) as [url|] eqn:U; [|done]. cbn [ok_or] in V.
  destruct (negb (url_username api url =?s "") || _) eqn:Cr; [done|].
  apply orb_false_iff in Cr as [Us Pw]. apply negb_false_iff, str_eqb_eq in Us.
  destruct (negb ((url_scheme api url =?s "https") || _)) eqn:Sc; [done|].
  apply negb_false_iff, orb_true_iff in Sc.
  destruct (url_host_str api url) as [host|] eqn:Ho; [|done]. cbn [ok_or] in V. cbv zeta in V.
  destruct (url_port_or_known_default api _) as [port|]; [|done]. cbn [ok_or] in V.
  destruct (lookup_host _ port) as [answer|] eqn:L; [|done]. cbn [ok_or] in V.
  destruct (screen _ _ _ _) as [addresses|] eqn:Scr; [|done].
  case_bool_decide as E; [done|]. injection V as <-.
  apply screen_Ok in Scr as (N & M & Q); [|apply NoDup_nil_2].
  assert (forall ip, ip ∈ addresses <-> ip ∈ answer) as M'.
  { intros ip. rewrite M. split; [intros [X|X]; [by apply elem_of_nil in X|done]|by right]. }
  exists url, host, port, answer. split_and!; try done.
  - by destruct (url_password api url).
  - destruct Sc as [Sc|Sc]; [left; by apply str_eqb_eq|]. apply andb_true_iff in Sc as [S1 S2].
    right. split; [by apply str_eqb_eq|done].
  - destruct (allow_private_upstreams config) eqn:A; [by left|]. right. intros ip I.
    apply public_not_reserved. by destruct (Q ip) as [?|?]; [apply M'| |].
Qed.

(** C39: No request leaves for a reserved address.  When an upstream URL is accepted,
    it has no credentials and uses HTTPS (or HTTP where that is allowed); the
    addresses kept are exactly those of one DNS answer, without repetition; unless
    private upstreams are allowed none of them lies in a denied network, whether
    written as IPv4, IPv6 or IPv4-mapped; and the client built from the result
    connects to exactly these addresses and follows no redirect. *)
Theorem upstream_addresses_public raw config normalize_base v timeout c :
  validate_url raw config normalize_base = Ok v -> client_for v timeout = Ok c ->
  (exists url, url_parse api raw = Some url /\ url_username api url = ""%string /\
     url_password api url = None /\
     (url_scheme api url = "https"%string \/
      url_scheme api url = "http"%string /\ allow_insecure_upstreams config = true)) /\
  (exists host port answer, lookup_host host port = Some answer /\
     forall ip, ip ∈ vu_addresses v <-> ip ∈ answer) /\
  NoDup (vu_addresses v) /\ vu_addresses v <> [] /\
  (c_resolve_addrs c).*1 = vu_addresses v /\ c_follow_redirects c = false /\
  (allow_private_upstreams config = true \/ forall ip, ip ∈ vu_addresses v -> ~ reserved ip).
Proof using ipnet_contains.
  intros V C. apply validate_url_Ok in V as (url & host & port & answer & U & Us & Pw & Sc & _ & _ & L & M & N & E & R).
  unfold client_for in C. destruct (url_host_str api (vu_url v)) as [h|]; [|done]. injection C as <-. cbn.
  split_and!; [by exists url|by eexists _, _, _|done|done| |done|done].
  rewrite <- list_fmap_compose. apply list_fmap_id.
Qed.

(** A connection override reaches only what an upstream may reach: it is an IP
    literal declared as such, or a declared host name made of valid labels whose
    whole DNS answer is taken; and unless private upstreams are allowed no address
    of it is reserved. *)
Theorem connect_override_public raw target_type port config l :
  resolve_connect_target raw target_type port config = Ok l ->
  ((exists ip, parse_ip (trim raw) = Some ip /\ target_type = "ip"%string /\ l = [ip]) \/
   (exists answer, parse_ip (trim raw) = None /\ target_type = "domain"%string /\
      hostname_ok (without_dot (trim raw)) = true /\
      lookup_host (to_ascii_lowercase (without_dot (trim raw))) port = Some answer /\
      forall ip, ip ∈ l <-> ip ∈ answer)) /\
  NoDup l /\ l <> [] /\
  (allow_private_upstreams config = true \/ forall ip, ip ∈ l -> ~ reserved ip).
Proof using ipnet_contains.
  unfold resolve_connect_target, validate_connect_target_syntax. cbv zeta.
  destruct (is_empty _ || _ || _); [done|].
  destruct (parse_ip (trim raw)) as [ip0|]; cbn [is_some].
  - destruct (target_type =?s "ip") eqn:T; [|done]. cbn [negb]. apply str_eqb_eq in T.
    destruct (screen _ _ _ _) as [l'|] eqn:Scr; [|done]. case_bool_decide as E; [done|].
    intros [= <-]. pose proof Scr as Scr'.
    apply screen_Ok in Scr as (N & M & Q); [|apply NoDup_nil_2]. split_and!; [|done|done|].
    + left. exists ip0. split_and!; [done..|]. cbn [screen] in Scr'.
      destruct (negb _ && _); [done|]. by injection Scr' as <-.
    + destruct (allow_private_upstreams config); [by left|]. right. intros ip I.
      apply M in I as [I|I]; [by apply elem_of_nil in I|].
      apply public_not_reserved. by destruct (Q ip).
  - destruct (target_type =?s "domain") eqn:T; [|done]. cbn [negb]. apply str_eqb_eq in T.
    destruct (hostname_ok _) eqn:H; [|done]. cbn [negb].
    destruct (lookup_host _ port) as [answer|] eqn:L; [|done]. cbn [ok_or].
    destruct (screen _ _ _ _) as [l'|] eqn:Scr; [|done]. case_bool_decide as E; [done|].
    intros [= <-]. apply screen_Ok in Scr as (N & M & Q); [|apply NoDup_nil_2].
    assert (forall ip, ip ∈ l' <-> ip ∈ answer) as M'.
    { intros ip. rewrite M. split; [intros [X|X]; [by apply elem_of_nil in X|done]|by right]. }
    split_and!; [|done|done|].
    + right. by exists answer.
    + destruct (allow_private_upstreams config); [by left|]. right. intros ip I.
      apply public_not_reserved. by destruct (Q ip) as [?|?]; [apply M'| |].
Qed.

Lemma authorize_proxy_Ok headers expected : authorize_proxy headers expected = Ok tt ->
  exists secret encoded, expected = Some secret /\
    header_str headers "proxy-authorization" ≫= strip_prefix "Basic " = Some encoded /\
    base64_decode encoded = Some secret.
Proof using Type.
  unfold authorize_proxy. destruct expected as [secret|]; [|done].
  destruct (_ ≫= _) as [encoded|]; [|done].
  destruct (base64_decode encoded) as [decoded|] eqn:D; [|done]. cbn [ok_or].
  destruct (_ || _) eqn:E; [done|]. intros _. apply orb_false_iff in E as [_ E].
  apply negb_false_iff, str_eqb_eq in E. subst. by exists secret, encoded.
Qed.

Lemma host_allowed_true config host : host_allowed config host = true ->
  exists allowed, allowed ∈ connect_allow config /\
    (host = allowed \/ exists sub, host = sub +:+ "." +:+ allowed).
Proof using Type.
  unfold host_allowed. rewrite existsb_exists. intros (allowed & I & H). exists allowed.
  split; [by apply list_elem_of_In|]. apply orb_true_iff in H as [H|H].
  - left. by apply str_eqb_eq.
  - right. unfold ends_with in H. destruct (strip_suffix _ host) as [sub|] eqn:S; [|done].
    apply strip_suffix_Some in S. by exists sub.
Qed.

Lemma validate_connect_target_Ok authority config ip port :
  validate_connect_target authority config = Ok (ip, port) ->
  exists host rest allowed, lookup_host host port = Some (ip :: rest) /\
    allowed ∈ connect_allow config /\
    (host = allowed \/ exists sub, host = sub +:+ "." +:+ allowed) /\
    (allow_private_upstreams config = true \/ forall x, x ∈ ip :: rest -> ~ reserved x).
Proof using ipnet_contains.
  unfold validate_connect_target. destruct (split_authority authority) as [[host p]|]; [|done].
  destruct (host_allowed config host) eqn:H; [|done]. cbn [negb].
  destruct (lookup_host host p) as [answer|] eqn:L; [|done]. cbn [ok_or].
  destruct (select_address _ _ _ _) as [selected|] eqn:S; [|done].
  apply select_address_Ok in S as [-> Q].
  destruct answer as [|x rest]; [done|]. cbn. intros [= -> ->].
  apply host_allowed_true in H as (allowed & I & E). exists host, rest, allowed. split_and!; [done..|].
  destruct (allow_private_upstreams config); [by left|]. right. intros y Y.
  apply public_not_reserved. by destruct (Q y).
Qed.

(** CONNECT leads nowhere without permission.  A tunnel is opened only when a proxy
    credential is configured and the request carries it; its end is then either a
    configured remapping of the requested authority, or the first address of the
    DNS answer for a host that the allow list names or that is a subdomain of one it
    names, and no address of that answer is reserved unless private upstreams are
    allowed. *)
Theorem connect_guarded config headers authority target :
  connect config headers authority = Ok target ->
  (exists secret encoded, proxy_auth config = Some secret /\
     header_str headers "proxy-authorization" ≫= strip_prefix "Basic " = Some encoded /\
     base64_decode encoded = Some secret) /\
  ((exists source t, authority = Some source /\ target = Remapped t /\
      (to_ascii_lowercase source, t) ∈ connect_remap config) \/
   (exists ip port host rest allowed, target = Resolved (ip, port) /\
      lookup_host host port = Some (ip :: rest) /\
      allowed ∈ connect_allow config /\
      (host = allowed \/ exists sub, host = sub +:+ "." +:+ allowed) /\
      (allow_private_upstreams config = true \/ forall x, x ∈ ip :: rest -> ~ reserved x))).
Proof using ipnet_contains.
  unfold connect. intros C. destruct (authorize_proxy _ _) as [[]|] eqn:A; [|done].
  apply authorize_proxy_Ok in A. split; [done|].
  destruct authority as [source|]; [|done]. cbn [fmap option_fmap option_map ok_or] in C.
  destruct (300 <? _); [done|].
  destruct (find _ _) as [[src t]|] eqn:F.
  - injection C as <-. left. exists source, t. split_and!; [done..|].
    apply find_some in F as [I E]. apply str_eqb_eq in E. cbn in E. subst. by apply list_elem_of_In.
  - destruct (validate_connect_target _ _) as [[ip port]|] eqn:V; [|done]. injection C as <-. right.
    apply validate_connect_target_Ok in V as (host & rest & allowed & V). exists ip, port, host, rest, allowed.
    by destruct V as (? & ? & ? & ?).
Qed.

End policy.

(** ** Instances *)

Module SecurityWitness.

(** The ranges of the denied networks, computed from their literals. *)
Definition cidr (literal : string) : option (IpAddr * Z) :=
  let* (host, len) := split_once "/" literal in
  let* base := parse_ip host in
  let* (l, rest) := read_number 10 128 3 false len in
  if is_empty rest then Some (base, l) else None.

Definition cidr_contains (literal : string) (ip : IpAddr) : bool :=
  match cidr literal, ip with
  | Some (V4 b, l), V4 a => (b <=? a) && (a <? b + 2 ^ (32 - l))
  | Some (V6 b, l), V6 a => (b <=? a) && (a <? b + 2 ^ (128 - l))
  | _, _ => false
  end.

Lemma cidr_Some n base l : cidr n = Some (base, l) <->
  exists host len, split_once "/" n = Some (host, len) /\ parse_ip host = Some base /\
    read_number 10 128 3 false len = Some (l, ""%string).
Proof.
  unfold cidr. split.
  - destruct (split_once "/" n) as [[host len]|]; [|discriminate].
    destruct (parse_ip host) as [b|] eqn:P; [|discriminate].
    destruct (read_number 10 128 3 false len) as [[k rest]|] eqn:R; [|discriminate].
    destruct rest as [|c rest]; cbn [is_empty]; [|discriminate]. intros [= <- <-].
    exists host, len. by split_and!.
  - intros (host & len & -> & P & R). rewrite P, R. reflexivity.
Qed.

Lemma cidr_contains_in n ip : cidr_contains n ip = true <-> in_cidr n ip.
Proof.
  unfold cidr_contains, in_cidr. split.
  - destruct (cidr n) as [[base l]|] eqn:C; [|discriminate].
    apply cidr_Some in C as (host & len & S & P & R). intros H.
    exists host, len, base. split_and!; [done..|]. exists l. split; [done|].
    destruct base, ip; try discriminate; apply andb_true_iff in H as [H1 H2];
      apply Z.leb_le in H1; apply Z.ltb_lt in H2; lia.
  - intros (host & len & base & S & P & l & R & H).
    rewrite (proj2 (cidr_Some n base l)) by (by exists host, len).
    destruct base, ip; try contradiction; apply andb_true_iff;
      (split; [apply Z.leb_le|apply Z.ltb_lt]); lia.
Qed.

(** A toy URL: its text. *)
Definition toy_url : UrlApi string :=
  {| url_parse := fun s => if starts_with "https://" s then Some s else None;
     url_username := fun _ => ""%string; url_password := fun _ => None;
     url_scheme := fun _ => "https"%string; url_host_str := fun _ => Some "Registry.example"%string;
     url_path := fun _ => "/"%string; url_port_or_known_default := fun _ => Some 443;
     url_clear_fragment := id; url_clear_query := id; url_set_path := fun _ u => u |}.

Definition dns (host : string) (port : Z) : option (list IpAddr) :=
  if host =?s "registry.example" then Some [V4 134744072; V4 134743044; V4 134744072]
  else if host =?s "inner.example" then Some [V4 134744072; V6 (65535 * 2 ^ 32 + 167772161)]
  else None.

Definition config : SecurityConfig :=
  {| allow_private_upstreams := false; allow_insecure_upstreams := false;
     connect_allow := ["example"%string]; connect_remap := []; proxy_auth := Some "user:pass"%string |}.

Definition base64 (s : string) : option string :=
  if s =?s "dXNlcjpwYXNz" then Some "user:pass"%string else None.
Definition authority (s : string) : option (string * option Z) := Some (s, None).

(** Metadata, loopback, mapped and unique-local addresses are refused, a public
    address is not. *)
Example policy_examples :
  (fun s => is_non_public cidr_contains <$> parse_ip s) <$>
    ["169.254.169.254"; "127.0.0.1"; "::1"; "::ffff:10.0.0.1"; "fd00::1"; "8.8.8.8"; "2606:4700::1111"]%string
  = [Some true; Some true; Some true; Some true; Some true; Some false; Some false].
Proof. vm_compute. reflexivity. Qed.

(** A host with one private address among its answers is refused as a whole. *)
Example mixed_answer_refused :
  validate_connect_target cidr_contains dns authority "inner.example" config = Err Forbidden.
Proof. vm_compute. reflexivity. Qed.

Definition validated : ValidatedUpstream :=
  {| vu_url := "https://registry.example/"%string; vu_addresses := [V4 134744072; V4 134743044] |}.

Lemma upstream_addresses_public_witness :
  NoDup (vu_addresses validated) /\
  (false = true \/ forall ip, ip ∈ vu_addresses validated -> ~ reserved ip).
Proof.
  destruct (upstream_addresses_public cidr_contains dns toy_url (fun n ip _ => cidr_contains_in n ip)
    "https://registry.example/" config true validated 5
    {| c_timeout := 5; c_connect_timeout := 5; c_follow_redirects := false;
       c_resolve_host := "Registry.example"; c_resolve_addrs := [(V4 134744072, 443); (V4 134743044, 443)] |})
    as (_ & _ & N & _ & _ & _ & R).
  - vm_compute. reflexivity.
  - vm_compute. reflexivity.
  - split; [exact N|exact R].
Defined.

Lemma connect_override_public_witness :
  NoDup [V4 134744072; V4 134743044] /\
  (false = true \/ forall ip, ip ∈ [V4 134744072; V4 134743044] -> ~ reserved ip).
Proof.
  destruct (connect_override_public cidr_contains dns (fun n ip _ => cidr_contains_in n ip)
    "registry.example." "domain" 443 config [V4 134744072; V4 134743044]) as (_ & N & _ & R).
  - vm_compute. reflexivity.
  - split; [exact N|exact R].
Defined.

Lemma connect_guarded_witness :
  exists secret encoded, proxy_auth config = Some secret /\
    header_str [("proxy-authorization", "Basic dXNlcjpwYXNz")]%string "proxy-authorization"
      ≫= strip_prefix "Basic " = Some encoded /\ base64 encoded = Some secret.
Proof.
  destruct (connect_guarded cidr_contains dns base64 authority (fun n ip _ => cidr_contains_in n ip)
    config [("proxy-authorization", "Basic dXNlcjpwYXNz")]%string (Some "Registry.Example"%string)
    (Resolved (V4 134744072, 443))) as [A _].
  - vm_compute. reflexivity.
  - exact A.
Defined.

End SecurityWitness.
