(* ===== verification/Tables.v ===== *)
(** * The registry tables

    The statements of src/src/db.rs on the routes, nodes, node metrics, node limits
    and pull events, with the keys, unique indexes, foreign keys, checks and triggers
    its migrations declare.  A table is the list of its rows in insertion order, or a
    map where no order is observed.  A statement either applies or reports the
    constraint it violates and leaves the tables as they were. *)

From stdpp Require Import base gmap sets list strings sorting.
From Stdlib Require Import ZArith Lia Ascii.
From S2P Require Import Prelude Text Errors Model.

Module Tables.

(** [pull_event::Model]. *)
Record PullEvent := {
  p_id : Uuid;
  p_route : Uuid;
  p_repository : string;
  p_reference : string;
  p_digest : option string;
  p_status : Z;
  p_created_at : Z
}.

(** [referenced] are the nodes a synchronisation rule or an active image job uses. *)
Record RegistryDb := {
  routes : list Route.Model;
  nodes : list Node.Model;
  metrics : gmap Uuid Metric.Model;
  limits : gmap Uuid Z;
  pulls : list PullEvent;
  referenced : gset Uuid
}.

Definition with_routes (d : RegistryDb) (l : list Route.Model) : RegistryDb :=
  {| routes := l; nodes := nodes d; metrics := metrics d; limits := limits d; pulls := pulls d; referenced := referenced d |}.
Definition with_nodes (d : RegistryDb) (l : list Node.Model) : RegistryDb :=
  {| routes := routes d; nodes := l; metrics := metrics d; limits := limits d; pulls := pulls d; referenced := referenced d |}.
Definition with_metrics (d : RegistryDb) (m : gmap Uuid Metric.Model) : RegistryDb :=
  {| routes := routes d; nodes := nodes d; metrics := m; limits := limits d; pulls := pulls d; referenced := referenced d |}.
Definition with_limits (d : RegistryDb) (m : gmap Uuid Z) : RegistryDb :=
  {| routes := routes d; nodes := nodes d; metrics := metrics d; limits := m; pulls := pulls d; referenced := referenced d |}.
Definition with_pulls (d : RegistryDb) (l : list PullEvent) : RegistryDb :=
  {| routes := routes d; nodes := nodes d; metrics := metrics d; limits := limits d; pulls := l; referenced := referenced d |}.

(** ** Generic rows *)

Section Rows.
Context {A : Type}.
Variable id : A -> Uuid.

(** [find().filter(p).one()] and [find_by_id]. *)
Definition find_one (p : A -> bool) (l : list A) : option A := List.find p l.
Definition by_id (i : Uuid) (l : list A) : option A := find_one (fun r => (id r =? i)%N) l.

(** [UPDATE ... WHERE id = ?]. *)
Definition replace (r : A) (l : list A) : list A := (fun x => if (id x =? id r)%N then r else x) <$> l.
Definition delete_id (i : Uuid) (l : list A) : list A := List.filter (fun x => negb (id x =? i)%N) l.
Definition others (i : Uuid) (l : list A) : list A := delete_id i l.
End Rows.

(** ** Routes *)

(** The primary key, [key], and the partial unique indexes on [path_prefix] and
    [is_default]. *)
Definition route_clash (r x : Route.Model) : bool :=
  (Route.id x =? Route.id r)%N || (Route.key x =?s Route.key r)
  || (is_some (Route.path_prefix r) && bool_decide (Route.path_prefix x = Route.path_prefix r))
  || (Route.is_default x && Route.is_default r).

Definition unique_failed : DbErr := DbUniqueConstraint "UNIQUE constraint failed".
Definition foreign_key_failed : DbErr := DbForeignKeyConstraint "FOREIGN KEY constraint failed".
Definition not_updated : DbErr := DbOther "None of the records are updated".
Definition raised (message : string) : DbErr := DbSqlite (Some "1811") message.

Definition insert_route (d : RegistryDb) (r : Route.Model) : result RegistryDb DbErr :=
  if existsb (route_clash r) (routes d) then Err unique_failed
  else Ok (with_routes d (routes d ++ [r])).

Definition update_route (d : RegistryDb) (r : Route.Model) : result RegistryDb DbErr :=
  match by_id Route.id (Route.id r) (routes d) with
  | None => Err not_updated
  | Some _ =>
      if existsb (route_clash r) (others Route.id (Route.id r) (routes d)) then Err unique_failed
      else Ok (with_routes d (replace Route.id r (routes d)))
  end.

(** [delete_by_id]: restricted by nodes; the trigger deletes the pull events. *)
Definition delete_route (d : RegistryDb) (i : Uuid) : result (Z * RegistryDb) DbErr :=
  if existsb (fun n => (Node.registry_route_id n =? i)%N) (nodes d) then Err foreign_key_failed
  else
    match by_id Route.id i (routes d) with
    | None => Ok (0, d)
    | Some _ =>
        Ok (1, with_pulls (with_routes d (delete_id Route.id i (routes d)))
                 (List.filter (fun p => negb (p_route p =? i)%N) (pulls d)))
    end.

(** ** Nodes *)

Definition count_nodes_for_route (d : RegistryDb) (i : Uuid) : Z :=
  Z.of_nat (length (List.filter (fun n => (Node.registry_route_id n =? i)%N) (nodes d))).

(** [ORDER BY priority, name]. *)
Definition node_order (a b : Node.Model) : comparison :=
  then_cmp (Z.compare (Node.priority a) (Node.priority b)) (String.compare (Node.name a) (Node.name b)).

Definition list_nodes (d : RegistryDb) : list Node.Model := sort_by node_order (nodes d).
Definition list_nodes_for_route (d : RegistryDb) (i : Uuid) : list Node.Model :=
  sort_by node_order (List.filter (fun n => (Node.registry_route_id n =? i)%N) (nodes d)).

Definition get_node (d : RegistryDb) (i : Uuid) : option Node.Model := by_id Node.id i (nodes d).

Definition same_place (r : Uuid) (url : string) (n : Node.Model) : bool :=
  (Node.registry_route_id n =? r)%N && (Node.url n =?s url).

Definition get_node_by_route_and_url (d : RegistryDb) (r : Uuid) (url : string) : option Node.Model :=
  find_one (same_place r url) (nodes d).

Definition route_exists (d : RegistryDb) (i : Uuid) : bool := is_some (by_id Route.id i (routes d)).

(** The primary key and the unique index on the route and the URL. *)
Definition node_clash (n x : Node.Model) : bool :=
  (Node.id x =? Node.id n)%N || same_place (Node.registry_route_id n) (Node.url n) x.

Definition connect_type_ok (n : Node.Model) : bool :=
  (Node.connect_ip_type n =?s "ip") || (Node.connect_ip_type n =?s "domain").

Definition check_failed : DbErr := DbSqlite (Some "275") "CHECK constraint failed".

Definition insert_node (d : RegistryDb) (n : Node.Model) : result RegistryDb DbErr :=
  if negb (connect_type_ok n) then Err check_failed
  else if existsb (node_clash n) (nodes d) then Err unique_failed
  else if negb (route_exists d (Node.registry_route_id n)) then Err foreign_key_failed
  else Ok (with_nodes d (nodes d ++ [n])).

Definition save_node (d : RegistryDb) (n : Node.Model) : result RegistryDb DbErr :=
  match by_id Node.id (Node.id n) (nodes d) with
  | None => Err not_updated
  | Some _ =>
      if negb (connect_type_ok n) then Err check_failed
      else if existsb (node_clash n) (others Node.id (Node.id n) (nodes d)) then Err unique_failed
      else if negb (route_exists d (Node.registry_route_id n)) then Err foreign_key_failed
      else Ok (with_nodes d (replace Node.id n (nodes d)))
  end.

Definition get_node_max_concurrency (d : RegistryDb) (i : Uuid) : Z :=
  Z.min (Z.max (unwrap_or (limits d !! i) 8) 1) 65535.

(** [CHECK(max_concurrency BETWEEN 1 AND 64)] and [REFERENCES nodes(id)]. *)
Definition set_node_max_concurrency (d : RegistryDb) (i : Uuid) (n : Z) : result RegistryDb DbErr :=
  if (n <? 1) || (64 <? n) then Err check_failed
  else if negb (is_some (get_node d i)) then Err foreign_key_failed
  else Ok (with_limits d (<[i := n]> (limits d))).

Definition metric_for (d : RegistryDb) (i : Uuid) : option Metric.Model := metrics d !! i.

Definition upsert_metric (d : RegistryDb) (m : Metric.Model) : result RegistryDb DbErr :=
  match metrics d !! Metric.node_id m with
  | Some _ => Ok (with_metrics d (<[Metric.node_id m := m]> (metrics d)))
  | None =>
      if is_some (get_node d (Metric.node_id m))
      then Ok (with_metrics d (<[Metric.node_id m := m]> (metrics d)))
      else Err (raised "node metric requires an existing node")
  end.

Definition node_referenced : string := "node is referenced by an active job or sync rule".

(** The transaction of [delete_node]. *)
Definition delete_node (d : RegistryDb) (i : Uuid) : result (Z * RegistryDb) DbErr :=
  if bool_decide (i ∈ referenced d) then Err (DbOther node_referenced)
  else
    let d' := with_limits (with_metrics d (delete i (metrics d))) (delete i (limits d)) in
    match get_node d i with
    | None => Ok (0, d')
    | Some _ => Ok (1, with_nodes d' (delete_id Node.id i (nodes d)))
    end.

(** ** Pull events *)

Definition pull_interval : Z := 5 * 1000.

Definition same_pull (e x : PullEvent) : bool :=
  (p_route x =? p_route e)%N && (p_repository x =?s p_repository e) && (p_reference x =?s p_reference e)
  && (p_created_at e - pull_interval <=? p_created_at x).

(** SQLite's [trim] removes spaces. *)
Definition sql_blank (s : string) : bool := all_bytes (fun c => Ascii.eqb c " "%char) s.

Definition pull_invalid (d : RegistryDb) (e : PullEvent) : bool :=
  negb (route_exists d (p_route e)) || (p_status e <? 100) || (599 <? p_status e)
  || sql_blank (p_repository e) || sql_blank (p_reference e).

Definition insert_pull_event (d : RegistryDb) (e : PullEvent) : result RegistryDb DbErr :=
  if existsb (same_pull e) (pulls d) then Ok d
  else if pull_invalid d e then Err (raised "invalid pull event")
  else if existsb (fun x => (p_id x =? p_id e)%N) (pulls d) then Err unique_failed
  else Ok (with_pulls d (pulls d ++ [e])).

(** Newest first; the primary key breaks ties. *)
Definition pull_order (a b : PullEvent) : comparison :=
  then_cmp (Z.compare (p_created_at b) (p_created_at a)) (N.compare (p_id b) (p_id a)).

Definition clear_pull_events (d : RegistryDb) : Z * RegistryDb :=
  (Z.of_nat (length (pulls d)), with_pulls d []).

(** [prune_pull_events]: the expired rows, then those past the newest [max_entries]. *)
Definition prune_pull_events (d : RegistryDb) (cutoff max_entries : Z) : Z * RegistryDb :=
  let kept := List.filter (fun p => cutoff <=? p_created_at p) (pulls d) in
  let offset := Z.to_nat (Z.min max_entries i64_max) in
  let newest := p_id <$> take offset (sort_by pull_order kept) in
  let left := List.filter (fun p => bool_decide (p_id p ∈ newest)) kept in
  (Z.of_nat (length (pulls d)) - Z.of_nat (length left), with_pulls d left).

(** [paginate_pull_events]. *)
Definition paginate_pull_events (d : RegistryDb) (page page_size : Z) : list PullEvent * Z :=
  let page := Z.max page 1 in
  let page_size := Z.min (Z.max page_size 1) 100 in
  let offset := saturating_mul (saturating_sub page 1) page_size in
  (take (Z.to_nat page_size) (drop (Z.to_nat offset) (sort_by pull_order (pulls d))), Z.of_nat (length (pulls d))).

(** ** Rows apart from each other

    [apart clash l]: no two rows of [l] clash, as a unique index keeps them. *)

Section Apart.
Context {A : Type}.
Variable id : A -> Uuid.
Variable clash : A -> A -> bool.
Hypothesis clash_sym : forall x y, clash x y = clash y x.
Hypothesis clash_id : forall x y, id x = id y -> clash x y = true.

Fixpoint apart (l : list A) : Prop :=
  match l with
  | [] => True
  | x :: l => Forall (fun y => clash x y = false) l /\ apart l
  end.

Lemma existsb_false (p : A -> bool) l : existsb p l = false <-> Forall (fun x => p x = false) l.
Proof using Type.
  induction l as [|x l IH]; simpl; [split; auto|]. rewrite orb_false_iff, Forall_cons. by rewrite IH.
Qed.

Lemma apart_snoc l r : apart l -> existsb (clash r) l = false -> apart (l ++ [r]).
Proof using clash_sym.
  intros Hl Hr%existsb_false. induction l as [|x l IH]; simpl in *; [by repeat constructor|].
  destruct Hl as [Hx Hl]. apply Forall_cons in Hr as [Hrx Hr]. split; [|by apply IH].
  apply Forall_app. split; [done|]. constructor; [|done]. by rewrite clash_sym.
Qed.

Lemma Forall_filter (P : A -> Prop) p l : Forall P l -> Forall P (List.filter p l).
Proof using Type. intros H. induction H; simpl; [done|]. by destruct (p x); [constructor|]. Qed.

Lemma apart_filter p l : apart l -> apart (List.filter p l).
Proof using Type.
  induction l as [|x l IH]; simpl; [done|]. intros [Hx Hl]. destruct (p x); simpl; [|by apply IH].
  split; [by apply Forall_filter|by apply IH].
Qed.

Lemma apart_unique l x y : apart l -> x ∈ l -> y ∈ l -> clash x y = true -> x = y.
Proof using clash_sym.
  induction l as [|z l IH]; simpl; [by intros _ ?%not_elem_of_nil|]. intros [Hz Hl] Hx Hy Hc.
  rewrite Forall_forall in Hz. apply elem_of_cons in Hx as [->|Hx], Hy as [->|Hy]; [done| | |by apply IH].
  - by rewrite Hz in Hc.
  - rewrite clash_sym, Hz in Hc; done.
Qed.

Lemma replace_elem r l x : x ∈ replace id r l -> x = r \/ (x ∈ l /\ id x <> id r).
Proof using Type.
  unfold replace. intros (y & -> & Hy)%list_elem_of_fmap. destruct (N.eqb_spec (id y) (id r)); [by left|by right].
Qed.

Lemma others_elem i l x : x ∈ others id i l <-> x ∈ l /\ id x <> i.
Proof using Type.
  unfold others, delete_id. rewrite !list_elem_of_In, filter_In, negb_true_iff, N.eqb_neq. done.
Qed.

Lemma replace_same r l : Forall (fun y => id y <> id r) l -> replace id r l = l.
Proof using Type.
  intros H. unfold replace. induction H as [|y l Hy _ IH]; [done|]. cbn [fmap list_fmap]. rewrite IH.
  by rewrite (proj2 (N.eqb_neq _ _) Hy).
Qed.

Lemma apart_replace r l : apart l -> existsb (clash r) (others id (id r) l) = false -> apart (replace id r l).
Proof using clash_sym clash_id.
  intros Hl Hr%existsb_false. rewrite Forall_forall in Hr.
  assert (forall x, x ∈ l -> id x <> id r -> clash r x = false) as Hr' by (intros x Hx Hi; apply Hr, others_elem; auto).
  clear Hr. induction l as [|x l IH]; [done|]. destruct Hl as [Hx Hl]. rewrite Forall_forall in Hx.
  change (replace id r (x :: l)) with ((if (id x =? id r)%N then r else x) :: replace id r l).
  destruct (N.eqb_spec (id x) (id r)) as [E|E]; simpl.
  - assert (Forall (fun y => id y <> id r) l) as Hd.
    { apply Forall_forall. intros y Hy Ey. specialize (Hx y Hy). rewrite clash_id in Hx; [done|congruence]. }
    rewrite replace_same by done. split; [|done]. apply Forall_forall. intros y Hy.
    rewrite Forall_forall in Hd. apply Hr'; [by right|by apply Hd].
  - split; [|apply IH; [done|intros; apply Hr'; [by right|done]]].
    apply Forall_forall. intros y [->|[Hy _]]%replace_elem; [|by apply Hx].
    rewrite clash_sym. apply Hr'; [by left|done].
Qed.

Lemma by_id_Some i l r : by_id id i l = Some r -> r ∈ l /\ id r = i.
Proof using Type.
  unfold by_id, find_one. intros H. apply find_some in H as [Hi E]. apply N.eqb_eq in E.
  by rewrite list_elem_of_In.
Qed.

Lemma by_id_None i l : by_id id i l = None <-> Forall (fun r => id r <> i) l.
Proof using Type.
  unfold by_id, find_one. induction l as [|x l IH]; simpl; [split; auto|].
  rewrite Forall_cons. destruct (N.eqb_spec (id x) i); [split; [done|tauto]|]. tauto.
Qed.

Lemma by_id_elem l r : apart l -> r ∈ l -> by_id id (id r) l = Some r.
Proof using clash_sym clash_id.
  intros Hl Hr. destruct (by_id id (id r) l) as [x|] eqn:E.
  - apply by_id_Some in E as [Hx E]. f_equal. by apply (apart_unique l); [..|apply clash_id].
  - apply by_id_None in E. rewrite Forall_forall in E. by destruct (E r Hr).
Qed.

Lemma by_id_ids i l : is_some (by_id id i l) = true <-> i ∈ id <$> l.
Proof using Type.
  rewrite list_elem_of_fmap. split.
  - destruct (by_id id i l) as [r|] eqn:E; [|done]. intros _. apply by_id_Some in E as [Hr <-]. by exists r.
  - intros (r & -> & Hr). destruct (by_id id (id r) l) eqn:E; [done|].
    apply by_id_None in E. rewrite Forall_forall in E. by destruct (E r Hr).
Qed.

Lemma replace_ids r l : id <$> replace id r l = id <$> l.
Proof using Type.
  unfold replace. rewrite <- list_fmap_compose. apply list_fmap_ext. intros i x _. simpl.
  by destruct (N.eqb_spec (id x) (id r)).
Qed.

Lemma delete_absent i l : Forall (fun r => id r <> i) l -> delete_id id i l = l.
Proof using Type.
  intros H. unfold delete_id. induction H as [|x l Hx _ IH]; [done|]. simpl.
  rewrite (proj2 (N.eqb_neq _ _) Hx). simpl. by rewrite IH.
Qed.

Lemma delete_ids i j l : j ∈ id <$> delete_id id i l <-> j ∈ id <$> l /\ j <> i.
Proof using Type.
  rewrite !list_elem_of_fmap. split.
  - intros (x & -> & [Hx Hi]%others_elem). split; [by exists x|done].
  - intros [(x & -> & Hx) Hi]. exists x. split; [done|]. by apply others_elem.
Qed.
Lemma apart_perm l k : l ≡ₚ k -> apart l -> apart k.
Proof using clash_sym.
  intros Hp. induction Hp as [|x l k Hp IH|x y l|l1 l2 l3 _ IH1 _ IH2]; simpl; [done| | |auto].
  - intros [Hx Hl]. split; [by rewrite <- Hp|by apply IH].
  - intros [[Hxy Hx]%Forall_cons [Hy Hl]]. split; [|done]. constructor; [by rewrite clash_sym|done].
Qed.

Lemma apart_ids l : apart l -> NoDup (id <$> l).
Proof using clash_id.
  induction l as [|x l IH]; csimpl; [constructor|]. intros [Hx Hl]. apply NoDup_cons. split; [|by apply IH].
  intros (y & E & Hy)%list_elem_of_fmap. rewrite Forall_forall in Hx. specialize (Hx y Hy). by rewrite clash_id in Hx.
Qed.
End Apart.

Lemma route_clash_sym x y : route_clash x y = route_clash y x.
Proof.
  unfold route_clash. rewrite (N.eqb_sym (Route.id y)), (andb_comm (Route.is_default y)).
  assert ((Route.key y =?s Route.key x) = (Route.key x =?s Route.key y)) as -> by apply String.eqb_sym.
  assert (is_some (Route.path_prefix x) && bool_decide (Route.path_prefix y = Route.path_prefix x) =
          is_some (Route.path_prefix y) && bool_decide (Route.path_prefix x = Route.path_prefix y)) as ->; [|done].
  destruct (decide (Route.path_prefix x = Route.path_prefix y)) as [E|E].
  - by rewrite E.
  - rewrite !bool_decide_eq_false_2 by congruence. by rewrite !andb_false_r.
Qed.

Lemma route_clash_id x y : Route.id x = Route.id y -> route_clash x y = true.
Proof. unfold route_clash. intros ->. by rewrite N.eqb_refl. Qed.

Lemma node_clash_sym x y : node_clash x y = node_clash y x.
Proof.
  unfold node_clash, same_place. rewrite (N.eqb_sym (Node.id y)), (N.eqb_sym (Node.registry_route_id y)).
  do 2 f_equal. apply String.eqb_sym.
Qed.

Lemma node_clash_id x y : Node.id x = Node.id y -> node_clash x y = true.
Proof. unfold node_clash. intros ->. by rewrite N.eqb_refl. Qed.

(** ** The constraints as an invariant *)

Definition route_ids (d : RegistryDb) : list Uuid := Route.id <$> routes d.
Definition node_ids (d : RegistryDb) : list Uuid := Node.id <$> nodes d.

Record db_wf (d : RegistryDb) : Prop := {
  wf_routes : apart route_clash (routes d);
  wf_nodes : apart node_clash (nodes d);
  wf_node_routes : Forall (fun n => Node.registry_route_id n ∈ route_ids d) (nodes d);
  wf_connect : Forall (fun n => connect_type_ok n = true) (nodes d);
  wf_metrics : map_Forall (fun i m => Metric.node_id m = i /\ i ∈ node_ids d) (metrics d);
  wf_limits : map_Forall (fun i n => 1 <= n <= 64 /\ i ∈ node_ids d) (limits d);
  wf_pulls : Forall (fun p => p_route p ∈ route_ids d /\ 100 <= p_status p <= 599) (pulls d)
}.

Lemma route_exists_ids d i : route_exists d i = true <-> i ∈ route_ids d.
Proof. apply by_id_ids. Qed.

(** Changing the routes keeps the rest well-formed while referenced routes stay. *)
Lemma with_routes_wf d l :
  db_wf d -> apart route_clash l -> (forall i, i ∈ route_ids d -> i ∈ Route.id <$> l) -> db_wf (with_routes d l).
Proof.
  intros [] Hl Hi. split; try done; simpl.
  - eapply Forall_impl; [exact wf_node_routes0|]. intros n. apply Hi.
  - eapply Forall_impl; [exact wf_pulls0|]. intros q [? ?]. split; [by apply Hi|done].
Qed.

Lemma insert_route_wf d r d' : db_wf d -> insert_route d r = Ok d' -> db_wf d' /\ routes d' = routes d ++ [r].
Proof.
  intros Hd. unfold insert_route. destruct (existsb _ _) eqn:E; [done|]. intros [= <-]. split; [|done].
  apply with_routes_wf; [done|apply apart_snoc; [apply route_clash_sym|apply (wf_routes _ Hd)|done]|].
  intros i Hi. rewrite fmap_app. apply elem_of_app. by left.
Qed.

Lemma update_route_wf d r d' :
  db_wf d -> update_route d r = Ok d' -> db_wf d' /\ routes d' = replace Route.id r (routes d).
Proof.
  intros Hd. unfold update_route. destruct (by_id _ _ _); [|done]. destruct (existsb _ _) eqn:E; [done|].
  intros [= <-]. split; [|done]. apply with_routes_wf; [done| |].
  - apply apart_replace; [apply route_clash_sym|apply route_clash_id|apply (wf_routes _ Hd)|done].
  - intros i Hi. by rewrite replace_ids.
Qed.

Lemma delete_route_wf d i n d' :
  db_wf d -> delete_route d i = Ok (n, d') ->
  db_wf d' /\ nodes d' = nodes d /\ routes d' = delete_id Route.id i (routes d) /\ (n = 0 \/ i ∈ route_ids d).
Proof.
  intros Hd. pose proof Hd as []. unfold delete_route. destruct (existsb _ _) eqn:E; [done|].
  apply existsb_false in E. rewrite Forall_forall in E.
  destruct (by_id Route.id i (routes d)) as [r|] eqn:Er; intros [= <- <-].
  - apply by_id_Some in Er as [Hr <-].
    split; [|split; [done|]; split; [done|]; right; by apply list_elem_of_fmap_2]. split; try done; simpl.
    + by apply apart_filter.
    + rewrite Forall_forall in *. intros x Hx. apply delete_ids. split; [by apply wf_node_routes0|].
      specialize (E x Hx). by apply N.eqb_neq.
    + rewrite Forall_forall in *. intros q [Hq Hn]%list_elem_of_In%filter_In.
      apply list_elem_of_In, wf_pulls0 in Hq as [Hq ?]. split; [|done]. apply delete_ids. split; [done|].
      apply negb_true_iff, N.eqb_neq in Hn. done.
  - split; [done|]. split; [done|]. split; [|by left]. apply by_id_None in Er. by rewrite delete_absent.
Qed.

Lemma with_nodes_wf d l :
  db_wf d -> apart node_clash l -> Forall (fun n => Node.registry_route_id n ∈ route_ids d /\ connect_type_ok n = true) l ->
  (forall i, i ∈ node_ids d -> i ∈ Node.id <$> l) -> db_wf (with_nodes d l).
Proof.
  intros [] Hl Hr Hi. apply Forall_and in Hr as [Hr Hc]. split; try done; simpl.
  - eapply map_Forall_impl; [exact wf_metrics0|]. intros i m [? ?]. split; [done|by apply Hi].
  - eapply map_Forall_impl; [exact wf_limits0|]. intros i m [? ?]. split; [done|by apply Hi].
Qed.

Lemma insert_node_wf d n d' :
  db_wf d -> insert_node d n = Ok d' -> db_wf d' /\ routes d' = routes d /\ nodes d' = nodes d ++ [n].
Proof.
  intros Hd. unfold insert_node. destruct (connect_type_ok n) eqn:Ec; [|done]. simpl.
  destruct (existsb _ _) eqn:E; [done|].
  destruct (route_exists d _) eqn:Er; [|done]. intros [= <-]. split; [|done]. apply with_nodes_wf; [done|..].
  - apply apart_snoc; [apply node_clash_sym|apply (wf_nodes _ Hd)|done].
  - apply Forall_app. split; [apply Forall_and; split; apply Hd|]. constructor; [|done].
    split; [by apply route_exists_ids|done].
  - intros i Hi. rewrite fmap_app. apply elem_of_app. by left.
Qed.

Lemma save_node_wf d n d' :
  db_wf d -> save_node d n = Ok d' -> db_wf d' /\ routes d' = routes d /\ nodes d' = replace Node.id n (nodes d).
Proof.
  intros Hd. unfold save_node. destruct (by_id _ _ _); [|done]. destruct (connect_type_ok n) eqn:Ec; [|done]. simpl.
  destruct (existsb _ _) eqn:E; [done|].
  destruct (route_exists d _) eqn:Er; [|done]. intros [= <-]. split; [|done]. apply with_nodes_wf; [done|..].
  - apply apart_replace; [apply node_clash_sym|apply node_clash_id|apply (wf_nodes _ Hd)|done].
  - apply Forall_forall. intros x [->|[Hx _]]%replace_elem; [split; [by apply route_exists_ids|done]|].
    pose proof (wf_node_routes _ Hd) as Hf. pose proof (wf_connect _ Hd) as Hg. rewrite Forall_forall in Hf, Hg. auto.
  - intros i Hi. by rewrite replace_ids.
Qed.

Lemma set_limit_wf d i n d' :
  db_wf d -> set_node_max_concurrency d i n = Ok d' ->
  db_wf d' /\ routes d' = routes d /\ nodes d' = nodes d /\ limits d' = <[i := n]> (limits d) /\ 1 <= n <= 64.
Proof.
  intros []. unfold set_node_max_concurrency. destruct (_ || _) eqn:E; [done|]. destruct (is_some _) eqn:Es; [|done].
  intros [= <-]. bool_hyps. apply by_id_ids in Es. split; [|split_and!; try done; lia]. split; try done. simpl.
  by apply map_Forall_insert_2; [split; [lia|]|].
Qed.

Lemma upsert_metric_wf d m d' :
  db_wf d -> upsert_metric d m = Ok d' -> db_wf d' /\ routes d' = routes d /\ nodes d' = nodes d /\ limits d' = limits d.
Proof.
  intros []. unfold upsert_metric.
  assert (Metric.node_id m ∈ node_ids d -> db_wf (with_metrics d (<[Metric.node_id m := m]> (metrics d)))) as H.
  { intros Hi. split; try done. simpl. by apply map_Forall_insert_2. }
  destruct (metrics d !! Metric.node_id m) as [old|] eqn:E.
  - intros [= <-]. split; [|done]. apply H. by destruct (wf_metrics0 _ _ E).
  - destruct (is_some _) eqn:Es; [|done]. intros [= <-]. split; [|done]. by apply H, by_id_ids.
Qed.

Lemma delete_node_wf d i n d' :
  db_wf d -> delete_node d i = Ok (n, d') -> db_wf d' /\ routes d' = routes d /\ (n = 0 -> nodes d' = nodes d).
Proof.
  intros []. unfold delete_node. case_bool_decide; [done|].
  assert (forall j, j ∈ node_ids d -> j <> i -> j ∈ Node.id <$> delete_id Node.id i (nodes d)) as Hj
    by (intros j Hj Hne; by apply delete_ids).
  assert (forall l, apart node_clash l -> Forall (fun n => Node.registry_route_id n ∈ route_ids d) l ->
    Forall (fun n => connect_type_ok n = true) l -> (forall j, j ∈ node_ids d -> j <> i -> j ∈ Node.id <$> l) ->
    db_wf (with_nodes (with_limits (with_metrics d (delete i (metrics d))) (delete i (limits d))) l)) as Hwf.
  { intros l Hl Hr Hc Hk. split; try done; simpl.
    - intros j m [Hne Hm]%lookup_delete_Some. destruct (wf_metrics0 _ _ Hm). split; [done|]. by apply Hk.
    - intros j m [Hne Hm]%lookup_delete_Some. destruct (wf_limits0 _ _ Hm). split; [done|]. by apply Hk. }
  destruct (get_node d i) as [x|]; intros [= <- <-].
  - split; [|done]. apply Hwf; [by apply apart_filter|by apply Forall_filter..|done].
  - split; [|done]. apply (Hwf (nodes d)); auto.
Qed.

Lemma insert_pull_wf d e d' :
  db_wf d -> insert_pull_event d e = Ok d' -> db_wf d' /\ routes d' = routes d /\ nodes d' = nodes d.
Proof.
  intros Hd. pose proof Hd as []. unfold insert_pull_event. destruct (existsb _ _); [by intros [= <-]|].
  destruct (pull_invalid d e) eqn:E; [done|]. destruct (existsb _ _); [done|]. intros [= <-]. split; [|done].
  split; try done. simpl. apply Forall_app. split; [done|]. constructor; [|done].
  unfold pull_invalid in E. repeat apply orb_false_iff in E as [E ?].
  apply negb_false_iff, route_exists_ids in E. bool_hyps. split; [done|lia].
Qed.

Lemma prune_pull_wf d cutoff n : db_wf d -> db_wf (prune_pull_events d cutoff n).2.
Proof. intros []. split; try done. simpl. by apply Forall_filter, Forall_filter. Qed.

(** ** The pull log *)

Lemma pull_order_order : CmpOrder pull_order.
Proof.
  apply then_order.
  - apply (flip_order (fun x y => Z.compare (p_created_at x) (p_created_at y))), cmp_on_order.
  - pose proof (flip_order _ (cmp_on_order (fun p => Z.of_N (p_id p)))) as [Hs Ht]. split.
    + intros x y. apply N.compare_antisym.
    + intros x y z. rewrite <- !N2Z.inj_compare. apply Ht.
Qed.

Lemma ids_filter (q : PullEvent -> bool) l : NoDup (p_id <$> l) -> NoDup (p_id <$> List.filter q l).
Proof.
  induction l as [|x l IH]; csimpl; [done|]. intros [Hx Hl]%NoDup_cons. destruct (q x); csimpl; [|by apply IH].
  apply NoDup_cons. split; [|by apply IH]. intros (y & E & Hy)%list_elem_of_fmap. apply Hx.
  rewrite E. apply list_elem_of_fmap_2. rewrite list_elem_of_In in Hy |- *. by apply filter_In in Hy as [? _].
Qed.

Lemma same_id l (x y : PullEvent) : NoDup (p_id <$> l) -> x ∈ l -> y ∈ l -> p_id x = p_id y -> x = y.
Proof.
  induction l as [|z l IH]; csimpl; [by intros _ ?%not_elem_of_nil|]. intros [Hz Hl]%NoDup_cons Hx Hy E.
  apply elem_of_cons in Hx as [->|Hx], Hy as [->|Hy]; [done|..|by apply IH]; exfalso; apply Hz.
  - rewrite E. by apply list_elem_of_fmap_2.
  - rewrite <- E. by apply list_elem_of_fmap_2.
Qed.

(** Pruning keeps the newest entries: none expired, at most [n], and no entry that was
    dropped for space is newer than one that was kept. *)
Lemma prune_spec d cutoff n : 0 <= n -> NoDup (p_id <$> pulls d) ->
  let kept := pulls (prune_pull_events d cutoff n).2 in
  Forall (fun p => p ∈ pulls d /\ cutoff <= p_created_at p) kept /\ NoDup (p_id <$> kept) /\ Z.of_nat (length kept) <= n /\
  (forall x y, x ∈ pulls d -> cutoff <= p_created_at x -> x ∉ kept -> y ∈ kept -> p_created_at x <= p_created_at y) /\
  (Z.of_nat (length (pulls d)) <= Z.min n i64_max -> forall x, x ∈ pulls d -> cutoff <= p_created_at x -> x ∈ kept).
Proof.
  intros Hn Hnd kept. subst kept. unfold prune_pull_events. simpl.
  set (young := List.filter (fun p => cutoff <=? p_created_at p) (pulls d)).
  set (sorted := sort_by pull_order young). set (k := Z.to_nat (Z.min n i64_max)).
  assert (forall x, x ∈ young <-> x ∈ pulls d /\ cutoff <= p_created_at x) as Hyoung.
  { intros x. unfold young. rewrite !list_elem_of_In, filter_In. by rewrite Z.leb_le. }
  assert (forall x, x ∈ List.filter (fun p => bool_decide (p_id p ∈ p_id <$> take k sorted)) young <->
                    x ∈ young /\ p_id x ∈ p_id <$> take k sorted) as Hleft.
  { intros x. rewrite !list_elem_of_In, filter_In, bool_decide_eq_true. by rewrite <- !list_elem_of_In. }
  assert (NoDup (p_id <$> young)) as Hny by (by apply ids_filter).
  assert (sorted ≡ₚ young) as Hperm by apply sort_by_perm.
  assert (forall x, x ∈ take k sorted -> x ∈ young) as Htake
    by (intros x Hx; rewrite <- Hperm; rewrite <- (take_drop k sorted); apply elem_of_app; by left).
  assert (forall x, x ∈ List.filter (fun p => bool_decide (p_id p ∈ p_id <$> take k sorted)) young <-> x ∈ take k sorted) as Hleft'.
  { intros x. rewrite Hleft. split; [|intros Hx; split; [by apply Htake|by apply list_elem_of_fmap_2]].
    intros [Hx (y & E & Hy)%list_elem_of_fmap]. by rewrite (same_id young x y Hny Hx (Htake y Hy) E). }
  split; [|split; [by apply ids_filter|]].
  { apply Forall_forall. intros x [Hx _]%Hleft. by apply Hyoung. }
  split; [|split].
  - assert (p_id <$> List.filter (fun p => bool_decide (p_id p ∈ p_id <$> take k sorted)) young ⊆+ p_id <$> take k sorted) as Hs.
    { apply NoDup_submseteq; [by apply ids_filter|]. intros i (x & -> & Hx%Hleft')%list_elem_of_fmap. by apply list_elem_of_fmap_2. }
    apply submseteq_length in Hs. rewrite !length_fmap, length_take in Hs. lia.
  - intros x y Hx Hc Hout Hy%Hleft'. rewrite Hleft' in Hout.
    assert (x ∈ drop k sorted) as Hd.
    { assert (x ∈ sorted) as Hs by (rewrite Hperm; by apply Hyoung). rewrite <- (take_drop k sorted) in Hs.
      by apply elem_of_app in Hs as [?|?]. }
    pose proof (sort_by_sorted pull_order (CmpOrder0 := pull_order_order) young) as Hsort. fold sorted in Hsort.
    rewrite <- (take_drop k sorted) in Hsort. apply StronglySorted_app in Hsort as (Hle & _ & _).
    specialize (Hle y x Hy Hd). unfold pull_order in Hle.
    destruct (Z.compare_spec (p_created_at x) (p_created_at y)) as [E|E|E]; [lia|lia|by destruct Hle].
  - intros Hfit x Hx Hc. apply Hleft'. rewrite take_ge; [rewrite Hperm; by apply Hyoung|].
    rewrite Hperm. unfold young. pose proof (filter_length_le (fun p => cutoff <=? p_created_at p) (pulls d)). lia.
Qed.
End Tables.
