(* ===== verification/Routes.v ===== *)
(** * Registry routes

    src/src/registry_routes.rs: the upstream registries a request can be routed to,
    the normalisation of their descriptions, and the handlers that list, create,
    change and delete them.  Between the checks of a handler and its write, other
    requests may change the tables: [between] is whatever they do.  The parser of
    [http::uri::Authority] is a parameter; the address parsers are those of
    Security.v. *)

From stdpp Require Import base gmap sets list strings.
From Stdlib Require Import ZArith Lia Ascii.
From S2P Require Import Prelude Text Errors Model Tables Security.

#[local] Set Default Proof Using "Type*".

Module Routes.
Import Tables.

Definition DOCKER_HUB_ROUTE_ID : Uuid := 0x4f6a9e7b2d174b6a9b4f7e76b8d8a001%N.
Definition GHCR_ROUTE_ID : Uuid := 0x4f6a9e7b2d174b6a9b4f7e76b8d8a002%N.
Definition DOCKER_HUB_ROUTE_KEY : string := "dockerhub".
Definition GHCR_ROUTE_KEY : string := "ghcr".
Definition ROUTE_CONFIGURATION_CONFLICT : string := "Registry route conflicts with existing configuration".
Definition ROUTE_IN_USE_CONFLICT : string := "Registry route is in use by one or more nodes".

Inductive RepositoryMode := DockerHubLibrary | Passthrough.

Definition parse_mode (value : string) : ApiResult RepositoryMode :=
  if value =?s "docker_hub_library" then Ok DockerHubLibrary
  else if value =?s "passthrough" then Ok Passthrough
  else Err (BadRequest "unsupported repository mode").

Definition mode_str (m : RepositoryMode) : string :=
  match m with DockerHubLibrary => "docker_hub_library" | Passthrough => "passthrough" end.

Record RegistryRouteInput := {
  i_key : string;
  i_name : string;
  i_canonical_registry : string;
  i_path_prefix : option string;
  i_repository_mode : string;
  i_is_default : bool;
  i_enabled : bool
}.

Record NormalizedRouteInput := {
  n_key : string;
  n_name : string;
  n_canonical_registry : string;
  n_path_prefix : option string;
  n_repository_mode : RepositoryMode;
  n_is_default : bool;
  n_enabled : bool
}.

(** ** Normalisation *)

Definition identifier_tail (c : ascii) : bool :=
  is_ascii_lowercase c || is_ascii_digit c || char_in c "-_".

(** [[a-z0-9][a-z0-9_-]{0,31}]. *)
Definition identifier (s : string) : bool :=
  match s with
  | EmptyString => false
  | String c rest => is_ascii_alphanumeric c && (slen s <=? 32) && all_bytes identifier_tail rest
  end.

Definition normalize_identifier (value label : string) : ApiResult string :=
  let normalized := to_ascii_lowercase (trim value) in
  if identifier normalized then Ok normalized
  else Err (BadRequest (label +:+ " must match [a-z0-9][a-z0-9_-]{0,31}")).

Definition host_label (label : string) : bool :=
  negb (is_empty label) && (slen label <=? 63)
  && is_some_and (first_byte label) is_ascii_alphanumeric
  && is_some_and (last_byte label) is_ascii_alphanumeric
  && all_bytes (fun c => is_ascii_alphanumeric c || Ascii.eqb c "-"%char) label.

Definition valid_registry_host (host : string) : bool :=
  match (let* h := strip_prefix "[" host in strip_suffix "]" h) with
  | Some h => is_some_and (read_ipv6_addr h) (fun p => is_empty p.2)
  | None =>
      if is_some_and (read_ipv4_addr host) (fun p => is_empty p.2) then true
      else negb (is_empty host) && (slen host <=? 253) && forallb host_label (split_char "."%char host)
  end.

Definition bad_authority : AppError :=
  BadRequest "canonical Registry must be a lowercase host[:port] with no scheme or path".

Section Authority.
(** [Authority::from_str]: the host and the port, where [port_u16] has one. *)
Variable parse_authority : string -> option (string * option Z).

Definition normalize_registry_authority (value : string) : ApiResult string :=
  let normalized := to_ascii_lowercase (trim value) in
  if is_empty normalized || (261 <? slen normalized)
     || any_byte (fun c => is_ascii_whitespace c || char_in c "/?#@") normalized
  then Err bad_authority
  else
    let? authority := ok_or (parse_authority normalized) bad_authority in
    let (host, port) := authority : string * option Z in
    if bool_decide (port = Some 0) || negb (valid_registry_host host) then Err bad_authority
    else if (normalized =?s "docker.io") || (normalized =?s "index.docker.io") || (normalized =?s "registry-1.docker.io")
    then Ok "docker.io" else Ok normalized.

(** [.map(trim).filter(non-empty).map(normalize_identifier).transpose()]. *)
Definition normalize_prefix (value : option string) : ApiResult (option string) :=
  match value with
  | None => Ok None
  | Some v =>
      if is_empty (trim v) then Ok None
      else let? p := normalize_identifier (trim v) "Registry route path prefix" in Ok (Some p)
  end.

Definition normalize_input (input : RegistryRouteInput) : ApiResult NormalizedRouteInput :=
  let? key := normalize_identifier (i_key input) "Registry route key" in
  let name := trim (i_name input) in
  if is_empty name || (80 <? char_count name) then Err (BadRequest "name must be between 1 and 80 characters")
  else
    let? canonical := normalize_registry_authority (i_canonical_registry input) in
    let? prefix := normalize_prefix (i_path_prefix input) in
    if negb (Bool.eqb (i_is_default input) (is_none prefix))
    then Err (BadRequest "only the default Registry route may omit a path prefix")
    else
      let? mode := parse_mode (i_repository_mode input) in
      Ok {| n_key := key; n_name := name; n_canonical_registry := canonical; n_path_prefix := prefix;
            n_repository_mode := mode; n_is_default := i_is_default input; n_enabled := i_enabled input |}.

(** ** Handlers *)

(** [list]: the default first, then by key. *)
Definition route_order (a b : Route.Model) : comparison :=
  then_cmp (Z.compare (Z.b2z (Route.is_default b)) (Z.b2z (Route.is_default a))) (String.compare (Route.key a) (Route.key b)).
Definition list_routes (d : RegistryDb) : list Route.Model := sort_by route_order (routes d).

Definition get (d : RegistryDb) (i : Uuid) : ApiResult Route.Model :=
  ok_or (by_id Route.id i (routes d)) (NotFound "Registry route").

Definition by_path_prefix (d : RegistryDb) (prefix : string) : option Route.Model :=
  find_one (fun r => bool_decide (Route.path_prefix r = Some prefix)) (routes d).

Definition default_route (d : RegistryDb) : ApiResult Route.Model :=
  ok_or (find_one Route.is_default (routes d)) (Unavailable "default Registry route is not configured").

Definition map_route_write_error (e : DbErr) : AppError :=
  map_constraint e ROUTE_CONFIGURATION_CONFLICT "Registry route reference conflict".

Definition reject_conflicts (d : RegistryDb) (input : NormalizedRouteInput) (excluding : option Uuid) : ApiResult unit :=
  let rows := match excluding with Some i => others Route.id i (routes d) | None => routes d end in
  if existsb (fun r => Route.key r =?s n_key input) rows then Err (Conflict "Registry route key already exists")
  else if is_some (n_path_prefix input) && existsb (fun r => bool_decide (Route.path_prefix r = n_path_prefix input)) rows
  then Err (Conflict "Registry route path prefix already exists")
  else if n_is_default input && existsb Route.is_default rows
  then Err (Conflict "a default Registry route already exists")
  else Ok tt.

Definition route_of (i : Uuid) (n : NormalizedRouteInput) (created_at updated_at : Z) : Route.Model :=
  {| Route.id := i; Route.key := n_key n; Route.name := n_name n; Route.canonical_registry := n_canonical_registry n;
     Route.path_prefix := n_path_prefix n; Route.repository_mode := mode_str (n_repository_mode n);
     Route.is_default := n_is_default n; Route.enabled := n_enabled n;
     Route.created_at := created_at; Route.updated_at := updated_at |}.

Section Interleaved.
Variable between : RegistryDb -> RegistryDb.

Definition write (d : RegistryDb) (r : Route.Model) (statement : RegistryDb -> Route.Model -> result RegistryDb DbErr)
    : ApiResult Route.Model * RegistryDb :=
  let d := between d in
  match statement d r with
  | Ok d' => (Ok r, d')
  | Err e => (Err (map_route_write_error e), d)
  end.

(** [create]; [i] is the fresh identifier. *)
Definition create (d : RegistryDb) (input : RegistryRouteInput) (i : Uuid) (now : Z) : ApiResult Route.Model * RegistryDb :=
  match (let? n := normalize_input input in let? _ := reject_conflicts d n None in Ok n) with
  | Err e => (Err e, d)
  | Ok n => write d (route_of i n now now) insert_route
  end.

Definition builtin_key_changed (i : Uuid) (key : string) : bool :=
  ((i =? DOCKER_HUB_ROUTE_ID)%N && negb (key =?s DOCKER_HUB_ROUTE_KEY))
  || ((i =? GHCR_ROUTE_ID)%N && negb (key =?s GHCR_ROUTE_KEY)).

Definition update (d : RegistryDb) (i : Uuid) (input : RegistryRouteInput) (now : Z) : ApiResult Route.Model * RegistryDb :=
  match (let? n := normalize_input input in
         let? route := get d i in
         if builtin_key_changed i (n_key n) then Err (BadRequest "built-in Registry route keys cannot be changed")
         else let? _ := reject_conflicts d n (Some i) in Ok (route_of i n (Route.created_at route) now)) with
  | Err e => (Err e, d)
  | Ok r => write d r update_route
  end.

(** [delete] of the service. *)
Definition delete_route_request (d : RegistryDb) (i : Uuid) : ApiResult unit * RegistryDb :=
  match (let? _ := get d i in
         if (i =? DOCKER_HUB_ROUTE_ID)%N || (i =? GHCR_ROUTE_ID)%N
         then Err (BadRequest "built-in Registry routes may be disabled but not deleted")
         else if negb (count_nodes_for_route d i =? 0) then Err (Conflict ROUTE_IN_USE_CONFLICT)
         else Ok tt) with
  | Err e => (Err e, d)
  | Ok _ =>
      let d := between d in
      match delete_route d i with
      | Err e => (Err (map_constraint e ROUTE_CONFIGURATION_CONFLICT ROUTE_IN_USE_CONFLICT), d)
      | Ok (n, d') => (if n =? 0 then Err (NotFound "Registry route") else Ok tt, d')
      end
  end.
End Interleaved.
End Authority.

(** ** Built-in routes *)

Definition docker_hub (now : Z) : Route.Model :=
  {| Route.id := DOCKER_HUB_ROUTE_ID; Route.key := DOCKER_HUB_ROUTE_KEY; Route.name := "Docker Hub";
     Route.canonical_registry := "docker.io"; Route.path_prefix := None;
     Route.repository_mode := mode_str DockerHubLibrary; Route.is_default := true; Route.enabled := true;
     Route.created_at := now; Route.updated_at := now |}.

Definition ghcr (now : Z) : Route.Model :=
  {| Route.id := GHCR_ROUTE_ID; Route.key := GHCR_ROUTE_KEY; Route.name := "GitHub Container Registry";
     Route.canonical_registry := "ghcr.io"; Route.path_prefix := Some "ghcr";
     Route.repository_mode := mode_str Passthrough; Route.is_default := false; Route.enabled := true;
     Route.created_at := now; Route.updated_at := now |}.

Definition seed_builtin (d : RegistryDb) (r : Route.Model) : result RegistryDb DbErr :=
  if existsb (fun x => Route.key x =?s Route.key r) (routes d) then Ok d else insert_route d r.

Definition seed_builtins (d : RegistryDb) (now : Z) : result RegistryDb DbErr :=
  let? d := seed_builtin d (docker_hub now) in seed_builtin d (ghcr now).

(** ** What the handlers keep true

    A stored route is normal: its identifiers are well formed, it is the default
    exactly when it has no prefix, and its mode is known.  The built-in routes are
    there under their keys. *)

Definition name_ok (name : string) : bool := negb (is_empty name) && (char_count name <=? 80).

Record route_ok (r : Route.Model) : Prop := {
  ro_key : identifier (Route.key r) = true;
  ro_name : name_ok (Route.name r) = true;
  ro_prefix : forall p, Route.path_prefix r = Some p -> identifier p = true;
  ro_default : Route.is_default r = is_none (Route.path_prefix r);
  ro_mode : exists m, Route.repository_mode r = mode_str m;
  ro_builtin : builtin_key_changed (Route.id r) (Route.key r) = false
}.

Record routes_inv (d : RegistryDb) : Prop := {
  ri_wf : db_wf d;
  ri_ok : Forall route_ok (routes d);
  ri_hub : DOCKER_HUB_ROUTE_ID ∈ route_ids d;
  ri_ghcr : GHCR_ROUTE_ID ∈ route_ids d
}.

Lemma parse_mode_str m : parse_mode (mode_str m) = Ok m.
Proof. by destruct m. Qed.

Lemma parse_mode_Ok s m : parse_mode s = Ok m -> s = mode_str m.
Proof.
  unfold parse_mode. destruct (s =?s "docker_hub_library") eqn:E1; [intros [= <-]; by apply str_eqb_eq|].
  destruct (s =?s "passthrough") eqn:E2; [intros [= <-]; by apply str_eqb_eq|done].
Qed.

Lemma normalize_identifier_Ok v l k : normalize_identifier v l = Ok k -> identifier k = true.
Proof. unfold normalize_identifier. destruct (identifier _) eqn:E; [|done]. by intros [= <-]. Qed.

Section Kept.
Variable parse_authority : string -> option (string * option Z).

Lemma normalize_input_ok input n i c u :
  normalize_input parse_authority input = Ok n -> builtin_key_changed i (n_key n) = false -> route_ok (route_of i n c u).
Proof.
  unfold normalize_input. destruct (normalize_identifier _ _) as [key|] eqn:Ek; [|done].
  destruct (is_empty _ || _) eqn:En; [done|]. destruct (normalize_registry_authority _ _) as [a|]; [|done].
  destruct (normalize_prefix _) as [prefix|] eqn:Ep; [|done]. destruct (negb _) eqn:Ed; [done|].
  destruct (parse_mode _) as [m|] eqn:Em; [|done]. intros [= <-] Hb. split; simpl; try done.
  - by eapply normalize_identifier_Ok.
  - apply orb_false_iff in En as [E1 E2]. unfold name_ok. rewrite E1. simpl. lia.
  - intros p ->. unfold normalize_prefix in Ep. destruct (i_path_prefix input) as [v|]; [|done].
    destruct (is_empty (trim v)); [done|]. destruct (normalize_identifier (trim v) _) eqn:E; [|done].
    simplify_eq. by eapply normalize_identifier_Ok.
  - apply negb_false_iff in Ed. by apply eqb_prop.
  - by exists m.
Qed.

(** Every refusal of an input is a bad request. *)
Lemma normalize_identifier_Err v l e : normalize_identifier v l = Err e -> status e = 400.
Proof using Type. unfold normalize_identifier. case_match; [done|]. by intros [= <-]. Qed.

Lemma normalize_authority_Err v e : normalize_registry_authority parse_authority v = Err e -> status e = 400.
Proof.
  unfold normalize_registry_authority. destruct (_ || _); [by intros [= <-]|].
  destruct (parse_authority _) as [[host port]|]; simpl; [|by intros [= <-]].
  destruct (_ || _); [by intros [= <-]|]. by destruct (_ || _).
Qed.

Lemma normalize_input_Err input e : normalize_input parse_authority input = Err e -> status e = 400.
Proof.
  unfold normalize_input, normalize_prefix, parse_mode.
  destruct (normalize_identifier (i_key input) _) eqn:Ek; [|intros [= <-]; by eapply normalize_identifier_Err].
  destruct (_ || _); [by intros [= <-]|].
  destruct (normalize_registry_authority _ _) eqn:Ea; [|intros [= <-]; by eapply normalize_authority_Err].
  destruct (i_path_prefix input) as [v|]; [destruct (is_empty (trim v))|];
    [| destruct (normalize_identifier (trim v) _) eqn:Ep; [|intros [= <-]; by eapply normalize_identifier_Err] |];
    (destruct (negb _); [by intros [= <-]|]); repeat case_match; intros; simplify_eq; done.
Qed.

Section Step.
Variable between : RegistryDb -> RegistryDb.

(** The tables after a handler: as it found them, or as the others left them with its
    own change to the routes. *)
Definition kept (d d' : RegistryDb) : Prop :=
  routes_inv d' /\ (nodes d' = nodes d \/ nodes d' = nodes (between d)).

Lemma route_create_kept d input i now :
  routes_inv d -> routes_inv (between d) -> kept d (create parse_authority between d input i now).2.
Proof.
  intros Hd Hb. unfold kept, create. destruct (normalize_input _ _) as [n|e] eqn:En; [|by auto].
  destruct (reject_conflicts d n None); [|by auto]. unfold write.
  destruct (insert_route (between d) _) as [d'|e] eqn:Ei; [|by auto]. simpl.
  pose proof (insert_route_wf _ _ _ (ri_wf _ Hb) Ei) as [Hwf Hr].
  assert (forall x, x ∈ route_ids (between d) -> i <> x) as Hfresh.
  { intros x (y & -> & Hy)%list_elem_of_fmap ->. unfold insert_route in Ei. destruct (existsb _ _) eqn:Ex; [done|].
    apply existsb_false in Ex. rewrite Forall_forall in Ex. specialize (Ex y Hy). unfold route_clash in Ex.
    simpl in Ex. by rewrite N.eqb_refl in Ex. }
  split.
  2: { right. unfold insert_route in Ei. destruct (existsb _ _); [done|]. by injection Ei as <-. }
  destruct Hb as [_ Hok Hh Hg]. split; [done|..].
  - rewrite Hr. apply Forall_app. split; [done|]. constructor; [|done]. eapply normalize_input_ok; [done|].
    unfold builtin_key_changed. rewrite !(proj2 (N.eqb_neq _ _)); [done|by apply Hfresh..].
  - unfold route_ids. rewrite Hr, fmap_app. apply elem_of_app. by left.
  - unfold route_ids. rewrite Hr, fmap_app. apply elem_of_app. by left.
Qed.

Lemma route_update_kept d i input now :
  routes_inv d -> routes_inv (between d) -> kept d (update parse_authority between d i input now).2.
Proof.
  intros Hd Hb. unfold kept, update. destruct (normalize_input _ _) as [n|e] eqn:En; [|by auto].
  destruct (get d i) as [route|]; [|by auto]. destruct (builtin_key_changed i (n_key n)) eqn:Eb; [by auto|].
  destruct (reject_conflicts d n (Some i)); [|by auto]. unfold write.
  destruct (update_route (between d) _) as [d'|e] eqn:Ei; [|by auto]. simpl.
  pose proof (update_route_wf _ _ _ (ri_wf _ Hb) Ei) as [Hwf Hr].
  split.
  2: { right. unfold update_route in Ei. destruct (by_id _ _ _); [|done]. destruct (existsb _ _); [done|]. by injection Ei as <-. }
  destruct Hb as [_ Hok Hh Hg]. split; [done|..].
  - rewrite Hr. rewrite Forall_forall in *. intros x [->|[Hx _]]%replace_elem; [|by apply Hok].
    by eapply normalize_input_ok.
  - unfold route_ids. rewrite Hr, replace_ids. done.
  - unfold route_ids. rewrite Hr, replace_ids. done.
Qed.

Lemma route_delete_kept d i : routes_inv d -> routes_inv (between d) -> kept d (delete_route_request between d i).2.
Proof.
  intros Hd Hb. unfold kept, delete_route_request. destruct (get d i); [|by auto]. destruct (_ || _) eqn:Eb; [by auto|].
  destruct (negb _); [by auto|].
  destruct (delete_route (between d) i) as [[n d']|e] eqn:Ei; [|by auto]. simpl.
  apply delete_route_wf in Ei as (Hwf & Hn & Hr & _); [|apply Hb]. split; [|by right].
  apply orb_false_iff in Eb as [E1%N.eqb_neq E2%N.eqb_neq]. destruct Hb as [_ Hok Hh Hg]. split; [done|..].
  - rewrite Hr. by apply Forall_filter.
  - unfold route_ids. rewrite Hr. apply delete_ids. split; [done|congruence].
  - unfold route_ids. rewrite Hr. apply delete_ids. split; [done|congruence].
Qed.
End Step.
End Kept.

(** The lookups a request is routed by find the one route they name. *)
Lemma by_path_prefix_Some d p r :
  by_path_prefix d p = Some r -> r ∈ routes d /\ Route.path_prefix r = Some p.
Proof.
  unfold by_path_prefix, find_one. intros H. apply find_some in H as [Hi E].
  apply bool_decide_eq_true in E. by rewrite list_elem_of_In.
Qed.

Lemma by_path_prefix_elem d p r :
  db_wf d -> r ∈ routes d -> Route.path_prefix r = Some p -> by_path_prefix d p = Some r.
Proof.
  intros Hd Hr Hp. destruct (by_path_prefix d p) as [x|] eqn:E.
  - apply by_path_prefix_Some in E as [Hx Ex]. f_equal.
    apply (apart_unique route_clash route_clash_sym (routes d)); try done; [apply Hd|].
    unfold route_clash. rewrite Hp, Ex. simpl. rewrite bool_decide_eq_true_2 by done. by rewrite !orb_true_r.
  - unfold by_path_prefix, find_one in E. rewrite list_elem_of_In in Hr. apply (find_none _ _ E) in Hr.
    by rewrite bool_decide_eq_true_2 in Hr.
Qed.

Lemma default_route_Ok d r : default_route d = Ok r -> r ∈ routes d /\ Route.is_default r = true.
Proof.
  unfold default_route, find_one. destruct (List.find _ _) as [x|] eqn:E; [|done]. intros [= <-].
  apply find_some in E as [Hx E]. by rewrite list_elem_of_In.
Qed.

Lemma default_route_elem d r : db_wf d -> r ∈ routes d -> Route.is_default r = true -> default_route d = Ok r.
Proof.
  intros Hd Hr Hdef. destruct (default_route d) as [x|e] eqn:E.
  - apply default_route_Ok in E as [Hx Ex]. f_equal.
    apply (apart_unique route_clash route_clash_sym (routes d)); try done; [apply Hd|].
    unfold route_clash. rewrite Ex, Hdef. by rewrite !orb_true_r.
  - unfold default_route, find_one in E. destruct (List.find _ _) eqn:Ef; [done|].
    rewrite list_elem_of_In in Hr. apply (find_none _ _ Ef) in Hr. congruence.
Qed.

(** ** Properties *)

(** A lost race is a conflict, never a server error.  Whatever other requests write
    between the checks of a creation and its insert, the creation either stores the
    normalised route, or is refused as a bad request or a conflict and changes
    nothing of what it found. *)
Theorem create_route_outcome parse_authority between d input i now r d' :
  create parse_authority between d input i now = (r, d') ->
  match r with
  | Ok route => exists n, normalize_input parse_authority input = Ok n /\ route = route_of i n now now /\
      routes d' = routes (between d) ++ [route] /\ existsb (route_clash route) (routes (between d)) = false
  | Err e => (status e = 400 \/ status e = 409) /\ (d' = d \/ d' = between d)
  end.
Proof.
  unfold create. pose proof (normalize_input_Err parse_authority input) as Hn.
  destruct (normalize_input _ _) as [n|e] eqn:En.
  2: { intros [= <- <-]. split; [left; by apply Hn|by left]. }
  destruct (reject_conflicts d n None) as [[]|e] eqn:Ej.
  2: { intros [= <- <-]. split; [|by left]. right. unfold reject_conflicts in Ej. repeat case_match; simplify_eq; done. }
  unfold write. destruct (insert_route (between d) _) as [d1|e] eqn:Ei; intros [= <- <-].
  - exists n. split; [done|]. split; [done|]. unfold insert_route in Ei. destruct (existsb _ _) eqn:Ex; [done|].
    by injection Ei as <-.
  - split; [|by right]. right. unfold insert_route in Ei. by destruct (existsb _ _); simplify_eq.
Qed.
End Routes.

(** ** Instances *)

Module RoutesWitness.
Import Tables Routes.

(** The tables after the first start. *)
Definition seeded : RegistryDb :=
  {| routes := [docker_hub 0; ghcr 0]; nodes := []; metrics := ∅; limits := ∅; pulls := []; referenced := ∅ |}.

Lemma seeded_routes : routes_inv seeded.
Proof.
  split.
  - split; simpl; try done; try constructor; try apply map_Forall_empty.
    all: repeat constructor.
  - repeat constructor; try done; try (by intros p [= <-]); by eexists (_ : RepositoryMode).
  - by vm_compute; left.
  - by vm_compute; right; left.
Qed.

Definition empty_db : RegistryDb :=
  {| routes := [docker_hub 0]; nodes := []; metrics := ∅; limits := ∅; pulls := []; referenced := ∅ |}.

(** Another administrator takes the prefix between the checks and the insert. *)
Definition rival (d : RegistryDb) : RegistryDb := with_routes d (routes d ++ [ghcr 5]).

Definition github : RegistryRouteInput :=
  {| i_key := "github"; i_name := "GitHub"; i_canonical_registry := "ghcr.io"; i_path_prefix := Some "GHCR";
     i_repository_mode := "passthrough"; i_is_default := false; i_enabled := true |}.

Definition toy_authority (s : string) : option (string * option Z) := Some (s, None).

Lemma create_route_outcome_witness :
  create toy_authority rival empty_db github 7 9 = (Err (Conflict ROUTE_CONFIGURATION_CONFLICT), rival empty_db) /\
  (status (Conflict ROUTE_CONFIGURATION_CONFLICT) = 400 \/ status (Conflict ROUTE_CONFIGURATION_CONFLICT) = 409).
Proof.
  assert (create toy_authority rival empty_db github 7 9 = (Err (Conflict ROUTE_CONFIGURATION_CONFLICT), rival empty_db)) as H
    by (vm_compute; reflexivity).
  split; [exact H|]. exact (proj1 (create_route_outcome _ _ _ _ _ _ _ _ H)).
Defined.
End RoutesWitness.
