(* ===== verification/Crypto.v ===== *)
(** * Stored credentials

    src/src/crypto.rs: the cipher that seals upstream secrets.  AES-256-GCM, base64
    and hexadecimal decoding and the UTF-8 check are parameters; what is modelled is
    the key formats, the layout of a sealed credential and the errors. *)

From stdpp Require Import base gmap sets list strings.
From Stdlib Require Import ZArith Lia Ascii.
From S2P Require Import Prelude Text Errors.

#[local] Set Default Proof Using "Type*".

Module Crypto.

(** The primitives the code calls; a byte sequence is a string. *)
Record Primitives (Key : Type) := {
  new_from_slice : string -> option Key;
  aead_encrypt : Key -> string -> string -> option string;
  aead_decrypt : Key -> string -> string -> option string;
  base64_encode : string -> string;
  base64_decode : string -> option string;
  hex_decode : string -> option string;
  utf8 : string -> bool
}.
Arguments new_from_slice {Key}.
Arguments aead_encrypt {Key}.
Arguments aead_decrypt {Key}.
Arguments base64_encode {Key}.
Arguments base64_decode {Key}.
Arguments hex_decode {Key}.
Arguments utf8 {Key}.

Section Cipher.
Context {Key : Type} (prims : Primitives Key).

(** [CredentialCipher]: no key, no cipher. *)
Abbreviation CredentialCipher := (option Key).

Definition from_config (credential_key : option string) : ApiResult CredentialCipher :=
  match credential_key with
  | None => Ok None
  | Some raw =>
      let? key :=
        if (slen raw =? 64) && all_bytes is_ascii_hexdigit raw
        then ok_or (hex_decode prims raw) (BadRequest "invalid credential master key")
        else ok_or (base64_decode prims raw)
               (BadRequest "credential master key must be 32-byte base64 or 64-char hex") in
      if negb (slen key =? 32) then Err (BadRequest "credential master key must contain exactly 32 bytes")
      else
        let? cipher := ok_or (new_from_slice prims key) (Internal "invalid key length") in
        Ok (Some cipher)
  end.

Definition is_configured (c : CredentialCipher) : bool := is_some c.

(** [nonce] is the random nonce drawn for this call. *)
Definition encrypt (c : CredentialCipher) (nonce plaintext : string) : ApiResult string :=
  let? key := ok_or c (BadRequest "DONKEY_CREDENTIAL_KEY is required for upstream credentials") in
  let? ciphertext := ok_or (aead_encrypt prims key nonce plaintext) (Internal "credential encryption failed") in
  Ok (base64_encode prims (nonce +:+ ciphertext)).

Definition decrypt (c : CredentialCipher) (encoded : string) : ApiResult string :=
  let? key := ok_or c (BadRequest "DONKEY_CREDENTIAL_KEY is required to read upstream credentials") in
  let? sealed := ok_or (base64_decode prims encoded) (Internal "credential ciphertext is invalid") in
  if slen sealed <=? 12 then Err (Internal "credential ciphertext is truncated")
  else
    let nonce := str_take 12 sealed in
    let ciphertext := str_drop 12 sealed in
    let? plaintext := ok_or (aead_decrypt prims key nonce ciphertext) (Internal "credential decryption failed") in
    if utf8 prims plaintext then Ok plaintext else Err (Internal "credential plaintext is invalid").

(** What the libraries document: base64 round trips, and an authenticated ciphertext
    is never empty (it carries its tag) and opens to its plaintext under the same key
    and nonce. *)
Record documented : Prop := {
  base64_roundtrip : forall s, base64_decode prims (base64_encode prims s) = Some s;
  aead_roundtrip : forall key nonce p c, aead_encrypt prims key nonce p = Some c ->
    aead_decrypt prims key nonce c = Some p /\ c <> ""
}.

(** A sealed credential opens to what was sealed, with the same key and any
    twelve-byte nonce. *)
Lemma decrypt_encrypt c nonce p sealed :
  documented -> String.length nonce = 12%nat -> utf8 prims p = true ->
  encrypt c nonce p = Ok sealed -> decrypt c sealed = Ok p.
Proof.
  intros [Hb Ha] Hn Hu. unfold encrypt, decrypt. destruct c as [key|]; cbn [ok_or]; [|done].
  destruct (aead_encrypt prims key nonce p) as [ct|] eqn:E; cbn [ok_or]; [|done]. intros [= <-]. rewrite Hb.
  cbn [ok_or]. destruct (Ha _ _ _ _ E) as [Hd Hne].
  assert (0 < slen ct) by (destruct ct; [done|unfold slen; simpl; lia]).
  assert (slen nonce = 12) as Hl by (unfold slen; rewrite Hn; lia).
  rewrite slen_app, Hl. destruct (Z.leb_spec (12 + slen ct) 12); [lia|].
  rewrite <- Hn, str_take_app, str_drop_app, Hd. cbn [ok_or]. by rewrite Hu.
Qed.

(** Without a key nothing is sealed or opened; a sealed value that is not longer than
    a nonce is refused before it is opened. *)
Lemma no_cipher nonce p sealed :
  is_ok (encrypt None nonce p) = false /\ is_ok (decrypt None sealed) = false.
Proof. done. Qed.

Lemma from_config_key raw c :
  from_config (Some raw) = Ok c -> exists key k, c = Some k /\ slen key = 32 /\ new_from_slice prims key = Some k.
Proof.
  unfold from_config. destruct (if (slen raw =? 64) && all_bytes is_ascii_hexdigit raw then _ else _) as [key|]; [|done].
  destruct (slen key =? 32) eqn:E; simpl; [|done]. destruct (new_from_slice prims key) as [k|] eqn:Ek; simpl; [|done].
  intros [= <-]. exists key, k. split; [done|]. split; [by apply Z.eqb_eq|done].
Qed.
End Cipher.
End Crypto.
