(* ===== verification/Nodes.v ===== *)
(** * Nodes

    src/src/nodes.rs: the upstream mirrors of a route.  Their live transfer rates and
    persisted metrics, the score and view the schedulers read, probing, credentials,
    and the handlers that create, change and delete them.  The cipher, the natural
    logarithm, DNS, the [url] crate and the [HeaderName] parser are parameters; as in
    Routes.v, [between] is what other requests write between a handler's checks and
    its own write. *)

From stdpp Require Import base gmap sets list strings.
From Stdlib Require Import ZArith Lia Ascii.
From S2P Require Import Prelude F64 Text Errors Model Scheduling Selection Http Tables Security Routes Crypto.

#[local] Set Default Proof Using "Type*".

(** ** Live rates *)

Module RateWindow.

Record RateSample := { started_at : Z; finished_at : Z; bytes : Z }.
Abbreviation t := (list RateSample).

Definition LIVE_RATE_WINDOW : Z := 10 * second.

Definition expired (now : Z) (s : RateSample) : bool := LIVE_RATE_WINDOW <? duration_since now (finished_at s).

Fixpoint prune (w : t) (now : Z) : t :=
  match w with
  | [] => []
  | s :: w' => if expired now s then prune w' now else w
  end.

(** [Instant::checked_sub(d).unwrap_or(now)]: an instant is not before the epoch. *)
Definition earlier (now d : Z) : Z := if d <=? now then now - d else now.

Definition record (w : t) (now bytes elapsed : Z) : t :=
  prune (w ++ [{| started_at := earlier now elapsed; finished_at := now; bytes := bytes |}]) now.

(** The bytes of a sample that fall in the window from [start]. *)
Definition sample_bytes (start : Z) (s : RateSample) : f64 :=
  let seconds := as_secs_f64 (duration_since (finished_at s) (started_at s)) in
  if fle seconds (f64_of_Z 0) then f64_of_Z (bytes s)
  else
    let overlap := as_secs_f64 (duration_since (finished_at s) (Z.max (started_at s) start)) in
    (f64_of_Z (bytes s) * fclamp (overlap / seconds) (f64_of_Z 0) (f64_of_Z 1))%f64.

Definition fmin (x y : f64) : f64 :=
  if is_nan x then y else if is_nan y then x else if flt y x then y else x.

Definition rate (w : t) (now : Z) : Z * t :=
  let w := prune w now in
  match w with
  | [] => (0, w)
  | first :: _ =>
      let start := Z.max (started_at first) (earlier now LIVE_RATE_WINDOW) in
      let seconds := fmax (as_secs_f64 (duration_since now start)) (f64_ratio 1 4) in
      let total := fsum (sample_bytes start <$> w) in
      (f64_to_u64 (fmin (total / seconds)%f64 (f64_of_Z u64_max)), w)
  end.
End RateWindow.

Module Nodes.
Import Tables.

Definition NODE_ROUTE_CONFLICT : string := "Registry route changed or no longer exists".
Definition NODE_URL_CONFLICT : string := "node URL already exists in this Registry route".

Record NodeInput := {
  in_name : string;
  in_url : string;
  in_registry_route_id : Uuid;
  in_enabled : bool;
  in_priority : Z;
  in_max_concurrency : Z;
  in_cf_preferred : bool;
  in_connect_ip_type : string;
  in_connect_ip : option string;
  in_auth_mode : string;
  in_auth_username : option string;
  in_auth_header : option string;
  in_auth_secret : option string
}.

(** ** Metrics and score *)

Definition empty_metric (i : Uuid) : Metric.Model :=
  {| Metric.node_id := i; Metric.healthy := true; Metric.latency_ms := 0; Metric.speed_bps := 0;
     Metric.success_rate := f64_of_Z 1; Metric.current_bps := 0; Metric.total_bytes := 0;
     Metric.last_checked_at := None; Metric.last_error := None |}.

Section Score.
Variable ln_1p : f64 -> f64.

Definition score (n : Node.Model) (m : Metric.Model) (policy : Scheduling.SchedulerPolicy) : f64 :=
  if negb (Node.enabled n) then f64_of_Z (-1)
  else
    let health := if Metric.healthy m then f64_of_Z 1
                  else if is_none (Metric.last_checked_at m) then f64_ratio 55 100 else f64_ratio 8 100 in
    let success := fclamp (Metric.success_rate m) (f64_ratio 5 100) (f64_of_Z 1) in
    let priority := (f64_of_Z 1 / (f64_of_Z 1 + f64_of_Z (Z.max (Node.priority n) 0) / f64_of_Z 100))%f64 in
    match policy with
    | Scheduling.Balanced =>
        let speed := ln_1p (f64_of_Z (Z.max (Metric.speed_bps m) 1)) in
        let latency := (f64_of_Z 1 / (f64_of_Z 1 + f64_of_Z (Z.max (Metric.latency_ms m) 0) / f64_of_Z 250))%f64 in
        (health * (f64_ratio 55 100 * speed + f64_of_Z 2 * latency + priority) * fmax success (f64_ratio 25 100))%f64
    | Scheduling.SpeedFirst =>
        let speed := f64_of_Z (Z.max (Metric.speed_bps m) 1) in
        (health * fsquare success * speed + priority)%f64
    end.
End Score.

(** SQLite arithmetic stays in 64 bits, or the result is no longer an integer. *)
Definition sql_int (z : Z) : option Z := if (- i64_max - 1 <=? z) && (z <=? i64_max) then Some z else None.
Definition sql_add (a b : Z) : option Z := sql_int (a + b).
Definition sql_mul (a b : Z) : option Z := sql_int (a * b).
Definition sql_div (a b : Z) : option Z := sql_int (Z.quot a b).

(** [CASE WHEN speed_bps <= 0 THEN bps ELSE (speed_bps * 7 + bps * 3) / 10 END]. *)
Definition smoothed_speed (speed bps : Z) : option Z :=
  if speed <=? 0 then Some bps
  else
    let* a := sql_mul speed 7 in
    let* b := sql_add a (Z.min (bps * 3) i64_max) in
    sql_div b 10.

Definition measured_bps (bytes elapsed : Z) : Z :=
  Z.min (f64_to_u64 (RateWindow.fmin (f64_of_Z bytes / as_secs_f64 elapsed)%f64 (f64_of_Z i64_max))) i64_max.

(** The update statement of [record_transfer_observation] on a row. *)
Definition observe_transfer (m : Metric.Model) (bytes elapsed : Z) (success measure_speed : bool) : option Metric.Model :=
  let sample := if success then f64_of_Z 1 else f64_of_Z 0 in
  let counted := success && (0 <? bytes) in
  let timed := measure_speed && counted && flt (f64_of_Z 0) (as_secs_f64 elapsed) in
  let bps := measured_bps bytes elapsed in
  let* total := if counted then sql_add (Metric.total_bytes m) (Z.min bytes i64_max) else Some (Metric.total_bytes m) in
  let* speed := if timed then smoothed_speed (Metric.speed_bps m) bps else Some (Metric.speed_bps m) in
  Some {| Metric.node_id := Metric.node_id m; Metric.healthy := success || Metric.healthy m;
          Metric.latency_ms := Metric.latency_ms m; Metric.speed_bps := speed;
          Metric.success_rate := (Metric.success_rate m * f64_ratio 85 100 + sample * f64_ratio 15 100)%f64;
          Metric.current_bps := if timed then bps else Metric.current_bps m; Metric.total_bytes := total;
          Metric.last_checked_at := Metric.last_checked_at m; Metric.last_error := Metric.last_error m |}.

(** The service: the tables, the live windows, and the settings it reads. *)
Record NodeService := { db : RegistryDb; live_rates : gmap Uuid RateWindow.t }.

Definition with_db (s : NodeService) (d : RegistryDb) : NodeService := {| db := d; live_rates := live_rates s |}.
Definition with_rates (s : NodeService) (m : gmap Uuid RateWindow.t) : NodeService := {| db := db s; live_rates := m |}.

Definition record_live (s : NodeService) (i : Uuid) (now bytes elapsed : Z) : NodeService :=
  with_rates s (<[i := RateWindow.record (unwrap_or (live_rates s !! i) []) now bytes elapsed]> (live_rates s)).

(** [record_live_bytes]. *)
Definition record_live_bytes (s : NodeService) (i : Uuid) (now bytes : Z) : NodeService :=
  if bytes =? 0 then s else record_live s i now bytes 0.

Definition live_rate (s : NodeService) (i : Uuid) (now : Z) : Z * NodeService :=
  match live_rates s !! i with
  | None => (0, s)
  | Some w => let (r, w) := RateWindow.rate w now in (r, with_rates s (<[i := w]> (live_rates s)))
  end.

(** [record_transfer_observation]; a row whose arithmetic overflows is left to
    SQLite and out of the model. *)
Definition record_transfer_observation (s : NodeService) (i : Uuid) (now bytes elapsed : Z) (success measure_speed : bool)
    : option NodeService :=
  let s := if measure_speed && success && (0 <? bytes) && negb (elapsed =? 0) then record_live s i now bytes elapsed else s in
  match metrics (db s) !! i with
  | None => Some s
  | Some m =>
      let* m' := observe_transfer m bytes elapsed success measure_speed in
      Some (with_db s (with_metrics (db s) (<[i := m']> (metrics (db s)))))
  end.

Definition record_transfer (s : NodeService) (i : Uuid) (now bytes elapsed : Z) (success : bool) : option NodeService :=
  record_transfer_observation s i now bytes elapsed success true.

(** ** Validation *)

Definition normalize_connect_ip_type (v : string) : ApiResult string :=
  if (v =?s "") || (v =?s "ip") then Ok "ip"
  else if v =?s "domain" then Ok "domain"
  else Err (BadRequest "connect_ip_type must be ip or domain").

Definition auth_mode_known (mode : string) : bool :=
  (mode =?s "none") || (mode =?s "basic") || (mode =?s "bearer") || (mode =?s "header").

Definition normalized_auth_mode (mode : string) : ApiResult string :=
  let mode := if is_empty mode then "none" else mode in
  if auth_mode_known mode then Ok mode else Err (BadRequest "unsupported authentication mode").

Definition validate_input (input : NodeInput) : ApiResult unit :=
  if is_empty (trim (in_name input)) || (80 <? char_count (in_name input))
  then Err (BadRequest "name must be between 1 and 80 characters")
  else if (in_priority input <? 0) || (1000 <? in_priority input)
  then Err (BadRequest "priority must be between 0 and 1000")
  else if (in_max_concurrency input <? 1) || (64 <? in_max_concurrency input)
  then Err (BadRequest "max_concurrency must be between 1 and 64")
  else
    let? _ := normalize_connect_ip_type (in_connect_ip_type input) in
    let? mode := normalized_auth_mode (in_auth_mode input) in
    if (mode =?s "basic") && is_none_or (in_auth_username input) is_empty
    then Err (BadRequest "Basic authentication requires a username")
    else if (mode =?s "header") && is_none_or (in_auth_header input) is_empty
    then Err (BadRequest "custom header authentication requires a header name")
    else Ok tt.

Definition trimmed (v : option string) : option string :=
  let* v := v in if is_empty (trim v) then None else Some (trim v).

Definition forbidden_header (name : string) : bool :=
  existsb (fun h => name =?s h) ["authorization"; "host"; "proxy-authorization"; "cookie"; "connection"; "transfer-encoding"].

(** [value.chars().take(max).collect()]. *)
Fixpoint truncate (s : string) (max : Z) : string :=
  match s with
  | EmptyString => ""
  | String c s' =>
      if Text.between 128 191 c then String c (truncate s' max)
      else if max <=? 0 then "" else String c (truncate s' (max - 1))
  end.

(** What [apply_auth] adds to a request, and [oci_auth_for_node] yields. *)
Inductive Auth := Anonymous | BasicAuth (username secret : string) | BearerAuth (secret : string) | HeaderAuth (name value : string).

Section Service.
Context {Key : Type} (prims : Crypto.Primitives Key) (cipher : option Key).
Context (net_contains : string -> IpAddr -> bool) (lookup_host : string -> Z -> option (list IpAddr)).
Context {Url : Type} (api : UrlApi Url) (url_to_string : Url -> string).
(** [HeaderName::from_str], which lower-cases, and [HeaderValue::from_str]. *)
Variable parse_header_name : string -> option string.
Variable header_value : string -> option string.
Variable ln_1p : f64 -> f64.
Variable config : SecurityConfig.
(** [config.registry_auth_value().is_some()]. *)
Variable registry_auth : bool.
Variable policy : Scheduling.SchedulerPolicy.

Definition normalized_header (v : option string) : ApiResult (option string) :=
  match trimmed v with
  | None => Ok None
  | Some v =>
      let? name := ok_or (parse_header_name v) (BadRequest "invalid authentication header name") in
      if forbidden_header name then Err (BadRequest "this authentication header is not allowed") else Ok (Some name)
  end.

Definition seal_secret (mode : string) (secret : option string) (nonce : string) : ApiResult (option string) :=
  if mode =?s "none" then Ok None
  else
    match secret with
    | Some v =>
        if is_empty v then Err (BadRequest "authentication secret is required")
        else if 4096 <? slen v then Err (BadRequest "authentication secret is too long")
        else let? sealed := Crypto.encrypt prims cipher nonce v in Ok (Some sealed)
    | None => Err (BadRequest "authentication secret is required")
    end.

Definition require_registry_auth_for_secret (mode : string) : ApiResult unit :=
  if negb (mode =?s "none") && negb registry_auth
  then Err (BadRequest "DONKEY_REGISTRY_AUTH is required before adding an authenticated upstream")
  else Ok tt.

Definition apply_auth (n : Node.Model) : ApiResult Auth :=
  if Node.auth_mode n =?s "none" then Ok Anonymous
  else
    let? encrypted := ok_or (Node.auth_secret_enc n)
                        (BadRequest "upstream authentication is configured without a secret") in
    let? secret := Crypto.decrypt prims cipher encrypted in
    if Node.auth_mode n =?s "basic" then
      let? username := ok_or (Node.auth_username n) (BadRequest "Basic authentication requires a username") in
      Ok (BasicAuth username secret)
    else if Node.auth_mode n =?s "bearer" then Ok (BearerAuth secret)
    else if Node.auth_mode n =?s "header" then
      let? raw := ok_or (Node.auth_header n) (BadRequest "custom header authentication requires a header name") in
      let? name := ok_or (parse_header_name raw) (BadRequest "invalid authentication header name") in
      let? value := ok_or (header_value secret) (BadRequest "invalid authentication header value") in
      Ok (HeaderAuth name value)
    else Err (BadRequest "unsupported authentication mode").

Definition decrypt_node_secret (n : Node.Model) : ApiResult string :=
  let? encrypted := ok_or (Node.auth_secret_enc n) (BadRequest "node credential has no secret") in
  Crypto.decrypt prims cipher encrypted.

Definition oci_auth_for_node (d : RegistryDb) (i : Uuid) : ApiResult (Node.Model * Auth) :=
  let? n := ok_or (get_node d i) (NotFound "node") in
  let? auth :=
    if Node.auth_mode n =?s "none" then Ok Anonymous
    else if Node.auth_mode n =?s "basic" then
      let? username := ok_or (Node.auth_username n) (BadRequest "Basic node credential has no username") in
      let? secret := decrypt_node_secret n in Ok (BasicAuth username secret)
    else if Node.auth_mode n =?s "bearer" then let? secret := decrypt_node_secret n in Ok (BearerAuth secret)
    else Err (BadRequest "custom-header nodes cannot be used by image tools") in
  Ok (n, auth).

(** ** Views *)

Definition view_with (s : NodeService) (n : Node.Model) (m : Metric.Model) (r : Route.Model) (now : Z) : NodeView * NodeService :=
  let (live, s) := live_rate s (Node.id n) now in
  ({| node := n; metric := m; Model.score := score ln_1p n m policy;
      auth_configured := is_some (Node.auth_secret_enc n); route := RouteSummary.of_route r;
      max_concurrency := get_node_max_concurrency (db s) (Node.id n); live_bps := live |}, s).

Definition no_route : AppError := Internal "node has no Registry route".

Definition view (s : NodeService) (n : Node.Model) (now : Z) : ApiResult NodeView * NodeService :=
  match by_id Route.id (Node.registry_route_id n) (routes (db s)) with
  | None => (Err no_route, s)
  | Some r =>
      let m := unwrap_or (metric_for (db s) (Node.id n)) (empty_metric (Node.id n)) in
      let (v, s) := view_with s n m r now in (Ok v, s)
  end.

Fixpoint views (s : NodeService) (l : list Node.Model) (now : Z) : ApiResult (list NodeView) * NodeService :=
  match l with
  | [] => (Ok [], s)
  | n :: l =>
      match view s n now with
      | (Err e, s) => (Err e, s)
      | (Ok v, s) => let (r, s) := views s l now in (let? vs := r in Ok (v :: vs), s)
      end
  end.

(** Score descending, then priority, then URL. *)
Definition view_order (a b : NodeView) : comparison :=
  then_cmp (total_cmp (Model.score b) (Model.score a))
    (then_cmp (Z.compare (Node.priority (node a)) (Node.priority (node b)))
       (String.compare (Node.url (node a)) (Node.url (node b)))).

(** [list]. *)
Definition list_views (s : NodeService) (now : Z) : ApiResult (list NodeView) * NodeService :=
  let (r, s) := views s (list_nodes (db s)) now in (let? l := r in Ok (sort_by view_order l), s).

Definition enabled_registry_nodes (s : NodeService) (r : Uuid) (now : Z) : ApiResult (list NodeView) * NodeService :=
  views s (List.filter Node.enabled (list_nodes_for_route (db s) r)) now.

Definition registry_node (s : NodeService) (i : Uuid) (now : Z) : ApiResult NodeView * NodeService :=
  match get_node (db s) i with
  | None => (Err (NotFound "node"), s)
  | Some n =>
      match view s n now with
      | (Ok v, s) =>
          (if negb (Node.enabled (node v)) || negb (RouteSummary.enabled (route v))
           then Err (BadRequest "selected image source node or its Registry route is disabled") else Ok v, s)
      | r => r
      end
  end.

(** ** Probing *)

Definition probe_check (status_text : Z -> string) (r : Response) : ApiResult unit :=
  let bearer_challenge := (r_status r =? 401)
    && is_some_and (header_str (r_headers r) "www-authenticate") (fun v => starts_with "bearer " (to_ascii_lowercase v)) in
  if negb (is_success (r_status r)) && negb bearer_challenge
  then Err (Upstream ("status " +:+ status_text (r_status r))) else Ok tt.

(** [probe_model]: [lease] is the probe slot, [send] the request to [v2/]. *)
Definition probe_model (s : NodeService) (n : Node.Model) (lease : ApiResult unit) (timeout : Z)
    (send : ValidatedUpstream (Url:=Url) -> ClientSettings -> Auth -> ApiResult Response) (status_text : Z -> string)
    (elapsed now : Z) : Metric.Model :=
  let result :=
    let? _ := lease in
    let? upstream := validate_upstream net_contains lookup_host api (Node.url n) config in
    let? client := client_for api upstream timeout in
    let? auth := apply_auth n in
    let? response := send upstream client auth in
    probe_check status_text response in
  let previous := unwrap_or (metric_for (db s) (Node.id n)) (empty_metric (Node.id n)) in
  let sample := if is_ok result then f64_of_Z 1 else f64_of_Z 0 in
  {| Metric.node_id := Node.id n; Metric.healthy := is_ok result;
     Metric.latency_ms := Z.min (elapsed / millisecond) i64_max; Metric.speed_bps := Metric.speed_bps previous;
     Metric.success_rate := (Metric.success_rate previous * f64_ratio 8 10 + sample * f64_ratio 2 10)%f64;
     Metric.current_bps := Metric.current_bps previous; Metric.total_bytes := Metric.total_bytes previous;
     Metric.last_checked_at := Some now;
     Metric.last_error := match result with Ok _ => None | Err e => Some (truncate (display e) 240) end |}.

(** ** Handlers *)

Section Interleaved.
(** What other requests do before the [k]-th statement of a handler. *)
Variable between : nat -> RegistryDb -> RegistryDb.

Definition map_node_write_error (e : DbErr) : AppError := map_constraint e NODE_URL_CONFLICT NODE_ROUTE_CONFLICT.

(** A statement of a handler on the tables as the others left them. *)
Definition run (k : nat) (s : NodeService) (statement : RegistryDb -> result RegistryDb DbErr) (f : DbErr -> AppError)
    : ApiResult unit * NodeService :=
  let d := between k (db s) in
  match statement d with
  | Ok d' => (Ok tt, with_db s d')
  | Err e => (Err (f e), with_db s d)
  end.

Definition find_route (d : RegistryDb) (i : Uuid) : ApiResult Route.Model :=
  ok_or (by_id Route.id i (routes d)) (Conflict NODE_ROUTE_CONFLICT).

Definition check_connect (input : NodeInput) : ApiResult unit :=
  match in_connect_ip input with
  | Some target =>
      let? _ := normalize_connect_ip_type (in_connect_ip_type input) in
      validate_connect_target_syntax target (in_connect_ip_type input)
  | None => Ok tt
  end.

(** The columns a handler takes from its input. *)
Definition node_of (i : Uuid) (input : NodeInput) (url : string) (r : Uuid) (connect mode : string) (header secret : option string)
    (created_at now : Z) : Node.Model :=
  {| Node.id := i; Node.name := trim (in_name input); Node.url := url; Node.registry_route_id := r;
     Node.enabled := in_enabled input; Node.priority := in_priority input; Node.cf_preferred := in_cf_preferred input;
     Node.connect_ip_type := connect; Node.connect_ip := in_connect_ip input; Node.auth_mode := mode;
     Node.auth_username := trimmed (in_auth_username input); Node.auth_header := header; Node.auth_secret_enc := secret;
     Node.created_at := created_at; Node.updated_at := now |}.

(** The row [create] builds. *)
Definition create_row (d : RegistryDb) (input : NodeInput) (i : Uuid) (nonce : string) (now : Z)
    : ApiResult (Node.Model * Route.Model) :=
  let? _ := validate_input input in
  let? _ := require_registry_auth_for_secret (in_auth_mode input) in
  let? r := find_route d (in_registry_route_id input) in
  let? validated := validate_upstream net_contains lookup_host api (in_url input) config in
  let canonical := url_to_string (vu_url validated) in
  if is_some (get_node_by_route_and_url d (Route.id r) canonical) then Err (Conflict NODE_URL_CONFLICT)
  else
    let? _ := check_connect input in
    let? secret := seal_secret (in_auth_mode input) (in_auth_secret input) nonce in
    let? connect := normalize_connect_ip_type (in_connect_ip_type input) in
    let? mode := normalized_auth_mode (in_auth_mode input) in
    let? header := normalized_header (in_auth_header input) in
    Ok (node_of i input canonical (Route.id r) connect mode header secret now now, r).

Definition create (s : NodeService) (input : NodeInput) (i : Uuid) (nonce : string) (now : Z)
    : ApiResult NodeView * NodeService :=
  match create_row (db s) input i nonce now with
  | Err e => (Err e, s)
  | Ok (n, r) =>
      match run 0 s (fun d => insert_node d n) map_node_write_error with
      | (Err e, s) => (Err e, s)
      | (Ok _, s) =>
          match run 1 s (fun d => set_node_max_concurrency d i (in_max_concurrency input)) Database with
          | (Err e, s) => (Err e, s)
          | (Ok _, s) =>
              match run 2 s (fun d => upsert_metric d (empty_metric i)) Database with
              | (Err e, s) => (Err e, s)
              | (Ok _, s) => let (v, s) := view_with s n (empty_metric i) r now in (Ok v, s)
              end
          end
      end
  end.

(** The secret an update leaves: none without authentication, the new one if given,
    the old one otherwise. *)
Definition updated_secret (old : option string) (mode : string) (secret : option string) (nonce : string)
    : ApiResult (option string) :=
  if mode =?s "none" then Ok None
  else match secret with Some _ => seal_secret mode secret nonce | None => Ok old end.

Definition update_row (d : RegistryDb) (i : Uuid) (input : NodeInput) (nonce : string) (now : Z)
    : ApiResult (Node.Model * Route.Model) :=
  let? _ := validate_input input in
  let? _ := require_registry_auth_for_secret (in_auth_mode input) in
  let? r := find_route d (in_registry_route_id input) in
  let? validated := validate_upstream net_contains lookup_host api (in_url input) config in
  let? _ := check_connect input in
  let? old := ok_or (get_node d i) (NotFound "node") in
  let canonical := url_to_string (vu_url validated) in
  if is_some_and (get_node_by_route_and_url d (Route.id r) canonical) (fun x => negb (Node.id x =? i)%N)
  then Err (Conflict NODE_URL_CONFLICT)
  else
    let? connect := normalize_connect_ip_type (in_connect_ip_type input) in
    let? mode := normalized_auth_mode (in_auth_mode input) in
    let? header := normalized_header (in_auth_header input) in
    let? secret := updated_secret (Node.auth_secret_enc old) mode (in_auth_secret input) nonce in
    Ok (node_of i input canonical (Route.id r) connect mode header secret (Node.created_at old) now, r).

Definition update (s : NodeService) (i : Uuid) (input : NodeInput) (nonce : string) (now : Z)
    : ApiResult NodeView * NodeService :=
  match update_row (db s) i input nonce now with
  | Err e => (Err e, s)
  | Ok (n, r) =>
      match run 0 s (fun d => save_node d n) map_node_write_error with
      | (Err e, s) => (Err e, s)
      | (Ok _, s) =>
          match run 1 s (fun d => set_node_max_concurrency d i (in_max_concurrency input)) Database with
          | (Err e, s) => (Err e, s)
          | (Ok _, s) =>
              let m := unwrap_or (metric_for (db s) i) (empty_metric i) in
              let (v, s) := view_with s n m r now in (Ok v, s)
          end
      end
  end.

Definition delete (s : NodeService) (i : Uuid) : ApiResult unit * NodeService :=
  match delete_node (db s) i with
  | Err (DbOther m) => (Err (if m =?s node_referenced then Conflict m else Database (DbOther m)), s)
  | Err e => (Err (Database e), s)
  | Ok (n, d) =>
      if n =? 0 then (Err (NotFound "node"), with_db s d)
      else (Ok tt, with_rates (with_db s d) (base.delete i (live_rates s)))
  end.

(** [probe]: the metric is stored, then the view is read. *)
Definition probe (s : NodeService) (i : Uuid) (metric : Node.Model -> Metric.Model) (now : Z)
    : ApiResult NodeView * NodeService :=
  match get_node (db s) i with
  | None => (Err (NotFound "node"), s)
  | Some n =>
      let m := metric n in
      match run 0 s (fun d => upsert_metric d m) Database with
      | (Err e, s) => (Err e, s)
      | (Ok _, s) =>
          match by_id Route.id (Node.registry_route_id n) (routes (db s)) with
          | None => (Err no_route, s)
          | Some r => let (v, s) := view_with s n m r now in (Ok v, s)
          end
      end
  end.
End Interleaved.

(** [probe_all]: the metrics of the enabled nodes, stored as the probes end. *)
Definition probe_all (s : NodeService) (completed : list Metric.Model) : NodeService :=
  foldl (fun s m => match upsert_metric (db s) m with Ok d => with_db s d | Err _ => s end) s completed.

(** ** What the handlers keep true *)

(** A stored node has a name, settings in their ranges, a known authentication mode, an
    allowed header, and a secret only in sealed form. *)
Record node_ok (n : Node.Model) : Prop := {
  no_name : is_empty (Node.name n) = false;
  no_priority : 0 <= Node.priority n <= 1000;
  no_mode : auth_mode_known (Node.auth_mode n) = true;
  no_header : forall h, Node.auth_header n = Some h -> forbidden_header h = false;
  no_secret : forall e, Node.auth_secret_enc n = Some e ->
    exists nonce p, p <> "" /\ slen p <= 4096 /\ Crypto.encrypt prims cipher nonce p = Ok e
}.

Record registry_inv (d : RegistryDb) : Prop := {
  gi_routes : Routes.routes_inv d;
  gi_nodes : Forall node_ok (nodes d)
}.

Lemma normalized_auth_mode_Ok mode m : normalized_auth_mode mode = Ok m -> auth_mode_known m = true.
Proof using Type. unfold normalized_auth_mode. destruct (auth_mode_known _) eqn:E; [|done]. by intros [= <-]. Qed.

Lemma normalized_header_Ok v h x : normalized_header v = Ok h -> h = Some x -> forbidden_header x = false.
Proof.
  unfold normalized_header. destruct (trimmed v) as [t|]; [|by intros [= <-]].
  destruct (parse_header_name t) as [name|]; simpl; [|done]. destruct (forbidden_header name) eqn:E; [done|].
  by intros [= <-] [= <-].
Qed.

Lemma seal_secret_Ok mode secret nonce e x :
  seal_secret mode secret nonce = Ok e -> e = Some x ->
  exists p, secret = Some p /\ p <> "" /\ slen p <= 4096 /\ Crypto.encrypt prims cipher nonce p = Ok x.
Proof.
  unfold seal_secret. destruct (mode =?s "none"); [by intros [= <-]|]. destruct secret as [p|]; [|done].
  destruct (is_empty p) eqn:E; [done|]. destruct (Z.ltb_spec 4096 (slen p)); [done|].
  destruct (Crypto.encrypt _ _ _ _) as [sealed|] eqn:Ec; [|done]. intros [= <-] [= <-].
  exists p. split; [done|]. split; [by intros ->|]. done.
Qed.

Lemma validate_input_Ok input :
  validate_input input = Ok tt -> is_empty (trim (in_name input)) = false /\ 0 <= in_priority input <= 1000 /\
    1 <= in_max_concurrency input <= 64.
Proof using Type.
  unfold validate_input. destruct (is_empty _ || _) eqn:E1; [done|].
  destruct ((in_priority input <? 0) || _) eqn:E2; [done|].
  destruct ((in_max_concurrency input <? 1) || _) eqn:E3; [done|]. bool_hyps. intros _. split; [done|]. lia.
Qed.

Lemma create_row_ok d input i nonce now n r : create_row d input i nonce now = Ok (n, r) -> node_ok n /\ Node.id n = i.
Proof.
  unfold create_row. destruct (validate_input input) as [[]|] eqn:Ev; [|done].
  apply validate_input_Ok in Ev as (Hn & Hp & _).
  destruct (require_registry_auth_for_secret _); [|done]. destruct (find_route _ _) as [rt|]; [|done].
  destruct (validate_upstream _ _ _ _ _) as [v|]; [|done]. destruct (is_some _); [done|].
  destruct (check_connect _); [|done]. destruct (seal_secret _ _ _) as [secret|] eqn:Es; [|done].
  destruct (normalize_connect_ip_type _) as [c|]; [|done]. destruct (normalized_auth_mode _) as [m|] eqn:Em; [|done].
  destruct (normalized_header _) as [h|] eqn:Eh; [|done]. intros [= <- <-]. split; [|done]. split; simpl; try done.
  - by eapply normalized_auth_mode_Ok.
  - intros x ->. by eapply normalized_header_Ok.
  - intros x ->. destruct (seal_secret_Ok _ _ _ _ x Es eq_refl) as (p & _ & ? & ? & ?). eauto.
Qed.

Lemma updated_secret_Ok old mode secret nonce e x :
  updated_secret old mode secret nonce = Ok e -> e = Some x ->
  old = Some x \/ exists p, p <> "" /\ slen p <= 4096 /\ Crypto.encrypt prims cipher nonce p = Ok x.
Proof.
  unfold updated_secret. destruct (mode =?s "none"); [by intros [= <-]|]. destruct secret as [v|].
  - intros H1 H2. destruct (seal_secret_Ok _ _ _ _ x H1 H2) as (p & _ & ? & ? & ?). right. eauto.
  - intros [= <-] ->. by left.
Qed.

Lemma get_node_elem d i n : get_node d i = Some n -> n ∈ nodes d /\ Node.id n = i.
Proof using Type. apply by_id_Some. Qed.

Lemma update_row_ok d i input nonce now n r :
  Forall node_ok (nodes d) -> update_row d i input nonce now = Ok (n, r) -> node_ok n /\ Node.id n = i.
Proof.
  intros Hd. unfold update_row. destruct (validate_input input) as [[]|] eqn:Ev; [|done].
  apply validate_input_Ok in Ev as (Hn & Hp & _).
  destruct (require_registry_auth_for_secret _); [|done]. destruct (find_route _ _) as [rt|]; [|done].
  destruct (validate_upstream _ _ _ _ _) as [v|]; [|done]. destruct (check_connect _); [|done].
  destruct (get_node d i) as [old|] eqn:Eo; simpl; [|done]. destruct (is_some_and _ _); [done|].
  destruct (normalize_connect_ip_type _) as [c|]; [|done]. destruct (normalized_auth_mode _) as [m|] eqn:Em; [|done].
  destruct (normalized_header _) as [h|] eqn:Eh; [|done]. destruct (updated_secret _ _ _ _) as [e|] eqn:Es; [|done].
  intros [= <- <-]. split; [|done]. apply get_node_elem in Eo as [Hold _]. rewrite Forall_forall in Hd.
  split; simpl; try done.
  - by eapply normalized_auth_mode_Ok.
  - intros x ->. by eapply normalized_header_Ok.
  - intros x ->. destruct (updated_secret_Ok _ _ _ _ _ x Es eq_refl) as [Hx|(p & ? & ? & ?)]; [|eauto].
    by apply (no_secret _ (Hd _ Hold)).
Qed.

(** Statements on the nodes and their satellites keep the routes. *)
Lemma inv_nodes d d' :
  registry_inv d -> db_wf d' -> routes d' = routes d -> Forall node_ok (nodes d') -> registry_inv d'.
Proof.
  intros [[? ? ? ?] ?] Hwf Hr Hn. split; [|done]. split; [done|..]; unfold route_ids in *; by rewrite Hr.
Qed.

Lemma set_limit_kept i n d d' : registry_inv d -> set_node_max_concurrency d i n = Ok d' -> registry_inv d'.
Proof.
  intros Hd H. apply set_limit_wf in H as (? & ? & Hn & _); [|apply Hd]. eapply inv_nodes; try done. rewrite Hn. apply Hd.
Qed.

Lemma upsert_kept m d d' : registry_inv d -> upsert_metric d m = Ok d' -> registry_inv d'.
Proof.
  intros Hd H. apply upsert_metric_wf in H as (? & ? & Hn & _); [|apply Hd]. eapply inv_nodes; try done. rewrite Hn. apply Hd.
Qed.

Section Kept.
Variable between : nat -> RegistryDb -> RegistryDb.
Hypothesis between_inv : forall k d, registry_inv d -> registry_inv (between k d).

Lemma run_kept k s statement f r s' :
  registry_inv (db s) -> (forall d d', registry_inv d -> statement d = Ok d' -> registry_inv d') ->
  run between k s statement f = (r, s') -> registry_inv (db s').
Proof.
  intros Hs Hst. unfold run. destruct (statement _) as [d'|e] eqn:E; intros [= <- <-]; simpl; [|by apply between_inv].
  eapply Hst; [|exact E]. by apply between_inv.
Qed.

Lemma live_rate_db s i now : db (live_rate s i now).2 = db s.
Proof using Type.
  unfold live_rate. destruct (live_rates s !! i) as [w|]; [|done]. by destruct (RateWindow.rate w now).
Qed.

Lemma view_with_db s n m r now : db (view_with s n m r now).2 = db s.
Proof using Type.
  unfold view_with. pose proof (live_rate_db s (Node.id n) now). by destruct (live_rate s _ now).
Qed.

Ltac keep_view := match goal with
  |- context [view_with ?s ?n ?m ?r ?now] =>
    let H := fresh in pose proof (view_with_db s n m r now) as H; destruct (view_with s n m r now); simpl in *; rewrite H
  end.

Lemma create_kept s input i nonce now :
  registry_inv (db s) -> registry_inv (db (create between s input i nonce now).2).
Proof.
  intros Hs. unfold create. destruct (create_row _ _ _ _ _) as [[n r]|e] eqn:Er; [|done].
  apply create_row_ok in Er as [Hn Hi].
  destruct (run between 0 s _ _) as [[[]|e] s1] eqn:E1; apply run_kept in E1; try done.
  2,3: intros d d' Hd H; apply insert_node_wf in H as (? & ? & Hl); [|apply Hd]; eapply inv_nodes; try done;
       rewrite Hl; apply Forall_app; split; [apply Hd|by constructor].
  destruct (run between 1 s1 _ _) as [[[]|e] s2] eqn:E2; (apply run_kept in E2; [|done|by intros; eapply set_limit_kept]); [|done].
  destruct (run between 2 s2 _ _) as [[[]|e] s3] eqn:E3; (apply run_kept in E3; [|done|by intros; eapply upsert_kept]); [|done].
  by keep_view.
Qed.

Lemma update_kept s i input nonce now :
  registry_inv (db s) -> registry_inv (db (update between s i input nonce now).2).
Proof.
  intros Hs. unfold update. destruct (update_row _ _ _ _ _) as [[n r]|e] eqn:Er; [|done].
  apply update_row_ok in Er as [Hn Hi]; [|apply Hs].
  destruct (run between 0 s _ _) as [[[]|e] s1] eqn:E1; apply run_kept in E1; try done.
  2,3: intros d d' Hd H; apply save_node_wf in H as (? & ? & Hl); [|apply Hd]; eapply inv_nodes; try done;
       rewrite Hl; pose proof (gi_nodes _ Hd) as Hf; rewrite Forall_forall in *; intros x [->|[Hx _]]%replace_elem; auto.
  destruct (run between 1 s1 _ _) as [[[]|e] s2] eqn:E2; (apply run_kept in E2; [|done|by intros; eapply set_limit_kept]); [|done].
  by keep_view.
Qed.

Lemma delete_kept s i : registry_inv (db s) -> registry_inv (db (delete s i).2).
Proof using Type.
  intros Hs. unfold delete. destruct (delete_node (db s) i) as [[n d]|[]] eqn:E; try done.
  assert (registry_inv d) as Hd.
  { pose proof E as E2. apply delete_node_wf in E2 as (Hwf & Hr & _); [|apply Hs]. eapply inv_nodes; try done.
    unfold delete_node in E. case_bool_decide; [done|]. destruct (get_node _ _); simplify_eq/=; [|apply Hs].
    apply Forall_filter, Hs. }
  by destruct (n =? 0).
Qed.

Lemma probe_kept s i metric now : registry_inv (db s) -> registry_inv (db (probe between s i metric now).2).
Proof.
  intros Hs. unfold probe. destruct (get_node _ _) as [n|]; [|done].
  destruct (run between 0 s _ _) as [[[]|e] s1] eqn:E1; (apply run_kept in E1; [|done|by intros; eapply upsert_kept]); [|done].
  destruct (by_id _ _ _); [|done]. by keep_view.
Qed.

Lemma probe_all_kept completed s : registry_inv (db s) -> registry_inv (db (probe_all s completed)).
Proof using Type.
  revert s. induction completed as [|m l IH]; intros s Hs; [done|]. simpl. apply IH.
  destruct (upsert_metric (db s) m) as [d|] eqn:E; [|done]. by eapply upsert_kept.
Qed.

Lemma transfer_kept s i now bytes elapsed success measure s' :
  registry_inv (db s) -> record_transfer_observation s i now bytes elapsed success measure = Some s' -> registry_inv (db s').
Proof using Type.
  intros Hs. unfold record_transfer_observation. set (s1 := if _ : bool then _ else s).
  assert (db s1 = db s) as E by (unfold s1; by destruct (_ && _)). rewrite E.
  destruct (metrics (db s) !! i) as [m|] eqn:Em; [|intros [= <-]; by rewrite E].
  destruct (observe_transfer m bytes elapsed success measure) as [m'|] eqn:Eo; [|done]. intros [= <-]. simpl.
  assert (Metric.node_id m' = Metric.node_id m) as Hid.
  { unfold observe_transfer in Eo. by repeat case_match; simplify_eq/=. }
  destruct Hs as [Hr Hn]. pose proof (wf_metrics _ (Routes.ri_wf _ Hr) _ _ Em) as [Hmi Hmn].
  apply (inv_nodes (db s)); try done. destruct (Routes.ri_wf _ Hr). split; try done. simpl.
  apply map_Forall_insert_2; [split; [congruence|done]|done].
Qed.
End Kept.

(** ** Every request *)

Variable parse_authority : string -> option (string * option Z).

(** A request served while others run: [between] is any effect of theirs that keeps
    the tables consistent, which by the theorem below is what every request does. *)
Inductive request_step (s : NodeService) : NodeService -> Prop :=
| step_create_route between input i now : (forall d, registry_inv d -> registry_inv (between d)) ->
    request_step s (with_db s (Routes.create parse_authority between (db s) input i now).2)
| step_update_route between i input now : (forall d, registry_inv d -> registry_inv (between d)) ->
    request_step s (with_db s (Routes.update parse_authority between (db s) i input now).2)
| step_delete_route between i : (forall d, registry_inv d -> registry_inv (between d)) ->
    request_step s (with_db s (Routes.delete_route_request between (db s) i).2)
| step_create_node between input i nonce now : (forall k d, registry_inv d -> registry_inv (between k d)) ->
    request_step s (create between s input i nonce now).2
| step_update_node between i input nonce now : (forall k d, registry_inv d -> registry_inv (between k d)) ->
    request_step s (update between s i input nonce now).2
| step_delete_node i : request_step s (delete s i).2
| step_probe between i metric now : (forall k d, registry_inv d -> registry_inv (between k d)) ->
    request_step s (probe between s i metric now).2
| step_probe_all completed : request_step s (probe_all s completed)
| step_transfer i now bytes elapsed success measure s' :
    record_transfer_observation s i now bytes elapsed success measure = Some s' -> request_step s s'
| step_live i now bytes : request_step s (record_live_bytes s i now bytes)
| step_pull event d : insert_pull_event (db s) event = Ok d -> request_step s (with_db s d)
| step_prune cutoff n : request_step s (with_db s (prune_pull_events (db s) cutoff n).2)
| step_references l : request_step s (with_db s {| routes := routes (db s); nodes := nodes (db s);
    metrics := metrics (db s); limits := limits (db s); pulls := pulls (db s); referenced := l |}).

Lemma route_step_kept (between : RegistryDb -> RegistryDb) d d' :
  registry_inv d -> registry_inv (between d) -> Routes.kept between d d' -> registry_inv d'.
Proof using Type. intros [_ Hn] [_ Hb] [Hr [E|E]]; (split; [done|]); by rewrite E. Qed.

Lemma request_step_kept s s' : request_step s s' -> registry_inv (db s) -> registry_inv (db s').
Proof.
  intros H Hs. destruct H as
    [between input i now Hb|between i input now Hb|between i Hb|between input i nonce now Hb|between i input nonce now Hb
    |i|between i metric now Hb|completed|i now bytes elapsed success measure s' H|i now bytes|event d H|cutoff n|l].
  - eapply (route_step_kept between); [done|by apply Hb|]. apply Routes.route_create_kept; [apply Hs|by apply Hb].
  - eapply (route_step_kept between); [done|by apply Hb|]. apply Routes.route_update_kept; [apply Hs|by apply Hb].
  - eapply (route_step_kept between); [done|by apply Hb|]. apply Routes.route_delete_kept; [apply Hs|by apply Hb].
  - by apply create_kept.
  - by apply update_kept.
  - by apply delete_kept.
  - by apply probe_kept.
  - by apply probe_all_kept.
  - by eapply transfer_kept.
  - unfold record_live_bytes. by destruct (bytes =? 0).
  - apply insert_pull_wf in H as (Hwf & Hr & Hn); [|apply Hs]. eapply inv_nodes; try done. simpl. rewrite Hn. apply Hs.
  - apply (inv_nodes (db s)); try done; [apply prune_pull_wf, Hs|apply Hs].
  - destruct Hs as [[Hw ? ? ?] ?]. split; [|done]. split; try done. by destruct Hw.
Qed.

(** ** Properties *)

(** The configuration stays consistent.  Any number of administrators, transfers and
    probes running at once, in any interleaving of their checks and writes, keep the
    registry tables well formed: route keys, prefixes and node places unique, at most
    one default route, the built-in routes in place under their keys, every node on an
    existing route with settings in range and its secret only in sealed form, every
    metric and limit on an existing node and every pull event on an existing route. *)
Theorem registry_invariant s s' :
  rtc request_step s s' -> registry_inv (db s) -> registry_inv (db s').
Proof. induction 1 as [|s1 s2 s3 H _ IH]; [done|]. intros Hs. by apply IH, (request_step_kept s1 s2). Qed.

(** Credentials come back as they were given.  A node created with an authentication
    mode is stored with its secret sealed, and the request authentication built from
    the stored row is exactly the one configured: the trimmed user name with the
    secret, the bearer token, or the normalised header with the secret as its value. *)
Theorem node_auth_roundtrip d input i nonce now n r p :
  Crypto.documented prims -> String.length nonce = 12%nat -> Crypto.utf8 prims p = true -> in_auth_secret input = Some p ->
  (forall s name, parse_header_name s = Some name -> parse_header_name name = Some name) ->
  create_row d input i nonce now = Ok (n, r) ->
  (in_auth_mode input = "basic" -> forall u, trimmed (in_auth_username input) = Some u -> apply_auth n = Ok (BasicAuth u p)) /\
  (in_auth_mode input = "bearer" -> apply_auth n = Ok (BearerAuth p)) /\
  (in_auth_mode input = "header" -> forall h v name, trimmed (in_auth_header input) = Some h -> header_value p = Some v ->
     parse_header_name h = Some name -> apply_auth n = Ok (HeaderAuth name v)).
Proof.
  intros Hdoc Hnonce Hu Hsec Hname. unfold create_row. destruct (validate_input input) as [[]|]; [|done].
  destruct (require_registry_auth_for_secret _); [|done]. destruct (find_route _ _) as [rt|]; [|done].
  destruct (validate_upstream _ _ _ _ _) as [v|]; [|done]. destruct (is_some _); [done|].
  destruct (check_connect _); [|done]. destruct (seal_secret _ _ _) as [secret|] eqn:Es; [|done].
  destruct (normalize_connect_ip_type _) as [c|]; [|done]. destruct (normalized_auth_mode _) as [m|] eqn:Em; [|done].
  destruct (normalized_header _) as [h|] eqn:Eh; [|done]. intros [= <- <-]. rewrite Hsec in Es.
  assert (forall mode, in_auth_mode input = mode -> mode <> "none" -> is_empty mode = false ->
    m = mode /\ exists x, secret = Some x /\ Crypto.decrypt prims cipher x = Ok p) as Hm.
  { intros mode <- Hne Hemp. split.
    - unfold normalized_auth_mode in Em. rewrite Hemp in Em. destruct (auth_mode_known _); [|done]. by injection Em.
    - unfold seal_secret in Es. rewrite (proj2 (str_eqb_neq _ _) Hne) in Es. destruct (is_empty p); [done|].
      destruct (4096 <? slen p); [done|]. destruct (Crypto.encrypt _ _ _ _) as [x|] eqn:Ex; [|done].
      injection Es as <-. exists x. split; [done|]. by eapply Crypto.decrypt_encrypt. }
  unfold apply_auth. simpl. split; [|split].
  - intros E u Hun. destruct (Hm _ E ltac:(done) eq_refl) as [-> (x & -> & Hx)]. simpl. rewrite Hx, Hun. done.
  - intros E. destruct (Hm _ E ltac:(done) eq_refl) as [-> (x & -> & Hx)]. simpl. by rewrite Hx.
  - intros E hd hv name Hhd Hhv Hn. destruct (Hm _ E ltac:(done) eq_refl) as [-> (x & -> & Hx)]. simpl. rewrite Hx.
    unfold normalized_header in Eh. rewrite Hhd, Hn in Eh. simpl in Eh. destruct (forbidden_header name); [done|].
    injection Eh as <-. simpl. rewrite (Hname _ _ Hn). simpl. by rewrite Hhv.
Qed.

(** An omitted authentication mode is not the mode [none].  The input documents the
    empty mode as its default and stores it as [none], but the checks read it as a mode
    with a secret: without a secret such a node is always refused, and with one it is
    stored as a node without authentication that keeps a secret. *)
Theorem default_auth_mode_refused d input i nonce now :
  in_auth_mode input = "" ->
  match create_row d input i nonce now with
  | Err _ => True
  | Ok (n, _) => registry_auth = true /\ is_Some (in_auth_secret input) /\
      Node.auth_mode n = "none" /\ is_Some (Node.auth_secret_enc n)
  end.
Proof.
  intros E. unfold create_row. destruct (validate_input input) as [[]|]; [|done].
  destruct (require_registry_auth_for_secret _) eqn:Er; [|done]. destruct (find_route _ _) as [rt|]; [|done].
  destruct (validate_upstream _ _ _ _ _) as [v|]; [|done]. destruct (is_some _); [done|].
  destruct (check_connect _); [|done]. destruct (seal_secret _ _ _) as [secret|] eqn:Es; [|done].
  destruct (normalize_connect_ip_type _) as [c|]; [|done]. destruct (normalized_auth_mode _) as [m|] eqn:Em; [|done].
  destruct (normalized_header _) as [h|] eqn:Eh; [|done]. rewrite E in *.
  unfold require_registry_auth_for_secret in Er. simpl in Er. destruct registry_auth; [|done]. split; [done|].
  unfold seal_secret in Es. simpl in Es. destruct (in_auth_secret input) as [p|]; [|done]. split; [by eexists|].
  vm_compute in Em. injection Em as <-. split; [done|]. simpl.
  destruct (is_empty p); [done|]. destruct (4096 <? slen p); [done|].
  destruct (Crypto.encrypt _ _ _ _); [|done]. injection Es as <-. by eexists.
Qed.
End Service.

Lemma sql_int_Some z x : sql_int z = Some x -> x = z /\ - i64_max - 1 <= z <= i64_max.
Proof. unfold sql_int. destruct (_ && _) eqn:E; [|done]. intros [= <-]. bool_hyps. lia. Qed.

Lemma smoothed_speed_between speed bps x :
  0 < speed -> 0 <= bps -> smoothed_speed speed bps = Some x -> Z.min speed bps <= x <= Z.max speed bps.
Proof.
  intros Hs Hb. unfold smoothed_speed. destruct (Z.leb_spec speed 0); [lia|].
  destruct (sql_mul speed 7) as [a|] eqn:Ea; [|done]. apply sql_int_Some in Ea as [-> _].
  destruct (sql_add _ _) as [c|] eqn:Ec; [|done]. apply sql_int_Some in Ec as [-> Hc]. intros Hd.
  apply sql_int_Some in Hd as [-> _]. assert (Z.min (bps * 3) i64_max = bps * 3) as -> by (unfold i64_max in *; lia).
  rewrite Z.quot_div_nonneg by lia. pose proof (Z.div_mod (speed * 7 + bps * 3) 10 ltac:(lia)).
  pose proof (Z.mod_pos_bound (speed * 7 + bps * 3) 10 ltac:(lia)). lia.
Qed.

(** Transfer statistics move the way the transfers do.  A failed transfer leaves the
    speeds, the byte count and the health of a node alone; a successful one adds
    exactly its bytes and makes the node healthy, and a measured one moves the smoothed
    speed to a value between the old speed and the measured rate. *)
Theorem transfer_metric_smoothed m bytes elapsed success measure m' :
  observe_transfer m bytes elapsed success measure = Some m' ->
  (success = false -> Metric.speed_bps m' = Metric.speed_bps m /\ Metric.current_bps m' = Metric.current_bps m /\
     Metric.total_bytes m' = Metric.total_bytes m /\ Metric.healthy m' = Metric.healthy m) /\
  (success = true -> Metric.healthy m' = true /\
     Metric.total_bytes m' = Metric.total_bytes m + (if 0 <? bytes then Z.min bytes i64_max else 0)) /\
  (0 < Metric.speed_bps m ->
     Metric.speed_bps m' = Metric.speed_bps m \/
     Z.min (Metric.speed_bps m) (Metric.current_bps m') <= Metric.speed_bps m' <=
       Z.max (Metric.speed_bps m) (Metric.current_bps m')).
Proof.
  unfold observe_transfer. set (counted := success && (0 <? bytes)). set (timed := measure && counted && _).
  destruct (if counted then _ else _) as [total|] eqn:Et; [|done].
  destruct (if timed then _ else _) as [speed|] eqn:Ev; [|done]. intros [= <-]. simpl. split; [|split].
  - intros ->. unfold timed, counted in *. rewrite andb_false_r in *. simpl in *. by simplify_eq.
  - intros ->. split; [done|]. unfold counted in Et. simpl in Et. destruct (0 <? bytes); [|simplify_eq; lia].
    by apply sql_int_Some in Et as [-> _].
  - intros Hs. destruct timed; [|simplify_eq; by left]. right. apply smoothed_speed_between; [done| |done].
    unfold measured_bps. pose proof (f64_to_u64_range (RateWindow.fmin (f64_of_Z bytes / as_secs_f64 elapsed)%f64 (f64_of_Z i64_max))) as [? _].
    assert (0 <= i64_max) by (unfold i64_max; lia). lia.
Qed.
End Nodes.

(** ** Witnesses *)

Module NodesWitness.
Import Tables Nodes RoutesWitness.

(** A cipher that appends a tag, and a URL that is its string. *)
Definition toy_prims : Crypto.Primitives unit :=
  {| Crypto.new_from_slice := fun _ => Some tt;
     Crypto.aead_encrypt := fun _ _ p => Some (p +:+ "#");
     Crypto.aead_decrypt := fun _ _ c => strip_suffix "#" c;
     Crypto.base64_encode := fun s => s; Crypto.base64_decode := fun s => Some s;
     Crypto.hex_decode := fun s => Some s; Crypto.utf8 := fun _ => true |}.

Lemma strip_suffix_app s t : strip_suffix t (s +:+ t) = Some s.
Proof.
  induction s as [|c s IH].
  - change ("" +:+ t) with t. destruct t; cbn [strip_suffix]; by rewrite str_eqb_refl.
  - change (String c s +:+ t) with (String c (s +:+ t)). cbn [strip_suffix]. rewrite IH.
    destruct (String c (s +:+ t) =?s t) eqn:E; [|done]. apply str_eqb_eq in E. apply (f_equal String.length) in E.
    simpl in E. rewrite str_length_app in E. lia.
Qed.

Lemma toy_documented : Crypto.documented toy_prims.
Proof.
  split; [done|]. intros key nonce p c [= <-]. split; [apply strip_suffix_app|].
  intros E. apply (f_equal String.length) in E. rewrite str_length_app in E. simpl in E. lia.
Qed.

Definition custom_route : Routes.RegistryRouteInput :=
  {| Routes.i_key := " Mirror "; Routes.i_name := "Mirror"; Routes.i_canonical_registry := "Quay.io";
     Routes.i_path_prefix := Some "quay"; Routes.i_repository_mode := "passthrough"; Routes.i_is_default := false;
     Routes.i_enabled := true |}.

Definition basic_node : NodeInput :=
  {| in_name := " edge "; in_url := "https://registry.example/"; in_registry_route_id := 7; in_enabled := true;
     in_priority := 10; in_max_concurrency := 4; in_cf_preferred := false; in_connect_ip_type := ""; in_connect_ip := None;
     in_auth_mode := "basic"; in_auth_username := Some " user "; in_auth_header := None; in_auth_secret := Some "s3cret" |}.

Definition nonce : string := "abcdefghijkl".

(** Header names are lower-cased and values kept. *)
Definition toy_header (s : string) : option string := Some (to_ascii_lowercase s).

Definition start : NodeService := {| db := seeded; live_rates := ∅ |}.

Abbreviation create_here := (create toy_prims (Some tt) SecurityWitness.cidr_contains SecurityWitness.dns SecurityWitness.toy_url id
  toy_header (fun x => x) SecurityWitness.config true Scheduling.Balanced (fun _ d => d)).

Definition routed : NodeService :=
  with_db start (Routes.create SecurityWitness.authority (fun d => d) (db start) custom_route 7 1).2.
Definition staffed : NodeService := (create_here routed basic_node 9 nonce 2).2.

(** A route and an authenticated node on it are created; the tables stay consistent. *)
Lemma registry_invariant_witness :
  length (nodes (db staffed)) = 1%nat /\ registry_inv toy_prims (Some tt) (db staffed).
Proof.
  split; [vm_compute; reflexivity|].
  refine (registry_invariant toy_prims (Some tt) SecurityWitness.cidr_contains SecurityWitness.dns SecurityWitness.toy_url id
    toy_header (fun x => x) SecurityWitness.config true Scheduling.Balanced SecurityWitness.authority start staffed _ _).
  - apply rtc_l with routed; [by apply step_create_route|]. apply rtc_once. by apply step_create_node.
  - split; [apply seeded_routes|constructor].
Defined.

Definition basic_row : Node.Model :=
  {| Node.id := 9; Node.name := "edge"; Node.url := "https://registry.example/"; Node.registry_route_id := 7;
     Node.enabled := true; Node.priority := 10; Node.cf_preferred := false; Node.connect_ip_type := "ip";
     Node.connect_ip := None; Node.auth_mode := "basic"; Node.auth_username := Some "user"; Node.auth_header := None;
     Node.auth_secret_enc := Some "abcdefghijkls3cret#"; Node.created_at := 2; Node.updated_at := 2 |}.

Definition mirror_row : Route.Model :=
  {| Route.id := 7; Route.key := "mirror"; Route.name := "Mirror"; Route.canonical_registry := "quay.io";
     Route.path_prefix := Some "quay"; Route.repository_mode := "passthrough"; Route.is_default := false;
     Route.enabled := true; Route.created_at := 1; Route.updated_at := 1 |}.

Lemma node_auth_roundtrip_witness :
  apply_auth toy_prims (Some tt) toy_header Some basic_row = Ok (BasicAuth "user" "s3cret").
Proof.
  refine (proj1 (node_auth_roundtrip toy_prims (Some tt) SecurityWitness.cidr_contains SecurityWitness.dns
    SecurityWitness.toy_url id toy_header Some SecurityWitness.config true (db routed) basic_node 9 nonce 2 basic_row mirror_row
    "s3cret" toy_documented eq_refl eq_refl eq_refl _ _) eq_refl "user" _).
  - intros s name [= <-]. unfold toy_header. by rewrite to_ascii_lowercase_idemp.
  - vm_compute. reflexivity.
  - vm_compute. reflexivity.
Defined.

Definition open_node : NodeInput :=
  {| in_name := "edge"; in_url := "https://registry.example/"; in_registry_route_id := 7; in_enabled := true;
     in_priority := 10; in_max_concurrency := 4; in_cf_preferred := false; in_connect_ip_type := "ip"; in_connect_ip := None;
     in_auth_mode := ""; in_auth_username := None; in_auth_header := None; in_auth_secret := None |}.

(** A plain node without an explicit mode is refused, with or without registry
    authentication; with [none] it is accepted. *)
Example open_node_refused :
  (forall b, is_ok (create_row toy_prims (Some tt) SecurityWitness.cidr_contains SecurityWitness.dns SecurityWitness.toy_url id
    toy_header SecurityWitness.config b (db routed) open_node 9 nonce 2) = false).
Proof. intros []; vm_compute; reflexivity. Qed.

Lemma default_auth_mode_refused_witness :
  match create_row toy_prims (Some tt) SecurityWitness.cidr_contains SecurityWitness.dns SecurityWitness.toy_url id
    toy_header SecurityWitness.config true (db routed) open_node 9 nonce 2 with
  | Err _ => True
  | Ok (n, _) => true = true /\ is_Some (in_auth_secret open_node) /\ Node.auth_mode n = "none" /\ is_Some (Node.auth_secret_enc n)
  end.
Proof.
  exact (default_auth_mode_refused toy_prims (Some tt) SecurityWitness.cidr_contains SecurityWitness.dns SecurityWitness.toy_url
    id toy_header SecurityWitness.config true (db routed) open_node 9 nonce 2 eq_refl).
Defined.

Definition measured : Metric.Model :=
  {| Metric.node_id := 9; Metric.healthy := false; Metric.latency_ms := 3; Metric.speed_bps := 1000;
     Metric.success_rate := f64_ratio 1 2; Metric.current_bps := 10; Metric.total_bytes := 5;
     Metric.last_checked_at := None; Metric.last_error := None |}.

Lemma transfer_metric_smoothed_witness :
  match observe_transfer measured 4000 second true true with
  | Some m => Metric.total_bytes m = 4005 /\ Metric.speed_bps m = 1900 /\ 1000 <= Metric.speed_bps m <= 4000
  | None => False
  end.
Proof.
  destruct (observe_transfer measured 4000 second true true) as [m|] eqn:E; [|vm_compute in E; discriminate].
  destruct (transfer_metric_smoothed _ _ _ _ _ _ E) as (_ & Htotal & _). split; [by apply Htotal|].
  vm_compute in E. injection E as <-. simpl. lia.
Defined.
End NodesWitness.
