(* ===== verification/Paths.v ===== *)
(** * Registry paths

    The part of src/src/registry.rs that decides where a request goes: the route and
    upstream path of a request path, the digest and pull subject a path names, the
    validators of a stored object and the headers and statuses a proxied response
    passes on. *)

From stdpp Require Import base gmap sets list strings.
From Stdlib Require Import ZArith Lia Ascii.
From S2P Require Import Prelude Text Errors Model Tables Routes Http.

#[local] Set Default Proof Using "Type*".

Module Paths.
Import Tables Routes.

(** The path and the query of an [http::Uri] in origin form. *)
Record Uri := { u_path : string; u_query : option string }.

(** A request, and the methods the proxy reads with. *)
Record Request := { q_method : string; q_uri : Uri; q_headers : HeaderMap }.

Definition read_method (m : string) : option Method :=
  if m =?s "GET" then Some GET else if m =?s "HEAD" then Some HEAD else None.

(** [StatusCode::into_response] and a response with a text. *)
Definition text_response (status : Z) (h : HeaderMap) (text : string) : Response :=
  {| r_status := status; r_headers := h; r_content_length := None;
     r_body := if is_empty text then [] else [Data (String.list_byte_of_string text)] |}.
Definition status_response (status : Z) : Response := text_response status [] "".

Definition with_query (path : string) (query : option string) : string :=
  match query with Some q => path +:+ String "?" q | None => path end.

Definition path_and_query (u : Uri) : string := with_query (u_path u) (u_query u).

Definition require_enabled_route (r : Route.Model) : ApiResult Route.Model :=
  if Route.enabled r then Ok r else Err (Unavailable ("Registry route '" +:+ Route.key r +:+ "' is disabled")).

Record ResolvedRegistryPath := { upstream_path : string; resolved_route : Route.Model }.

(** The repository of a path ends at the last marker. *)
Definition markers : list string := ["/manifests/"; "/blobs/"; "/tags/"].

Definition last_marker (rest : string) : option nat :=
  let found := omap (fun m => rfind m rest) markers in
  max_by (fun a b => Nat.compare a b) found.

(** A path outside [/v2/<repository>/<marker>/...] goes to the default route as it is. *)
Definition unrouted (d : RegistryDb) (u : Uri) : ApiResult ResolvedRegistryPath :=
  let? route := default_route d in
  let? route := require_enabled_route route in
  Ok {| upstream_path := path_and_query u; resolved_route := route |}.

Definition first_segment (repository : string) : string := unwrap_or (head (split_char "/"%char repository)) "".

(** The route of a repository and the repository below it.  [d'] are the tables at the
    second lookup. *)
Definition select_route (d d' : RegistryDb) (repository : string) : ApiResult (Route.Model * string) :=
  match by_path_prefix d (first_segment repository) with
  | Some route =>
      let? prefix := ok_or (Route.path_prefix route) (Internal "prefixed route has no path prefix") in
      let? repository := ok_or (let* v := strip_prefix prefix repository in strip_prefix "/" v)
                           (BadRequest "Registry route has no repository") in
      Ok (route, repository)
  | None => let? route := default_route d' in Ok (route, repository)
  end.

Definition library_repository (mode : RepositoryMode) (repository : string) : string :=
  match mode with
  | DockerHubLibrary => if contains "/" repository then repository else "library/" +:+ repository
  | Passthrough => repository
  end.

Definition route_registry_path (d d' : RegistryDb) (u : Uri) : ApiResult ResolvedRegistryPath :=
  match strip_prefix "/v2/" (u_path u) with
  | None => unrouted d u
  | Some rest =>
      match last_marker rest with
      | None => unrouted d u
      | Some index =>
          let repository := str_take index rest in
          let suffix := str_drop index rest in
          let? selected := select_route d d' repository in
          let (route, repository) := selected : Route.Model * string in
          let? route := require_enabled_route route in
          let? mode := parse_mode (Route.repository_mode route) in
          let repository := library_repository mode repository in
          if is_empty repository then Err (BadRequest "Registry repository is empty")
          else Ok {| upstream_path := with_query ("/v2/" +:+ repository +:+ suffix) (u_query u); resolved_route := route |}
      end
  end.

Definition valid_sha256_digest (value : string) : bool :=
  (slen value =? 71) && starts_with "sha256:" value && all_bytes is_ascii_hexdigit (str_drop 7 value).

(** The checks on the path of a request to [/v2]. *)
Definition path_invalid (path : string) : bool :=
  (4096 <? slen path) || negb (starts_with "/v2" path) || contains ".." path.

(** The digest of a blob path. *)
Definition before_query (path : string) : string :=
  match split_once "?" path with Some (p, _) => p | None => path end.

Definition blob_digest (path : string) : ApiResult string :=
  let? parts := ok_or (rsplit_once "/blobs/" (before_query path)) (BadRequest "invalid Blob path") in
  let digest := (parts : string * string).2 in
  if valid_sha256_digest digest then Ok digest else Err (BadRequest "invalid Blob digest").

Definition manifest_pull_subject (path : string) : option (string * string) :=
  let* path := head (split_char "?"%char path) in
  let* path := strip_prefix "/v2/" path in
  let* (repository, reference) := rsplit_once "/manifests/" path in
  if is_empty repository || is_empty reference || (1024 <? slen repository) || (256 <? slen reference)
     || valid_sha256_digest reference
  then None else Some (repository, reference).

(** ** Validators and headers *)

(** [HeaderMap::insert]: one value, in place of those the name had. *)
Definition header_insert (h : HeaderMap) (name value : string) : HeaderMap :=
  List.filter (fun p : string * string => negb (p.1 =?s name)) h ++ [(name, value)].

(** [str::parse::<HeaderValue>]: no control characters but the tab. *)
Definition value_byte (c : ascii) : bool := ((32 <=? code c) && negb (code c =? 127)) || (code c =? 9).
Definition parse_value (v : string) : option string := if all_bytes value_byte v then Some v else None.

Definition quoted (s : string) : string := chr 34 +:+ s +:+ chr 34.

Definition insert_parsed (h : HeaderMap) (name value : string) : HeaderMap :=
  match parse_value value with Some v => header_insert h name v | None => h end.

Definition set_registry_validators (h : HeaderMap) (digest : string) : HeaderMap :=
  let h := insert_parsed h "docker-content-digest" digest in
  let h := insert_parsed h "etag" (quoted digest) in
  header_insert h "docker-distribution-api-version" "registry/2.0".

Definition is_quote (c : ascii) : bool := Ascii.eqb c (ascii_of_N 34).

Definition etag_candidate (digest candidate : string) : bool :=
  let candidate := unwrap_or (strip_prefix "W/" (trim candidate)) (trim candidate) in
  (candidate =?s "*") || (trim_matches is_quote candidate =?s digest).

Definition etag_matches (value : option string) (digest : string) : bool :=
  is_some_and (let* v := value in to_str v) (fun v => existsb (etag_candidate digest) (split_char ","%char v)).

Definition copied_headers : list string :=
  ["content-type"; "content-length"; "content-range"; "accept-ranges"; "etag"; "last-modified"; "location";
   "www-authenticate"; "cache-control"; "docker-content-digest"; "docker-distribution-api-version"].

Definition copy_header (source : HeaderMap) (destination : HeaderMap) (name : string) : HeaderMap :=
  match header_get source name with Some v => header_insert destination name v | None => destination end.

Definition copy_headers (names : list string) (source destination : HeaderMap) : HeaderMap :=
  fold_left (copy_header source) names destination.

Definition copy_response_headers (source destination : HeaderMap) : HeaderMap := copy_headers copied_headers source destination.

Definition retryable_upstream_status (status : Z) : bool :=
  (status =? 408) || (status =? 425) || (status =? 429) || ((500 <=? status) && (status <? 600)).

(** ** Resolution *)

(** What a repository becomes below a route. *)
Definition dispatch (r : Route.Model) (repository tail : string) (query : option string) : ApiResult ResolvedRegistryPath :=
  let? _ := require_enabled_route r in
  let? mode := parse_mode (Route.repository_mode r) in
  if is_empty (library_repository mode repository) then Err (BadRequest "Registry repository is empty")
  else Ok {| upstream_path := with_query ("/v2/" +:+ library_repository mode repository +:+ tail) query; resolved_route := r |}.

Lemma nat_max_spec (l : list nat) m :
  m ∈ l -> Forall (fun x => x <= m)%nat l -> max_by (fun a b => Nat.compare a b) l = Some m.
Proof.
  revert m. induction l as [|x l IH]; intros m Hm Hall; [by apply elem_of_nil in Hm|].
  apply Forall_cons in Hall as [Hx Hall]. simpl. destruct (decide (m ∈ l)) as [Hin|Hout].
  - rewrite (IH m Hin Hall). destruct (Nat.compare_spec x m); [done..|lia].
  - apply elem_of_cons in Hm as [->|]; [|done]. destruct (max_by _ l) as [y|] eqn:E; [|done].
    apply max_by_elem in E. rewrite Forall_forall in Hall. pose proof (Hall y E).
    destruct (Nat.compare_spec x y); [by subst|lia|done].
Qed.

Definition marker_words : list string := ["manifests"; "blobs"; "tags"].

Lemma marker_slashed : markers = slashed <$> marker_words.
Proof. reflexivity. Qed.

Lemma marker_word_absent w : w ∈ marker_words -> absent "/" w = true.
Proof. unfold marker_words. rewrite !elem_of_cons, elem_of_nil. by intros [->|[->|[->|[]]]]. Qed.

(** The repository of [<name>/<marker>/<reference>] is [name]. *)
Lemma last_marker_at name w reference :
  w ∈ marker_words -> absent "/" reference = true ->
  last_marker (name +:+ slashed w +:+ reference) = Some (String.length name).
Proof.
  intros Hw Hr. pose proof (marker_word_absent w Hw) as Ha. unfold last_marker. apply nat_max_spec.
  - apply list_elem_of_omap. exists (slashed w). split; [rewrite marker_slashed; by apply list_elem_of_fmap_2|].
    unfold rfind. by rewrite rsplit_slashed_own.
  - rewrite Forall_forall. intros i (m & Hm & Hi)%list_elem_of_omap.
    rewrite marker_slashed in Hm. apply list_elem_of_fmap in Hm as (w' & -> & Hw').
    unfold rfind in Hi. destruct (rsplit_once _ _) as [[x y]|] eqn:E; [|done]. injection Hi as <-.
    by apply (rsplit_slashed _ _ _ _ _ _ Ha Hr (marker_word_absent w' Hw')) in E as [? _].
Qed.

Lemma first_segment_app p repo : absent "/" p = true -> first_segment (p +:+ String "/" repo) = p.
Proof.
  unfold first_segment. induction p as [|c p IH]; intros Hp.
  - reflexivity.
  - unfold absent in Hp. simpl in Hp. apply andb_true_iff in Hp as [Hc Hp].
    change (String c p +:+ String "/" repo) with (String c (p +:+ String "/" repo)). cbn [split_char].
    apply negb_true_iff in Hc. rewrite Hc.
    specialize (IH Hp). destruct (split_char _ _) as [|x l]; [by rewrite <- IH|]. simpl in *. by rewrite IH.
Qed.

Lemma identifier_absent p : identifier p = true -> absent "/" p = true.
Proof.
  destruct p as [|c p]; [done|]. unfold identifier. intros [[Hc _]%andb_true_iff Hp]%andb_true_iff.
  unfold absent. cbn [all_bytes]. apply andb_true_iff. split.
  - destruct (Ascii.eqb_spec c "/") as [->|]; [done|done].
  - eapply all_bytes_impl; [|exact Hp]. intros x Hx. by destruct (Ascii.eqb_spec x "/") as [->|].
Qed.

Lemma strip_app a b : strip_prefix a (a +:+ b) = Some b.
Proof. by apply strip_prefix_Some. Qed.

(** A path [/v2/<name>/<marker>/<reference>] is decided by the repository name alone. *)
Lemma route_registry_path_at d d' u name w reference :
  w ∈ marker_words -> absent "/" reference = true -> u_path u = "/v2/" +:+ name +:+ slashed w +:+ reference ->
  route_registry_path d d' u =
    (let? selected := select_route d d' name in
     dispatch selected.1 selected.2 (slashed w +:+ reference) (u_query u)).
Proof.
  intros Hw Hr Hu. unfold route_registry_path. rewrite Hu, strip_app, last_marker_at by done.
  rewrite str_take_app, str_drop_app. destruct (select_route d d' name) as [[r repo]|]; [|done]. simpl.
  unfold dispatch, require_enabled_route. destruct (Route.enabled r); [|done].
  destruct (parse_mode _); [|done]. done.
Qed.

(** ** Properties *)

(** C10: A request path names its route by the first segment of its repository.  A path
    [/v2/<name>/<marker>/<reference>] whose name starts with the prefix of a stored,
    enabled route goes to that route without the prefix; a name that starts with no
    stored prefix goes whole to the default route; on either, a single-segment name
    below a Docker Hub route gains [library/].  The marker, the reference and the
    query are kept, also when the repository itself contains a marker. *)
Theorem routing_exact d d' u name w reference r m repository :
  routes_inv d -> routes_inv d' -> w ∈ marker_words -> absent "/" reference = true ->
  u_path u = "/v2/" +:+ name +:+ slashed w +:+ reference ->
  Route.enabled r = true -> Route.repository_mode r = mode_str m -> repository <> "" ->
  (exists p, r ∈ routes d /\ Route.path_prefix r = Some p /\ name = p +:+ String "/" repository) \/
  (r ∈ routes d' /\ Route.is_default r = true /\ name = repository /\
   Forall (fun x => Route.path_prefix x <> Some (first_segment name)) (routes d)) ->
  route_registry_path d d' u =
    Ok {| upstream_path := with_query ("/v2/" +:+ library_repository m repository +:+ slashed w +:+ reference) (u_query u);
          resolved_route := r |}.
Proof.
  intros Hd Hd' Hw Hr Hu He Hm Hne Hcase. rewrite (route_registry_path_at _ _ _ name w reference) by done.
  assert (select_route d d' name = Ok (r, repository)) as ->.
  { unfold select_route. destruct Hcase as [(p & Hin & Hp & ->)|(Hin & Hdef & <- & Hall)].
    - rewrite first_segment_app.
      2: { apply identifier_absent. pose proof (ri_ok _ Hd) as Hok. rewrite Forall_forall in Hok. by apply (ro_prefix _ (Hok r Hin)). }
      rewrite (by_path_prefix_elem d p r (ri_wf _ Hd) Hin Hp), Hp. simpl. by rewrite strip_app.
    - destruct (by_path_prefix d (first_segment name)) as [x|] eqn:E.
      + apply by_path_prefix_Some in E as [Hx Ex]. rewrite Forall_forall in Hall. by destruct (Hall x Hx).
      + by rewrite (default_route_elem d' r (ri_wf _ Hd') Hin Hdef). }
  simpl. unfold dispatch, require_enabled_route. rewrite He, Hm, parse_mode_str. simpl.
  destruct (is_empty (library_repository m repository)) eqn:E; [|done].
  unfold library_repository in E. by destruct m, repository; try destruct (contains "/" _).
Qed.

Lemma dots_v2 x : dots ("/v2/" +:+ x) = dots x.
Proof. by apply (dots_app_slash "/v2"). Qed.

(** A part of the tail of a clean path is clean. *)
Lemma dots_tail a b : dots (a +:+ b) = false -> dots b = false.
Proof. intros H. destruct (dots b) eqn:E; [|done]. apply (dots_app_r a) in E. congruence. Qed.

Lemma absent_tail c a b : absent c (a +:+ b) = true -> absent c b = true.
Proof. rewrite absent_app. by intros [_ ?]%andb_true_iff. Qed.

Lemma select_route_from d d' name r repository :
  select_route d d' name = Ok (r, repository) ->
  (r ∈ routes d \/ r ∈ routes d') /\ exists front, name = front +:+ repository.
Proof.
  unfold select_route. destruct (by_path_prefix d _) as [x|] eqn:E.
  - apply by_path_prefix_Some in E as [Hx Ex]. rewrite Ex. cbn [ok_or].
    destruct (strip_prefix _ name) as [v|] eqn:Ev; [|done].
    destruct (strip_prefix "/" v) as [v'|] eqn:Ev'; [|done]. intros [= <- <-]. split; [by left|].
    apply strip_prefix_Some in Ev as ->. apply strip_prefix_Some in Ev' as ->.
    eexists (_ +:+ "/"). by rewrite str_app_assoc.
  - destruct (default_route d') as [x|] eqn:Ed; [|done]. intros [= <- <-]. split; [|by exists ""].
    right. by apply default_route_Ok in Ed as [? _].
Qed.

Lemma library_split m repository : exists x, library_repository m repository = x +:+ repository /\ (x = "" \/ x = "library/").
Proof.
  unfold library_repository. destruct m; [destruct (contains "/" repository)|]; [by exists ""; auto|by exists "library/"; auto|by exists ""; auto].
Qed.

Lemma library_length m repository : slen (library_repository m repository) <= slen repository + 8.
Proof. destruct (library_split m repository) as (x & -> & [->| ->]); rewrite slen_app; unfold slen; simpl; lia. Qed.

Lemma library_absent m repository : absent "?" repository = true -> absent "?" (library_repository m repository) = true.
Proof. intros H. by destruct (library_split m repository) as (x & -> & [->| ->]); rewrite absent_app. Qed.

Lemma dots_library m repository tail :
  dots (repository +:+ tail) = false -> dots (library_repository m repository +:+ tail) = false.
Proof.
  intros H. destruct (library_split m repository) as (x & -> & [->| ->]); [done|].
  rewrite str_app_assoc. pose proof (dots_app_slash "library" (repository +:+ tail)) as E. by rewrite H in E.
Qed.

Lemma unrouted_safe d d' u res :
  starts_with "/v2" (u_path u) = true -> dots (u_path u) = false -> unrouted d u = Ok res ->
  (resolved_route res ∈ routes d \/ resolved_route res ∈ routes d') /\ Route.enabled (resolved_route res) = true /\
  exists p, upstream_path res = with_query p (u_query u) /\ starts_with "/v2" p = true /\
    contains ".." p = false /\ slen p <= slen (u_path u) + 8 /\
    (absent "?" (u_path u) = true -> absent "?" p = true).
Proof.
  intros Hv Hd. unfold unrouted, require_enabled_route. destruct (default_route d) as [r|] eqn:Er; [|done].
  simpl. destruct (Route.enabled r) eqn:Ee; [|done]. intros [= <-]. apply default_route_Ok in Er as [Hr _].
  split; [by left|]. split; [done|]. exists (u_path u). rewrite contains_dots. repeat split; [done..|lia|done].
Qed.

(** The text of the path handed on.  Whatever the path and the tables, a request that
    passes the checks goes to a stored, enabled route, and the string
    [upstream_path] begins with [/v2], holds no two adjacent dots, is at most eight
    bytes longer than the path requested, and ends in the query it came with; a path
    without a query in it stays without.  This is about the text: a [/v2] is not
    followed by a slash when the request's was not, and the URL parser that joins the
    text to the node's base also takes the encoded [%2e%2e] as a parent segment,
    which these checks let through. *)
Theorem resolved_path_shape d d' u res :
  path_invalid (u_path u) = false -> route_registry_path d d' u = Ok res ->
  (resolved_route res ∈ routes d \/ resolved_route res ∈ routes d') /\ Route.enabled (resolved_route res) = true /\
  exists p, upstream_path res = with_query p (u_query u) /\ starts_with "/v2" p = true /\
    contains ".." p = false /\ slen p <= slen (u_path u) + 8 /\
    (absent "?" (u_path u) = true -> absent "?" p = true).
Proof.
  unfold path_invalid. rewrite contains_dots. intros [[_ Hv]%orb_false_iff Hdots]%orb_false_iff.
  apply negb_false_iff in Hv. unfold route_registry_path.
  destruct (strip_prefix "/v2/" (u_path u)) as [rest|] eqn:Es; [|by apply unrouted_safe].
  apply strip_prefix_Some in Es. destruct (last_marker rest) as [i|]; [|by apply unrouted_safe].
  destruct (select_route d d' (str_take i rest)) as [[r repository]|] eqn:Er; [|done]. simpl.
  unfold require_enabled_route. destruct (Route.enabled r) eqn:Ee; [|done].
  destruct (parse_mode _) as [m|]; [|done]. destruct (is_empty _); [done|]. intros [= <-].
  apply select_route_from in Er as [Hin [front Hf]]. split; [done|]. split; [done|]. simpl.
  assert (rest = front +:+ (repository +:+ str_drop i rest)) as Hrest by (by rewrite <- str_app_assoc, <- Hf, str_take_drop).
  rewrite Es in *. rewrite dots_v2 in Hdots. rewrite Hrest in Hdots. apply dots_tail in Hdots.
  assert (slen repository + slen (str_drop i rest) <= slen rest) as Hlen.
  { rewrite Hrest at 2. rewrite !slen_app. pose proof (slen_nonneg front). lia. }
  eexists. split; [done|]. split; [done|]. rewrite contains_dots, dots_v2, !slen_app.
  split; [by apply dots_library|]. split; [pose proof (library_length m repository); lia|].
  intros Ha. apply absent_tail in Ha. rewrite Hrest in Ha. apply absent_tail in Ha.
  rewrite absent_app in Ha |- *. apply andb_true_iff in Ha as [H1 H2].
  rewrite absent_app, H2, library_absent by done. done.
Qed.

(** The emptiness check comes after [library/] is added.  On a Docker Hub route a path
    without a repository is not refused: it is sent upstream below [library/]. *)
Theorem empty_repository_forwarded d d' u w reference r :
  routes_inv d' -> Forall (fun x => Route.path_prefix x <> Some "") (routes d) ->
  r ∈ routes d' -> Route.is_default r = true -> Route.enabled r = true ->
  Route.repository_mode r = mode_str DockerHubLibrary ->
  w ∈ marker_words -> absent "/" reference = true -> u_path u = "/v2/" +:+ slashed w +:+ reference ->
  route_registry_path d d' u =
    Ok {| upstream_path := with_query ("/v2/library/" +:+ slashed w +:+ reference) (u_query u); resolved_route := r |}.
Proof.
  intros Hd Hall Hin Hdef He Hm Hw Hr Hu. rewrite (route_registry_path_at _ _ _ "" w reference) by done.
  assert (select_route d d' "" = Ok (r, "")) as ->.
  { unfold select_route. destruct (by_path_prefix d (first_segment "")) as [x|] eqn:E.
    - apply by_path_prefix_Some in E as [Hx Ex]. rewrite Forall_forall in Hall. by destruct (Hall x Hx).
    - by rewrite (default_route_elem d' r (ri_wf _ Hd) Hin Hdef). }
  simpl. unfold dispatch, require_enabled_route. by rewrite He, Hm, parse_mode_str.
Qed.

Lemma before_query_with p q : absent "?" p = true -> before_query (with_query p q) = p.
Proof.
  intros H. unfold before_query, with_query. destruct q as [q|]; [by rewrite split_once_char|].
  by rewrite split_once_char_absent.
Qed.

Lemma all_bytes_drop p n s : all_bytes p s = true -> all_bytes p (str_drop n s) = true.
Proof.
  revert s. induction n as [|n IH]; intros [|c s]; try done. cbn [all_bytes str_drop]. intros [_ H]%andb_true_iff. by apply IH.
Qed.

(** A byte of a valid digest: a hexadecimal digit or one of [sha256:]. *)
Lemma valid_digest_bytes s (p : ascii -> bool) :
  valid_sha256_digest s = true -> (forall c, is_ascii_hexdigit c = true -> p c = true) -> all_bytes p "sha256:" = true ->
  all_bytes p s = true.
Proof.
  unfold valid_sha256_digest, starts_with. intros [[_ Hs]%andb_true_iff Hh]%andb_true_iff Hp H7.
  destruct (strip_prefix "sha256:" s) as [x|] eqn:E; [|done]. apply strip_prefix_Some in E as ->.
  rewrite (str_drop_app "sha256:") in Hh. rewrite all_bytes_app, H7. simpl. by eapply all_bytes_impl.
Qed.

Lemma valid_digest_absent c s :
  valid_sha256_digest s = true -> is_ascii_hexdigit c = false -> absent c "sha256:" = true -> absent c s = true.
Proof.
  intros H Hc H7. eapply valid_digest_bytes; [done| |done]. intros x Hx.
  destruct (Ascii.eqb_spec x c) as [->|]; [congruence|done].
Qed.

(** The digest a blob request is checked against is the one in its path, whatever the
    route makes of the repository. *)
Theorem blob_digest_kept d d' u name digest res :
  absent "?" (u_path u) = true -> u_path u = "/v2/" +:+ name +:+ "/blobs/" +:+ digest ->
  valid_sha256_digest digest = true -> route_registry_path d d' u = Ok res ->
  blob_digest (upstream_path res) = Ok digest.
Proof.
  intros Hq Hu Hv. assert (absent "/" digest = true) as Ha by (by apply valid_digest_absent).
  rewrite (route_registry_path_at d d' u name "blobs" digest) by (done || by repeat constructor).
  destruct (select_route d d' name) as [[r repository]|] eqn:Er; [|done]. simpl. unfold dispatch.
  destruct (require_enabled_route r); [|done]. destruct (parse_mode _) as [m|]; [|done]. destruct (is_empty _); [done|].
  intros [= <-]. simpl. apply select_route_from in Er as [_ [front ->]].
  rewrite Hu in Hq. apply absent_tail in Hq. rewrite str_app_assoc in Hq. apply absent_tail in Hq.
  unfold blob_digest. rewrite before_query_with.
  - rewrite <- str_app_assoc. change (slashed "blobs") with "/blobs/". rewrite rsplit_once_blobs by done. simpl. by rewrite Hv.
  - rewrite absent_app in Hq |- *. apply andb_true_iff in Hq as [H1 H2]. rewrite absent_app. simpl.
    rewrite library_absent by done. done.
Qed.

Lemma resolved_enabled d d' u res : route_registry_path d d' u = Ok res -> Route.enabled (resolved_route res) = true.
Proof.
  unfold route_registry_path, unrouted, require_enabled_route.
  destruct (strip_prefix _ _) as [rest|]; [destruct (last_marker rest) as [i|]|].
  2,3: destruct (default_route d) as [r|]; [|done]; destruct (Route.enabled r) eqn:E; [|done]; by intros [= <-].
  destruct (select_route d d' _) as [[r repository]|]; [|done]. destruct (Route.enabled r) eqn:E; [|done].
  destruct (parse_mode _); [|done]. destruct (is_empty _); [done|]. by intros [= <-].
Qed.

(** ** Validators *)

Lemma header_all_insert h name value n :
  header_all (header_insert h name value) n = if n =?s name then [value] else header_all h n.
Proof.
  unfold header_insert, header_all. rewrite List.filter_app, fmap_app. simpl.
  assert (forall l : HeaderMap, snd <$> List.filter (fun p : string * string => p.1 =?s n)
            (List.filter (fun p : string * string => negb (p.1 =?s name)) l) =
          if n =?s name then [] else snd <$> List.filter (fun p : string * string => p.1 =?s n) l) as E.
  { intros l. induction l as [|[k v] l IH]; csimpl; [by destruct (n =?s name)|].
    destruct (k =?s name) eqn:Ek; csimpl.
    - rewrite IH. apply str_eqb_eq in Ek as ->. destruct (n =?s name) eqn:En; [done|].
      destruct (name =?s n) eqn:En'; [|done]. apply str_eqb_eq in En' as ->. by rewrite str_eqb_refl in En.
    - destruct (k =?s n) eqn:En; csimpl; rewrite IH; [|done].
      apply str_eqb_eq in En as ->. by rewrite Ek. }
  rewrite E. destruct (name =?s n) eqn:En.
  - apply str_eqb_eq in En as ->. by rewrite str_eqb_refl.
  - destruct (n =?s name) eqn:En'; [apply str_eqb_eq in En' as ->; by rewrite str_eqb_refl in En|]. by rewrite app_nil_r.
Qed.

Lemma header_get_insert h name value n :
  header_get (header_insert h name value) n = if n =?s name then Some value else header_get h n.
Proof. unfold header_get. rewrite header_all_insert. by destruct (n =?s name). Qed.

Lemma insert_parsed_get h name value n :
  header_get (insert_parsed h name value) n =
    if (n =?s name) && is_some (parse_value value) then Some value else header_get h n.
Proof.
  unfold insert_parsed. destruct (parse_value value) as [v|] eqn:E; [|by rewrite andb_false_r].
  rewrite header_get_insert, andb_true_r. unfold parse_value in E. by destruct (all_bytes _ _); simplify_eq.
Qed.

Lemma valid_digest_nonempty s : valid_sha256_digest s = true -> s <> "".
Proof. by intros H ->. Qed.

Lemma hexdigit_range c : is_ascii_hexdigit c = true -> 48 <= code c <= 102.
Proof. unfold is_ascii_hexdigit, is_ascii_digit, between. intros H. repeat (apply orb_true_iff in H as [H|H]); bool_hyps; lia. Qed.

(** The printable bytes a digest is made of. *)
Lemma valid_digest_plain s : valid_sha256_digest s = true ->
  all_bytes (fun c => between 33 126 c && negb (is_quote c)) s = true.
Proof.
  intros H. eapply valid_digest_bytes; [exact H| |reflexivity]. intros c Hc%hexdigit_range.
  unfold between, is_quote. destruct (Ascii.eqb_spec c (ascii_of_N 34)) as [->|]; [|simpl; lia].
  change (code (ascii_of_N 34)) with 34 in Hc. lia.
Qed.

Lemma trim_quoted s : trim (quoted s) = quoted s.
Proof.
  apply (trim_id _ (ascii_of_N 34) (ascii_of_N 34)); try reflexivity. unfold quoted.
  rewrite <- str_app_assoc. by rewrite last_byte_app.
Qed.

Lemma quoted_unquoted s : all_bytes (fun c => negb (is_quote c)) s = true -> s <> "" -> trim_matches is_quote (quoted s) = s.
Proof.
  intros H Hs. unfold trim_matches, quoted. change (chr 34 +:+ s +:+ chr 34) with (String (ascii_of_N 34) (s +:+ chr 34)).
  cbn [trim_start_by]. replace (is_quote (ascii_of_N 34)) with true by reflexivity.
  rewrite trim_start_by_keep by done. by apply trim_end_by_keep.
Qed.

(** A validator sent is a validator recognised: given back in [If-None-Match], the
    entity tag of one object matches exactly the object with that digest. *)
Theorem etag_roundtrip h digest digest' :
  valid_sha256_digest digest = true ->
  etag_matches (header_get (set_registry_validators h digest) "etag") digest' = bool_decide (digest = digest') /\
  header_get (set_registry_validators h digest) "docker-content-digest" = Some digest.
Proof.
  intros Hv. pose proof (valid_digest_plain _ Hv) as Hp.
  assert (all_bytes (fun c => negb (is_quote c)) digest = true) as Hq.
  { eapply all_bytes_impl; [|exact Hp]. simpl. by intros c [_ ?]%andb_true_iff. }
  assert (all_bytes value_byte digest = true) as Hb.
  { eapply all_bytes_impl; [|exact Hp]. unfold between, value_byte. simpl. intros c. lia. }
  assert (all_bytes visible digest = true) as Hs.
  { eapply all_bytes_impl; [|exact Hp]. unfold visible, between. simpl. intros c. lia. }
  assert (parse_value (quoted digest) = Some (quoted digest)) as Eq
    by (unfold parse_value, quoted; by rewrite !all_bytes_app, Hb).
  assert (parse_value digest = Some digest) as Ed by (unfold parse_value; by rewrite Hb).
  assert (header_get (set_registry_validators h digest) "etag" = Some (quoted digest)) as ->
    by (unfold set_registry_validators; by rewrite !header_get_insert, !insert_parsed_get, Eq, Ed).
  split; [|unfold set_registry_validators; by rewrite !header_get_insert, !insert_parsed_get, Eq, Ed].
  unfold etag_matches, to_str.
  replace (all_bytes visible (quoted digest)) with true by (unfold quoted; by rewrite !all_bytes_app, Hs). cbn [is_some_and].
  rewrite split_char_absent.
  2: { unfold quoted. rewrite !absent_app. by rewrite (valid_digest_absent "," digest Hv). }
  simpl. rewrite orb_false_r. unfold etag_candidate. rewrite trim_quoted.
  replace (unwrap_or (strip_prefix "W/" (quoted digest)) (quoted digest)) with (quoted digest) by reflexivity.
  rewrite quoted_unquoted by (done || by apply valid_digest_nonempty).
  replace (quoted digest =?s "*") with false by reflexivity. simpl.
  destruct (digest =?s digest') eqn:E; symmetry; [apply bool_decide_eq_true_2; by apply str_eqb_eq|].
  apply bool_decide_eq_false_2. by apply str_eqb_neq.
Qed.

(** Only the listed headers of an upstream response reach the client. *)
Lemma copy_headers_get l source destination n :
  header_get (copy_headers l source destination) n =
    match (if bool_decide (n ∈ l) then header_get source n else None) with
    | Some v => Some v
    | None => header_get destination n
    end.
Proof.
  unfold copy_headers. revert destination.
  induction l as [|x l IH]; intros destination; simpl; [done|]. rewrite IH. unfold copy_header.
  destruct (decide (n ∈ l)) as [Hl|Hl].
  - rewrite !bool_decide_eq_true_2 by (done || by right). destruct (header_get source n) as [v|] eqn:E; [done|].
    destruct (header_get source x) as [v|] eqn:Ex; [|done]. rewrite header_get_insert.
    destruct (n =?s x) eqn:En; [apply str_eqb_eq in En as ->; congruence|done].
  - rewrite (bool_decide_eq_false_2 (n ∈ l)) by done. destruct (n =?s x) eqn:En.
    + apply str_eqb_eq in En as ->. rewrite bool_decide_eq_true_2 by (by left).
      destruct (header_get source x) as [v|] eqn:Ex; [|done]. by rewrite header_get_insert, str_eqb_refl.
    + rewrite bool_decide_eq_false_2.
      2: { rewrite elem_of_cons. intros [->|]; [by rewrite str_eqb_refl in En|done]. }
      destruct (header_get source x) as [v|]; [|done]. by rewrite header_get_insert, En.
Qed.
End Paths.

(** ** Instances *)

Module PathsWitness.
Import Tables Routes RoutesWitness Paths.

Definition image : Uri := {| u_path := "/v2/ghcr/org/blobs/app/manifests/latest"; u_query := Some "ns=value" |}.

Lemma routing_exact_witness :
  route_registry_path seeded seeded image =
    Ok {| upstream_path := "/v2/org/blobs/app/manifests/latest?ns=value"; resolved_route := ghcr 0 |}.
Proof.
  apply (routing_exact seeded seeded image "ghcr/org/blobs/app" "manifests" "latest" (ghcr 0) Passthrough "org/blobs/app");
    try reflexivity; try exact seeded_routes.
  - by left.
  - discriminate.
  - left. exists "ghcr". repeat split. by right; left.
Defined.

Definition alpine : Uri := {| u_path := "/v2/alpine/tags/list"; u_query := None |}.

Lemma resolved_path_shape_witness :
  route_registry_path seeded seeded alpine =
    Ok {| upstream_path := "/v2/library/alpine/tags/list"; resolved_route := docker_hub 0 |} /\
  Route.enabled (docker_hub 0) = true.
Proof.
  assert (route_registry_path seeded seeded alpine =
    Ok {| upstream_path := "/v2/library/alpine/tags/list"; resolved_route := docker_hub 0 |}) as H by (vm_compute; reflexivity).
  split; [exact H|]. exact (proj1 (proj2 (resolved_path_shape seeded seeded alpine _ ltac:(vm_compute; reflexivity) H))).
Defined.

Definition nameless : Uri := {| u_path := "/v2//manifests/latest"; u_query := None |}.

Lemma empty_repository_forwarded_witness :
  route_registry_path seeded seeded nameless =
    Ok {| upstream_path := "/v2/library//manifests/latest"; resolved_route := docker_hub 0 |}.
Proof.
  apply (empty_repository_forwarded seeded seeded nameless "manifests" "latest" (docker_hub 0));
    try reflexivity; try exact seeded_routes.
  - repeat constructor; discriminate.
  - by left.
  - by left.
Defined.

Definition layer : string := "sha256:0123456789abcdef0123456789abcdef0123456789abcdef0123456789abcdef".
Definition layer_uri : Uri := {| u_path := "/v2/ghcr/org/app/blobs/" +:+ layer; u_query := Some "x=?" |}.

Lemma blob_digest_kept_witness : blob_digest ("/v2/org/app/blobs/" +:+ layer +:+ "?x=?") = Ok layer.
Proof.
  refine (blob_digest_kept seeded seeded layer_uri "ghcr/org/app" layer
            {| upstream_path := "/v2/org/app/blobs/" +:+ layer +:+ "?x=?"; resolved_route := ghcr 0 |} _ _ _ _);
    vm_compute; reflexivity.
Defined.

Lemma etag_roundtrip_witness :
  etag_matches (header_get (set_registry_validators [("etag", "old")] layer) "etag") layer = true.
Proof.
  rewrite (proj1 (etag_roundtrip [("etag", "old")] layer layer ltac:(vm_compute; reflexivity))).
  by apply bool_decide_eq_true_2.
Defined.
End PathsWitness.
