(* ===== verification/Upstream.v ===== *)
(** * Upstream requests

    src/src/upstream.rs: the one way out of the proxy.  A request to a node is sent on
    a client pinned to validated addresses, answers a Bearer challenge with a token
    from a trusted realm, and follows at most three redirects without credentials.
    The state keeps the token and transport caches and the trace of the requests that
    left; [transport] answers the n-th of them.  The [url] and
    [www-authenticate-parser] crates, DNS, the JSON decoder and the retention of the
    [moka] caches are parameters. *)

From stdpp Require Import base gmap sets list strings pretty.
From Stdlib Require Import ZArith Lia Ascii Strings.Byte.
From S2P Require Import Prelude F64 Text Errors Model Selection Files Http Security Crypto Nodes.

#[local] Set Default Proof Using "Type*".

Module Upstream.
Import Nodes.

Record TokenEntry := { t_value : string; t_expires_at : Z }.

Record BearerChallenge := { realm : string; service : option string; scope : option string }.

Record TokenResponse := { token_field : option string; access_token : option string; expires_in : option Z }.

(** ** Headers of a request *)

Definition forwarded : list string := ["accept"; "if-none-match"; "if-modified-since"].

Definition copied (h : HeaderMap) (name : string) : HeaderMap :=
  match header_get h name with Some v => [(name, v)] | None => [] end.

Definition range_header (h : HeaderMap) (range : RangeMode) : HeaderMap :=
  match range with
  | Suppress => []
  | ForwardClient => copied h "range"
  | Exact start end_ => [("range", "bytes=" +:+ pretty start +:+ "-" +:+ pretty end_)]
  end.

Definition forward_headers (h : HeaderMap) (range : RangeMode) : HeaderMap :=
  (forwarded ≫= copied h) ++ range_header h range ++ [("accept-encoding", "identity")].

(** ** Challenges *)

Definition repository_scope (path : string) : option string :=
  let* rest := strip_prefix "/v2/" path in
  let* (repository, _) := match split_once "/manifests/" rest with
                          | Some p => Some p
                          | None => split_once "/blobs/" rest
                          end in
  if is_empty repository then None else Some ("repository:" +:+ repository +:+ ":pull").

(** [parse_header]: the scheme, and the fields where the challenge has fields; field
    names are looked up without case. *)
Section Challenge.
Variable parse_challenge : string -> option (string * option (string -> option string)).

Definition bearer_challenge (h : HeaderMap) (path : string) : option BearerChallenge :=
  let* value := header_str h "www-authenticate" in
  let* (scheme, challenge) := parse_challenge value in
  if negb (eq_ignore_ascii_case scheme "bearer") then None
  else
    let* fields := challenge in
    let* realm := fields "realm" in
    Some {| realm := realm; service := fields "service";
            scope := match fields "scope" with Some s => Some s | None => repository_scope path end |}.
End Challenge.

Definition is_redirection (status : Z) : bool := (300 <=? status) && (status <? 400).

Definition too_many_redirects : AppError := Upstream "too many upstream redirects".
Definition no_location : AppError := Upstream "upstream redirect has no Location".
Definition token_too_large : AppError := Upstream "token response is too large".

Definition TOKEN_LIMIT : Z := 1024 * 1024.

(** The body of a token response, at most 1 MiB of it. *)
Fixpoint token_body (l : list frame) (body : bytes) : ApiResult bytes :=
  match l with
  | [] => Ok body
  | Fault message :: _ => Err (Upstream message)
  | Data chunk :: l =>
      if TOKEN_LIMIT <? saturating_add (blen body) (blen chunk) then Err token_too_large
      else token_body l (body ++ chunk)
  end.

(** Further operations of [url::Url]. *)
Record UrlOps (Url : Type) := {
  url_join : Url -> string -> option Url;
  url_text : Url -> string;
  url_append_pair : string -> string -> Url -> Url;
  url_set_query : option string -> Url -> Url
}.
Arguments url_join {Url}.
Arguments url_text {Url}.
Arguments url_append_pair {Url}.
Arguments url_set_query {Url}.

Section Service.
Context {Key : Type} (prims : Crypto.Primitives Key) (cipher : option Key).
Context (net_contains : string -> IpAddr -> bool) (lookup_host : nat -> string -> Z -> option (list IpAddr)).
Context {Url : Type} (api : UrlApi Url) (ops : UrlOps Url).
Context (parse_header_name header_value : string -> option string).
Context (parse_challenge : string -> option (string * option (string -> option string))).
Context (parse_token : bytes -> result TokenResponse string).
Context (status_text : Z -> string) (uuid_text : Uuid -> string).
Context (config : SecurityConfig).
(** When a cache still has an entry, and what the n-th request is answered. *)
Context (retained : nat -> string -> bool) (clock : nat -> Z).

Abbreviation Validated := (ValidatedUpstream (Url := Url)).

Record NodeTransport := { base : Validated; client : ClientSettings }.

(** A request that leaves: the client fixes the addresses it can go to. *)
Record Sent := {
  s_method : Method;
  s_url : Url;
  s_client : ClientSettings;
  s_headers : HeaderMap;
  s_auth : list Auth
}.

Variable transport : nat -> Sent -> result Response string.

Record UpstreamService := {
  timeout : Z;
  tokens : gmap string TokenEntry;
  transports : gmap string (NodeTransport * Z);
  trace : list Sent;
  time : nat
}.

Definition with_tokens (s : UpstreamService) (m : gmap string TokenEntry) : UpstreamService :=
  {| timeout := timeout s; tokens := m; transports := transports s; trace := trace s; time := time s |}.
Definition with_transports (s : UpstreamService) (m : gmap string (NodeTransport * Z)) : UpstreamService :=
  {| timeout := timeout s; tokens := tokens s; transports := m; trace := trace s; time := time s |}.

(** [request.send()]. *)
Definition perform (s : UpstreamService) (q : Sent) : ApiResult Response * UpstreamService :=
  (map_err Upstream (transport (time s) q),
   {| timeout := timeout s; tokens := tokens s; transports := transports s; trace := trace s ++ [q]; time := S (time s) |}).

Definition update_runtime (s : UpstreamService) (t : Z) : UpstreamService :=
  {| timeout := t; tokens := tokens s; transports := transports s; trace := trace s; time := time s |}.

Abbreviation apply_auth := (Nodes.apply_auth prims cipher parse_header_name header_value).
Definition given (a : Auth) : list Auth := match a with Anonymous => [] | _ => [a] end.

Definition node_host (n : Node.Model) : option string :=
  let* url := url_parse api (Node.url n) in url_host_str api url.

Definition apply_connect_ip (now : nat) (n : Node.Model) (u : Validated) : ApiResult Validated :=
  match Node.connect_ip n with
  | None => Ok u
  | Some value =>
      if bool_decide (node_host n = url_host_str api (vu_url u)) then
        let port := unwrap_or (url_port_or_known_default api (vu_url u)) 443 in
        let? addresses := resolve_connect_target net_contains (lookup_host now) value (Node.connect_ip_type n) port config in
        Ok {| vu_url := vu_url u; vu_addresses := addresses |}
      else Ok u
  end.

(** ** Transports *)

Definition millis_text (z : Z) : string := pretty z.

Definition transport_key (n : Node.Model) (timeout : Z) : string :=
  uuid_text (Node.id n) +:+ ":" +:+ millis_text (Node.updated_at n) +:+ ":" +:+ millis_text (timeout / 1000000).

Definition TRANSPORT_TTL : Z := 5 * 60 * second.

Definition cached_transport (s : UpstreamService) (key : string) : option NodeTransport :=
  let* (t, inserted) := transports s !! key in
  if retained (time s) key && (clock (time s) <? inserted + TRANSPORT_TTL) then Some t else None.

Definition node_transport (s : UpstreamService) (n : Node.Model) : ApiResult NodeTransport * UpstreamService :=
  let key := transport_key n (timeout s) in
  match cached_transport s key with
  | Some t => (Ok t, s)
  | None =>
      match (let? u := validate_upstream net_contains (lookup_host (time s)) api (Node.url n) config in
             let? u := apply_connect_ip (time s) n u in
             let? c := client_for api u (timeout s) in
             Ok {| base := u; client := c |}) with
      | Err e => (Err e, s)
      | Ok t => (Ok t, with_transports s (<[key := (t, clock (time s))]> (transports s)))
      end
  end.

(** ** Tokens *)

Definition nul : string := chr 0.

Definition token_key (n : Node.Model) (c : BearerChallenge) : string :=
  uuid_text (Node.id n) +:+ nul +:+ uuid_text (Node.registry_route_id n) +:+ nul +:+ millis_text (Node.updated_at n)
  +:+ nul +:+ realm c +:+ nul +:+ unwrap_or (service c) "" +:+ nul +:+ unwrap_or (scope c) "".

Definition cached_token (s : UpstreamService) (key : string) : option string :=
  let* entry := tokens s !! key in
  if retained (time s) key && (clock (time s) + 10 * second <? t_expires_at entry) then Some (t_value entry) else None.

Definition lower_host (u : option Url) : option string :=
  let* u := u in to_ascii_lowercase <$> url_host_str api u.

Definition validate_token_realm (v : NodeView) (r : Url) : ApiResult unit :=
  if is_none (Node.auth_secret_enc (node v)) then Ok tt
  else
    let realm_host := lower_host (Some r) in
    if bool_decide (lower_host (url_parse api (Node.url (node v))) = realm_host)
       || ((RouteSummary.canonical_registry (route v) =?s "docker.io") && bool_decide (realm_host = Some "auth.docker.io"))
    then Ok tt
    else Err (Upstream "Bearer token realm is not trusted for this credentialed node").

Definition append_opt (name : string) (v : option string) (u : Url) : Url :=
  match v with Some v => url_append_pair ops name v u | None => u end.

(** The request to the token service. *)
Definition token_request (now : nat) (timeout : Z) (v : NodeView) (c : BearerChallenge) : ApiResult Sent :=
  let? r := ok_or (url_parse api (realm c)) (Upstream "invalid Bearer token realm") in
  let? _ := validate_token_realm v r in
  let r := append_opt "scope" (scope c) (append_opt "service" (service c) r) in
  let? u := validate_target_url net_contains (lookup_host now) api (url_text ops r) config in
  let? u := apply_connect_ip now (node v) u in
  let? cl := client_for api u timeout in
  let? auth := apply_auth (node v) in
  Ok {| s_method := GET; s_url := vu_url u; s_client := cl; s_headers := [("accept", "application/json")];
        s_auth := given auth |}.

Definition token_value (p : TokenResponse) : ApiResult string :=
  match (match token_field p with Some t => Some t | None => access_token p end) with
  | Some t => if negb (is_empty t) && (slen t <=? 16 * 1024) then Ok t else Err (Upstream "token response has no token")
  | None => Err (Upstream "token response has no token")
  end.

Definition token_answer (r : Response) : ApiResult (string * Z) :=
  if negb (is_success (r_status r)) then Err (Upstream ("token service returned " +:+ status_text (r_status r)))
  else if is_some_and (r_content_length r) (fun n => TOKEN_LIMIT <? n) then Err token_too_large
  else
    let? body := token_body (r_body r) [] in
    let? payload := map_err (fun e => Upstream ("invalid token response: " +:+ e)) (parse_token body) in
    let? value := token_value payload in
    Ok (value, clamp (unwrap_or (expires_in payload) 300) 30 3600).

Definition token (s : UpstreamService) (v : NodeView) (c : BearerChallenge) : ApiResult string * UpstreamService :=
  let key := token_key (node v) c in
  match cached_token s key with
  | Some t => (Ok t, s)
  | None =>
      match token_request (time s) (timeout s) v c with
      | Err e => (Err e, s)
      | Ok q =>
          match perform s q with
          | (Err e, s) => (Err e, s)
          | (Ok r, s) =>
              match token_answer r with
              | Err e => (Err e, s)
              | Ok (value, ttl) =>
                  (Ok value, with_tokens s (<[key := {| t_value := value; t_expires_at := clock (time s) + ttl * second |}]> (tokens s)))
              end
          end
      end
  end.

(** ** Requests to a node *)

Definition send_once (s : UpstreamService) (n : Node.Model) (m : Method) (url : Url) (h : HeaderMap) (range : RangeMode)
    (bearer : option string) (apply_node_auth : bool) (c : ClientSettings) : ApiResult Response * UpstreamService :=
  let tokens := match bearer with Some t => [BearerAuth t] | None => [] end in
  match (if apply_node_auth then let? a := apply_auth n in Ok (given a) else Ok []) with
  | Err e => (Err e, s)
  | Ok auth => perform s {| s_method := m; s_url := url; s_client := c; s_headers := forward_headers h range;
                            s_auth := tokens ++ auth |}
  end.

(** The next hop of a redirect, and the request to it: never with credentials. *)
Definition redirect (s : UpstreamService) (m : Method) (h : HeaderMap) (range : RangeMode) (from : Url) (r : Response)
    : ApiResult Sent :=
  let? location := ok_or (header_str (r_headers r) "location") no_location in
  let? target := ok_or (url_join ops from location) (Internal "url") in
  let? u := validate_target_url net_contains (lookup_host (time s)) api (url_text ops target) config in
  let? c := client_for api u (timeout s) in
  Ok {| s_method := m; s_url := vu_url u; s_client := c; s_headers := forward_headers h range; s_auth := [] |}.

Fixpoint follow (hops : nat) (s : UpstreamService) (m : Method) (h : HeaderMap) (range : RangeMode) (from : Url) (r : Response)
    : ApiResult Response * UpstreamService :=
  if negb (is_redirection (r_status r)) then (Ok r, s)
  else
    match hops with
    | O => (Err too_many_redirects, s)
    | S hops =>
        match redirect s m h range from r with
        | Err e => (Err e, s)
        | Ok q =>
            match perform s q with
            | (Err e, s) => (Err e, s)
            | (Ok r, s) => follow hops s m h range (s_url q) r
            end
        end
    end.

(** Answers a Bearer challenge with a token. *)
Definition answer_challenge (s : UpstreamService) (v : NodeView) (m : Method) (url : Url) (path : string) (h : HeaderMap)
    (range : RangeMode) (c : ClientSettings) (r : Response) : ApiResult Response * UpstreamService :=
  match (if (r_status r =? 401) && negb (Node.auth_mode (node v) =?s "bearer")
         then bearer_challenge parse_challenge (r_headers r) path else None) with
  | None => (Ok r, s)
  | Some challenge =>
      match token s v challenge with
      | (Err e, s) => (Err e, s)
      | (Ok t, s) => send_once s (node v) m url h range (Some t) (Node.auth_mode (node v) =?s "header") c
      end
  end.

Definition trim_slashes (path : string) : string := trim_start_by (fun c => Ascii.eqb c "/"%char) path.

Definition send (s : UpstreamService) (v : NodeView) (m : Method) (path : string) (h : HeaderMap) (range : RangeMode)
    : ApiResult Response * UpstreamService :=
  match node_transport s (node v) with
  | (Err e, s) => (Err e, s)
  | (Ok t, s) =>
      match url_join ops (vu_url (base t)) (trim_slashes path) with
      | None => (Err (Internal "url"), s)
      | Some url =>
          match send_once s (node v) m url h range None true (client t) with
          | (Err e, s) => (Err e, s)
          | (Ok r, s) =>
              match answer_challenge s v m url path h range (client t) r with
              | (Err e, s) => (Err e, s)
              | (Ok r, s) => follow 3 s m h range url r
              end
          end
      end
  end.

(** [send_public_url]: at most three redirects, no credentials. *)
Fixpoint public_hops (more : nat) (s : UpstreamService) (m : Method) (url : Url) (h : HeaderMap)
    : ApiResult Response * UpstreamService :=
  match (let? u := validate_target_url net_contains (lookup_host (time s)) api (url_text ops url) config in
         let? c := client_for api u (timeout s) in
         Ok {| s_method := m; s_url := vu_url u; s_client := c; s_headers := forward_headers h ForwardClient; s_auth := [] |}) with
  | Err e => (Err e, s)
  | Ok q =>
      match perform s q with
      | (Err e, s) => (Err e, s)
      | (Ok r, s) =>
          if negb (is_redirection (r_status r)) then (Ok r, s)
          else
            match more with
            | O => (Err too_many_redirects, s)
            | S more =>
                match (let? location := ok_or (header_str (r_headers r) "location") no_location in
                       ok_or (url_join ops url location) (Internal "url")) with
                | Err e => (Err e, s)
                | Ok url => public_hops more s m url h
                end
            end
      end
  end.

Definition send_public_url (s : UpstreamService) (m : Method) (url : Url) (h : HeaderMap) : ApiResult Response * UpstreamService :=
  public_hops 3 s m url h.

(** ** What leaves the proxy *)

(** What the [url] crate documents: editing a URL keeps its host, a relative path stays
    on the host of its base, a serialised URL parses to itself. *)
Record url_laws : Prop := {
  l_fragment : forall u, url_host_str api (url_clear_fragment api u) = url_host_str api u;
  l_query : forall u, url_host_str api (url_clear_query api u) = url_host_str api u;
  l_path : forall p u, url_host_str api (url_set_path api p u) = url_host_str api u;
  l_append : forall k v u, url_host_str api (url_append_pair ops k v u) = url_host_str api u;
  l_join : forall u r u', starts_with "v2/" r = true -> url_join ops u r = Some u' -> url_host_str api u' = url_host_str api u;
  l_text : forall u, url_parse api (url_text ops u) = Some u
}.
Hypothesis Hurl : url_laws.
Hypothesis ipnet_contains : forall n ip, n ∈ DENIED_NETWORKS -> net_contains n ip = true <-> in_cidr n ip.

(** The hosts a node's credential may be shown to. *)
Definition trusted (v : NodeView) (host : option string) : Prop :=
  to_ascii_lowercase <$> host = to_ascii_lowercase <$> node_host (node v) \/
  RouteSummary.canonical_registry (route v) = "docker.io" /\ to_ascii_lowercase <$> host = Some "auth.docker.io".

Definition allowed_headers : list string := ["accept"; "if-none-match"; "if-modified-since"; "range"; "accept-encoding"].

(** A client that only reaches the screened addresses of one host. *)
Record pinned (c : ClientSettings) (host : option string) : Prop := {
  p_follow : c_follow_redirects c = false;
  p_host : Some (c_resolve_host c) = host;
  p_public : allow_private_upstreams config = true \/ Forall (fun a : IpAddr * Z => ~ reserved a.1) (c_resolve_addrs c)
}.

Record confined (v : NodeView) (q : Sent) : Prop := {
  g_pinned : pinned (s_client q) (url_host_str api (s_url q));
  g_auth : s_auth q <> [] -> trusted v (url_host_str api (s_url q));
  g_headers : Forall (fun p : string * string => p.1 ∈ allowed_headers) (s_headers q)
}.

Lemma edited_host nb u : url_host_str api (edited_url api nb u) = url_host_str api u.
Proof using Hurl.
  unfold edited_url. destruct nb; [|by rewrite (l_fragment Hurl)].
  destruct (negb _); rewrite ?(l_path Hurl), (l_query Hurl), (l_fragment Hurl); done.
Qed.

Lemma copied_allowed h l name : name ∈ allowed_headers -> (l = copied h name) -> Forall (fun p : string * string => p.1 ∈ allowed_headers) l.
Proof using Type. intros Hn ->. unfold copied. destruct (header_get h name); [by apply Forall_singleton|by apply Forall_nil]. Qed.

Lemma forward_headers_allowed h range : Forall (fun p : string * string => p.1 ∈ allowed_headers) (forward_headers h range).
Proof using Type.
  unfold forward_headers. apply Forall_app. split; [|apply Forall_app; split].
  - unfold forwarded. simpl. repeat (apply Forall_app; split); try (by apply Forall_nil);
      (eapply copied_allowed; [|reflexivity]; by repeat constructor).
  - destruct range; [constructor| |]; [eapply copied_allowed; [|reflexivity]; by repeat constructor|].
    apply Forall_singleton. by repeat constructor.
  - apply Forall_singleton. by repeat constructor.
Qed.

(** The client of a screened URL is pinned to its host. *)
Lemma client_for_pinned u t c :
  client_for api u t = Ok c -> (allow_private_upstreams config = true \/ forall ip, ip ∈ vu_addresses u -> ~ reserved ip) ->
  pinned c (url_host_str api (vu_url u)).
Proof using Type.
  unfold client_for. destruct (url_host_str api (vu_url u)) as [h|]; [|done]. intros [= <-] H. split; [done|done|].
  destruct H as [H|H]; [by left|right]. apply Forall_fmap. by rewrite Forall_forall.
Qed.

Lemma connect_ip_kept now n u u' :
  apply_connect_ip now n u = Ok u' ->
  (allow_private_upstreams config = true \/ forall ip, ip ∈ vu_addresses u -> ~ reserved ip) ->
  vu_url u' = vu_url u /\ (allow_private_upstreams config = true \/ forall ip, ip ∈ vu_addresses u' -> ~ reserved ip).
Proof using ipnet_contains.
  unfold apply_connect_ip. destruct (Node.connect_ip n) as [value|]; [|by intros [= <-]].
  destruct (bool_decide _); [|by intros [= <-]].
  destruct (resolve_connect_target _ _ _ _ _ _) as [l|] eqn:E; [|done]. intros [= <-] _. split; [done|]. simpl.
  by apply connect_override_public in E as (_ & _ & _ & ?).
Qed.

(** ** Transports *)

Definition transport_ok (n : Node.Model) (t : NodeTransport) : Prop :=
  pinned (client t) (url_host_str api (vu_url (base t))) /\ url_host_str api (vu_url (base t)) = node_host n.

(** The cached transports belong to versions of nodes. *)
Definition transports_ok (versions : list Node.Model) (s : UpstreamService) : Prop :=
  map_Forall (fun k (e : NodeTransport * Z) => exists n to, n ∈ versions /\ k = transport_key n to /\ transport_ok n e.1) (transports s).

(** [Uuid]'s text is hexadecimal digits and dashes. *)
Hypothesis uuid_text_inj : forall a b, uuid_text a = uuid_text b -> a = b.
Hypothesis uuid_text_plain : forall a, absent ":" (uuid_text a) = true.

Lemma transport_key_inj n to n' to' : transport_key n to = transport_key n' to' ->
  Node.id n = Node.id n' /\ Node.updated_at n = Node.updated_at n'.
Proof using uuid_text_inj uuid_text_plain.
  unfold transport_key, millis_text. intros E. apply separated_inj in E as [Ei E]; [|apply uuid_text_plain..].
  apply separated_inj in E as [Eu _]; [|by apply all_bytes_pretty_Z..].
  split; [by apply uuid_text_inj|]. by apply (inj (@pretty Z _)) in Eu.
Qed.

(** A node's row and its time of change determine its address. *)
Definition versioned (versions : list Node.Model) : Prop :=
  forall n n', n ∈ versions -> n' ∈ versions -> Node.id n = Node.id n' -> Node.updated_at n = Node.updated_at n' ->
    Node.url n = Node.url n'.

Record grows (v : NodeView) (k : nat) (s s' : UpstreamService) : Prop := {
  gr_trace : exists new, trace s' = trace s ++ new /\ Forall (confined v) new /\ (length new <= k)%nat;
  gr_transports : transports s' = transports s
}.

Lemma grows_refl v s : grows v 0 s s.
Proof using Type. split; [|done]. exists []. by rewrite app_nil_r. Qed.

Lemma grows_trans v k k' s1 s2 s3 : grows v k s1 s2 -> grows v k' s2 s3 -> grows v (k + k') s1 s3.
Proof using Type.
  intros [(n1 & E1 & F1 & L1) T1] [(n2 & E2 & F2 & L2) T2]. split; [|congruence].
  exists (n1 ++ n2). rewrite E2, E1, app_assoc. split; [done|]. split; [by apply Forall_app|]. rewrite length_app. lia.
Qed.

Lemma grows_weaken v k k' s s' : grows v k s s' -> (k <= k')%nat -> grows v k' s s'.
Proof using Type. intros [(n & E & F & L) T] H. split; [|done]. exists n. split; [done|]. split; [done|lia]. Qed.

Lemma perform_grows v s q r s' : confined v q -> perform s q = (r, s') -> grows v 1 s s'.
Proof using Type. intros Hq [= <- <-]. split; [|done]. exists [q]. split; [done|]. split; [by apply Forall_singleton|done]. Qed.

Lemma node_transport_ok versions s n r s' :
  versioned versions -> n ∈ versions -> transports_ok versions s -> node_transport s n = (r, s') ->
  transports_ok versions s' /\ trace s' = trace s /\ forall t, r = Ok t -> transport_ok n t.
Proof.
  intros Hv Hn Hs. unfold node_transport. destruct (cached_transport s _) as [t|] eqn:Ec.
  - intros [= <- <-]. split; [done|]. split; [done|]. intros ? [= <-]. unfold cached_transport in Ec.
    destruct (transports s !! _) as [[t' at_]|] eqn:El; [|done]. destruct (_ && _); [|done]. injection Ec as ->.
    destruct (map_Forall_lookup_1 _ _ _ _ Hs El) as (n' & to & Hn' & Ek & [Hp Hh]). simpl in *.
    apply transport_key_inj in Ek as [Ei Eu]. split; [done|]. rewrite Hh. unfold node_host.
    by rewrite (Hv n n' Hn Hn' Ei Eu).
  - destruct (validate_upstream _ _ _ _ _) as [u|] eqn:Eu; [|by intros [= <- <-]].
    unfold validate_upstream in Eu. apply (validate_url_Ok _ _ _ ipnet_contains) in Eu
      as (url & host & port & answer & Ep & _ & _ & _ & Hhost & Hvu & _ & _ & _ & _ & Hpub).
    destruct (apply_connect_ip _ _ u) as [u'|] eqn:Ea; [|by intros [= <- <-]].
    apply connect_ip_kept in Ea as [Eurl Hpub']; [|done].
    destruct (client_for api u' (timeout s)) as [c|] eqn:Ecl; [|by intros [= <- <-]]. intros [= <- <-].
    assert (transport_ok n {| base := u'; client := c |}) as Hok.
    { split; [by eapply client_for_pinned|]. simpl. rewrite Eurl, Hvu, edited_host. unfold node_host. by rewrite Ep. }
    split; [|split; [done|by intros ? [= <-]]]. apply map_Forall_insert_2; [|done]. by exists n, (timeout s).
Qed.

Lemma given_nil a : given a <> [] -> a <> Anonymous.
Proof using Type. by destruct a. Qed.

Lemma apply_auth_secret n a : apply_auth n = Ok a -> a <> Anonymous -> is_some (Node.auth_secret_enc n) = true.
Proof using Type.
  unfold Nodes.apply_auth. destruct (Node.auth_mode n =?s "none"); [by intros [= <-]|].
  by destruct (Node.auth_secret_enc n).
Qed.

Lemma append_opt_host name v u : url_host_str api (append_opt name v u) = url_host_str api u.
Proof using Hurl. unfold append_opt. destruct v; [apply (l_append Hurl)|done]. Qed.

(** A token request goes to the realm, with the node's credential only where the realm
    is trusted with it. *)
Lemma token_request_confined now to v c q : token_request now to v c = Ok q -> confined v q.
Proof.
  unfold token_request. destruct (url_parse api (realm c)) as [r|] eqn:Er; [|done]. cbn [ok_or].
  destruct (validate_token_realm v r) as [[]|] eqn:Ev; [|done].
  destruct (validate_target_url _ _ _ _ _) as [u|] eqn:Eu; [|done].
  unfold validate_target_url in Eu. apply (validate_url_Ok _ _ _ ipnet_contains) in Eu
    as (url & host & port & answer & Ep & _ & _ & _ & Hhost & Hvu & _ & _ & _ & _ & Hpub).
  rewrite (l_text Hurl) in Ep. injection Ep as <-.
  destruct (apply_connect_ip _ _ u) as [u'|] eqn:Ea; [|done]. apply connect_ip_kept in Ea as [Eurl Hpub']; [|done].
  destruct (client_for api u' to) as [cl|] eqn:Ecl; [|done]. destruct (apply_auth (node v)) as [a|] eqn:Eauth; [|done].
  intros [= <-]. split; simpl; [by eapply client_for_pinned| |].
  - intros Hg%given_nil. pose proof (apply_auth_secret _ _ Eauth Hg) as Hsec.
    unfold validate_token_realm, is_none in Ev. rewrite Hsec in Ev. cbn [negb] in Ev.
    rewrite Eurl, Hvu, edited_host, !append_opt_host.
    unfold lower_host in Ev. unfold trusted, node_host.
    destruct (_ || _) eqn:Eo; [|done]. apply orb_true_iff in Eo as [Eo|Eo].
    + left. apply bool_decide_eq_true in Eo. rewrite <- Eo. by destruct (url_parse api (Node.url (node v))).
    + right. apply andb_true_iff in Eo as [E1 E2]. apply str_eqb_eq in E1. by apply bool_decide_eq_true in E2.
  - apply Forall_singleton. by repeat constructor.
Qed.

Lemma token_grows s v c r s' : token s v c = (r, s') -> grows v 1 s s'.
Proof.
  unfold token. destruct (cached_token s _); [intros [= <- <-]; eapply grows_weaken; [apply grows_refl|lia]|].
  destruct (token_request _ _ _ _) as [q|] eqn:Eq; [|intros [= <- <-]; eapply grows_weaken; [apply grows_refl|lia]].
  apply token_request_confined in Eq. destruct (perform s q) as [x s1] eqn:Ep. apply (perform_grows v) in Ep; [|done].
  destruct x as [resp|]; [|by intros [= <- <-]]. destruct (token_answer resp) as [[value ttl]|]; [|by intros [= <- <-]].
  intros [= <- <-]. destruct Ep as [? ?]. by split.
Qed.

(** A request on a node's own client stays with the node. *)
Lemma send_once_grows v s m url h range bearer auth c r s' :
  pinned c (url_host_str api url) -> url_host_str api url = node_host (node v) ->
  send_once s (node v) m url h range bearer auth c = (r, s') -> grows v 1 s s'.
Proof using Type.
  intros Hp Hh. unfold send_once.
  destruct (if auth return ApiResult (list Auth) then _ else _) as [a|].
  2: { intros [= <- <-]. eapply grows_weaken; [apply grows_refl|lia]. }
  apply perform_grows. split; [done| |apply forward_headers_allowed]. intros _. left. simpl. by rewrite Hh.
Qed.

Lemma redirect_confined v s m h range from r q : redirect s m h range from r = Ok q -> confined v q.
Proof using ipnet_contains.
  unfold redirect. destruct (header_str _ _) as [location|]; [|done]. cbn [ok_or].
  destruct (url_join ops from location) as [target|]; [|done]. cbn [ok_or].
  destruct (validate_target_url _ _ _ _ _) as [u|] eqn:Eu; [|done].
  unfold validate_target_url in Eu. apply (validate_url_Ok _ _ _ ipnet_contains) in Eu
    as (url & host & port & answer & _ & _ & _ & _ & _ & _ & _ & _ & _ & _ & Hpub).
  destruct (client_for api u (timeout s)) as [c|] eqn:Ec; [|done]. intros [= <-]. split; simpl; [by eapply client_for_pinned|done|].
  apply forward_headers_allowed.
Qed.

Lemma follow_grows v hops s m h range from x r s' : follow hops s m h range from x = (r, s') -> grows v hops s s'.
Proof using ipnet_contains.
  revert s from x r s'. induction hops as [|hops IH]; intros s from x r s'; cbn [follow].
  all: destruct (negb _); [intros [= <- <-]; eapply grows_weaken; [apply grows_refl|lia]|].
  { intros [= <- <-]. apply grows_refl. }
  destruct (redirect s m h range from x) as [q|] eqn:Eq; [|intros [= <- <-]; eapply grows_weaken; [apply grows_refl|lia]].
  apply (redirect_confined v) in Eq. destruct (perform s q) as [y s1] eqn:Ep. apply (perform_grows v) in Ep; [|done].
  destruct y as [resp|]; [|intros [= <- <-]; eapply grows_weaken; [done|lia]].
  intros E%IH. by apply (grows_trans v 1 hops _ s1).
Qed.

Lemma answer_challenge_grows v s m url path h range c x r s' :
  pinned c (url_host_str api url) -> url_host_str api url = node_host (node v) ->
  answer_challenge s v m url path h range c x = (r, s') -> grows v 2 s s'.
Proof.
  intros Hp Hh. unfold answer_challenge.
  destruct (if (r_status x =? 401) && _ then bearer_challenge parse_challenge (r_headers x) path else None) as [challenge|].
  2: { intros [= <- <-]. eapply grows_weaken; [apply grows_refl|lia]. }
  destruct (token s v challenge) as [y s1] eqn:Et. apply token_grows in Et.
  destruct y as [t|]; [|intros [= <- <-]; eapply grows_weaken; [done|lia]].
  intros E. eapply send_once_grows in E; [|done..]. by apply (grows_trans v 1 1 _ s1).
Qed.

Lemma trim_v2 path : starts_with "/v2/" path = true -> starts_with "v2/" (trim_slashes path) = true.
Proof using Type.
  unfold starts_with. destruct (strip_prefix "/v2/" path) as [r|] eqn:E; [|done].
  apply strip_prefix_Some in E as ->. intros _. reflexivity.
Qed.

Lemma send_confined versions s v m path h range r s' :
  versioned versions -> node v ∈ versions -> transports_ok versions s -> starts_with "/v2/" path = true ->
  send s v m path h range = (r, s') ->
  transports_ok versions s' /\ exists new, trace s' = trace s ++ new /\ Forall (confined v) new /\ (length new <= 6)%nat.
Proof.
  intros Hv Hn Hs Hpath. unfold send. destruct (node_transport s (node v)) as [x s1] eqn:Et.
  apply (node_transport_ok versions) in Et as (Hs1 & Etr & Ht); [|done..].
  assert (forall k s2, grows v k s1 s2 -> (k <= 6)%nat ->
    transports_ok versions s2 /\ exists new, trace s2 = trace s ++ new /\ Forall (confined v) new /\ (length new <= 6)%nat) as Hdone.
  { intros k s2 [(new & En & Hf & Hl) Htr] Hk. split; [unfold transports_ok; by rewrite Htr|].
    exists new. rewrite En, Etr. split; [done|]. split; [done|lia]. }
  destruct x as [t|]; [|intros [= <- <-]; apply (Hdone 0%nat); [apply grows_refl|lia]].
  destruct (url_join ops _ _) as [url|] eqn:Ej; [|intros [= <- <-]; apply (Hdone 0%nat); [apply grows_refl|lia]].
  apply (l_join Hurl) in Ej; [|by apply trim_v2]. destruct (Ht t eq_refl) as [Hp Hh].
  rewrite <- Ej in Hp, Hh.
  destruct (send_once _ _ _ _ _ _ _ _ _) as [y s2] eqn:Eo. eapply send_once_grows in Eo; [|done..].
  destruct y as [r1|]; [|intros [= <- <-]; apply (Hdone 1%nat); [done|lia]].
  destruct (answer_challenge _ _ _ _ _ _ _ _ _) as [z s3] eqn:Ea. eapply answer_challenge_grows in Ea; [|done..].
  assert (grows v 3 s1 s3) as H3 by (by apply (grows_trans v 1 2 _ s2)).
  destruct z as [r2|]; [|intros [= <- <-]; apply (Hdone 3%nat); [done|lia]].
  intros E%(follow_grows v). apply (Hdone 6%nat); [by apply (grows_trans v 3 3 _ s3)|lia].
Qed.

(** A history of the service: requests, and changes of the time-out. *)
Inductive op :=
| OpSend (v : NodeView) (m : Method) (path : string) (h : HeaderMap) (range : RangeMode)
| OpTimeout (t : Z).

Fixpoint run_ops (l : list op) (s : UpstreamService) : UpstreamService :=
  match l with
  | [] => s
  | OpSend v m path h range :: l => run_ops l (send s v m path h range).2
  | OpTimeout t :: l => run_ops l (update_runtime s t)
  end.

Definition sent_to (o : op) : list Node.Model := match o with OpSend v _ _ _ _ => [node v] | OpTimeout _ => [] end.

Definition block_ok (o : op) (b : list Sent) : Prop :=
  match o with
  | OpSend v _ _ _ _ => Forall (confined v) b /\ (length b <= 6)%nat
  | OpTimeout _ => b = []
  end.

Lemma run_ops_confined versions l s :
  versioned versions -> transports_ok versions s ->
  Forall (fun o => match o with OpSend v _ path _ _ => node v ∈ versions /\ starts_with "/v2/" path = true | OpTimeout _ => True end) l ->
  exists blocks, trace (run_ops l s) = trace s ++ concat blocks /\ Forall2 block_ok l blocks.
Proof.
  intros Hv. revert s. induction l as [|o l IH]; intros s Hs Hl.
  { exists []. by rewrite app_nil_r. }
  apply Forall_cons in Hl as [Ho Hl]. destruct o as [v m path h range|t]; cbn [run_ops].
  - destruct Ho as [Hn Hp]. destruct (send s v m path h range) as [r s'] eqn:E.
    apply (send_confined versions) in E as (Hs' & new & En & Hf & Hlen); [|done..]. simpl.
    destruct (IH s' Hs' Hl) as (blocks & Et & Hb). exists (new :: blocks). split; [|by constructor].
    rewrite Et, En. simpl. by rewrite app_assoc.
  - destruct (IH (update_runtime s t) Hs Hl) as (blocks & Et & Hb). exists ([] :: blocks). split; [done|by constructor].
Qed.

(** C12: Credentials stay with their registry.  Over any history of requests below [/v2/],
    from a fresh service and for any answers, redirects and challenges: each request
    to a node causes at most six requests (the first, a token, the retry and three
    redirects); each leaves on a client that follows no redirect by itself and is
    pinned, for the host of its URL, to screened addresses; it carries no header of
    the client but the listed ones; and it carries a credential or a token only to
    the node's own host, or, for Docker Hub, to its official token service. *)
Theorem credentials_confined l to :
  versioned (l ≫= sent_to) ->
  Forall (fun o => match o with OpSend _ _ path _ _ => starts_with "/v2/" path = true | OpTimeout _ => True end) l ->
  exists blocks,
    trace (run_ops l {| timeout := to; tokens := ∅; transports := ∅; trace := []; time := 0 |}) = concat blocks /\
    Forall2 block_ok l blocks.
Proof.
  intros Hv Hl. destruct (run_ops_confined (l ≫= sent_to) l
    {| timeout := to; tokens := ∅; transports := ∅; trace := []; time := 0 |}) as (blocks & E & Hb); [done|apply map_Forall_empty| |by exists blocks].
  apply Forall_forall. intros o Ho. rewrite Forall_forall in Hl. specialize (Hl o Ho). destruct o as [v m path h range|]; [|done].
  split; [|done]. apply list_elem_of_bind. exists (OpSend v m path h range). split; [by left|done].
Qed.
End Service.
End Upstream.

(** ** Instances *)

Module UpstreamWitness.
Import Nodes Upstream.

(** A toy URL is its text; its host ends at the first slash. *)
Definition host_of (u : string) : string := match split_once "/" u with Some (h, _) => h | None => u end.

Definition toy_api : UrlApi string :=
  {| url_parse := Some; url_username := fun _ => ""; url_password := fun _ => None; url_scheme := fun _ => "https";
     url_host_str := fun u => Some (host_of u); url_path := fun _ => "/"; url_port_or_known_default := fun _ => Some 443;
     url_clear_fragment := id; url_clear_query := id; url_set_path := fun _ u => u |}.

Definition toy_ops : UrlOps string :=
  {| url_join := fun u r => if starts_with "v2/" r then Some (host_of u +:+ String "/" r) else Some r;
     url_text := id; url_append_pair := fun k v u => u +:+ String "/" (k +:+ v); url_set_query := fun _ u => u |}.

Lemma host_of_absent u : absent "/" (host_of u) = true.
Proof.
  unfold host_of. induction u as [|c u IH]; [done|]. cbn [split_once strip_prefix].
  destruct (Ascii.eqb_spec "/" c) as [<-|Hc]; [done|].
  destruct (split_once "/" u) as [[a b]|]; unfold absent in *; cbn [all_bytes]; rewrite IH, andb_true_r;
    by destruct (Ascii.eqb_spec c "/") as [->|].
Qed.

Lemma host_of_app u x : host_of (u +:+ String "/" x) = host_of u.
Proof.
  unfold host_of. induction u as [|c u IH]; [done|]. change (String c u +:+ String "/" x) with (String c (u +:+ String "/" x)).
  cbn [split_once strip_prefix]. destruct (Ascii.eqb "/" c); [done|].
  by destruct (split_once "/" u) as [[]|], (split_once "/" (u +:+ String "/" x)) as [[]|]; rewrite IH.
Qed.

Lemma host_of_id u : absent "/" u = true -> host_of u = u.
Proof. intros H. unfold host_of. by rewrite split_once_char_absent. Qed.

Lemma toy_laws : url_laws toy_api toy_ops.
Proof.
  split; try done.
  - intros k v u. simpl. by rewrite host_of_app.
  - intros u r u' Hr. simpl. rewrite Hr. intros [= <-]. rewrite host_of_app, host_of_id; [done|apply host_of_absent].
Qed.

Definition toy_challenge (v : string) : option (string * option (string -> option string)) :=
  Some ("Bearer", Some (fun k => if k =?s "realm" then Some "Registry.Example/token" else None)).

Definition toy_token (b : bytes) : result TokenResponse string :=
  Ok {| token_field := Some "t0k3n"; access_token := None; expires_in := None |}.

Definition answer (status : Z) (h : HeaderMap) : result Response string :=
  Ok {| r_status := status; r_headers := h; r_content_length := None; r_body := [] |}.

(** A challenge, the token, a redirect to a content network, the content. *)
Definition toy_transport (n : nat) (q : Sent (Url := string)) : result Response string :=
  match n with
  | 0%nat => answer 401 [("www-authenticate", "Bearer")]
  | 1%nat => answer 200 []
  | 2%nat => answer 307 [("location", "cdn.example/layer")]
  | _ => answer 200 []
  end.

Definition private_node : NodeView :=
  {| node := {| Node.id := 9; Node.name := "edge"; Node.url := "registry.example/"; Node.registry_route_id := 7;
                Node.enabled := true; Node.priority := 10; Node.cf_preferred := false; Node.connect_ip_type := "ip";
                Node.connect_ip := None; Node.auth_mode := "basic"; Node.auth_username := Some "user"; Node.auth_header := None;
                Node.auth_secret_enc := Some "abcdefghijkls3cret#"; Node.created_at := 2; Node.updated_at := 2 |};
     metric := empty_metric 9; Model.score := f64_of_Z 0; auth_configured := true; route := sample_route;
     max_concurrency := 4; live_bps := 0 |}.

Definition history : list op :=
  [OpSend private_node GET "/v2/org/app/manifests/latest" [("authorization", "client"); ("accept", "*/*")] ForwardClient;
   OpTimeout 5].

(** Identifiers written in unary. *)
Definition toy_uuid (u : Uuid) : string := N.iter u (String "u") "".

Lemma toy_uuid_length u : String.length (toy_uuid u) = N.to_nat u.
Proof.
  unfold toy_uuid. induction u as [|u IH] using N.peano_ind; [done|]. rewrite N.iter_succ. simpl. rewrite IH. lia.
Qed.

Lemma toy_uuid_inj a b : toy_uuid a = toy_uuid b -> a = b.
Proof. intros E. apply (f_equal String.length) in E. rewrite !toy_uuid_length in E. lia. Qed.

Lemma toy_uuid_plain a : absent ":" (toy_uuid a) = true.
Proof. unfold toy_uuid. induction a as [|a IH] using N.peano_ind; [done|]. by rewrite N.iter_succ. Qed.

Abbreviation run_here := (run_ops NodesWitness.toy_prims (Some tt) SecurityWitness.cidr_contains (fun _ _ _ => Some [V4 134744072])
  toy_api toy_ops NodesWitness.toy_header (fun x => Some x) toy_challenge toy_token (fun _ => "") toy_uuid
  SecurityWitness.config (fun _ _ => true) (fun n => Z.of_nat n) toy_transport).

Lemma credentials_confined_witness :
  let s := run_here history {| timeout := 30; tokens := ∅; transports := ∅; trace := []; time := 0 |} in
  (fun q => (host_of (s_url q), length (s_auth q))) <$> trace s =
    [("registry.example", 1%nat); ("Registry.Example", 1%nat); ("registry.example", 1%nat); ("cdn.example", 0%nat)] /\
  exists blocks, trace s = concat blocks /\ length blocks = 2%nat.
Proof.
  intros s. split; [vm_compute; reflexivity|].
  destruct (credentials_confined NodesWitness.toy_prims (Some tt) SecurityWitness.cidr_contains (fun _ _ _ => Some [V4 134744072])
    toy_api toy_ops NodesWitness.toy_header (fun x => Some x) toy_challenge toy_token (fun _ => "") toy_uuid
    SecurityWitness.config (fun _ _ => true) (fun n => Z.of_nat n) toy_transport toy_laws
    (fun n ip _ => SecurityWitness.cidr_contains_in n ip) toy_uuid_inj toy_uuid_plain history 30) as (blocks & E & Hb).
  - intros n n'. simpl. rewrite !list_elem_of_singleton. by intros -> ->.
  - repeat constructor.
  - exists blocks. split; [exact E|]. by apply Forall2_length in Hb.
Defined.

(** The scope of a challenge without one ends at the first [/manifests/], where the
    router looks for the last marker. *)
Example scope_of_nested_name :
  repository_scope "/v2/org/manifests/app/blobs/sha256:00" = Some "repository:org:pull".
Proof. reflexivity. Qed.
End UpstreamWitness.
