(* ===== verification/Helpers.v ===== *)
(** * Helper scripts

    src/src/helpers.rs: the set-up scripts served with the origin of the request
    written into them.  The script templates and the parser of
    [http::uri::Authority] are parameters. *)

From stdpp Require Import base gmap sets list strings.
From Stdlib Require Import ZArith Lia Ascii.
From S2P Require Import Prelude Text Errors Files Http Security Paths.

#[local] Set Default Proof Using "Type*".

Module Helpers.
Import Paths.

Definition is_helper_path (path : string) : bool := (path =?s "/helper") || (path =?s "/helper.win").

(** [source.matches(pattern).count()]: disjoint occurrences, from the left. *)
Fixpoint match_count (fuel : nat) (pattern source : string) : nat :=
  match fuel with
  | O => 0
  | S fuel =>
      match split_once pattern source with
      | None => 0
      | Some (_, rest) => S (match_count fuel pattern rest)
      end
  end.

Definition replace_once (source pattern replacement : string) : ApiResult string :=
  if negb (match_count (S (String.length source)) pattern source =? 1)%nat
  then Err (Internal "helper template marker is invalid")
  else
    match split_once pattern source with
    | Some (before, after) => Ok (before +:+ replacement +:+ after)
    | None => Ok source
    end.

Definition dquote : string := chr 34.

Definition SHELL_MARKER : string := "DONKEY_URL=" +:+ dquote +:+ "${DONKEY_URL:-}" +:+ dquote.
Definition POWERSHELL_MARKER : string := "[string]$Url = $env:DONKEY_URL,".

Section Serve.
Variable SHELL_HELPER POWERSHELL_HELPER : string.
Variable parse_authority : string -> option (string * option Z).
(** [config.tls_cert.is_some() || config.registry_external_tls]. *)
Variable tls : bool.

Definition render_shell (origin : string) : ApiResult string :=
  replace_once SHELL_HELPER SHELL_MARKER
    ("DONKEY_URL=" +:+ dquote +:+ "${DONKEY_URL:-" +:+ origin +:+ "}" +:+ dquote).

Definition render_powershell (origin : string) : ApiResult string :=
  replace_once POWERSHELL_HELPER POWERSHELL_MARKER ("[string]$Url = '" +:+ origin +:+ "',").

Definition host_byte (c : ascii) : bool := is_ascii_alphanumeric c || char_in c ".-[]:".

Definition bad_label (label : string) : bool :=
  is_empty label || starts_with "-" label || ends_with "-" label
  || negb (all_bytes (fun c => is_ascii_alphanumeric c || Ascii.eqb c "-"%char) label).

Definition bad_host : AppError := BadRequest "invalid Host header".

Definition public_origin (h : HeaderMap) : ApiResult string :=
  let? raw := ok_or (header_str h "host") (BadRequest "Host header is required") in
  if (255 <? slen raw) || negb (all_bytes host_byte raw) then Err bad_host
  else
    let? authority := ok_or (parse_authority raw) bad_host in
    let host := trim_matches (fun c => char_in c "[]") (authority : string * option Z).1 in
    if is_none (parse_ip host) && (is_empty host || existsb bad_label (split_char "."%char host)) then Err bad_host
    else Ok ((if tls then "https" else "http") +:+ "://" +:+ raw).

Definition serve (q : Request) : ApiResult Response :=
  match read_method (q_method q) with
  | None => Ok (status_response 405)
  | Some m =>
      let? origin := public_origin (q_headers q) in
      let path := u_path (q_uri q) in
      let? page :=
        if path =?s "/helper" then
          let? script := render_shell origin in Ok ("text/x-shellscript; charset=utf-8", "donkey-helper.sh", script)
        else if path =?s "/helper.win" then
          let? script := render_powershell origin in Ok ("text/plain; charset=utf-8", "donkey-helper.ps1", script)
        else Err (NotFound "helper") in
      let '(content_type, filename, script) := page : string * string * string in
      Ok (text_response 200
            [("content-type", content_type); ("cache-control", "no-store, max-age=0");
             ("content-disposition", "inline; filename=" +:+ dquote +:+ filename +:+ dquote); ("x-content-type-options", "nosniff")]
            (match m with HEAD => "" | GET => script end))
  end.

(** ** The origin inside the scripts *)

(** The bytes that neither end a double-quoted shell word or a single-quoted
    PowerShell string, nor expand in one. *)
Definition inert (c : ascii) : bool := is_ascii_alphanumeric c || char_in c ".-[]:/".

Lemma public_origin_inert h origin : public_origin h = Ok origin -> all_bytes inert origin = true.
Proof using Type.
  unfold public_origin. destruct (header_str h "host") as [raw|]; [|done]. cbn [ok_or].
  destruct ((255 <? slen raw) || _) eqn:Eb; [done|]. destruct (parse_authority raw) as [a|]; [|done]. cbn [ok_or].
  destruct (_ && _); [done|]. intros [= <-]. apply orb_false_iff in Eb as [_ Eb]. apply negb_false_iff in Eb.
  rewrite !all_bytes_app. replace (all_bytes inert raw) with true; [by destruct tls|].
  symmetry. eapply all_bytes_impl; [|exact Eb]. intros c. unfold host_byte, inert.
  intros [->|H]%orb_true_iff; [done|]. apply orb_true_iff. right. cbn [char_in] in *.
  repeat (apply orb_true_iff in H as [H|H]; [rewrite H; by rewrite ?orb_true_r|]). done.
Qed.

Lemma replace_once_Ok source pattern replacement r : pattern <> "" ->
  replace_once source pattern replacement = Ok r ->
  exists before after, source = before +:+ pattern +:+ after /\ r = before +:+ replacement +:+ after.
Proof using Type.
  unfold replace_once. cbn [match_count]. destruct (split_once pattern source) as [[before after]|] eqn:E; [|done].
  intros _. destruct (negb _); [done|]. intros [= <-]. exists before, after. split; [by apply split_once_Some|done].
Qed.

(** A helper script carries the origin and nothing else of the request.  Whatever
    headers arrive, the script served is the template with one marker replaced, and
    the text put in its place is made of bytes that neither end the quoted string it
    stands in nor expand there. *)
Theorem helper_script_inert q r m :
  serve q = Ok r -> read_method (q_method q) = Some m -> is_helper_path (u_path (q_uri q)) = true ->
  r_status r = 200 /\
  exists origin before after, all_bytes inert origin = true /\
    (SHELL_HELPER = before +:+ SHELL_MARKER +:+ after /\
       (m = GET -> body_data (r_body r) = String.list_byte_of_string
          (before +:+ ("DONKEY_URL=" +:+ dquote +:+ "${DONKEY_URL:-" +:+ origin +:+ "}" +:+ dquote) +:+ after)) \/
     POWERSHELL_HELPER = before +:+ POWERSHELL_MARKER +:+ after /\
       (m = GET -> body_data (r_body r) = String.list_byte_of_string
          (before +:+ ("[string]$Url = '" +:+ origin +:+ "',") +:+ after))) /\
    (m = HEAD -> r_body r = []).
Proof using Type.
  assert (forall s, body_data (if is_empty s then [] else [Data (String.list_byte_of_string s)]) = String.list_byte_of_string s) as Hbody
    by (intros [|c s]; [done|apply app_nil_r]).
  unfold serve, is_helper_path. intros H Hm. rewrite Hm in H. destruct (public_origin (q_headers q)) as [origin|] eqn:Eo; [|done].
  apply public_origin_inert in Eo. destruct (u_path (q_uri q) =?s "/helper") eqn:E1; [|destruct (u_path (q_uri q) =?s "/helper.win") eqn:E2; [|done]].
  - destruct (render_shell origin) as [script|] eqn:Es; [|done]. injection H as <-. intros _.
    unfold render_shell in Es. apply replace_once_Ok in Es as (before & after & Eb & ->); [|done].
    split; [done|]. exists origin, before, after. split; [done|]. split; [|by intros ->].
    left. split; [done|]. intros ->. apply Hbody.
  - destruct (render_powershell origin) as [script|] eqn:Es; [|done]. injection H as <-. intros _.
    unfold render_powershell in Es. apply replace_once_Ok in Es as (before & after & Eb & ->); [|done].
    split; [done|]. exists origin, before, after. split; [done|]. split; [|by intros ->].
    right. split; [done|]. intros ->. apply Hbody.
Qed.
End Serve.
End Helpers.

(** ** Instances *)

Module HelpersWitness.
Import Paths Helpers.

Definition template : string := "#!/bin/sh" +:+ chr 10 +:+ SHELL_MARKER +:+ chr 10 +:+ "exit".

Definition call : Request :=
  {| q_method := "GET"; q_uri := {| u_path := "/helper"; u_query := None |}; q_headers := [("host", "Mirror.example:5443")] |}.

Definition page : Response :=
  text_response 200
    [("content-type", "text/x-shellscript; charset=utf-8"); ("cache-control", "no-store, max-age=0");
     ("content-disposition", "inline; filename=" +:+ dquote +:+ "donkey-helper.sh" +:+ dquote); ("x-content-type-options", "nosniff")]
    ("#!/bin/sh" +:+ chr 10 +:+ ("DONKEY_URL=" +:+ dquote +:+ "${DONKEY_URL:-https://Mirror.example:5443}" +:+ dquote)
     +:+ chr 10 +:+ "exit").

Lemma helper_script_inert_witness :
  serve template "" (fun s => Some ("Mirror.example", Some 5443)) true call = Ok page /\ r_status page = 200.
Proof.
  assert (serve template "" (fun s => Some ("Mirror.example", Some 5443)) true call = Ok page) as H by (vm_compute; reflexivity).
  split; [exact H|]. exact (proj1 (helper_script_inert template "" _ true call page GET H eq_refl eq_refl)).
Defined.
End HelpersWitness.
