(* ===== verification/Domainfold.v ===== *)
(** * Domain mappings

    src/src/domainfold.rs and the mapping statements of src/src/db.rs: a mapping folds
    the URLs below an upstream base into those below a public base, and requests to
    the public host are sent on to the upstream.  The [url] crate and the authority
    parser are parameters, as in Security.v and Upstream.v. *)

From stdpp Require Import base gmap sets list strings.
From Stdlib Require Import ZArith Lia Ascii.
From S2P Require Import Prelude Text Errors Files Http Tables Security Crypto Nodes Upstream Paths.

#[local] Set Default Proof Using "Type*".

Module Mapping.
(** [domain_mapping::Model]. *)
Record Model := {
  id : Uuid;
  source_host : string;
  upstream_base : string;
  public_base : string;
  enabled : bool;
  created_at : Z;
  updated_at : Z
}.
End Mapping.

Module Domainfold.
Import Tables Paths Upstream.

Record MappingInput := { m_source_host : string; m_upstream_base : string; m_public_base : string; m_enabled : bool }.
Record ConvertOutput := { original_url : string; accelerated_url : string; mapping_id : Uuid }.

(** ** Statements *)

(** The primary key and the unique column. *)
Definition mapping_clash (r x : Mapping.Model) : bool :=
  (Mapping.id x =? Mapping.id r)%N || (Mapping.source_host x =?s Mapping.source_host r).

Definition list_mappings (d : list Mapping.Model) : list Mapping.Model :=
  sort_by (fun a b => String.compare (Mapping.source_host a) (Mapping.source_host b)) d.
Definition get_mapping (d : list Mapping.Model) (i : Uuid) : option Mapping.Model := by_id Mapping.id i d.

Definition insert_mapping (d : list Mapping.Model) (r : Mapping.Model) : result (list Mapping.Model) DbErr :=
  if existsb (mapping_clash r) d then Err unique_failed else Ok (d ++ [r]).

Definition save_mapping (d : list Mapping.Model) (r : Mapping.Model) : result (list Mapping.Model) DbErr :=
  match by_id Mapping.id (Mapping.id r) d with
  | None => Err not_updated
  | Some _ =>
      if existsb (mapping_clash r) (others Mapping.id (Mapping.id r) d) then Err unique_failed
      else Ok (replace Mapping.id r d)
  end.

Definition delete_mapping (d : list Mapping.Model) (i : Uuid) : Z * list Mapping.Model :=
  match by_id Mapping.id i d with
  | None => (0, d)
  | Some _ => (1, delete_id Mapping.id i d)
  end.

Definition delete (d : list Mapping.Model) (i : Uuid) : ApiResult unit * list Mapping.Model :=
  let (n, d) := delete_mapping d i in (if n =? 0 then Err (NotFound "mapping") else Ok tt, d).

Definition trim_end_slashes (s : string) : string := trim_end_by (fun c => Ascii.eqb c "/"%char) s.

Section Urls.
Context {Url : Type} (api : UrlApi Url) (ops : UrlOps Url).

(** ** Editing *)

Definition http_scheme (u : Url) : bool := (url_scheme api u =?s "http") || (url_scheme api u =?s "https").

Definition normalize_base (raw : string) : ApiResult string :=
  let? url := ok_or (url_parse api raw) (BadRequest "invalid mapping base URL") in
  if negb (http_scheme url) || is_none (url_host_str api url) then Err (BadRequest "mapping base must be an HTTP(S) URL")
  else if negb (is_empty (url_username api url)) || is_some (url_password api url)
  then Err (BadRequest "mapping base URL must not contain credentials")
  else
    let url := url_clear_fragment api (url_clear_query api url) in
    let url := if negb (ends_with "/" (url_path api url)) then url_set_path api (url_path api url +:+ "/") url else url in
    Ok (url_text ops url).

Definition validate (input : MappingInput) : ApiResult MappingInput :=
  let source_host := to_ascii_lowercase (trim (m_source_host input)) in
  if is_empty source_host || (253 <? slen source_host) || contains "/" source_host || contains ":" source_host
  then Err (BadRequest "invalid source host")
  else
    let? upstream_base := normalize_base (m_upstream_base input) in
    let? public_base := normalize_base (m_public_base input) in
    Ok {| m_source_host := source_host; m_upstream_base := upstream_base; m_public_base := public_base;
          m_enabled := m_enabled input |}.

Definition mapping_of (i : Uuid) (input : MappingInput) (created_at updated_at : Z) : Mapping.Model :=
  {| Mapping.id := i; Mapping.source_host := m_source_host input; Mapping.upstream_base := m_upstream_base input;
     Mapping.public_base := m_public_base input; Mapping.enabled := m_enabled input;
     Mapping.created_at := created_at; Mapping.updated_at := updated_at |}.

Definition create (d : list Mapping.Model) (input : MappingInput) (i : Uuid) (now : Z)
    : ApiResult Mapping.Model * list Mapping.Model :=
  match validate input with
  | Err e => (Err e, d)
  | Ok input =>
      let r := mapping_of i input now now in
      match insert_mapping d r with Ok d => (Ok r, d) | Err e => (Err (Database e), d) end
  end.

Section Interleaved.
(** What other requests do between the read and the write of an update. *)
Variable between : list Mapping.Model -> list Mapping.Model.

Definition update (d : list Mapping.Model) (i : Uuid) (input : MappingInput) (now : Z)
    : ApiResult Mapping.Model * list Mapping.Model :=
  match (let? input := validate input in
         let? model := ok_or (get_mapping d i) (NotFound "mapping") in
         Ok (mapping_of (Mapping.id model) input (Mapping.created_at model) now)) with
  | Err e => (Err e, d)
  | Ok r =>
      let d := between d in
      match save_mapping d r with Ok d => (Ok r, d) | Err e => (Err (Database e), d) end
  end.
End Interleaved.

(** ** Folding *)

Definition mapping_for (d : list Mapping.Model) (p : Mapping.Model -> bool) : option Mapping.Model :=
  List.find (fun m => Mapping.enabled m && p m) (list_mappings d).

(** The upstream is the origin of the URL. *)
Definition same_origin (original upstream : Url) : bool :=
  (url_scheme api original =?s url_scheme api upstream)
  && bool_decide (url_host_str api original = url_host_str api upstream)
  && bool_decide (url_port_or_known_default api original = url_port_or_known_default api upstream)
  && (url_username api upstream =?s "") && is_none (url_password api upstream).

Definition below (upstream_path path : string) : bool :=
  is_empty upstream_path || (path =?s upstream_path)
  || is_some_and (strip_prefix upstream_path path) (starts_with "/").

Section Query.
(** [original.query()]. *)
Variable url_query : Url -> option string.

Definition convert (d : list Mapping.Model) (raw : string) : ApiResult ConvertOutput :=
  if 4096 <? slen raw then Err (BadRequest "URL is too long")
  else
    let? original := ok_or (url_parse api raw) (BadRequest "invalid URL") in
    if negb (http_scheme original) then Err (BadRequest "only HTTP and HTTPS URLs can be converted")
    else
      let? host := ok_or (url_host_str api original) (BadRequest "URL has no host") in
      let? mapping := ok_or (mapping_for d (fun m => eq_ignore_ascii_case host (Mapping.source_host m)))
                        (BadRequest "this domain has no acceleration mapping") in
      let? upstream := ok_or (url_parse api (Mapping.upstream_base mapping)) (Internal "url") in
      if negb (same_origin original upstream) then Err (BadRequest "URL does not match the mapping upstream")
      else
        let upstream_path := trim_end_slashes (url_path api upstream) in
        if negb (below upstream_path (url_path api original))
        then Err (BadRequest "URL does not match the mapping upstream path")
        else
          let suffix := unwrap_or (strip_prefix upstream_path (url_path api original)) (url_path api original) in
          let? public := ok_or (url_parse api (Mapping.public_base mapping)) (Internal "url") in
          let? accelerated := ok_or (url_join ops public (trim_slashes suffix)) (Internal "url") in
          let accelerated := url_set_query ops (url_query original) accelerated in
          Ok {| original_url := url_text ops original; accelerated_url := url_text ops accelerated;
                mapping_id := Mapping.id mapping |}.
End Query.

(** ** Proxying *)

Section Proxy.
Variable parse_authority : string -> option (string * option Z).

(** The host the request is for. *)
Definition request_host (q : Request) : option string :=
  let* v := header_str (q_headers q) "host" in
  let* (host, _) := parse_authority v in
  Some (to_ascii_lowercase (trim_matches (fun c => char_in c "[]") host)).

Definition public_host_is (host : string) (m : Mapping.Model) : bool :=
  is_some_and (let* u := url_parse api (Mapping.public_base m) in url_host_str api u) (fun v => eq_ignore_ascii_case v host).

Definition folded_suffix (public_prefix path : string) : ApiResult string :=
  if is_empty public_prefix then Ok path
  else if path =?s public_prefix then Ok ""
  else ok_or (strip_prefix (public_prefix +:+ "/") path)
         (BadRequest "request path does not match the DomainFold mapping").

(** The upstream URL of a request that a mapping takes. *)
Definition folded_url (m : Mapping.Model) (u : Uri) : ApiResult Url :=
  let? public := ok_or (url_parse api (Mapping.public_base m)) (Internal "url") in
  let? suffix := folded_suffix (trim_end_slashes (url_path api public)) (u_path u) in
  let? upstream := ok_or (url_parse api (Mapping.upstream_base m)) (Internal "url") in
  let? upstream := ok_or (url_join ops upstream (trim_slashes suffix)) (Internal "url") in
  Ok (url_set_query ops (u_query u) upstream).

Definition domain_headers : list string :=
  ["content-type"; "content-length"; "content-range"; "content-disposition"; "accept-ranges"; "etag"; "last-modified";
   "cache-control"].

Definition domain_response (r : Response) : Response :=
  {| r_status := r_status r; r_headers := copy_headers domain_headers (r_headers r) []; r_content_length := None;
     r_body := r_body r |}.

Section State.
(** [upstream.send_public_url] and the state of the upstream service. *)
Context {S : Type} (send_public_url : S -> Method -> Url -> HeaderMap -> ApiResult Response * S).

Definition send_domain_request (s : S) (m : Method) (url : Url) (h : HeaderMap) : ApiResult Response * S :=
  match send_public_url s m url h with
  | (Ok r, s) => (Ok (domain_response r), s)
  | (Err e, s) => (Err e, s)
  end.

(** [Ok None] leaves the request to the caller. *)
Definition proxy_if_mapping (d : list Mapping.Model) (s : S) (q : Request) : ApiResult (option Response) * S :=
  match (let* host := request_host q in mapping_for d (public_host_is host)) with
  | None => (Ok None, s)
  | Some mapping =>
      match read_method (q_method q) with
      | None => (Ok (Some (status_response 405)), s)
      | Some m =>
          match folded_url mapping (q_uri q) with
          | Err e => (Err e, s)
          | Ok url =>
              match send_domain_request s m url (q_headers q) with
              | (Ok r, s) => (Ok (Some r), s)
              | (Err e, s) => (Err e, s)
              end
          end
      end
  end.
End State.
End Proxy.

(** ** Properties *)



Variable url_query : Url -> option string.




Lemma trim_slashes_slash r : starts_with "/" r = false -> trim_slashes (String "/" r) = r.
Proof using Type.
  intros H. unfold trim_slashes. cbn [trim_start_by]. replace (Ascii.eqb "/" "/") with true by reflexivity.
  destruct r as [|c r]; [done|]. simpl. destruct (Ascii.eqb_spec c "/") as [->|]; [|done]. by destruct r.
Qed.



Lemma mapping_clash_sym x y : mapping_clash x y = mapping_clash y x.
Proof using Type. unfold mapping_clash. rewrite (N.eqb_sym (Mapping.id y)). f_equal. apply String.eqb_sym. Qed.

Lemma mapping_clash_id x y : Mapping.id x = Mapping.id y -> mapping_clash x y = true.
Proof using Type. unfold mapping_clash. intros ->. by rewrite N.eqb_refl. Qed.









(** What the proxy sends for a request of the mapping it selects. *)
Lemma proxy_sends {S : Type} parse_authority (send : S -> Method -> Url -> HeaderMap -> ApiResult Response * S)
    d s q host m method u :
  request_host parse_authority q = Some host -> mapping_for d (public_host_is host) = Some m ->
  read_method (q_method q) = Some method -> folded_url m (q_uri q) = Ok u ->
  proxy_if_mapping parse_authority send d s q =
    match send s method u (q_headers q) with
    | (Ok r, s) => (Ok (Some (domain_response r)), s)
    | (Err e, s) => (Err e, s)
    end.
Proof using Type.
  intros Hh Hm Hr Hf. unfold proxy_if_mapping. rewrite Hh, Hm, Hr, Hf. unfold send_domain_request.
  by destruct (send s method _ _) as [[r|e] s'].
Qed.


(** A mapping does not confine its requests.  The request path is joined to the upstream
    base as a URL reference, so a path that is itself an absolute URL replaces the
    base: the request goes to whatever URL the client wrote, not below the upstream
    base of the mapping. *)
Theorem mapping_escape {S : Type} parse_authority (send : S -> Method -> Url -> HeaderMap -> ApiResult Response * S)
    d s q host m method public upstream t target :
  (forall u t target, url_parse api t = Some target -> url_join ops u t = Some target) ->
  request_host parse_authority q = Some host -> mapping_for d (public_host_is host) = Some m ->
  read_method (q_method q) = Some method ->
  url_parse api (Mapping.public_base m) = Some public -> trim_end_slashes (url_path api public) = "" ->
  url_parse api (Mapping.upstream_base m) = Some upstream ->
  u_path (q_uri q) = String "/" t -> starts_with "/" t = false -> url_parse api t = Some target ->
  proxy_if_mapping parse_authority send d s q =
    match send s method (url_set_query ops (u_query (q_uri q)) target) (q_headers q) with
    | (Ok r, s) => (Ok (Some (domain_response r)), s)
    | (Err e, s) => (Err e, s)
    end.
Proof using Type.
  intros Habs Hh Hm Hr Ep Epath Eu Hpath Hs Ht. apply (proxy_sends _ _ _ _ _ host m); [done..|].
  unfold folded_url. rewrite Ep. cbn [ok_or]. rewrite Epath, Hpath. cbn [folded_suffix is_empty].
  rewrite Eu. cbn [ok_or]. rewrite trim_slashes_slash by done. by rewrite (Habs _ _ _ Ht).
Qed.

(** What a stored mapping looks like. *)
Definition mapping_ok (m : Mapping.Model) : bool :=
  negb (is_empty (Mapping.source_host m)) && (slen (Mapping.source_host m) <=? 253)
  && negb (contains "/" (Mapping.source_host m)) && negb (contains ":" (Mapping.source_host m)).

Lemma validate_Ok input v i c u : validate input = Ok v -> mapping_ok (mapping_of i v c u) = true.
Proof using Type.
  unfold validate. destruct (_ || contains ":" _) eqn:E; [done|]. destruct (normalize_base _) as [a|]; [|done].
  destruct (normalize_base _) as [b|]; [|done]. intros [= <-].
  apply orb_false_iff in E as [E E4]. apply orb_false_iff in E as [E E3]. apply orb_false_iff in E as [E1 E2].
  unfold mapping_ok. simpl. rewrite E1, E3, E4. apply Z.ltb_ge in E2. by rewrite (proj2 (Z.leb_le _ _) E2).
Qed.

Lemma normalize_base_Err raw e : normalize_base raw = Err e -> status e = 400.
Proof using Type.
  unfold normalize_base. destruct (url_parse api raw); cbn [ok_or]; [|by intros [= <-]].
  destruct (_ || _); [by intros [= <-]|]. destruct (_ || _); [by intros [= <-]|done].
Qed.

Lemma validate_Err input e : validate input = Err e -> status e = 400.
Proof using Type.
  unfold validate. destruct (_ || _); [by intros [= <-]|].
  destruct (normalize_base (m_upstream_base input)) eqn:E1; [|intros [= <-]; by eapply normalize_base_Err].
  destruct (normalize_base (m_public_base input)) eqn:E2; [done|intros [= <-]; by eapply normalize_base_Err].
Qed.

(** The mapping table stays a function of the source host.  Creating a mapping either
    appends one well-formed row whose host and identifier are new, or changes nothing:
    it is refused with 400 for a malformed input, and with 500, an internal error,
    exactly when the input is well formed and the source host is already mapped. *)
Theorem create_mapping_outcome d input i now r d' :
  apart mapping_clash d -> Forall (fun m => mapping_ok m = true) d -> Forall (fun m => Mapping.id m <> i) d ->
  create d input i now = (r, d') ->
  apart mapping_clash d' /\ Forall (fun m => mapping_ok m = true) d' /\
  match r with
  | Ok m => d' = d ++ [m] /\ Mapping.id m = i
  | Err e => d' = d /\ ((status e = 400 /\ validate input = Err e) \/
      (status e = 500 /\ exists v x, validate input = Ok v /\ x ∈ d /\ Mapping.source_host x = m_source_host v))
  end.
Proof using Type.
  intros Ha Hok Hid. unfold create. destruct (validate input) as [v|e] eqn:Ev.
  2: { intros [= <- <-]. split; [done|]. split; [done|]. split; [done|]. left. split; [by eapply validate_Err|done]. }
  unfold insert_mapping. destruct (existsb (mapping_clash _) d) eqn:Ex.
  - intros [= <- <-]. split; [done|]. split; [done|]. split; [done|]. right. split; [done|].
    apply existsb_exists in Ex as (x & Hx & Hc). apply list_elem_of_In in Hx. exists v, x. split; [done|]. split; [done|].
    rewrite Forall_forall in Hid. unfold mapping_clash in Hc. apply orb_true_iff in Hc as [Hc|Hc].
    + apply N.eqb_eq in Hc. by destruct (Hid x Hx).
    + by apply str_eqb_eq in Hc.
  - intros [= <- <-]. split; [by apply (apart_snoc mapping_clash mapping_clash_sym)|]. split; [|done].
    apply Forall_app. split; [done|]. apply Forall_singleton. by eapply validate_Ok.
Qed.

Lemma update_mapping_kept between d i input now :
  apart mapping_clash d -> apart mapping_clash (between d) ->
  Forall (fun m => mapping_ok m = true) d -> Forall (fun m => mapping_ok m = true) (between d) ->
  apart mapping_clash (update between d i input now).2 /\ Forall (fun m => mapping_ok m = true) (update between d i input now).2.
Proof using Type.
  intros Ha Hb Hok Hokb. unfold update. destruct (validate input) as [v|] eqn:Ev; [|done].
  destruct (get_mapping d i) as [m|] eqn:Em; [|done]. cbn [ok_or]. unfold save_mapping.
  destruct (by_id _ _ _); [|done]. destruct (existsb _ _) eqn:Ex; [done|]. simpl.
  split; [by apply (apart_replace Mapping.id mapping_clash mapping_clash_sym mapping_clash_id)|].
  rewrite Forall_forall in *. intros x [->|[Hx _]]%replace_elem; [by eapply validate_Ok|by apply Hokb].
Qed.

Lemma delete_mapping_kept d i :
  apart mapping_clash d -> Forall (fun m => mapping_ok m = true) d ->
  apart mapping_clash (delete d i).2 /\ Forall (fun m => mapping_ok m = true) (delete d i).2.
Proof using Type.
  intros Ha Hok. unfold delete, delete_mapping. destruct (by_id _ _ _); [|done]. simpl.
  split; [by apply apart_filter|by apply Forall_filter].
Qed.
End Urls.
End Domainfold.

(** ** Instances *)

Module DomainfoldWitness.
Import Tables Paths Upstream UpstreamWitness Domainfold.

(** A toy URL is a host and path, and a query; a query is written after its own
    length, in unary. *)
Abbreviation U := (string * option string)%type.

Fixpoint ones (n : nat) (s : string) : string := match n with O => String "0" s | S n => String "1" (ones n s) end.
Fixpoint read_ones (s : string) : nat * string :=
  match s with
  | String "1" s => let (n, s) := read_ones s in (S n, s)
  | String _ s => (0%nat, s)
  | EmptyString => (0%nat, "")
  end.

Definition text (u : U) : string :=
  match u with (b, None) => String "n" b | (b, Some q) => String "q" (ones (String.length b) (b +:+ q)) end.
Definition parse (s : string) : option U :=
  match s with
  | String "n" b => Some (b, None)
  | String "q" r => let (n, r) := read_ones r in Some (str_take n r, Some (str_drop n r))
  | _ => None
  end.



Definition path_of (b : string) : string := match split_once "/" b with Some (_, r) => String "/" r | None => "" end.

Definition pair_api : UrlApi U :=
  {| url_parse := parse; url_username := fun _ => ""; url_password := fun _ => None; url_scheme := fun _ => "https";
     url_host_str := fun u => Some (host_of u.1); url_path := fun u => path_of u.1; url_port_or_known_default := fun _ => Some 443;
     url_clear_fragment := id; url_clear_query := fun u => (u.1, None); url_set_path := fun p u => (host_of u.1 +:+ p, u.2) |}.

Definition pair_ops : UrlOps U :=
  {| url_join := fun u r => Some (u.1 +:+ r, None); url_text := text;
     url_append_pair := fun _ _ u => u; url_set_query := fun q u => (u.1, q) |}.



Definition github : Mapping.Model :=
  {| Mapping.id := 3; Mapping.source_host := "github.example"; Mapping.upstream_base := "ngithub.example/";
     Mapping.public_base := "nmirror.example/gh/"; Mapping.enabled := true; Mapping.created_at := 0; Mapping.updated_at := 0 |}.

Definition original : string := text ("github.example/org/app/v1.tar.gz", Some "raw=1").
Definition folded : ConvertOutput :=
  {| original_url := original; accelerated_url := text ("mirror.example/gh/org/app/v1.tar.gz", Some "raw=1"); mapping_id := 3 |}.

Definition host_header (v : string) : option (string * option Z) := Some (v, None).
Definition folded_request : Request :=
  {| q_method := "GET"; q_uri := {| u_path := "/gh/org/app/v1.tar.gz"; u_query := Some "raw=1" |};
     q_headers := [("host", "mirror.example")] |}.
(** The upstream service that answers 200 and keeps what it was asked for. *)
Definition record_pair (s : list U) (m : Method) (u : U) (h : HeaderMap) : ApiResult Response * list U :=
  (Ok (status_response 200), s ++ [u]).



(** A second enabled mapping with the same public host, listed first: the accelerated
    URL of the first is refused, because the prefix of the other does not match. *)
Definition gitlab : Mapping.Model :=
  {| Mapping.id := 4; Mapping.source_host := "a-gitlab.example"; Mapping.upstream_base := "na-gitlab.example/";
     Mapping.public_base := "nmirror.example/gl/"; Mapping.enabled := true; Mapping.created_at := 0; Mapping.updated_at := 0 |}.

Example shared_public_host_refused :
  mapping_clash github gitlab = false /\
  convert pair_api pair_ops snd [gitlab; github] original = Ok folded /\
  proxy_if_mapping pair_api pair_ops host_header record_pair [gitlab; github] [] folded_request =
    (Err (BadRequest "request path does not match the DomainFold mapping"), []).
Proof. split_and!; vm_compute; reflexivity. Qed.

(** Any public URL, through the mapping of one site. *)
Definition escape : Request :=
  {| q_method := "GET"; q_uri := {| u_path := "/other.example/secret"; u_query := None |}; q_headers := [("host", "mirror.example")] |}.
Definition whole_site : Mapping.Model :=
  {| Mapping.id := 3; Mapping.source_host := "github.example"; Mapping.upstream_base := "github.example/";
     Mapping.public_base := "mirror.example"; Mapping.enabled := true; Mapping.created_at := 0; Mapping.updated_at := 0 |}.
(** In this toy every text is an absolute URL. *)
Definition abs_api : UrlApi string :=
  {| url_parse := Some; url_username := fun _ => ""; url_password := fun _ => None; url_scheme := fun _ => "https";
     url_host_str := fun u => Some (host_of u); url_path := path_of; url_port_or_known_default := fun _ => Some 443;
     url_clear_fragment := id; url_clear_query := id; url_set_path := fun _ u => u |}.
Definition abs_ops : UrlOps string :=
  {| url_join := fun _ r => Some r; url_text := id; url_append_pair := fun _ _ u => u; url_set_query := fun _ u => u |}.

Definition record_url (s : list string) (m : Method) (u : string) (h : HeaderMap) : ApiResult Response * list string :=
  (Ok (status_response 200), s ++ [host_of u]).

Lemma mapping_escape_witness :
  proxy_if_mapping abs_api abs_ops (fun s => Some (s, None)) record_url [whole_site] [] escape =
    (Ok (Some (domain_response (status_response 200))), ["other.example"]).
Proof.
  rewrite (mapping_escape abs_api abs_ops (fun s => Some (s, None)) record_url [whole_site] [] escape "mirror.example" whole_site
    GET "mirror.example" "github.example/" "other.example/secret" "other.example/secret"); try reflexivity.
  by intros u t target [= ->].
Defined.

Definition duplicate : MappingInput :=
  {| m_source_host := " GitHub.example "; m_upstream_base := "ngithub.example"; m_public_base := "nother.example"; m_enabled := true |}.

Lemma create_mapping_outcome_witness :
  create pair_api pair_ops [github] duplicate 9 5 = (Err (Database unique_failed), [github]) /\
  apart mapping_clash [github].
Proof.
  assert (create pair_api pair_ops [github] duplicate 9 5 = (Err (Database unique_failed), [github])) as H by (vm_compute; reflexivity).
  split; [exact H|]. refine (proj1 (create_mapping_outcome pair_api pair_ops [github] duplicate 9 5 _ _ _ _ _ H)).
  - by repeat constructor.
  - by repeat constructor.
  - apply Forall_singleton. discriminate.
Defined.
End DomainfoldWitness.
