(* ===== verification/Traffic.v ===== *)
(** * Traffic meter

    src/src/traffic.rs: the requests answered, the response bytes as clients read
    them, and the rate between two snapshots.  Instants are nanoseconds. *)

From stdpp Require Import base gmap sets list strings.
From Stdlib Require Import ZArith Lia Strings.Byte.
From S2P Require Import Prelude F64 Selection Files Http Nodes.

Module Traffic.

Definition MIN_RATE_SAMPLE : Z := 250 * 1000000.

Record RateSampler := { observed_at : Z; observed_bytes : Z; current_bps : Z }.
Record TrafficMetrics := { requests : Z; response_bytes : Z; rate : RateSampler }.
Record TrafficSnapshot := { s_requests : Z; s_response_bytes : Z; s_current_bps : Z }.

Definition sampler (at_ bytes : Z) : RateSampler := {| observed_at := at_; observed_bytes := bytes; current_bps := 0 |}.
Definition new (now : Z) : TrafficMetrics := {| requests := 0; response_bytes := 0; rate := sampler now 0 |}.

Definition record_request (m : TrafficMetrics) : TrafficMetrics :=
  {| requests := wrap64 (requests m + 1); response_bytes := response_bytes m; rate := rate m |}.
Definition record_bytes (m : TrafficMetrics) (n : Z) : TrafficMetrics :=
  {| requests := requests m; response_bytes := wrap64 (response_bytes m + n); rate := rate m |}.

(** [track_response]: what the client has read of the body is counted. *)
Definition track_frame (m : TrafficMetrics) (f : frame) : TrafficMetrics :=
  match f with Data b => record_bytes m (blen b) | Fault _ => m end.
Definition track_response (m : TrafficMetrics) (read : list frame) : TrafficMetrics := foldl track_frame m read.

Definition observe (s : RateSampler) (now total_bytes : Z) : RateSampler :=
  let elapsed := duration_since now (observed_at s) in
  if MIN_RATE_SAMPLE <=? elapsed then
    let bytes := saturating_sub total_bytes (observed_bytes s) in
    {| observed_at := now; observed_bytes := total_bytes;
       current_bps := f64_to_u64 (RateWindow.fmin (f64_of_Z bytes / as_secs_f64 elapsed)%f64 (f64_of_Z u64_max)) |}
  else s.

Definition snapshot (m : TrafficMetrics) (now : Z) : TrafficSnapshot * TrafficMetrics :=
  let s := observe (rate m) now (response_bytes m) in
  ({| s_requests := requests m; s_response_bytes := response_bytes m; s_current_bps := current_bps s |},
   {| requests := requests m; response_bytes := response_bytes m; rate := s |}).

Fixpoint frame_bytes (l : list frame) : Z :=
  match l with
  | [] => 0
  | Data b :: l => blen b + frame_bytes l
  | Fault _ :: l => frame_bytes l
  end.

(** Reading a body counts its bytes, whatever its pieces. *)
Lemma track_response_bytes l m : u64_range (response_bytes m) ->
  response_bytes (track_response m l) = wrap64 (response_bytes m + frame_bytes l) /\ requests (track_response m l) = requests m.
Proof.
  unfold track_response. revert m. induction l as [|[b|e] l IH]; intros m Hm; simpl.
  - by rewrite Z.add_0_r, wrap64_small.
  - destruct (IH (record_bytes m (blen b))) as [E1 E2]; [apply wrap64_range|]. rewrite E1, E2. split; [|done].
    simpl. unfold wrap64. rewrite Zplus_mod_idemp_l. f_equal. lia.
  - by apply IH.
Qed.

(** Two snapshots within a quarter of a second report the same rate. *)
Lemma snapshot_steady m now now' :
  duration_since now' now < MIN_RATE_SAMPLE -> MIN_RATE_SAMPLE <= duration_since now (observed_at (rate m)) ->
  s_current_bps (snapshot (snapshot m now).2 now').1 = s_current_bps (snapshot m now).1.
Proof.
  intros H1 H2. unfold snapshot, observe at 1. simpl. unfold observe.
  rewrite (proj2 (Z.leb_le _ _) H2). simpl. by rewrite (proj2 (Z.leb_gt _ _) H1).
Qed.
End Traffic.
