(* ===== verification/Registry.v ===== *)
(** * The registry proxy

    The handler of src/src/registry.rs: what is answered locally, what is proxied and
    to which nodes, what is served from the cache, and what is logged.  Paths are
    those of Paths.v; fetching and streaming a blob are [fetch_blob] and
    [stream_blob], as modelled in Download.v and Relay.v and composed at the end of
    the file.  [ServeFile] of tower-http is a parameter: the response it makes of a
    file. *)

From stdpp Require Import base gmap sets list strings.
From Stdlib Require Import ZArith Lia Ascii Strings.Byte.
From S2P Require Import Prelude F64 Text Errors Budget Planner Chunks Model Scheduling Selection Metrics Files Cache Http.
From S2P Require Import Download Relay Security Tables Routes Crypto Nodes Paths Upstream Helpers Domainfold Traffic.

#[local] Set Default Proof Using "Type*".

Module Registry.
Import Tables Paths Nodes Upstream.

(** [RuntimeFlags]. *)
Record RuntimeFlags := { pull_logging_enabled : bool; pull_log_retention_days : Z; pull_log_max_entries : Z }.

Section Handler.
Context {Sel : Type} `{!Selector Sel}.
Variable send : nat -> NodeView -> Method -> string -> HeaderMap -> RangeMode -> ApiResult Response.
Variable interfere : nat -> Sel -> Sel.
Variable clock : nat -> Z.
Variable status_text : Z -> string.
Variable key_hash : string -> string.
Variable uuid_text : Uuid -> string.

Abbreviation World := (Download.World (S := Sel)).
Abbreviation request := (Download.request send interfere clock).
Abbreviation tick := (Download.tick interfere).
Abbreviation now := (Download.now clock).
Abbreviation generation := (Download.generation clock).
Abbreviation cache := Download.cache.
Abbreviation with_cache := Download.with_cache.
Abbreviation sel := Download.sel.
Abbreviation with_sel := Download.with_sel.
Abbreviation release := Relay.release.

Definition count (w : World) (e : TransferMetrics.event) : World :=
  with_cache w (Cache.with_metrics (cache w) (TransferMetrics.record (Cache.metrics (cache w)) (generation w) e)).

(** ** Cached objects *)

Definition millis (duration : Z) : Z := duration / 1000000.

(** [track_body]: the client polls the body [polls] times.  The first data, every byte
    and the end without a failure are recorded. *)
Fixpoint track_body (polls : nat) (l : list frame) (saw_first failed warm count_cache_bytes : bool) (started : Z) (w : World)
    : list frame * World :=
  match polls with
  | O => ([], w)
  | S polls =>
      let w := tick w in
      let elapsed := millis (now w - started) in
      match l with
      | [] =>
          ([], if failed then w
               else count w (TransferMetrics.record_duration
                 (if warm then TransferMetrics.warm_complete_ms else TransferMetrics.cold_complete_ms) elapsed))
      | Fault e :: l =>
          let (out, w) := track_body polls l saw_first true warm count_cache_bytes started w in (Fault e :: out, w)
      | Data b :: l =>
          let data := negb (blen b =? 0) in
          let w := if data && negb saw_first
                   then count w (TransferMetrics.record_duration
                     (if warm then TransferMetrics.warm_ttfb_ms else TransferMetrics.cold_ttfb_ms) elapsed) else w in
          let w := if data && count_cache_bytes then count w (TransferMetrics.record_cache_bytes_served (blen b)) else w in
          let (out, w) := track_body polls l (saw_first || data) failed warm count_cache_bytes started w in (Data b :: out, w)
      end
  end.

(** [ServeFile::oneshot] on a file, or on a path without one. *)
Variable serve_file : option bytes -> Method -> HeaderMap -> Response.

Definition is_get (m : Method) : bool := match m with GET => true | HEAD => false end.

Definition cached_headers (object : Cache.CachedObject) (h : HeaderMap) : HeaderMap :=
  let h := header_insert h "content-type" (unwrap_or (parse_value (Cache.o_media_type object)) "application/octet-stream") in
  let h := header_insert h "docker-distribution-api-version" "registry/2.0" in
  match Cache.o_digest object with Some digest => set_registry_validators h digest | None => h end.

(** [serve_cached], to the end of the body; [None] while another flight holds the key. *)
Definition serve_cached (polls : nat) (object : Cache.CachedObject) (m : Method) (h : HeaderMap) (started : Z) (warm : bool)
    (w : World) : option (ApiResult Response * World) :=
  let* c := Cache.lock (cache w) (Cache.o_key object) in
  let w := tick (with_cache w c) in
  let unlocked w := with_cache w (Cache.unlock (cache w) (Cache.o_key object)) in
  match (let* digest := Cache.o_digest object in
         if etag_matches (header_get h "if-none-match") digest then Some digest else None) with
  | Some digest =>
      let elapsed := millis (now w - started) in
      let w := if is_get m && warm
               then count (count w (TransferMetrics.record_duration TransferMetrics.warm_ttfb_ms elapsed))
                      (TransferMetrics.record_duration TransferMetrics.warm_complete_ms elapsed) else w in
      Some (Ok {| r_status := 304; r_headers := set_registry_validators [] digest; r_content_length := None; r_body := [] |},
            unlocked w)
  | None =>
      let r := serve_file (Download.fs w !! Cache.o_path object) m h in
      let (body, w) := if is_get m then track_body polls (r_body r) false false warm true started w else (r_body r, w) in
      Some (Ok {| r_status := r_status r; r_headers := cached_headers object (r_headers r);
                  r_content_length := r_content_length r; r_body := body |}, unlocked w)
  end.

(** ** Passing through *)

(** The client reads the proxied body: the bytes are counted and the node's lease is
    held to the end. *)
Definition count_frame (w : World) (f : frame) : World :=
  match f with Data b => count w (TransferMetrics.record_upstream_bytes (blen b)) | Fault _ => w end.

Definition to_response (r : Response) : Response :=
  {| r_status := r_status r; r_headers := copy_response_headers (r_headers r) []; r_content_length := r_content_length r;
     r_body := r_body r |}.

Inductive passed := Answered (r : Response) | Exhausted (attempted : gset Uuid) (last_error : option AppError).

Fixpoint pass_candidates (l : list NodeView) (m : Method) (path : string) (h : HeaderMap) (attempted : gset Uuid)
    (last_error : option AppError) (w : World) : passed * World :=
  match l with
  | [] => (Exhausted attempted last_error, w)
  | v :: l =>
      let continue := pass_candidates l m path h in
      if bool_decide (node_id v ∈ attempted) then continue attempted last_error w
      else
        let (lease, s) := sel_acquire (sel w) (node_id v) (max_concurrency v) in
        let w := with_sel w s in
        match lease with
        | None => continue attempted last_error w
        | Some id =>
            let attempted := attempted ∪ {[node_id v]} in
            match request w v m path h ForwardClient with
            | (Err e, w) => continue attempted (Some e) (release w id)
            | (Ok r, w) =>
                if retryable_upstream_status (r_status r) then
                  continue attempted (Some (Upstream (Node.name (node v) +:+ " returned " +:+ status_text (r_status r)))) (release w id)
                else (Answered (to_response r), release (foldl count_frame w (r_body r)) id)
            end
        end
  end.

(** [loop]: another round when capacity changes, until every node was tried. *)
Fixpoint pass_loop (fuel : nat) (nodes : list NodeView) (m : Method) (path : string) (h : HeaderMap) (attempted : gset Uuid)
    (last_error : option AppError) (w : World) : option (ApiResult Response * World) :=
  match fuel with
  | O => None
  | S fuel =>
      match pass_candidates nodes m path h attempted last_error w with
      | (Answered r, w) => Some (Ok r, w)
      | (Exhausted attempted last_error, w) =>
          if (base.size attempted =? length nodes)%nat
          then Some (Err (unwrap_or last_error (Unavailable "Registry route is unavailable")), w)
          else pass_loop fuel nodes m path h attempted last_error (tick w)
      end
  end.

Definition proxy_passthrough (fuel : nat) (m : Method) (path : string) (h : HeaderMap) (nodes : list NodeView) (w : World)
    : option (ApiResult Response * World) :=
  pass_loop fuel nodes m path h ∅ None w.

(** ** The handler *)

(** The whole state a request touches.  [Up] is the state of the upstream service that
    domain mappings send through. *)
Context {Up : Type}.

Record App := {
  world : World;
  service : NodeService;
  upstream : Up;
  mappings : list Mapping.Model;
  traffic : Traffic.TrafficMetrics
}.

Definition with_world (a : App) (w : World) : App :=
  {| world := w; service := service a; upstream := upstream a; mappings := mappings a; traffic := traffic a |}.
Definition with_service (a : App) (s : NodeService) : App :=
  {| world := world a; service := s; upstream := upstream a; mappings := mappings a; traffic := traffic a |}.
Definition with_upstream (a : App) (u : Up) : App :=
  {| world := world a; service := service a; upstream := u; mappings := mappings a; traffic := traffic a |}.
Definition with_traffic (a : App) (t : Traffic.TrafficMetrics) : App :=
  {| world := world a; service := service a; upstream := upstream a; mappings := mappings a; traffic := t |}.

(** A response, or a stream with the relay that feeds it. *)
Inductive Reply := Direct (r : Response) | Stream (s : Relay.Streamed).

Variable fetch_blob : string -> HeaderMap -> option string -> list NodeView -> World ->
  option (ApiResult (Cache.CachedObject * bool) * World).
Variable stream_blob : string -> HeaderMap -> option string -> list NodeView -> World ->
  option (ApiResult Relay.Streamed * World).
(** Whether the fetch ends before [stream_fallback_timeout], and what it leaves when it
    is dropped there. *)
Variable in_time : World -> bool.
Variable abandoned : World -> World.

Variable flags : RuntimeFlags.
Variable serve_helper : Request -> ApiResult Response.
Variable proxy_if_mapping : list Mapping.Model -> Up -> Request -> ApiResult (option Response) * Up.
Variable enabled_nodes : NodeService -> Uuid -> Z -> ApiResult (list NodeView) * NodeService.
(** The tables at the second lookup of the router, the wall clock and fresh identifiers. *)
Variable meanwhile : RegistryDb -> RegistryDb.
Variable wall : nat -> Z.
Variable fresh : nat -> Uuid.
(** How often the client polls a cached body. *)
Variable polls : nat.

Definition api_version : Response := text_response 200 [("docker-distribution-api-version", "registry/2.0")] "".
Definition read_only : Response :=
  text_response 405 [("content-type", "text/plain; charset=utf-8")] "pull-through proxy is read-only".

Definition public_route (nodes : list NodeView) : bool :=
  forallb (fun v => (Node.auth_mode (node v) =?s "none") && is_none (Node.auth_secret_enc (node v))) nodes.

(** A lifted answer. *)
Definition lift (a : App) (o : option (ApiResult Response * World)) : option (ApiResult Reply * App) :=
  let* (r, w) := o in Some (let? r := r in Ok (Direct r), with_world a w).

(** [GET] of a blob: through the cache, or streamed when that takes too long. *)
Definition get_blob (path digest : string) (h : HeaderMap) (nodes : list NodeView) (a : App) : option (ApiResult Reply * App) :=
  let w := world a in
  let started := now w in
  if in_time w then
    let* (r, w) := fetch_blob path h (Some digest) nodes w in
    match r with
    | Err e => Some (Err e, with_world a w)
    | Ok (object, hit) => lift a (serve_cached polls object GET h started hit w)
    end
  else
    let* (r, w) := stream_blob path h (Some digest) nodes (abandoned w) in
    match r with
    | Err e => Some (Err e, with_world a w)
    | Ok (Relay.FromCache object) => lift a (serve_cached polls object GET h started false w)
    | Ok s => Some (Ok (Stream s), with_world a w)
    end.

(** [HEAD] of a blob: the cached object, if there is one. *)
Definition head_blob (route : Uuid) (path : string) (h : HeaderMap) (nodes : list NodeView) (w : World)
    : option Cache.CachedObject * World :=
  let key := Cache.request_key key_hash (cache w) (uuid_text route) path (header_str h "authorization") (public_route nodes) in
  let (hit, c) := Cache.get_for_head_request (cache w) key (now w) (generation w) in
  (hit, with_cache w c).

Definition day_ms : Z := 86400000.

(** The pull log, after a manifest was answered. *)
Definition log_pull (route : Uuid) (subject : option (string * string)) (r : Response) (a : App) : App :=
  match subject with
  | None => a
  | Some (repository, reference) =>
      if negb (is_success (r_status r)) then a
      else
        let at_ := wall (Download.ticks (world a)) in
        let event := {| p_id := fresh (Download.ticks (world a)); p_route := route; p_repository := repository;
                        p_reference := reference; p_digest := header_str (r_headers r) "docker-content-digest";
                        p_status := r_status r; p_created_at := at_ |} in
        match insert_pull_event (db (service a)) event with
        | Err _ => a
        | Ok d =>
            let (_, d) := prune_pull_events d (at_ - pull_log_retention_days flags * day_ms) (pull_log_max_entries flags) in
            with_service a (with_db (service a) d)
        end
  end.

Definition pass_through (fuel : nat) (route : Uuid) (m : Method) (path : string) (h : HeaderMap) (nodes : list NodeView) (a : App)
    : option (ApiResult Reply * App) :=
  let subject := if pull_logging_enabled flags then manifest_pull_subject path else None in
  let* (r, w) := proxy_passthrough fuel m path h nodes (world a) in
  match r with
  | Err e => Some (Err e, with_world a w)
  | Ok r => Some (Ok (Direct r), log_pull route subject r (with_world a w))
  end.

(** The request once it has its route and nodes. *)
Definition route_request (fuel : nat) (route : Uuid) (m : Method) (path : string) (h : HeaderMap) (nodes : list NodeView) (a : App)
    : option (ApiResult Reply * App) :=
  if contains "/blobs/" path then
    match blob_digest path with
    | Err e => Some (Err e, a)
    | Ok digest =>
        match m with
        | GET => get_blob path digest h nodes a
        | HEAD =>
            let (hit, w) := head_blob route path h nodes (world a) in
            match hit with
            | Some object => lift a (serve_cached polls object HEAD h (now w) true w)
            | None => pass_through fuel route m path h nodes (with_world a w)
            end
        end
    end
  else pass_through fuel route m path h nodes a.

Definition handle_inner (fuel : nat) (q : Request) (a : App) : option (ApiResult Reply * App) :=
  let path := u_path (q_uri q) in
  if Helpers.is_helper_path path then Some (let? r := serve_helper q in Ok (Direct r), a)
  else if negb (starts_with "/v2" path) then
    match proxy_if_mapping (mappings a) (upstream a) q with
    | (Ok (Some r), u) => Some (Ok (Direct r), with_upstream a u)
    | (Ok None, u) => Some (Err (NotFound "route"), with_upstream a u)
    | (Err e, u) => Some (Err e, with_upstream a u)
    end
  else if (path =?s "/v2") || (path =?s "/v2/") then Some (Ok (Direct api_version), a)
  else
    match read_method (q_method q) with
    | None => Some (Ok (Direct read_only), a)
    | Some m =>
        if path_invalid path then Some (Err (BadRequest "invalid Registry path"), a)
        else
          match route_registry_path (db (service a)) (meanwhile (db (service a))) (q_uri q) with
          | Err e => Some (Err e, a)
          | Ok resolved =>
              let route := Route.id (resolved_route resolved) in
              let (nodes, s) := enabled_nodes (service a) route (now (world a)) in
              let a := with_service a s in
              match nodes with
              | Err e => Some (Err e, a)
              | Ok [] => Some (Err (Unavailable "resolved Registry route has no enabled nodes"), a)
              | Ok nodes => route_request fuel route m (upstream_path resolved) (q_headers q) nodes a
              end
          end
    end.

(** [handle]: every request below [/v2] is counted, and every error is a response. *)
Definition handle (fuel : nat) (q : Request) (a : App) : option (Reply + ErrorResponse) * App :=
  let a := if starts_with "/v2" (u_path (q_uri q)) then with_traffic a (Traffic.record_request (traffic a)) else a in
  match handle_inner fuel q a with
  | None => (None, a)
  | Some (Ok r, a) => (Some (inl r), a)
  | Some (Err e, a) => (Some (inr (into_response e)), a)
  end.

(** The client reads a direct response. *)
Definition deliver (q : Request) (r : Response) (a : App) : App :=
  if starts_with "/v2" (u_path (q_uri q)) then with_traffic a (Traffic.track_response (traffic a) (r_body r)) else a.

(** ** Passing through, from outside

    [asked] are the requests of a pass in order, each with the instant it was sent;
    [departed] are the same requests as the history of the world records them. *)

Definition departed (m : Method) (path : string) (h : HeaderMap) (asked : list (nat * NodeView)) : list Download.Exchange :=
  (fun p => {| Download.x_at := p.1; Download.x_node := p.2; Download.x_method := m; Download.x_path := path;
               Download.x_headers := h; Download.x_range := ForwardClient |}) <$> asked.

(** A request that failed over, and the error it leaves. *)
Definition retried (m : Method) (path : string) (h : HeaderMap) (p : nat * NodeView) : Prop :=
  match send p.1 p.2 m path h ForwardClient with
  | Ok r => retryable_upstream_status (r_status r) = true
  | Err _ => True
  end.

Definition failure (m : Method) (path : string) (h : HeaderMap) (p : nat * NodeView) : AppError :=
  match send p.1 p.2 m path h ForwardClient with
  | Ok r => Upstream (Node.name (node p.2) +:+ " returned " +:+ status_text (r_status r))
  | Err e => e
  end.

(** The request that ended the failing over, and the answer it got. *)
Definition settled (m : Method) (path : string) (h : HeaderMap) (asked : list (nat * NodeView)) (r0 : Response) : Prop :=
  exists front t v, asked = front ++ [(t, v)] /\ Forall (retried m path h) front /\
    send t v m path h ForwardClient = Ok r0 /\ retryable_upstream_status (r_status r0) = false.

(** The error after [asked] failed, when it was [e] before. *)
Definition last_failure (m : Method) (path : string) (h : HeaderMap) (asked : list (nat * NodeView)) (e : option AppError)
    : option AppError :=
  match last asked with Some p => Some (failure m path h p) | None => e end.

Definition ids (asked : list (nat * NodeView)) : list Uuid := (fun p => node_id p.2) <$> asked.

Lemma departed_app m path h l1 l2 : departed m path h (l1 ++ l2) = departed m path h l1 ++ departed m path h l2.
Proof using Type. apply fmap_app. Qed.

Lemma settled_app m path h l1 l2 r0 : Forall (retried m path h) l1 -> settled m path h l2 r0 -> settled m path h (l1 ++ l2) r0.
Proof using Type.
  intros Hr (front & t & v & -> & Hf & ?). exists (l1 ++ front), t, v. rewrite (app_assoc l1).
  split; [done|]. split; [by apply Forall_app|done].
Qed.

Lemma last_failure_app m path h l1 l2 e : last_failure m path h (l1 ++ l2) e = last_failure m path h l2 (last_failure m path h l1 e).
Proof using Type. unfold last_failure. rewrite last_app. by destruct (last l2). Qed.

Lemma sent_count_frame w l : Download.sent (foldl count_frame w l) = Download.sent w.
Proof using Type. revert w. induction l as [|[b|e] l IH]; intros w; simpl; [done|by rewrite IH|by rewrite IH]. Qed.

(** One pass over [l]: what was sent, and how it ended. *)
Definition pass_spec (l : list NodeView) (m : Method) (path : string) (h : HeaderMap) (attempted : gset Uuid)
    (last_error : option AppError) (w : World) (o : passed) (w' : World) : Prop :=
  exists asked, NoDup (ids asked) /\ Forall (fun p => p.2 ∈ l /\ node_id p.2 ∉ attempted) asked /\
    Download.sent w' = Download.sent w ++ departed m path h asked /\
    match o with
    | Answered r => exists r0, settled m path h asked r0 /\ r = to_response r0
    | Exhausted attempted' last_error' => Forall (retried m path h) asked /\
        attempted' = attempted ∪ list_to_set (ids asked) /\ last_error' = last_failure m path h asked last_error
    end.

Lemma pass_spec_skip v l m path h attempted last_error w w0 o w' :
  Download.sent w0 = Download.sent w -> pass_spec l m path h attempted last_error w0 o w' ->
  pass_spec (v :: l) m path h attempted last_error w o w'.
Proof using Type.
  intros Et (asked & Hn & Hf & Ht & Ho). exists asked. split; [done|].
  split; [eapply Forall_impl; [exact Hf|]; intros p [? ?]; split; [by right|done]|]. split; [by rewrite Ht, Et|done].
Qed.

Lemma pass_spec_retry t v l m path h attempted last_error w w1 o w' :
  node_id v ∉ attempted -> retried m path h (t, v) ->
  Download.sent w1 = Download.sent w ++ departed m path h [(t, v)] ->
  pass_spec l m path h (attempted ∪ {[node_id v]}) (Some (failure m path h (t, v))) w1 o w' ->
  pass_spec (v :: l) m path h attempted last_error w o w'.
Proof using Type.
  intros Ha Hr Et (asked & Hn & Hf & Ht & Ho). exists ([(t, v)] ++ asked).
  split; [simpl; constructor; [|done]|].
  { intros (p & Ep & Hp)%list_elem_of_fmap. rewrite Forall_forall in Hf. destruct (Hf p Hp) as [_ Hnot]. simpl in Ep.
    apply Hnot. rewrite <- Ep. apply elem_of_union_r, elem_of_singleton_2. done. }
  split.
  { constructor; [by split; [left|]|]. eapply Forall_impl; [exact Hf|]. intros p [? Hp]. split; [by right|].
    intros Hin. apply Hp. by apply elem_of_union_l. }
  split; [by rewrite Ht, Et, departed_app, app_assoc|]. destruct o as [r|a' le'].
  - destruct Ho as (r0 & Hs & ->). exists r0. split; [|done]. apply settled_app; [by constructor|done].
  - destruct Ho as (Hfr & -> & ->). split; [by constructor|]. split; [simpl; by rewrite (assoc_L (∪))|].
    by rewrite last_failure_app.
Qed.

Lemma pass_candidates_trace l m path h attempted last_error w o w' :
  pass_candidates l m path h attempted last_error w = (o, w') -> pass_spec l m path h attempted last_error w o w'.
Proof using Type.
  revert attempted last_error w. induction l as [|v l IH]; intros attempted last_error w H; cbn [pass_candidates] in H.
  { injection H as <- <-. exists []. split; [constructor|]. split; [constructor|]. split; [simpl; by rewrite app_nil_r|].
    split; [constructor|]. split; [simpl; by rewrite (right_id_L ∅ (∪))|done]. }
  destruct (bool_decide (node_id v ∈ attempted)) eqn:Ea; [eapply pass_spec_skip; [reflexivity|by apply IH]|].
  apply bool_decide_eq_false in Ea.
  destruct (sel_acquire _ _ _) as [[id|] s] eqn:Es; [|by apply (pass_spec_skip v l m path h attempted last_error w (with_sel w s)); [|apply IH]].
  destruct (request (with_sel w s) v m path h ForwardClient) as [x w1] eqn:Er.
  set (t := Download.ticks w).
  assert (x = send t v m path h ForwardClient /\ Download.sent w1 = Download.sent w ++ departed m path h [(t, v)]) as [Ex Et1]
    by (unfold Download.request in Er; by injection Er as <- <-).
  assert (retried m path h (t, v) ->
    pass_candidates l m path h (attempted ∪ {[node_id v]}) (Some (failure m path h (t, v))) (release w1 id) = (o, w') ->
    pass_spec (v :: l) m path h attempted last_error w o w') as Hfail.
  { intros Hr Hc. apply (pass_spec_retry t v l m path h attempted last_error w (release w1 id)); [done..|by apply IH]. }
  unfold retried, failure in Hfail. simpl in Hfail. rewrite <- Ex in Hfail.
  destruct x as [r|e]; [|by apply Hfail].
  destruct (retryable_upstream_status (r_status r)) eqn:Eret; [by apply Hfail|].
  injection H as <- <-. exists [(t, v)]. split; [apply NoDup_singleton|].
  split; [apply Forall_singleton; by split; [left|]|].
  split; [simpl; by rewrite sent_count_frame|]. exists r. split; [|done]. by exists [], t, v.
Qed.

Lemma pass_loop_trace fuel nodes m path h asked last_error w r w' :
  NoDup (ids asked) -> Forall (fun p => p.2 ∈ nodes) asked -> Forall (retried m path h) asked ->
  pass_loop fuel nodes m path h (list_to_set (ids asked)) last_error w = Some (r, w') ->
  exists more, NoDup (ids (asked ++ more)) /\ Forall (fun p => p.2 ∈ nodes) more /\
    Download.sent w' = Download.sent w ++ departed m path h more /\
    match r with
    | Ok x => exists r0, settled m path h more r0 /\ x = to_response r0
    | Err e => Forall (retried m path h) more /\ length (asked ++ more) = length nodes /\
        e = unwrap_or (last_failure m path h more last_error) (Unavailable "Registry route is unavailable")
    end.
Proof using Type.
  revert asked last_error w. induction fuel as [|fuel IH]; intros asked last_error w Hn Hin Hr H; [done|].
  cbn [pass_loop] in H. destruct (pass_candidates _ _ _ _ _ _ _) as [o w1] eqn:Ep.
  apply pass_candidates_trace in Ep as (new & Hnew & Hf & Ht & Ho).
  assert (NoDup (ids (asked ++ new))) as Hn'.
  { unfold ids. rewrite fmap_app. apply NoDup_app. split; [done|]. split; [|done].
    intros x Hx (p & -> & Hp)%list_elem_of_fmap. rewrite Forall_forall in Hf. destruct (Hf p Hp) as [_ Hnot].
    apply Hnot. by apply elem_of_list_to_set. }
  assert (Forall (fun p => p.2 ∈ nodes) new) as Hin' by (eapply Forall_impl; [exact Hf|]; by intros p [? _]).
  destruct o as [x|attempted' le].
  - injection H as <- <-. by exists new.
  - destruct Ho as (Hr' & -> & ->).
    assert (list_to_set (ids asked) ∪ list_to_set (ids new) = (list_to_set (ids (asked ++ new)) : gset Uuid)) as Eset
      by (unfold ids; by rewrite fmap_app, list_to_set_app_L).
    rewrite Eset in H. destruct (Nat.eqb_spec (base.size (list_to_set (ids (asked ++ new)) : gset Uuid)) (length nodes)) as [Es|Es].
    + injection H as <- <-. exists new. split; [done|]. split; [done|]. split; [done|]. split; [done|]. split; [|done].
      rewrite size_list_to_set in Es by done. unfold ids in Es. by rewrite length_fmap in Es.
    + apply IH in H as (more & Hn2 & Hin2 & Ht2 & Hres); [|done|by apply Forall_app|by apply Forall_app].
      exists (new ++ more). rewrite (app_assoc asked). split; [done|]. split; [by apply Forall_app|].
      split; [rewrite Ht2; simpl; by rewrite Ht, departed_app, app_assoc|]. destruct r as [x|e].
      * destruct Hres as (r0 & Hs & ->). exists r0. split; [by apply settled_app|done].
      * destruct Hres as (Hfr & Hlen & ->). split; [by apply Forall_app|]. split; [done|]. by rewrite last_failure_app.
Qed.

(** With a free slot at every node one pass reaches them all. *)
Lemma pass_candidates_free l m path h attempted last_error w attempted' le w' :
  (forall s v, v ∈ l -> is_some (sel_acquire s (node_id v) (max_concurrency v)).1 = true) ->
  pass_candidates l m path h attempted last_error w = (Exhausted attempted' le, w') ->
  attempted' = attempted ∪ list_to_set (node_id <$> l).
Proof using Type.
  revert attempted last_error w. induction l as [|v l IH]; intros attempted last_error w Hfree H; cbn [pass_candidates] in H.
  { injection H as <- _ _. simpl. by rewrite (right_id_L ∅ (∪)). }
  assert (forall s v, v ∈ l -> is_some (sel_acquire s (node_id v) (max_concurrency v)).1 = true) as Hfree'
    by (intros s0 v0 Hv0; apply Hfree; by right).
  destruct (bool_decide (node_id v ∈ attempted)) eqn:Ea.
  { apply bool_decide_eq_true in Ea. apply IH in H as ->; [|done]. simpl. rewrite (assoc_L (∪)). f_equal.
    rewrite (comm_L (∪)). symmetry. by apply subseteq_union_L, singleton_subseteq_l. }
  pose proof (Hfree (sel w) v ltac:(by left)) as Hs. destruct (sel_acquire _ _ _) as [[id|] s]; [|done].
  destruct (request _ _ _ _ _ _) as [[r|e] w1].
  - destruct (retryable_upstream_status _); [|done]. apply IH in H as ->; [|done]. simpl. by rewrite (assoc_L (∪)).
  - apply IH in H as ->; [|done]. simpl. by rewrite (assoc_L (∪)).
Qed.

(** As many distinct nodes asked as there are: all of them. *)
Lemma all_asked nodes asked : NoDup (ids asked) -> Forall (fun p => p.2 ∈ nodes) asked -> length asked = length nodes ->
  forall i, i ∈ node_id <$> nodes -> i ∈ ids asked.
Proof using Type.
  intros Hn Hin Hl i Hi. assert (ids asked ⊆+ node_id <$> nodes) as Hs.
  { apply NoDup_submseteq; [done|]. intros x (p & -> & Hp)%list_elem_of_fmap. rewrite Forall_forall in Hin.
    by apply list_elem_of_fmap_2, Hin. }
  apply submseteq_length_Permutation in Hs; [by rewrite Hs|]. unfold ids. rewrite !length_fmap. lia.
Qed.

(** C9: The passthrough gives every node one chance.  The requests that leave for
    nodes while it runs are exactly [asked]: the client's request each time, to
    nodes of the route only, to none of them twice.  It answers with the first
    answer that is neither a transport error nor a retryable status, and nothing is
    sent after that one: status and body are the node's, the headers the listed
    ones.  It fails only when every node of the route was asked and failed over,
    with the last of their errors.  While the nodes have free slots one round
    decides. *)
Theorem passthrough_exact fuel m path h nodes w :
  NoDup (node_id <$> nodes) ->
  (forall r w', proxy_passthrough fuel m path h nodes w = Some (r, w') ->
    exists asked, Download.sent w' = Download.sent w ++ departed m path h asked /\
      NoDup (ids asked) /\ Forall (fun p => p.2 ∈ nodes) asked /\
      match r with
      | Ok x => exists front t v r0, asked = front ++ [(t, v)] /\ Forall (retried m path h) front /\
          send t v m path h ForwardClient = Ok r0 /\ retryable_upstream_status (r_status r0) = false /\
          r_status x = r_status r0 /\ r_body x = r_body r0 /\
          (forall n, header_get (r_headers x) n = if bool_decide (n ∈ copied_headers) then header_get (r_headers r0) n else None)
      | Err e => Forall (retried m path h) asked /\ (forall v, v ∈ nodes -> node_id v ∈ ids asked) /\
          e = match last asked with
              | Some p => failure m path h p
              | None => Unavailable "Registry route is unavailable"
              end
      end) /\
  ((forall s v, v ∈ nodes -> is_some (sel_acquire s (node_id v) (max_concurrency v)).1 = true) -> (0 < fuel)%nat ->
   is_some (proxy_passthrough fuel m path h nodes w) = true).
Proof using Type.
  intros Hnd. split.
  - intros r w' H. destruct (pass_loop_trace fuel nodes m path h [] None w r w') as (asked & Hn & Hin & Ht & Hr);
      [constructor|constructor|constructor|exact H|]. exists asked. split; [done|]. split; [done|]. split; [done|].
    destruct r as [x|e].
    + destruct Hr as (r0 & (front & t & v & Ea & Hf & Hs & Hst) & ->).
      exists front, t, v, r0. split_and!; try done. intros n. change (r_headers (to_response r0)) with (copy_headers copied_headers (r_headers r0) []).
      rewrite copy_headers_get. by destruct (bool_decide _); [destruct (header_get _ _)|].
    + destruct Hr as (Hf & Hl & ->). split; [done|]. split; [|by unfold last_failure; destruct (last asked)].
      intros v Hv. by apply (all_asked nodes asked Hn Hin Hl), list_elem_of_fmap_2.
  - intros Hfree Hfuel. destruct fuel as [|fuel]; [lia|]. unfold proxy_passthrough. cbn [pass_loop].
    destruct (pass_candidates nodes m path h ∅ None w) as [[r|attempted le] w1] eqn:E; [done|].
    apply pass_candidates_free in E as ->; [|done]. rewrite (left_id_L ∅ (∪)), size_list_to_set by done.
    by rewrite length_fmap, Nat.eqb_refl.
Qed.

(** ** The pull log *)

Lemma insert_pull_event_Ok d e d' : insert_pull_event d e = Ok d' ->
  routes d' = routes d /\ nodes d' = nodes d /\ metrics d' = metrics d /\
  ((existsb (same_pull e) (pulls d) = true /\ pulls d' = pulls d) \/
   (existsb (same_pull e) (pulls d) = false /\ pulls d' = pulls d ++ [e] /\ p_id e ∉ p_id <$> pulls d)).
Proof using Type.
  unfold insert_pull_event. destruct (existsb (same_pull e) (pulls d)) eqn:Es; [intros [= <-]; do 3 (split; [done|]); by left|].
  destruct (pull_invalid d e); [done|].
  destruct (existsb (fun x => (p_id x =? p_id e)%N) (pulls d)) eqn:Ei; [done|]. intros [= <-].
  do 3 (split; [done|]). right. split; [done|]. split; [done|]. intros (x & E & Hx)%list_elem_of_fmap.
  apply existsb_false in Ei. rewrite Forall_forall in Ei. specialize (Ei x Hx). rewrite E in Ei. by rewrite N.eqb_refl in Ei.
Qed.

(** The pull log is bounded and truthful.  Logging touches the log alone, and only for
    a manifest that was served; then no entry is older than the retention, there are
    at most as many entries as configured, every entry was there before or is this
    pull, and this pull is there unless the same was logged in the last five seconds
    or the log is full. *)
Theorem pull_log_bounded route subject r a :
  0 <= pull_log_retention_days flags -> 0 <= pull_log_max_entries flags <= i64_max ->
  NoDup (p_id <$> pulls (db (service a))) ->
  let a' := log_pull route subject r a in
  let at_ := wall (Download.ticks (world a)) in
  world a' = world a /\ live_rates (service a') = live_rates (service a) /\
  routes (db (service a')) = routes (db (service a)) /\ nodes (db (service a')) = nodes (db (service a)) /\
  (a' = a \/
   exists repository reference e, subject = Some (repository, reference) /\ is_success (r_status r) = true /\
     p_route e = route /\ p_repository e = repository /\ p_reference e = reference /\ p_created_at e = at_ /\
     NoDup (p_id <$> pulls (db (service a'))) /\
     Forall (fun p => (p ∈ pulls (db (service a)) \/ p = e) /\ at_ - pull_log_retention_days flags * day_ms <= p_created_at p)
       (pulls (db (service a'))) /\
     Z.of_nat (length (pulls (db (service a')))) <= pull_log_max_entries flags /\
     (existsb (same_pull e) (pulls (db (service a))) = false ->
      Z.of_nat (length (pulls (db (service a)))) < pull_log_max_entries flags -> e ∈ pulls (db (service a')))).
Proof using Type.
  intros Hret Hmax Hnd a' at_. subst a'. unfold log_pull. destruct subject as [[repository reference]|]; [|by auto 10].
  destruct (is_success (r_status r)) eqn:Es; cbn [negb]; [|by auto 10].
  match goal with |- context [insert_pull_event _ ?x] => set (e := x) end.
  destruct (insert_pull_event _ e) as [d|] eqn:Ei; [|by auto 10].
  apply insert_pull_event_Ok in Ei as (Er & En & Em & Hp).
  assert (NoDup (p_id <$> pulls d)) as Hnd'.
  { destruct Hp as [[_ ->]|(_ & -> & Hfresh)]; [done|]. rewrite fmap_app. apply NoDup_app. split; [done|].
    split; [|apply NoDup_singleton]. intros x Hx ->%list_elem_of_singleton. done. }
  destruct (prune_spec d (at_ - pull_log_retention_days flags * day_ms) (pull_log_max_entries flags) ltac:(lia) Hnd')
    as (Hf & Hnk & Hlen & _ & Hfit).
  unfold prune_pull_events in *. simpl in *. do 4 (split; [done|]). right. exists repository, reference, e.
  do 6 (split; [done|]). split; [done|]. split; [|split; [done|]].
  - eapply Forall_impl; [exact Hf|]. intros p [Hp' Hc]. split; [|done].
    destruct Hp as [[_ E]|(_ & E & _)]; rewrite E in Hp'; [by left|]. apply elem_of_app in Hp' as [?|Hp'%list_elem_of_singleton]; auto.
  - intros Hnew Hroom. destruct Hp as [[Hold _]|(_ & E & _)]; [congruence|]. apply Hfit.
    + rewrite E, length_app. simpl. lia.
    + rewrite E. apply elem_of_app. right. by apply list_elem_of_singleton.
    + simpl. unfold day_ms, at_. lia.
Qed.

(** ** Which node answers *)

(** What the handler needs of the node service: the enabled nodes of the route, each
    once. *)
Definition lists_nodes : Prop := forall s route at_ l s', db_wf (db s) -> enabled_nodes s route at_ = (Ok l, s') ->
  NoDup (node_id <$> l) /\
  Forall (fun v => node v ∈ nodes (db s) /\ Node.registry_route_id (node v) = route /\ Node.enabled (node v) = true) l.

Lemma pass_through_answer fuel route m path h l a r a' :
  NoDup (node_id <$> l) -> pass_through fuel route m path h l a = Some (Ok r, a') ->
  exists x v t r0, r = Direct x /\ v ∈ l /\ send t v m path h ForwardClient = Ok r0 /\
    retryable_upstream_status (r_status r0) = false /\ r_status x = r_status r0 /\ r_body x = r_body r0.
Proof using Type.
  intros Hnd. unfold pass_through. destruct (proxy_passthrough _ _ _ _ _ _) as [[[x|e] w]|] eqn:E; [|done|done].
  intros [= <- <-]. destruct (pass_loop_trace fuel l m path h [] None (world a) (Ok x) w) as (asked & _ & Hin & _ & Hr);
    [constructor|constructor|constructor|exact E|]. destruct Hr as (r0 & (front & t & v & -> & _ & Hs & Hst) & ->).
  apply Forall_app in Hin as [_ Hv]. rewrite Forall_singleton in Hv. exists (to_response r0), v, t, r0.
  by split_and!.
Qed.

(** C8: A manifest comes from the route its path names.  Whatever the nodes do, when a GET or HEAD
    request below [/v2/] that is not for a blob is answered by an upstream, the node
    that answered is a stored, enabled node of the enabled route the path resolves
    to, and it was asked for the resolved path. *)
Theorem answered_by_its_route fuel q m a r a' :
  lists_nodes -> db_wf (db (service a)) -> read_method (q_method q) = Some m ->
  starts_with "/v2/" (u_path (q_uri q)) = true -> u_path (q_uri q) <> "/v2/" ->
  handle_inner fuel q a = Some (Ok r, a') ->
  exists resolved, route_registry_path (db (service a)) (meanwhile (db (service a))) (q_uri q) = Ok resolved /\
    Route.enabled (resolved_route resolved) = true /\
    (contains "/blobs/" (upstream_path resolved) = false ->
     exists x v t r0, r = Direct x /\ node v ∈ nodes (db (service a)) /\ Node.enabled (node v) = true /\
       Node.registry_route_id (node v) = Route.id (resolved_route resolved) /\
       send t v m (upstream_path resolved) (q_headers q) ForwardClient = Ok r0 /\
       r_status x = r_status r0 /\ r_body x = r_body r0).
Proof using Type.
  intros Hl Hwf Hm Hv2 Hne. unfold handle_inner.
  assert (Helpers.is_helper_path (u_path (q_uri q)) = false) as ->.
  { unfold Helpers.is_helper_path. apply orb_false_iff. split; apply str_eqb_neq; intros E; by rewrite E in Hv2. }
  assert (starts_with "/v2" (u_path (q_uri q)) = true) as ->.
  { unfold starts_with in *. destruct (strip_prefix "/v2/" _) as [x|] eqn:E; [|done]. apply strip_prefix_Some in E as ->. done. }
  assert ((u_path (q_uri q) =?s "/v2") || (u_path (q_uri q) =?s "/v2/") = false) as ->.
  { apply orb_false_iff. split; [|by apply str_eqb_neq]. apply str_eqb_neq. intros E. by rewrite E in Hv2. }
  cbn [negb]. rewrite Hm. destruct (path_invalid (u_path (q_uri q))) eqn:Ei; [done|].
  destruct (route_registry_path _ _ _) as [resolved|] eqn:Er; [|done].
  pose proof (resolved_enabled _ _ _ _ Er) as He.
  destruct (enabled_nodes _ _ _) as [ns s] eqn:En. destruct ns as [[|v0 l]|]; [done| |done]. intros H.
  exists resolved. split; [done|]. split; [done|]. intros Hb. unfold route_request in H. rewrite Hb in H.
  destruct (Hl _ _ _ _ _ Hwf En) as [Hnd Hall].
  apply pass_through_answer in H as (x & v & t & r0 & -> & Hv & Hs & _ & Hst & Hbody); [|done].
  rewrite Forall_forall in Hall. destruct (Hall v Hv) as (? & ? & ?). exists x, v, t, r0. by split_and!.
Qed.
(** ** What a request leaves behind

    Whatever the request and however it ends, the index of the cache stays well formed
    when the fetches keep it so, the tables change by the pull log at most, and the
    mappings not at all. *)

(** The tables after at most one entry of the pull log. *)
Definition logged (d d' : RegistryDb) : Prop :=
  d' = d \/ exists e d1 cutoff n, insert_pull_event d e = Ok d1 /\ d' = (prune_pull_events d1 cutoff n).2.

Section Rows.
Variable data_dir : string.
Abbreviation rows_ok := (Download.rows_ok (S := Sel) data_dir).
(** What an opened stream promises of its relay. *)
Variable relay_ok : Relay.StreamRelay + Relay.UnknownBlobRelay -> Prop.
Hypothesis fetch_rows : forall path h e l w r w', fetch_blob path h e l w = Some (r, w') -> rows_ok w -> rows_ok w'.
Hypothesis stream_rows : forall path h e l w r w', stream_blob path h e l w = Some (r, w') -> rows_ok w ->
  rows_ok w' /\ forall up known relay, r = Ok (Relay.Relayed up known relay) -> relay_ok relay.
Hypothesis abandoned_rows : forall w, rows_ok w -> rows_ok (abandoned w).
Hypothesis nodes_db : forall s route at_, db (enabled_nodes s route at_).2 = db s.

Record served (a a' : App) : Prop := {
  sv_rows : rows_ok (world a) -> rows_ok (world a');
  sv_tables : logged (db (service a)) (db (service a'));
  sv_mappings : mappings a' = mappings a
}.

Definition streams (r : Reply) : Prop :=
  match r with Stream (Relay.Relayed _ _ relay) => relay_ok relay | _ => True end.
Definition streams_result (r : ApiResult Reply) : Prop := match r with Ok r => streams r | Err _ => True end.

Lemma same_world_entries w w' : Cache.entries (cache w') = Cache.entries (cache w) -> rows_ok w -> rows_ok w'.
Proof using Type. intros E. intros H. red. red. rewrite E. exact H. Qed.

Lemma track_body_entries l : forall n saw failed warm counted started w,
  Cache.entries (cache (track_body n l saw failed warm counted started w).2) = Cache.entries (cache w).
Proof using Type.
  induction l as [|[b|e] l IH]; intros [|n] saw failed warm counted started w; try done; cbn [track_body].
  - by destruct failed.
  - match goal with |- context [track_body n l ?a ?b ?c ?d ?e ?w1] => set (w1' := w1); pose proof (IH n a b c d e w1) as H end.
    fold w1' in H. destruct (track_body n l _ _ _ _ _ w1') as [out w2]. cbn [snd] in *. rewrite H. unfold w1'.
    by destruct (negb (blen b =? 0) && counted), (negb (blen b =? 0) && negb saw).
  - match goal with |- context [track_body n l ?a ?b ?c ?d ?e ?w1] => pose proof (IH n a b c d e w1) as H end.
    by destruct (track_body n l _ _ _ _ _ _) as [out w2].
Qed.

Lemma serve_cached_rows n object m h started warm w r w' :
  serve_cached n object m h started warm w = Some (r, w') -> rows_ok w -> rows_ok w'.
Proof using Type.
  unfold serve_cached, Cache.lock. destruct (bool_decide _); [done|]. cbn [mbind option_bind]. set (w1 := tick _).
  intros H. apply same_world_entries. revert H. destruct (let* _ := _ in _) as [d|].
  - intros [= _ <-]. by destruct (is_get m && warm).
  - destruct (is_get m); [|by intros [= _ <-]].
    match goal with |- context [track_body n ?l ?a ?b ?c ?d ?e w1] => pose proof (track_body_entries l n a b c d e w1) as H end.
    destruct (track_body n _ _ _ _ _ _ w1) as [body w2]. intros [= _ <-]. exact H.
Qed.

Lemma count_frames_entries l : forall w, Cache.entries (cache (foldl count_frame w l)) = Cache.entries (cache w).
Proof using Type. induction l as [|[b|e] l IH]; intros w; simpl; [done|by rewrite IH..]. Qed.

Lemma pass_candidates_entries l m path h : forall attempted e w o w',
  pass_candidates l m path h attempted e w = (o, w') -> Cache.entries (cache w') = Cache.entries (cache w).
Proof using Type.
  induction l as [|v l IH]; intros attempted e w o w'; cbn [pass_candidates]; [by intros [= _ <-]|].
  destruct (bool_decide _); [apply IH|]. destruct (sel_acquire _ _ _) as [[id|] s]; [|by intros ->%IH].
  destruct (request (with_sel w s) v m path h ForwardClient) as [x w1] eqn:E.
  assert (Cache.entries (cache w1) = Cache.entries (cache w)) as E1 by (unfold Download.request in E; by injection E as _ <-).
  destruct x as [r|x]; [|by intros ->%IH]. destruct (retryable_upstream_status _); [by intros ->%IH|].
  intros [= _ <-]. simpl. by rewrite count_frames_entries.
Qed.

Lemma passthrough_rows fuel nodes m path h : forall attempted e w r w',
  pass_loop fuel nodes m path h attempted e w = Some (r, w') -> rows_ok w -> rows_ok w'.
Proof using Type.
  induction fuel as [|fuel IH]; intros attempted e w r w'; cbn [pass_loop]; [done|].
  destruct (pass_candidates _ _ _ _ _ _ _) as [o w1] eqn:E. apply pass_candidates_entries in E.
  intros H Hw. assert (rows_ok w1) as Hw1 by (by apply (same_world_entries w)). revert H.
  destruct o as [x|a' e']; [by intros [= _ <-]|]. destruct (_ =? _)%nat; [by intros [= _ <-]|]. intros H. by eapply IH.
Qed.

Lemma served_refl a : served a a.
Proof using Type. split; [done|by left|done]. Qed.

Lemma served_world a w : (rows_ok (world a) -> rows_ok w) -> served a (with_world a w).
Proof using Type. intros H. split; [done|by left|done]. Qed.

Lemma lift_served a o r a' : (forall x w, o = Some (x, w) -> rows_ok (world a) -> rows_ok w) ->
  lift a o = Some (r, a') -> served a a' /\ streams_result r.
Proof using Type.
  intros Ho. unfold lift. destruct o as [[x w]|]; [|done]. intros [= <- <-].
  split; [apply served_world; by apply (Ho x)|by destruct x].
Qed.

Lemma get_blob_served path digest h l a r a' :
  get_blob path digest h l a = Some (r, a') -> served a a' /\ (rows_ok (world a) -> streams_result r).
Proof using fetch_rows stream_rows abandoned_rows.
  unfold get_blob. destruct (in_time (world a)).
  - destruct (fetch_blob _ _ _ _ _) as [[[[object hit]|e] w]|] eqn:E; [| |done]; cbn [mbind option_bind]; pose proof (fetch_rows _ _ _ _ _ _ _ E).
    + intros H1. apply lift_served in H1 as [? ?]; [by split|]. intros x w' Hs Hx. eapply serve_cached_rows; [exact Hs|auto].
    + intros [= <- <-]. split; [|done]. by apply served_world.
  - destruct (stream_blob _ _ _ _ _) as [[x w]|] eqn:E; [|done]; cbn [mbind option_bind].
    assert (rows_ok (world a) -> rows_ok w) as Hw by (intros H; by eapply stream_rows; [|apply abandoned_rows]).
    destruct x as [[object|up known relay]|e].
    + intros H1. apply lift_served in H1 as [? ?]; [by split|]. intros x w' Hs Hx. eapply serve_cached_rows; [exact Hs|auto].
    + intros [= <- <-]. split; [by apply served_world|]. intros H. by eapply stream_rows; [exact E|apply abandoned_rows|].
    + intros [= <- <-]. split; [by apply served_world|done].
Qed.

Lemma log_pull_served route subject r a : served a (log_pull route subject r a).
Proof using Type.
  unfold log_pull. destruct subject as [[repository reference]|]; [|apply served_refl].
  destruct (negb _); [apply served_refl|]. destruct (insert_pull_event _ _) as [d|] eqn:E; [|apply served_refl].
  destruct (prune_pull_events d _ _) as [n d'] eqn:Ep. split; [done| |done]. right. do 4 eexists. split; [exact E|].
  by rewrite Ep.
Qed.

Lemma served_trans_world a w a' : (rows_ok (world a) -> rows_ok w) -> served (with_world a w) a' -> served a a'.
Proof using Type. intros Hw [H1 H2 H3]. split; [auto|done|done]. Qed.

Lemma pass_through_served fuel route m path h l a r a' :
  pass_through fuel route m path h l a = Some (r, a') -> served a a' /\ streams_result r.
Proof using Type.
  unfold pass_through, proxy_passthrough. destruct (pass_loop _ _ _ _ _ _ _ _) as [[x w]|] eqn:E; [|done].
  pose proof (passthrough_rows _ _ _ _ _ _ _ _ _ _ E) as Hw.
  cbn [mbind option_bind]. destruct x as [x|e]; intros [= <- <-]; (split; [|done]); [|by apply served_world].
  eapply served_trans_world; [exact Hw|apply log_pull_served].
Qed.

Lemma route_request_served fuel route m path h l a r a' :
  route_request fuel route m path h l a = Some (r, a') -> served a a' /\ (rows_ok (world a) -> streams_result r).
Proof using fetch_rows stream_rows abandoned_rows.
  unfold route_request. destruct (contains "/blobs/" path); [|intros [? ?]%pass_through_served; by split].
  destruct (blob_digest path) as [digest|e]; [|intros [= <- <-]; split; [apply served_refl|done]].
  destruct m; [apply get_blob_served|]. destruct (head_blob _ _ _ _ _) as [hit w] eqn:Eh.
  assert (rows_ok (world a) -> rows_ok w) as Hw.
  { intros H. unfold head_blob, Cache.get_for_head_request in Eh. set (key := Cache.request_key _ _ _ _ _ _) in *.
    pose proof (Cache.get_wf data_dir (cache (world a)) key (now (world a)) H) as Hg.
    destruct (Cache.get _ _ _) as [o c]. injection Eh as _ <-. exact Hg. }
  destruct hit as [object|].
  - intros H1. apply lift_served in H1 as [? ?]; [by split|]. intros x w' Hs Hx. eapply serve_cached_rows; [exact Hs|auto].
  - intros [H1 ?]%pass_through_served. split; [by eapply served_trans_world|done].
Qed.

Lemma handle_inner_served fuel q a r a' :
  handle_inner fuel q a = Some (r, a') -> served a a' /\ (rows_ok (world a) -> streams_result r).
Proof using fetch_rows stream_rows abandoned_rows nodes_db.
  unfold handle_inner. destruct (Helpers.is_helper_path _).
  { intros [= <- <-]. split; [apply served_refl|]. by destruct (serve_helper q). }
  destruct (negb _).
  { destruct (proxy_if_mapping _ _ _) as [[[x|]|e] u]; intros [= <- <-]; (split; [by split; [|left|]|done]). }
  destruct (_ || _); [intros [= <- <-]; split; [apply served_refl|done]|].
  destruct (read_method _) as [m|]; [|intros [= <- <-]; split; [apply served_refl|done]].
  destruct (path_invalid _); [intros [= <- <-]; split; [apply served_refl|done]|].
  destruct (route_registry_path _ _ _) as [resolved|e]; [|intros [= <- <-]; split; [apply served_refl|done]].
  pose proof (nodes_db (service a) (Route.id (resolved_route resolved)) (now (world a))) as Hdb.
  destruct (enabled_nodes _ _ _) as [ns s]. cbn [snd] in Hdb.
  assert (served a (with_service a s)) as Hs by (split; [done|by left|done]).
  destruct ns as [[|v l]|e]; [by intros [= <- <-]| |by intros [= <- <-]].
  intros [[H1 H2 H3] H4]%route_request_served. split; [|exact H4]. split; [exact H1| |exact H3].
  by rewrite <- Hdb.
Qed.

Lemma handle_served fuel q a r a' : handle fuel q a = (Some r, a') ->
  served a a' /\ (rows_ok (world a) -> match r with inl r => streams r | inr _ => True end).
Proof using fetch_rows stream_rows abandoned_rows nodes_db.
  unfold handle. set (a0 := if starts_with _ _ then _ else a).
  assert (forall b, served a0 b -> served a b) as Ha by (intros b [H1 H2 H3]; unfold a0 in *; destruct (starts_with _ _); by split).
  assert (rows_ok (world a) -> rows_ok (world a0)) as Hw by (unfold a0; by destruct (starts_with _ _)).
  destruct (handle_inner fuel q a0) as [[[x|e] b]|] eqn:E; [| |done]; apply handle_inner_served in E as [E1 E2];
    intros [= <- <-]; (split; [by apply Ha|]); [intros Hr; exact (E2 (Hw Hr))|done].
Qed.
End Rows.
End Handler.

(** ** The proxy as it is wired *)

Section Wired.
Context {Sel : Type} `{!Selector Sel} {Url : Type}.
Variable send : nat -> NodeView -> Method -> string -> HeaderMap -> RangeMode -> ApiResult Response.
Variable probe_lease : nat -> ApiResult unit.
Variable interfere : nat -> Sel -> Sel.
Variable clock : nat -> Z.
Variable sha256_hex : bytes -> string.
Variable sha256_prefix : bytes -> Z.
Variable parse_range : string -> option ContentRange.
Variable status_text : Z -> string.
Variable schedule : list Chunks.Chunk -> list Chunks.Chunk.
Variable arrivals : list NodeView -> list NodeView.
Variable deadline_passed : nat -> bool.
Variable ln_1p : f64 -> f64.
Variable data_dir : string.
Variable rows : gmap string Cache.CacheRecord -> list Cache.CacheRecord.
Variable key_hash : string -> string.
Variable uuid_text : Uuid -> string.
Variable memory_wait : nat -> ApiResult unit.
Variable net_contains : string -> IpAddr -> bool.
Variable lookup_host : nat -> string -> Z -> option (list IpAddr).
Variable api : UrlApi Url.
Variable ops : UrlOps Url.
Variable parse_authority : string -> option (string * option Z).
Variable transport : nat -> Sent (Url := Url) -> result Response string.
Variable serve_file : option bytes -> Method -> HeaderMap -> Response.
Variable SHELL_HELPER POWERSHELL_HELPER : string.

(** The settings of the running server. *)
Record Settings := {
  security : SecurityConfig;
  tls : bool;
  runtime : Download.Runtime;
  client_timeout : Z;
  flags : RuntimeFlags
}.

Definition serve (settings : Settings) (fuel polls : nat) (in_time : Download.World (S := Sel) -> bool)
    (abandoned : Download.World (S := Sel) -> Download.World (S := Sel)) (meanwhile : RegistryDb -> RegistryDb)
    (wall : nat -> Z) (fresh : nat -> Uuid) (q : Request) (a : App (Sel := Sel) (Up := UpstreamService (Url := Url)))
    : option (Reply + ErrorResponse) * App :=
  let policy := Download.scheduler_policy (runtime settings) in
  handle send interfere clock status_text key_hash uuid_text serve_file
    (Download.fetch_blob send probe_lease interfere clock sha256_hex sha256_prefix parse_range status_text schedule arrivals
       deadline_passed ln_1p data_dir rows key_hash uuid_text fuel (runtime settings))
    (Relay.stream_blob send interfere clock sha256_prefix parse_range status_text memory_wait policy key_hash uuid_text fuel
       (Download.layout (runtime settings)) (client_timeout settings))
    in_time abandoned (flags settings)
    (Helpers.serve SHELL_HELPER POWERSHELL_HELPER parse_authority (tls settings))
    (Domainfold.proxy_if_mapping api ops parse_authority
       (Upstream.send_public_url net_contains lookup_host api ops (security settings) transport))
    (Nodes.enabled_registry_nodes ln_1p policy) meanwhile wall fresh polls fuel q a.
End Wired.

(** The node service promises what the handler needs. *)
Lemma views_Ok ln_1p policy s l at_ vs s' : views ln_1p policy s l at_ = (Ok vs, s') -> node <$> vs = l.
Proof.
  revert s vs s'. induction l as [|n l IH]; intros s vs s'; simpl; [by intros [= <- <-]|].
  unfold view. destruct (by_id _ _ _) as [r|]; [|done]. destruct (view_with _ _ _ _ _ _ _) as [v s1] eqn:Ev.
  assert (node v = n) as Hv by (unfold view_with in Ev; destruct (live_rate _ _ _) in Ev; by injection Ev as <- _).
  destruct (views ln_1p policy s1 l at_) as [[vs0|] s2] eqn:E; [|done]. intros [= <- <-]. simpl. rewrite Hv. f_equal. by eapply IH.
Qed.

Lemma node_service_lists ln_1p policy : lists_nodes (Nodes.enabled_registry_nodes ln_1p policy).
Proof.
  intros s route at_ l s' Hwf H. unfold enabled_registry_nodes in H. apply views_Ok in H.
  assert (forall n, n ∈ node <$> l <-> n ∈ nodes (db s) /\ Node.registry_route_id n = route /\ Node.enabled n = true) as Hin.
  { intros n. rewrite H, list_elem_of_In, filter_In, <- list_elem_of_In. unfold list_nodes_for_route.
    rewrite sort_by_perm, list_elem_of_In, filter_In, <- list_elem_of_In, N.eqb_eq. tauto. }
  split.
  - change (node_id <$> l) with (Node.id ∘ node <$> l). rewrite list_fmap_compose, H. unfold list_nodes_for_route.
    apply (apart_ids Node.id node_clash node_clash_id). apply apart_filter.
    apply (apart_perm node_clash node_clash_sym (List.filter (fun n => (Node.registry_route_id n =? route)%N) (nodes (db s))));
      [by rewrite sort_by_perm|]. apply apart_filter, Hwf.
  - apply Forall_forall. intros v Hv. apply Hin. by apply list_elem_of_fmap_2.
Qed.
End Registry.

(** ** Instances *)

Module RegistryWitness.
Import Tables Paths Nodes Upstream Registry.

#[local] Instance registry_selector : Selector (Selection.NodeSelector (Backoff:=nat)) := DownloadWitness.sample_selector.

Definition world0 : Download.World (S := Selection.NodeSelector) := RelayWitness.start_world.

(** The first node is overloaded, the second answers. *)
Definition two_nodes : list NodeView := [sample_node 1 "a" 4 100; sample_node 2 "b" 4 100].
Definition manifest : Response :=
  {| r_status := 200; r_headers := [("etag", "x"); ("set-cookie", "s")]; r_content_length := None; r_body := [Data [x61]] |}.
Definition fail_over (_ : nat) (v : NodeView) (_ : Method) (_ : string) (_ : HeaderMap) (_ : RangeMode) : ApiResult Response :=
  if (node_id v =? 1)%N then Ok {| r_status := 503; r_headers := []; r_content_length := None; r_body := [] |} else Ok manifest.

Definition passed_on : option (ApiResult Response * Download.World (S := Selection.NodeSelector)) :=
  proxy_passthrough fail_over (fun _ s => s) RelayWitness.clock (fun _ => "") 2 GET "/v2/a/manifests/b" [] two_nodes world0.

Definition passed_world : Download.World (S := Selection.NodeSelector) :=
  match passed_on with Some (_, w) => w | None => world0 end.

Definition shown : Response :=
  {| r_status := 200; r_headers := [("etag", "x")]; r_content_length := None; r_body := [Data [x61]] |}.

Lemma passed_on_is : passed_on = Some (Ok shown, passed_world).
Proof. vm_compute. reflexivity. Qed.

Lemma passthrough_exact_witness :
  passed_on = Some (Ok shown, passed_world) /\
  exists asked, Download.sent passed_world = Download.sent world0 ++ departed GET "/v2/a/manifests/b" [] asked /\
    NoDup (ids asked) /\ asked <> [].
Proof.
  split; [exact passed_on_is|].
  destruct (proj1 (passthrough_exact fail_over (fun _ s => s) RelayWitness.clock (fun _ => "") 2 GET "/v2/a/manifests/b" [] two_nodes
    world0 ltac:(repeat constructor; set_solver)) _ _ passed_on_is) as (asked & Ht & Hn & _ & Hr).
  exists asked. split; [exact Ht|]. split; [exact Hn|].
  destruct Hr as (front & t & v & r0 & -> & _). by destruct front.
Defined.

(** Both nodes were asked, in the order of the list. *)
Example asked_in_order :
  (fun x => (Download.x_at x, node_id (Download.x_node x))) <$> Download.sent passed_world = [(0%nat, 1%N); (1%nat, 2%N)].
Proof. vm_compute. reflexivity. Qed.

Definition sample_flags : RuntimeFlags := {| pull_logging_enabled := true; pull_log_retention_days := 1; pull_log_max_entries := 100 |}.

Definition stored_node : Node.Model :=
  {| Node.id := 9; Node.name := "edge"; Node.url := "https://registry.example/"; Node.registry_route_id := Routes.GHCR_ROUTE_ID;
     Node.enabled := true; Node.priority := 10; Node.cf_preferred := false; Node.connect_ip_type := "ip"; Node.connect_ip := None;
     Node.auth_mode := "none"; Node.auth_username := None; Node.auth_header := None; Node.auth_secret_enc := None;
     Node.created_at := 0; Node.updated_at := 0 |}.

Definition stale_pull : PullEvent :=
  {| p_id := 5; p_route := Routes.GHCR_ROUTE_ID; p_repository := "org/app"; p_reference := "latest"; p_digest := None;
     p_status := 200; p_created_at := 1000 |}.

Definition tables0 : RegistryDb :=
  with_pulls (with_nodes RoutesWitness.seeded [stored_node]) [stale_pull].

Definition app0 : App (Sel := Selection.NodeSelector (Backoff:=nat)) (Up := unit) :=
  {| world := world0; service := {| db := tables0; live_rates := ∅ |}; upstream := tt; mappings := [];
     traffic := Traffic.new 0 |}.

Definition wall (n : nat) : Z := 100000000 + Z.of_nat n.

(** The day-old entry goes, the new one is there. *)
Lemma pull_log_bounded_witness :
  let a' := log_pull sample_flags wall (fun _ => 77%N) Routes.GHCR_ROUTE_ID (Some ("org/app", "latest")) manifest app0 in
  p_id <$> pulls (db (service a')) = [77%N] /\ nodes (db (service a')) = [stored_node].
Proof.
  intros a'. split; [vm_compute; reflexivity|].
  refine (proj1 (proj2 (proj2 (proj2 (pull_log_bounded sample_flags wall (fun _ => 77%N) Routes.GHCR_ROUTE_ID
    (Some ("org/app", "latest")) manifest app0 _ _ _))))).
  - vm_compute. discriminate.
  - split; vm_compute; discriminate.
  - vm_compute. repeat constructor. intros H%not_elem_of_nil. done.
Defined.

Definition pull : Request :=
  {| q_method := "GET"; q_uri := {| u_path := "/v2/ghcr/org/app/manifests/latest"; u_query := None |}; q_headers := [] |}.

Abbreviation inner := (handle_inner (fun _ _ _ _ _ _ => Ok manifest) (fun _ s => s) RelayWitness.clock (fun _ => "") (fun _ => Cache.key_a)
  (fun _ => "r") (fun _ _ _ => manifest) (fun _ _ _ _ _ => None) (fun _ _ _ _ _ => None) (fun _ => true) (fun w => w) sample_flags
  (fun _ => Err (NotFound "helper")) (fun _ u _ => (Ok None, u)) (Nodes.enabled_registry_nodes (fun x => x) Scheduling.Balanced)
  (fun d => d) wall (fun _ => 77%N) 3 2).

Lemma tables0_wf : db_wf tables0.
Proof.
  split; try apply map_Forall_empty; vm_compute; repeat constructor; done.
Qed.

Lemma answered_by_its_route_witness :
  match inner pull app0 with
  | Some (Ok (Direct r), _) => r_status r = 200
  | _ => False
  end /\
  exists resolved, route_registry_path tables0 tables0 (q_uri pull) = Ok resolved /\ Route.enabled (resolved_route resolved) = true.
Proof.
  destruct (inner pull app0) as [[r a']|] eqn:E; [|vm_compute in E; discriminate E].
  assert (exists x, r = Ok (Direct x) /\ r_status x = 200) as (x & -> & Hx)
    by (vm_compute in E; injection E as <- _; by eexists).
  split; [exact Hx|].
  destruct (answered_by_its_route (fun _ _ _ _ _ _ => Ok manifest) (fun _ s => s) RelayWitness.clock (fun _ => "") (fun _ => Cache.key_a)
    (fun _ => "r") (fun _ _ _ => manifest) (fun _ _ _ _ _ => None) (fun _ _ _ _ _ => None) (fun _ => true) (fun w => w) sample_flags
    (fun _ => Err (NotFound "helper")) (fun _ u _ => (Ok None, u)) (Nodes.enabled_registry_nodes (fun x => x) Scheduling.Balanced)
    (fun d => d) wall (fun _ => 77%N) 3 2 pull GET app0 (Direct x) a' (node_service_lists _ _) tables0_wf eq_refl eq_refl)
    as (resolved & Hr & He & _); [discriminate|exact E|]. exists resolved. by split.
Defined.
End RegistryWitness.
