(* ===== verification/Auth.v ===== *)
(** * Authentication

    The administration accounts of src/src/auth.rs: local and OIDC login, sessions,
    login throttling, profile changes and the cookies that carry a session, on the
    [users], [admin_sessions] and [oidc_login_states] tables of src/src/db.rs; and the
    middleware of src/src/server.rs that guards the administration listener.

    A handler is a [program] of Prog.v: each SQL statement or transaction, each read
    of a clock and each access to the throttling cache is one action.  The log of one
    user name is a shared deque: [failed_logins] holds its location, as the cache of
    the source holds an [Arc], and a location stays valid for the requests that fetched
    it after the cache has dropped it.  [tries] records, for the theorems, each attempt
    that was let through.  SHA-256, base64, Argon2 and the OpenID Connect client are
    parameters.  [refresh_lock] only serialises key refreshes and is left out: the
    model has more interleavings than the program.  Times are nanoseconds. *)

From stdpp Require Import base gmap sets list strings pretty relations.
From Stdlib Require Import ZArith Lia Ascii.
From S2P Require Import Prelude Text Errors Prog Http Model Tables Paths.

#[local] Set Default Proof Using "Type*".

Module User.

Record Model := {
  id : Uuid;
  identity_key : string;
  username : option string;
  issuer : option string;
  subject : string;
  display_name : string;
  email : option string;
  password_hash : option string;
  role : string;
  enabled : bool;
  created_at : Z;
  updated_at : Z;
  last_login_at : option Z
}.

End User.

Module Session.

Record Model := { user_id : Uuid; created_at : Z; last_seen_at : Z; expires_at : Z }.

Definition seen (t : Z) (s : Model) : Model :=
  {| user_id := user_id s; created_at := created_at s; last_seen_at := t; expires_at := expires_at s |}.

End Session.

Module LoginState.

Record Model := {
  nonce : string; pkce_verifier : string; return_to : string; created_at : Z; expires_at : Z
}.

End LoginState.

Module Auth.
Import Tables Paths.

(** ** Tables *)

Record AuthDb := {
  users : list User.Model;
  sessions : gmap string Session.Model;
  states : gmap string LoginState.Model
}.

Definition with_users (d : AuthDb) (l : list User.Model) : AuthDb :=
  {| users := l; sessions := sessions d; states := states d |}.
Definition with_sessions (d : AuthDb) (m : gmap string Session.Model) : AuthDb :=
  {| users := users d; sessions := m; states := states d |}.
Definition with_states (d : AuthDb) (m : gmap string LoginState.Model) : AuthDb :=
  {| users := users d; sessions := sessions d; states := m |}.

(** The primary key and the unique columns. *)
Definition user_clash (u x : User.Model) : bool :=
  (User.id x =? User.id u)%N || (User.identity_key x =?s User.identity_key u)
  || (is_some (User.username u) && bool_decide (User.username x = User.username u)).

(** The trigger on insert and update. *)
Definition user_invalid (u : User.Model) : bool :=
  negb ((User.role u =?s "admin") || (User.role u =?s "member"))
  || sql_blank (User.identity_key u) || sql_blank (User.subject u) || sql_blank (User.display_name u).

Definition insert_user (u : User.Model) (d : AuthDb) : result (unit * AuthDb) DbErr :=
  if user_invalid u then Err (raised "invalid user")
  else if existsb (user_clash u) (users d) then Err unique_failed
  else Ok (tt, with_users d (users d ++ [u])).

(** [UPDATE users SET ... WHERE id = ? RETURNING *]: [f] sets the columns. *)
Definition update_user (i : Uuid) (f : User.Model -> User.Model) (d : AuthDb) : result (User.Model * AuthDb) DbErr :=
  match by_id User.id i (users d) with
  | None => Err not_updated
  | Some u =>
      if user_invalid (f u) then Err (raised "invalid user")
      else if existsb (user_clash (f u)) (others User.id i (users d)) then Err unique_failed
      else Ok (f u, with_users d (replace User.id (f u) (users d)))
  end.

Definition find_user (i : Uuid) (d : AuthDb) : option User.Model := by_id User.id i (users d).
Definition user_named (name : string) (d : AuthDb) : option User.Model :=
  find_one (fun u => bool_decide (User.username u = Some name)) (users d).
Definition user_with_key (key : string) (d : AuthDb) : option User.Model :=
  find_one (fun u => User.identity_key u =?s key) (users d).

Definition insert_session (hash : string) (s : Session.Model) (d : AuthDb) : result (unit * AuthDb) DbErr :=
  if is_none (find_user (Session.user_id s) d) then Err (raised "admin session requires an existing user")
  else if is_some (sessions d !! hash) then Err unique_failed
  else Ok (tt, with_sessions d (<[hash := s]> (sessions d))).

Definition touch_session (hash : string) (t : Z) (d : AuthDb) : result (unit * AuthDb) DbErr :=
  match sessions d !! hash with
  | None => Err not_updated
  | Some s => Ok (tt, with_sessions d (<[hash := Session.seen t s]> (sessions d)))
  end.

Definition delete_session (hash : string) (d : AuthDb) : result (unit * AuthDb) DbErr :=
  Ok (tt, with_sessions d (delete hash (sessions d))).

(** [DELETE ... WHERE user_id = ? AND token_hash <> ?]. *)
Definition delete_other_sessions (i : Uuid) (hash : string) (d : AuthDb) : result (unit * AuthDb) DbErr :=
  Ok (tt, with_sessions d (filter (fun p => ~ (Session.user_id p.2 = i /\ p.1 <> hash)) (sessions d))).

Definition delete_expired_sessions (now : Z) (d : AuthDb) : result (unit * AuthDb) DbErr :=
  Ok (tt, with_sessions d (filter (fun p => ~ (Session.expires_at p.2 < now)) (sessions d))).

Definition insert_state (hash : string) (s : LoginState.Model) (d : AuthDb) : result (unit * AuthDb) DbErr :=
  if is_some (states d !! hash) then Err unique_failed
  else Ok (tt, with_states d (<[hash := s]> (states d))).

Definition delete_state (hash : string) (d : AuthDb) : result (Z * AuthDb) DbErr :=
  Ok (if is_some (states d !! hash) then 1 else 0, with_states d (delete hash (states d))).

Definition delete_expired_states (now : Z) (d : AuthDb) : result (unit * AuthDb) DbErr :=
  Ok (tt, with_states d (filter (fun p => ~ (LoginState.expires_at p.2 < now)) (states d))).

(** ** Principals, names, cookies *)

Definition SESSION_COOKIE : string := "donkey_session".
Definition MAX_FAILED_ATTEMPTS : nat := 5.
Definition second : Z := 1000000000.
Definition minute : Z := 60 * second.
Definition FAILED_ATTEMPT_WINDOW : Z := 15 * minute.

Record AuthPrincipal := {
  p_id : option Uuid;
  p_username : string;
  p_display_name : string;
  p_role : string;
  legacy : bool;
  local_password : bool;
  session_token_hash : option string
}.

Definition is_admin (p : AuthPrincipal) : bool := p_role p =?s "admin".

Definition principal (u : User.Model) : AuthPrincipal :=
  {| p_id := Some (User.id u);
     p_username := match User.username u with
                   | Some n => n
                   | None => unwrap_or (User.email u) (User.subject u)
                   end;
     p_display_name := User.display_name u;
     p_role := User.role u;
     legacy := false;
     local_password := is_some (User.password_hash u);
     session_token_hash := None |}.

Definition with_session (p : AuthPrincipal) (hash : string) : AuthPrincipal :=
  {| p_id := p_id p; p_username := p_username p; p_display_name := p_display_name p; p_role := p_role p;
     legacy := legacy p; local_password := local_password p; session_token_hash := Some hash |}.

Definition name_byte (c : ascii) : bool := is_ascii_alphanumeric c || char_in c "._-@".

Definition validate_username (value : string) : ApiResult unit :=
  if negb (trim value =?s value) || (slen value <? 2) || (80 <? slen value) || negb (all_bytes name_byte value)
  then Err (BadRequest "username must be 2-80 ASCII letters, digits, '.', '_', '-', or '@'")
  else Ok tt.

Definition validate_password (value : string) : ApiResult unit :=
  if (slen value <? 12) || (1024 <? slen value)
  then Err (BadRequest "initial administrator password must be 12-1024 bytes")
  else Ok tt.

(** One part of a cookie header. *)
Definition cookie_part (name part : string) : option string :=
  let* (key, value) := split_once "=" (trim part) in
  if (key =?s name) && negb (is_empty value) then Some value else None.

Fixpoint find_map {A B} (f : A -> option B) (l : list A) : option B :=
  match l with
  | [] => None
  | x :: l => match f x with Some y => Some y | None => find_map f l end
  end.

Definition cookie_value (h : HeaderMap) (name : string) : option string :=
  let* v := header_str h "cookie" in
  find_map (cookie_part name) (split_char ";"%char v).

Definition local_identity_key (name : string) : string := "local:" +:+ to_ascii_lowercase name.

Definition newline (c : ascii) : bool := (code c =? 13) || (code c =? 10).

Definition safe_return_to (value : string) : string :=
  if starts_with "/" value && negb (starts_with "//" value) && negb (any_byte newline value) && (slen value <=? 1024)
  then value else "/".

Record AuthConfig := {
  admin_auth : option string;
  initial_admin_username : option string;
  initial_admin_password : option string;
  session_ttl : Z;
  admin_external_tls : bool
}.

(** ** OpenID Connect *)

Inductive ClaimsError := NoMatchingKey | OtherClaimsError.

Definition is_missing_signing_key (e : ClaimsError) : bool :=
  match e with NoMatchingKey => true | OtherClaimsError => false end.

(** What the source uses of the openidconnect client: [exchange] and [discover] are
    requests, indexed by their place in the history; a failed one is [None]. *)
Record OidcApi (Client Tokens IdToken Claims : Type) := {
  exchange : nat -> Client -> string -> string -> option Tokens;
  id_token : Tokens -> option IdToken;
  claims : Client -> IdToken -> string -> result Claims ClaimsError;
  access_token_hash : Claims -> option string;
  hashed_access_token : Client -> IdToken -> Tokens -> option string;
  subject : Claims -> string;
  email : Claims -> option string;
  discover : nat -> option (Client * string);
  authorize_url : Client -> string -> string -> string -> string
}.
Arguments exchange {_ _ _ _}.
Arguments id_token {_ _ _ _}.
Arguments claims {_ _ _ _}.
Arguments access_token_hash {_ _ _ _}.
Arguments hashed_access_token {_ _ _ _}.
Arguments subject {_ _ _ _}.
Arguments email {_ _ _ _}.
Arguments discover {_ _ _ _}.
Arguments authorize_url {_ _ _ _}.

Record OidcRuntime := { issuer : string; display_name : string }.

(** ** The service *)

Section Service.
Context {Client Tokens IdToken Claims : Type}.

Record AuthWorld := {
  db : AuthDb;
  clock : Z;
  instant : Z;
  failed_logins : gmap string nat;
  logs : gmap nat (list Z);
  tries : list (nat * Z);
  oidc_client : Client;
  net : nat
}.

Definition with_db (w : AuthWorld) (d : AuthDb) : AuthWorld :=
  {| db := d; clock := clock w; instant := instant w; failed_logins := failed_logins w; logs := logs w;
     tries := tries w; oidc_client := oidc_client w; net := net w |}.
Definition with_logins (w : AuthWorld) (f : gmap string nat) (l : gmap nat (list Z)) (t : list (nat * Z)) : AuthWorld :=
  {| db := db w; clock := clock w; instant := instant w; failed_logins := f; logs := l;
     tries := t; oidc_client := oidc_client w; net := net w |}.
Definition with_client (w : AuthWorld) (c : Client) (n : nat) : AuthWorld :=
  {| db := db w; clock := clock w; instant := instant w; failed_logins := failed_logins w; logs := logs w;
     tries := tries w; oidc_client := c; net := n |}.

Abbreviation prog := (program AuthWorld).

Definition Utc_now : prog Z := read clock.
Definition query {A} (f : AuthDb -> A) : prog (ApiResult A) := read (fun w => Ok (f (db w))).

Definition step_db {A} (f : AuthDb -> result (A * AuthDb) DbErr) (w : AuthWorld) : ApiResult A * AuthWorld :=
  match f (db w) with
  | Ok (a, d) => (Ok a, with_db w d)
  | Err e => (Err (Database e), w)
  end.
Definition exec {A} (f : AuthDb -> result (A * AuthDb) DbErr) : prog (ApiResult A) := Act (step_db f) Ret.

Definition fail {A} (e : AppError) : prog (ApiResult A) := Ret (Err e).
Definition lift {A} (r : ApiResult A) : prog (ApiResult A) := Ret r.

(** A request over the network. *)
Definition request {A} (f : nat -> A) : prog A :=
  Act (fun w => (f (net w), with_client w (oidc_client w) (S (net w)))) Ret.
Definition set_client (c : Client) : prog unit := Act (fun w => (tt, with_client w c (net w))) Ret.

Variable token_hash : string -> string.
Variable base64_decode : string -> option string.
Variable argon_hash : string -> string -> option string.
Variable argon_verify : string -> string -> option bool.
Variable dummy_password_hash : string.
Variable config : AuthConfig.
Variable api : OidcApi Client Tokens IdToken Claims.
Variable oidc : option OidcRuntime.

(** [hash_password] with the salt it draws. *)
Definition hash_password (salt password : string) : ApiResult string :=
  ok_or (argon_hash salt password) (Internal "argon2").

Definition verify_password (hash password : string) : ApiResult bool :=
  ok_or (argon_verify hash password) (Internal "argon2").

Definition oidc_identity_key (iss subj : string) : string := "oidc:" +:+ token_hash iss +:+ ":" +:+ subj.

(** ** Sessions *)

Definition authenticate (h : HeaderMap) : prog (ApiResult AuthPrincipal) :=
  match cookie_value h SESSION_COOKIE with
  | None => fail Unauthorized
  | Some token =>
      let hash := token_hash token in
      let! found := query (fun d => sessions d !! hash) in
      match found with
      | None => fail Unauthorized
      | Some s =>
          let- now := Utc_now in
          if Session.expires_at s <=? now then
            let! _ := exec (delete_session hash) in
            fail Unauthorized
          else
            let! found := query (find_user (Session.user_id s)) in
            match found with
            | None => fail Unauthorized
            | Some account =>
                if negb (User.enabled account) then fail Unauthorized
                else
                  let- now := Utc_now in
                  if Session.last_seen_at s <? now - 5 * minute then
                    let- now := Utc_now in
                    let! _ := exec (touch_session hash now) in
                    lift (Ok (with_session (principal account) hash))
                  else lift (Ok (with_session (principal account) hash))
            end
      end
  end.

Definition authenticate_legacy_basic (h : HeaderMap) : option AuthPrincipal :=
  let* expected := admin_auth config in
  let* encoded := header_str h "authorization" ≫= strip_prefix "Basic " in
  let* decoded := base64_decode encoded in
  if negb (slen decoded =? slen expected) || negb (decoded =?s expected) then None
  else
    let name := match split_once ":" expected with Some (n, _) => n | None => "admin" end in
    Some {| p_id := None; p_username := name; p_display_name := name; p_role := "admin"; legacy := true;
            local_password := false; session_token_hash := None |}.

(** [chrono::Duration] holds up to [i64::MAX] milliseconds. *)
Definition duration_max : Z := i64_max * 1000000.

(** [token] is the base64 of the 32 random bytes. *)
Definition create_session (user_id : Uuid) (token : string) : prog (ApiResult string) :=
  let- now := Utc_now in
  if duration_max <? session_ttl config then fail (Internal "out of range duration")
  else
    let! _ := exec (insert_session (token_hash token)
                {| Session.user_id := user_id; Session.created_at := now; Session.last_seen_at := now;
                   Session.expires_at := now + session_ttl config |}) in
    lift (Ok token).

Definition revoke_session (h : HeaderMap) : prog (ApiResult unit) :=
  match cookie_value h SESSION_COOKIE with
  | None => lift (Ok tt)
  | Some token => exec (delete_session (token_hash token))
  end.

Definition logged_in (login updated : Z) (u : User.Model) : User.Model :=
  {| User.id := User.id u; User.identity_key := User.identity_key u; User.username := User.username u;
     User.issuer := User.issuer u; User.subject := User.subject u; User.display_name := User.display_name u;
     User.email := User.email u; User.password_hash := User.password_hash u; User.role := User.role u;
     User.enabled := User.enabled u; User.created_at := User.created_at u; User.updated_at := updated;
     User.last_login_at := Some login |}.

Definition mark_login (i : Uuid) : prog (ApiResult unit) :=
  let! found := query (find_user i) in
  match found with
  | None => lift (Ok tt)
  | Some _ =>
      let- login := Utc_now in
      let- updated := Utc_now in
      let! _ := exec (update_user i (logged_in login updated)) in
      lift (Ok tt)
  end.

Definition cleanup_expired : prog (ApiResult unit) :=
  let- now := Utc_now in
  let! _ := exec (delete_expired_sessions now) in
  let- now := Utc_now in
  exec (delete_expired_states now).

(** ** Throttling *)

(** [failed_logins.get_with]: the log of the key, a new one if there is none. *)
Definition get_log (key : string) (w : AuthWorld) : nat * AuthWorld :=
  match failed_logins w !! key with
  | Some l => (l, w)
  | None =>
      let l := fresh (dom (logs w)) in
      (l, with_logins w (<[key := l]> (failed_logins w)) (<[l := []]> (logs w)) (tries w))
  end.

Fixpoint pop_old (now : Z) (l : list Z) : list Z :=
  match l with
  | t :: l => if FAILED_ATTEMPT_WINDOW <? saturating_sub now t then pop_old now l else t :: l
  | [] => []
  end.

(** The log under its lock; the instant is read as the lock is taken. *)
Definition reserve (log : nat) (w : AuthWorld) : ApiResult unit * AuthWorld :=
  let now := instant w in
  let values := pop_old now (unwrap_or (logs w !! log) []) in
  if (MAX_FAILED_ATTEMPTS <=? length values)%nat
  then (Err RateLimited, with_logins w (failed_logins w) (<[log := values]> (logs w)) (tries w))
  else (Ok tt, with_logins w (failed_logins w) (<[log := values ++ [now]]> (logs w)) (tries w ++ [(log, now)])).

Definition reserve_login_attempt (key : string) : prog (ApiResult unit) :=
  let- log := Act (get_log key) Ret in
  Act (reserve log) Ret.

Definition forget (key : string) (w : AuthWorld) : AuthWorld :=
  with_logins w (delete key (failed_logins w)) (logs w) (tries w).

Definition clear_failed_login (key : string) : prog unit := Act (fun w => (tt, forget key w)) Ret.

(** ** Local accounts *)

Definition bootstrap (u : User.Model) (d : AuthDb) : result (unit * AuthDb) DbErr :=
  if (0 <? length (users d))%nat then Ok (tt, d) else insert_user u d.

Definition first_admin (i : Uuid) (name hash : string) (now : Z) : User.Model :=
  {| User.id := i; User.identity_key := local_identity_key name; User.username := Some name; User.issuer := None;
     User.subject := name; User.display_name := name; User.email := None; User.password_hash := Some hash;
     User.role := "admin"; User.enabled := true; User.created_at := now; User.updated_at := now;
     User.last_login_at := None |}.

Definition bootstrap_local_admin (new_id : Uuid) (salt : string) : prog (ApiResult unit) :=
  match initial_admin_username config, initial_admin_password config with
  | Some name, Some password =>
      let! _ := lift (validate_username name) in
      let! _ := lift (validate_password password) in
      let! hash := lift (hash_password salt password) in
      let- now := Utc_now in
      exec (bootstrap (first_admin new_id name hash now))
  | _, _ => lift (Ok tt)
  end.

Definition login_local (name password token : string) : prog (ApiResult (AuthPrincipal * string)) :=
  let! _ := lift (validate_username name) in
  if 1024 <? slen password then fail Unauthorized
  else
    let key := token_hash (to_ascii_lowercase name) in
    let! _ := reserve_login_attempt key in
    let! account := query (user_named name) in
    let hash := unwrap_or (account ≫= User.password_hash) dummy_password_hash in
    let! valid := lift (verify_password hash password) in
    match account with
    | None => fail Unauthorized
    | Some account =>
        if negb (User.enabled account && valid) then fail Unauthorized
        else
          let- _ := clear_failed_login key in
          let! _ := mark_login (User.id account) in
          let! token := create_session (User.id account) token in
          lift (Ok (principal account, token))
    end.

(** ** OIDC login *)

(** The random state, nonce and verifier are drawn by the caller. *)
Definition oidc_authorize_url (return_to state nonce verifier : string) : prog (ApiResult string) :=
  let! _ := cleanup_expired in
  match oidc with
  | None => fail (NotFound "OIDC provider")
  | Some _ =>
      let return_to := safe_return_to return_to in
      let- client := read oidc_client in
      let- now := Utc_now in
      let! _ := exec (insert_state (token_hash state)
                  {| LoginState.nonce := nonce; LoginState.pkce_verifier := verifier; LoginState.return_to := return_to;
                     LoginState.created_at := now; LoginState.expires_at := now + 10 * minute |}) in
      lift (Ok (authorize_url api client state nonce verifier))
  end.

Definition oidc_account (i : Uuid) (iss subj : string) (mail : option string) (first : bool) (now : Z) : User.Model :=
  {| User.id := i; User.identity_key := oidc_identity_key iss subj; User.username := None; User.issuer := Some iss;
     User.subject := subj; User.display_name := unwrap_or mail "OIDC user"; User.email := mail;
     User.password_hash := None; User.role := if first then "admin" else "member"; User.enabled := true;
     User.created_at := now; User.updated_at := now; User.last_login_at := None |}.

(** The transaction of [provision_oidc_user]: [None] for a disabled account. *)
Definition provision (i : Uuid) (iss subj : string) (mail : option string) (now : Z) (d : AuthDb)
    : result (option User.Model * AuthDb) DbErr :=
  match user_with_key (oidc_identity_key iss subj) d with
  | Some account => Ok (if User.enabled account then Some account else None, d)
  | None =>
      let account := oidc_account i iss subj mail (length (users d) =? 0)%nat now in
      match insert_user account d with
      | Ok (_, d) => Ok (Some account, d)
      | Err e => Err e
      end
  end.

Definition provision_oidc_user (i : Uuid) (iss subj : string) (mail : option string) : prog (ApiResult User.Model) :=
  let! account := Act (fun w => step_db (provision i iss subj mail (clock w)) w) Ret in
  lift (ok_or account Forbidden).

(** The claims checked with the client of the moment, refreshed once when the signing
    key is unknown: the client to use, or [Unauthorized]. *)
Definition checked_client (client : Client) (token : IdToken) (nonce : string) : prog (ApiResult Client) :=
  match claims api client token nonce with
  | Ok _ => lift (Ok client)
  | Err e =>
      if negb (is_missing_signing_key e) then fail Unauthorized
      else
        let- client := read oidc_client in
        match claims api client token nonce with
        | Ok _ => lift (Ok client)
        | Err e =>
            if negb (is_missing_signing_key e) then fail Unauthorized
            else
              let- answer := request (discover api) in
              match answer, oidc with
              | Some (refreshed, discovered), Some runtime =>
                  if negb (discovered =?s issuer runtime) then fail Unauthorized
                  else
                    let- _ := set_client refreshed in
                    lift (Ok refreshed)
              | _, _ => fail Unauthorized
              end
        end
  end.

(** The subject and the email of a token response that passes every check. *)
Definition checked_identity (client : Client) (tokens : Tokens) (token : IdToken) (nonce : string)
    : ApiResult (string * option string) :=
  match claims api client token nonce with
  | Err _ => Err Unauthorized
  | Ok c =>
      let? _ :=
        match access_token_hash api c with
        | None => Ok tt
        | Some expected =>
            let? actual := ok_or (hashed_access_token api client token tokens) Unauthorized in
            if actual =?s expected then Ok tt else Err Unauthorized
        end in
      let subj := subject api c in
      if is_empty subj || (512 <? slen subj) then Err Unauthorized
      else Ok (subj, email api c)
  end.

Definition finish_oidc (new_id : Uuid) (token code state : string) : prog (ApiResult (AuthPrincipal * string * string)) :=
  match oidc with
  | None => fail Unauthorized
  | Some runtime =>
      let hash := token_hash state in
      let! found := query (fun d => states d !! hash) in
      match found with
      | None => fail Unauthorized
      | Some stored =>
          let! deleted := exec (delete_state hash) in
          let- now := Utc_now in
          if negb (deleted =? 1) || (LoginState.expires_at stored <=? now) then fail Unauthorized
          else
            let- client := read oidc_client in
            let- answer := request (fun n => exchange api n client code (LoginState.pkce_verifier stored)) in
            let! tokens := lift (ok_or answer Unauthorized) in
            let! id := lift (ok_or (id_token api tokens) Unauthorized) in
            let! client := checked_client client id (LoginState.nonce stored) in
            let! (subj, mail) := lift (checked_identity client tokens id (LoginState.nonce stored)) in
            let! account := provision_oidc_user new_id (issuer runtime) subj mail in
            let! _ := mark_login (User.id account) in
            let! token := create_session (User.id account) token in
            lift (Ok (principal account, token, LoginState.return_to stored))
      end
  end.

(** ** Profile *)

Record ProfileInput := {
  new_display_name : string;
  new_username : option string;
  current_password : option string;
  new_password : option string
}.

(** The columns a profile change writes: all four, from the row it read. *)
Definition profile_columns (name : option string) (hash : option string) (display : string) (now : Z) (u : User.Model)
    : User.Model :=
  {| User.id := User.id u; User.identity_key := User.identity_key u; User.username := name;
     User.issuer := User.issuer u; User.subject := User.subject u; User.display_name := display;
     User.email := User.email u; User.password_hash := hash; User.role := User.role u;
     User.enabled := User.enabled u; User.created_at := User.created_at u; User.updated_at := now;
     User.last_login_at := User.last_login_at u |}.

Definition username_changed (input : ProfileInput) (account : User.Model) : bool :=
  is_some_and (new_username input) (fun n => negb (bool_decide (User.username account = Some n))).

(** The current password, where a credential changes. *)
Definition check_current (input : ProfileInput) (account : User.Model) : ApiResult unit :=
  if username_changed input account || is_some (new_password input) then
    match User.password_hash account with
    | None => Err (BadRequest "OIDC accounts manage login credentials with the identity provider")
    | Some hash =>
        let? current := ok_or (current_password input) Unauthorized in
        let? valid := verify_password hash current in
        if valid then Ok tt else Err Unauthorized
    end
  else Ok tt.

Definition taken (name : string) (i : Uuid) (d : AuthDb) : bool :=
  is_some (find_one (fun u => bool_decide (User.username u = Some name) && negb (User.id u =? i)%N) (users d)).

(** The user name to store. *)
Definition changed_username (i : Uuid) (input : ProfileInput) (account : User.Model) : prog (ApiResult (option string)) :=
  match new_username input with
  | Some name =>
      if username_changed input account then
        let! _ := lift (validate_username name) in
        let! used := query (taken name i) in
        if used then fail (Conflict "username is already in use") else lift (Ok (Some name))
      else lift (Ok (User.username account))
  | None => lift (Ok (User.username account))
  end.

Definition changed_password (salt : string) (input : ProfileInput) (account : User.Model) : ApiResult (option string) :=
  match new_password input with
  | Some password =>
      let? _ := validate_password password in
      let? hash := hash_password salt password in
      Ok (Some hash)
  | None => Ok (User.password_hash account)
  end.

Definition update_profile (current : AuthPrincipal) (salt : string) (input : ProfileInput)
    : prog (ApiResult AuthPrincipal) :=
  match p_id current with
  | None => fail Unauthorized
  | Some i =>
      if is_empty (trim (new_display_name input)) || (80 <? char_count (new_display_name input))
      then fail (BadRequest "display name must be 1-80 characters")
      else
        let! found := query (find_user i) in
        let! account := lift (ok_or found Unauthorized) in
        let! _ := lift (check_current input account) in
        let! name := changed_username i input account in
        let! hash := lift (changed_password salt input account) in
        let- now := Utc_now in
        let! updated := exec (update_user i (profile_columns name hash (trim (new_display_name input)) now)) in
        match new_password input, session_token_hash current with
        | Some _, Some token =>
            let! _ := exec (delete_other_sessions i token) in
            lift (Ok (principal updated))
        | _, _ => lift (Ok (principal updated))
        end
  end.

(** ** Cookies and HTTP handlers *)

Definition secure : string := if admin_external_tls config then "; Secure" else "".

Definition session_cookie (token : string) : ApiResult string :=
  ok_or (parse_value (SESSION_COOKIE +:+ "=" +:+ token +:+ "; Path=/; HttpOnly; SameSite=Lax; Max-Age="
                      +:+ pretty (session_ttl config / second) +:+ secure))
        (Internal "invalid header value").

Definition clear_cookie : string :=
  SESSION_COOKIE +:+ "=; Path=/; HttpOnly; SameSite=Lax; Max-Age=0" +:+ secure.

Definition login (name password token : string) : prog (ApiResult (AuthPrincipal * string)) :=
  let! (p, token) := login_local name password token in
  let! cookie := lift (session_cookie token) in
  lift (Ok (p, cookie)).

Definition logout (h : HeaderMap) : prog (ApiResult string) :=
  let! _ := revoke_session h in
  lift (Ok clear_cookie).

Record AuthConfigView := { local_enabled : bool; oidc_enabled : bool; oidc_name : option string }.

Definition auth_config : prog (ApiResult AuthConfigView) :=
  let! found := query (fun d => find_one (fun u => is_some (User.password_hash u)) (users d)) in
  lift (Ok {| local_enabled := is_some found; oidc_enabled := is_some oidc; oidc_name := display_name <$> oidc |}).

(** A redirect: its location and the cookie it sets. *)
Definition oidc_start (return_to : option string) (state nonce verifier : string) : prog (ApiResult string) :=
  oidc_authorize_url (unwrap_or return_to "/") state nonce verifier.

Definition oidc_callback (code state error : option string) (new_id : Uuid) (token : string)
    : prog (ApiResult (string * option string)) :=
  if is_some error then lift (Ok ("/login?error=oidc", None))
  else
    let! code := lift (ok_or code Unauthorized) in
    let! state := lift (ok_or state Unauthorized) in
    let! (_, token, return_to) := finish_oidc new_id token code state in
    let! cookie := lift (session_cookie token) in
    lift (Ok (return_to, Some cookie)).

(** [AuthService::new], after the provider was discovered. *)
Definition new (new_id : Uuid) (salt : string) : prog (ApiResult unit) :=
  let! _ := bootstrap_local_admin new_id salt in
  cleanup_expired.

(** ** Middleware of the listeners *)

Definition public_api (path : string) : bool :=
  (path =?s "/api/health") || (path =?s "/api/auth/config") || (path =?s "/api/auth/login")
  || (path =?s "/api/auth/oidc/start") || (path =?s "/api/auth/oidc/callback").

Definition is_write (method : string) : bool :=
  negb ((method =?s "GET") || (method =?s "HEAD") || (method =?s "OPTIONS")).

(** What becomes of a request: passed on, with the principal attached, or refused. *)
Inductive gate := Pass (p : option AuthPrincipal) | Refuse (e : AppError).

Definition admin_auth_gate (q : Request) : prog gate :=
  let path := u_path (q_uri q) in
  if (q_method q =?s "CONNECT") || negb (starts_with "/api/" path) || public_api path then Ret (Pass None)
  else
    let- answer := authenticate (q_headers q) in
    let principal := match answer with Ok p => Some p | Err _ => authenticate_legacy_basic (q_headers q) end in
    match principal with
    | None => Ret (Refuse Unauthorized)
    | Some p =>
        if is_write (q_method q) && negb (path =?s "/api/auth/logout") && negb (is_admin p)
        then Ret (Refuse Forbidden)
        else Ret (Pass (Some p))
    end.

End Service.

End Auth.
