(* ===== verification/AuthProps.v ===== *)
(** * Properties of authentication

    Over the programs of Auth.v: [auth_step] collects every action they take, and the
    invariants of the tables and of the login logs are proved over all its
    interleavings; then who passes the gate of the administration listener, how long a
    session lives, what a password change revokes, and what a profile change writes. *)

From stdpp Require Import base gmap sets list strings pretty relations.
From Stdlib Require Import ZArith Lia Ascii Sorted.
From S2P Require Import Prelude Text Errors Prog Http Model Tables Paths Auth.

#[local] Set Default Proof Using "Type*".

Module AuthProps.
Import Tables Paths Auth.

Section Service.
Context {Client Tokens IdToken Claims : Type}.
Context (token_hash : string -> string) (base64_decode : string -> option string).
Context (argon_hash : string -> string -> option string) (argon_verify : string -> string -> option bool).
Context (dummy_password_hash : string) (config : AuthConfig).
Context (api : OidcApi Client Tokens IdToken Claims) (oidc : option OidcRuntime).

Abbreviation World := (AuthWorld (Client := Client)).
Abbreviation prog := (program World).
Abbreviation authenticate := (Auth.authenticate token_hash).
Abbreviation login_local := (Auth.login_local token_hash argon_verify dummy_password_hash config).
Abbreviation update_profile := (Auth.update_profile argon_hash argon_verify).
Abbreviation finish_oidc := (Auth.finish_oidc token_hash config api oidc).
Abbreviation logout := (Auth.logout token_hash config).

(** ** Steps *)

Lemma safe_return_to_idemp v : safe_return_to (safe_return_to v) = safe_return_to v.
Proof using Type. unfold safe_return_to at 2 3. destruct (_ && _) eqn:E; [|done]. unfold safe_return_to. by rewrite E. Qed.

(** Every statement on the tables; [issued] are the session keys that may be
    inserted. *)
Inductive db_step (issued : string -> Prop) (d : AuthDb) : AuthDb -> Prop :=
| d_bootstrap i name hash now r d' : bootstrap (first_admin i name hash now) d = Ok (r, d') -> db_step issued d d'
| d_provision i iss subj mail now r d' : provision token_hash i iss subj mail now d = Ok (r, d') -> db_step issued d d'
| d_login i a b r d' : update_user i (logged_in a b) d = Ok (r, d') -> db_step issued d d'
| d_profile i name hash display now r d' :
    update_user i (profile_columns name hash display now) d = Ok (r, d') -> db_step issued d d'
| d_session hash s r d' : issued hash -> insert_session hash s d = Ok (r, d') -> db_step issued d d'
| d_touch hash t r d' : touch_session hash t d = Ok (r, d') -> db_step issued d d'
| d_revoke hash r d' : delete_session hash d = Ok (r, d') -> db_step issued d d'
| d_revoke_others i hash r d' : delete_other_sessions i hash d = Ok (r, d') -> db_step issued d d'
| d_expire now r d' : delete_expired_sessions now d = Ok (r, d') -> db_step issued d d'
| d_state hash s r d' : safe_return_to (LoginState.return_to s) = LoginState.return_to s ->
    insert_state hash s d = Ok (r, d') -> db_step issued d d'
| d_consume hash r d' : delete_state hash d = Ok (r, d') -> db_step issued d d'
| d_expire_states now r d' : delete_expired_states now d = Ok (r, d') -> db_step issued d d'.

Definition with_time (w : World) (t i : Z) : World :=
  {| db := db w; clock := t; instant := i; failed_logins := failed_logins w; logs := logs w;
     tries := tries w; oidc_client := oidc_client w; net := net w |}.

(** Every action; the wall clock may jump, the monotonic one does not go back; the
    cache may drop the log of any name at any time. *)
Inductive auth_step (issued : string -> Prop) (w : World) : World -> Prop :=
| s_skip : auth_step issued w w
| s_db d : db_step issued (db w) d -> auth_step issued w (with_db w d)
| s_time t i : instant w <= i -> auth_step issued w (with_time w t i)
| s_get key : auth_step issued w (get_log key w).2
| s_reserve log : auth_step issued w (reserve log w).2
| s_forget key : auth_step issued w (forget key w)
| s_client c n : auth_step issued w (with_client w c n).

Lemma exec_obeys {A} issued (f : AuthDb -> result (A * AuthDb) DbErr) :
  (forall d a d', f d = Ok (a, d') -> db_step issued d d') -> obeys (auth_step issued) (exec f).
Proof using Type.
  intros F. apply obeys_act; [|done]. intros w. unfold step_db.
  destruct (f (db w)) as [[a d]|e] eqn:E; simpl; [apply s_db; by eapply F|apply s_skip].
Qed.

Lemma read_obeys {A} issued (f : World -> A) : obeys (auth_step issued) (read f).
Proof using Type. apply obeys_act; [|done]. intros w. apply s_skip. Qed.

Lemma request_obeys {A} issued (f : nat -> A) : obeys (auth_step issued) (request f).
Proof using Type. apply obeys_act; [|done]. intros w. apply s_client. Qed.

Create HintDb auth.
#[local] Hint Resolve read_obeys request_obeys obeys_ret : auth.
#[local] Hint Constructors auth_step : auth.

Ltac obey :=
  repeat first
    [ progress intros
    | solve [auto with auth]
    | apply exec_obeys; intros
    | apply obeys_bind
    | apply obeys_act
    | progress unfold lift, fail, Utc_now, query, set_client, clear_failed_login
    | progress cbv beta iota zeta
    | progress simpl
    | case_match ];
  try solve [eauto using db_step].

Lemma authenticate_obeys issued h : obeys (auth_step issued) (authenticate h).
Proof using Type. unfold Auth.authenticate. obey. Qed.
#[local] Hint Resolve authenticate_obeys : auth.

Lemma create_session_obeys issued i token : issued (token_hash token) ->
  obeys (auth_step issued) (create_session (Client := Client) token_hash config i token).
Proof using Type. unfold create_session. obey. Qed.
#[local] Hint Resolve create_session_obeys : auth.

Lemma mark_login_obeys issued i : obeys (auth_step issued) (mark_login i).
Proof using Type. unfold mark_login. obey. Qed.
#[local] Hint Resolve mark_login_obeys : auth.

Lemma cleanup_obeys issued : obeys (auth_step issued) cleanup_expired.
Proof using Type. unfold cleanup_expired. obey. Qed.
#[local] Hint Resolve cleanup_obeys : auth.

Lemma reserve_obeys issued key : obeys (auth_step issued) (reserve_login_attempt key).
Proof using Type. unfold reserve_login_attempt. obey. Qed.
#[local] Hint Resolve reserve_obeys : auth.

Lemma login_obeys issued name password token : issued (token_hash token) ->
  obeys (auth_step issued) (login_local name password token).
Proof using Type. unfold Auth.login_local. obey. Qed.

Lemma checked_client_obeys issued o client token nonce :
  obeys (auth_step issued) (checked_client api o client token nonce).
Proof using Type. unfold checked_client. obey. Qed.
#[local] Hint Resolve checked_client_obeys : auth.

Lemma provision_obeys issued i iss subj mail :
  obeys (auth_step issued) (provision_oidc_user token_hash i iss subj mail).
Proof using Type.
  apply obeys_bind; [|obey]. apply obeys_act; [|done]. intros w. unfold step_db.
  destruct (provision _ _ _ _ _ _ _) as [[a d]|e] eqn:E; simpl; [apply s_db; by eapply d_provision|apply s_skip].
Qed.
#[local] Hint Resolve provision_obeys : auth.

Lemma finish_oidc_obeys issued i token code state : issued (token_hash token) ->
  obeys (auth_step issued) (finish_oidc i token code state).
Proof using Type.
  unfold Auth.finish_oidc. obey.
Qed.

Lemma changed_username_obeys issued i input account :
  obeys (auth_step issued) (changed_username i input account).
Proof using Type. unfold changed_username. obey. Qed.
#[local] Hint Resolve changed_username_obeys : auth.

Lemma update_profile_obeys issued current salt input : obeys (auth_step issued) (update_profile current salt input).
Proof using Type. unfold Auth.update_profile. obey. Qed.

(** The operations a client or the server can start; [issued] bounds the tokens their
    new sessions use. *)
Inductive handler (issued : string -> Prop) : forall {A : Type}, prog A -> Prop :=
| h_new i salt : handler issued (new argon_hash config i salt)
| h_gate q : handler issued (admin_auth_gate token_hash base64_decode config q)
| h_login name password token : issued (token_hash token) ->
    handler issued (login token_hash argon_verify dummy_password_hash config name password token)
| h_logout h : handler issued (logout h)
| h_config : handler issued (auth_config oidc)
| h_profile current salt input : handler issued (update_profile current salt input)
| h_start return_to state nonce verifier : handler issued (oidc_start token_hash api oidc return_to state nonce verifier)
| h_callback code state error i token : issued (token_hash token) ->
    handler issued (oidc_callback token_hash config api oidc code state error i token)
| h_cleanup : handler issued cleanup_expired.

Lemma handler_obeys issued {A : Type} (p : prog A) : handler issued p -> obeys (auth_step issued) p.
Proof using Type.
  destruct 1.
  - unfold new, bootstrap_local_admin. obey.
  - unfold admin_auth_gate. obey.
  - pose proof (login_obeys issued). unfold login. obey.
  - unfold Auth.logout, revoke_session. obey.
  - unfold auth_config. obey.
  - apply update_profile_obeys.
  - unfold oidc_start, oidc_authorize_url. obey. eapply d_state; [|eassumption]. apply safe_return_to_idemp.
  - pose proof (finish_oidc_obeys issued). unfold oidc_callback. obey.
  - apply cleanup_obeys.
Qed.

(** ** The tables *)

Lemma user_clash_sym x y : user_clash x y = user_clash y x.
Proof using Type.
  unfold user_clash. rewrite (N.eqb_sym (User.id y)).
  assert ((User.identity_key y =?s User.identity_key x) = (User.identity_key x =?s User.identity_key y)) as -> by apply String.eqb_sym.
  f_equal. destruct (decide (User.username x = User.username y)) as [E|E]; [by rewrite E|].
  rewrite !bool_decide_eq_false_2 by congruence. by rewrite !andb_false_r.
Qed.

Lemma user_clash_id x y : User.id x = User.id y -> user_clash x y = true.
Proof using Type. unfold user_clash. intros ->. by rewrite N.eqb_refl. Qed.

(** The first account is the only administrator. *)
Definition one_admin (l : list User.Model) : Prop :=
  match l with [] => True | u :: l => User.role u = "admin" /\ Forall (fun u => User.role u = "member") l end.

Record accounts_ok (d : AuthDb) : Prop := {
  a_apart : apart user_clash (users d);
  a_admin : one_admin (users d);
  a_sessions : map_Forall (fun _ s => Session.user_id s ∈ User.id <$> users d) (sessions d)
}.

Lemma one_admin_snoc l u : one_admin l -> User.role u = (if (length l =? 0)%nat then "admin" else "member") ->
  one_admin (l ++ [u]).
Proof using Type.
  destruct l as [|x l]; simpl; [done|]. intros [Hx Hl] Hu. split; [done|]. apply Forall_app. by repeat constructor.
Qed.

Lemma one_admin_replace l u x : by_id User.id (User.id u) l = Some x -> apart user_clash l -> User.role u = User.role x ->
  one_admin l -> one_admin (replace User.id u l).
Proof using Type.
  intros Hx Hap Hu. apply by_id_Some in Hx as [Hin Hid].
  assert (forall y, y ∈ l -> User.role (if (User.id y =? User.id u)%N then u else y) = User.role y) as Hr.
  { intros y Hy. destruct (N.eqb_spec (User.id y) (User.id u)) as [E|]; [|done].
    rewrite Hu. f_equal. eapply (apart_unique user_clash user_clash_sym); [done..|]. apply user_clash_id. congruence. }
  clear Hin Hap. destruct l as [|y l]; [done|]. simpl. intros [Hy Hl]. split; [rewrite Hr; [done|by left]|].
  unfold replace. apply Forall_fmap, Forall_forall. intros z Hz. simpl. rewrite Hr; [|by right].
  rewrite Forall_forall in Hl. by apply Hl.
Qed.

Lemma insert_user_ok u d r d' : insert_user u d = Ok (r, d') ->
  User.role u = (if (length (users d) =? 0)%nat then "admin" else "member") -> accounts_ok d -> accounts_ok d'.
Proof using Type.
  unfold insert_user. destruct (user_invalid u); [done|]. destruct (existsb _ _) eqn:E; [done|].
  intros [= _ <-] Hr [Ha Ho Hs]. constructor; simpl.
  - by apply (apart_snoc user_clash user_clash_sym).
  - by apply one_admin_snoc.
  - eapply map_Forall_impl; [exact Hs|]. intros k s H. rewrite fmap_app. apply elem_of_app. by left.
Qed.

Lemma update_user_ok i f d r d' : update_user i f d = Ok (r, d') ->
  (forall u, User.id (f u) = User.id u /\ User.role (f u) = User.role u) -> accounts_ok d -> accounts_ok d'.
Proof using Type.
  unfold update_user. destruct (by_id User.id i (users d)) as [u|] eqn:Eu; [|done].
  destruct (user_invalid _); [done|]. destruct (existsb _ _) eqn:E; [done|]. intros [= _ <-] Hf [Ha Ho Hs].
  destruct (Hf u) as [Hi Hr]. pose proof (by_id_Some _ _ _ _ Eu) as [_ Hid]. constructor; simpl.
  - apply (apart_replace User.id user_clash user_clash_sym user_clash_id); [done|]. by rewrite Hi, Hid.
  - eapply one_admin_replace; [by rewrite Hi, Hid|done..].
  - by rewrite replace_ids.
Qed.

Lemma sessions_subset_ok d m : m ⊆ sessions d -> accounts_ok d -> accounts_ok (with_sessions d m).
Proof using Type. intros Hm [Ha Ho Hs]. constructor; [done..|]. intros k s Hk. apply (Hs k). by eapply lookup_weaken. Qed.

Lemma db_step_ok issued d d' : db_step issued d d' -> accounts_ok d -> accounts_ok d'.
Proof using Type.
  intros S Hd.
  destruct S as [i name hash now r d' E|i iss subj mail now r d' E|i a b r d' E|i name hash display now r d' E
    |hash s r d' _ E|hash t r d' E|hash r d' E|i hash r d' E|now r d' E|hash s r d' _ E|hash r d' E|now r d' E].
  - unfold bootstrap in E. destruct (users d) as [|x l] eqn:El; [|by injection E as _ <-].
    simpl in E. eapply insert_user_ok; [exact E| |done]. by rewrite El.
  - unfold provision in E. destruct (user_with_key _ d) as [u|]; [by injection E as _ <-|].
    destruct (insert_user _ d) as [[x d1]|] eqn:Ei; [|done]. injection E as _ <-. eapply insert_user_ok; [exact Ei| |done].
    by destruct (length (users d) =? 0)%nat.
  - by eapply update_user_ok.
  - by eapply update_user_ok.
  - unfold insert_session in E. destruct (is_none _) eqn:En; [done|]. destruct (is_some (sessions d !! hash)); [done|].
    injection E as _ <-. destruct Hd as [Ha Ho Hs]. constructor; [done..|]. apply map_Forall_insert_2; [|done].
    unfold is_none in En. apply negb_false_iff in En. by apply by_id_ids.
  - unfold touch_session in E. destruct (sessions d !! hash) as [s|] eqn:Es; [|done]. injection E as _ <-.
    destruct Hd as [Ha Ho Hs]. constructor; [done..|]. apply map_Forall_insert_2; [|done]. by apply (Hs hash s).
  - injection E as _ <-. apply sessions_subset_ok; [|done]. apply delete_subseteq.
  - injection E as _ <-. apply sessions_subset_ok; [|done]. apply map_filter_subseteq.
  - injection E as _ <-. apply sessions_subset_ok; [|done]. apply map_filter_subseteq.
  - unfold insert_state in E. destruct (is_some _); [done|]. injection E as _ <-. by destruct Hd.
  - injection E as _ <-. by destruct Hd.
  - injection E as _ <-. by destruct Hd.
Qed.

Lemma get_log_db key (w : World) : db (get_log key w).2 = db w.
Proof using Type. unfold get_log. by destruct (_ !! _). Qed.

Lemma reserve_db log (w : World) : db (reserve log w).2 = db w.
Proof using Type. unfold reserve. by destruct (_ <=? _)%nat. Qed.

Lemma auth_step_db issued w w' : auth_step issued w w' -> db w' = db w \/ db_step issued (db w) (db w').
Proof using Type.
  destruct 1; simpl; [by left|by right|by left|left; apply get_log_db|left; apply reserve_db|by left|by left].
Qed.

(** What every statement preserves, every history preserves. *)
Lemma auth_steps_kept (P : AuthDb -> Prop) issued w w' : (forall d d', db_step issued d d' -> P d -> P d') ->
  rtc (auth_step issued) w w' -> P (db w) -> P (db w').
Proof using Type.
  intros HP H. induction H as [|x y z S _ IH]; [done|]. intros Hx. apply IH.
  apply auth_step_db in S as [->|S]; [done|by eapply HP].
Qed.

(** C15: One administrator, ever.  However logins, provisioning, profile changes and clean-up
    interleave, statement by statement, from empty tables: no two accounts share an
    identifier, an identity or a user name, every session belongs to an account, and
    only the first account is an administrator, so that two first logins cannot both
    become one. *)
Theorem accounts_invariant {A : Type} (env : World -> World -> Prop) (p : prog A) issued w0 w a w' :
  (forall x y, env x y -> auth_step issued x y) -> handler issued p ->
  users (db w0) = [] -> sessions (db w0) = ∅ -> rtc (auth_step issued) w0 w -> runs env p w a w' ->
  accounts_ok (db w').
Proof using Type.
  intros He Hp Hu Hs H0 H. eapply (auth_steps_kept accounts_ok); [apply db_step_ok| |].
  - trans w; [exact H0|]. eapply (runs_steps env); [exact He|by apply handler_obeys|exact H].
  - constructor; rewrite ?Hu, ?Hs; [done..|]. apply map_Forall_empty.
Qed.

(** ** Throttling *)

(** The attempts let through under a log, and those not older than the window. *)
Definition tried (log : nat) (w : World) : list Z := (fun p : nat * Z => p.2) <$> filter (fun p => p.1 = log) (tries w).
Definition recent (now : Z) (l : list Z) : list Z := filter (fun t => now - FAILED_ATTEMPT_WINDOW <= t) l.
Definition during (t : Z) (l : list Z) : list Z := filter (fun x => t <= x <= t + FAILED_ATTEMPT_WINDOW) l.

Record logs_ok (w : World) : Prop := {
  l_suffix : forall log, exists k, unwrap_or (logs w !! log) [] = drop k (tried log w) /\
    Forall (fun t => t < instant w - FAILED_ATTEMPT_WINDOW) (take k (tried log w));
  l_sorted : forall log, StronglySorted Z.le (tried log w);
  l_past : forall log, Forall (fun t => t <= instant w) (tried log w);
  l_known : forall log, is_none (logs w !! log) = true -> tried log w = [];
  l_bound : forall log t, (length (during t (tried log w)) <= 5)%nat;
  l_own : forall key key' log, failed_logins w !! key = Some log -> failed_logins w !! key' = Some log -> key = key';
  l_exists : forall key log, failed_logins w !! key = Some log -> is_some (logs w !! log) = true
}.

Lemma filter_all_out {A} (P : A -> Prop) `{!forall x, Decision (P x)} l : Forall (fun x => ~ P x) l -> filter P l = [].
Proof using Type. induction 1; [done|]. by rewrite filter_cons_False. Qed.

Lemma filter_all_in {A} (P : A -> Prop) `{!forall x, Decision (P x)} l : Forall P l -> filter P l = l.
Proof using Type. induction 1; [done|]. rewrite filter_cons_True by done. by f_equal. Qed.

Lemma filter_le {A} (P Q : A -> Prop) `{!forall x, Decision (P x), !forall x, Decision (Q x)} l :
  Forall (fun x => P x -> Q x) l -> (length (filter P l) <= length (filter Q l))%nat.
Proof using Type.
  induction 1 as [|x l Hx _ IH]; [done|]. rewrite !filter_cons.
  destruct (decide (P x)), (decide (Q x)); simpl; try lia. exfalso. auto.
Qed.

Lemma pop_old_recent now l : StronglySorted Z.le l -> Forall (fun t => t <= now) l -> pop_old now l = recent now l.
Proof using Type.
  unfold recent. induction 1 as [|t l Hs IH Ht]; intros Hp; [done|]. apply Forall_cons in Hp as [Hn Hp].
  cbn [pop_old]. unfold saturating_sub. destruct (Z.ltb_spec FAILED_ATTEMPT_WINDOW (Z.max 0 (now - t))) as [E|E].
  - rewrite filter_cons_False by (unfold FAILED_ATTEMPT_WINDOW, minute, second in *; lia). by apply IH.
  - rewrite filter_cons_True by lia. f_equal. symmetry. apply filter_all_in.
    eapply Forall_impl; [exact Ht|]. simpl. lia.
Qed.

Lemma sorted_drop k l : StronglySorted Z.le l -> StronglySorted Z.le (drop k l).
Proof using Type. intros H. revert k. induction H; intros [|k]; simpl; auto using StronglySorted. Qed.

(** The log, once its old entries are popped, holds the recent attempts exactly. *)
Lemma popped_log log w : logs_ok w ->
  pop_old (instant w) (unwrap_or (logs w !! log) []) = recent (instant w) (tried log w).
Proof using Type.
  intros H. destruct (l_suffix w H log) as (k & -> & Hold). rewrite pop_old_recent.
  - rewrite <- (take_drop k (tried log w)) at 2. unfold recent. rewrite filter_app.
    rewrite (filter_all_out _ (take k _)); [done|]. eapply Forall_impl; [exact Hold|]. simpl. lia.
  - apply sorted_drop, (l_sorted w H).
  - apply Forall_drop, (l_past w H).
Qed.

Lemma tried_snoc log log' t (w : World) f l :
  tried log' (with_logins w f l (tries w ++ [(log, t)])) = tried log' w ++ (if decide (log = log') then [t] else []).
Proof using Type.
  unfold tried. simpl. rewrite filter_app, fmap_app. f_equal. rewrite filter_cons. simpl. by destruct (decide (log = log')).
Qed.

Lemma sorted_snoc l t : StronglySorted Z.le l -> Forall (fun x => x <= t) l -> StronglySorted Z.le (l ++ [t]).
Proof using Type.
  induction 1 as [|x l Hs IH Hx]; intros H; [repeat constructor|]. apply Forall_cons in H as [Hxt H].
  simpl. constructor; [by apply IH|]. apply Forall_app. by repeat constructor.
Qed.

Lemma recent_old now l : StronglySorted Z.le l ->
  exists k, recent now l = drop k l /\ (k <= length l)%nat /\ Forall (fun t => t < now - FAILED_ATTEMPT_WINDOW) (take k l).
Proof using Type.
  unfold recent. induction 1 as [|t l Hs (k & E & Hl & Hk) Ht]; [by exists 0%nat|].
  destruct (decide (now - FAILED_ATTEMPT_WINDOW <= t)).
  - exists 0%nat. split; [|split; [simpl; lia|done]]. simpl. apply filter_all_in. constructor; [done|]. eapply Forall_impl; [exact Ht|]. simpl. lia.
  - exists (S k). rewrite filter_cons_False by done. split; [done|]. simpl. split; [lia|]. constructor; [lia|done].
Qed.

Lemma during_snoc now t l : (length (recent now l) < 5)%nat -> (length (during t l) <= 5)%nat -> Forall (fun x => x <= now) l ->
  (length (during t (l ++ [now])) <= 5)%nat.
Proof using Type.
  intros Hr Hd Hp. unfold during. rewrite filter_app, length_app, filter_cons.
  destruct (decide (t <= now <= t + FAILED_ATTEMPT_WINDOW)) as [Hin|]; simpl; [|unfold during in Hd; lia].
  assert (length (filter (fun x => (t <= x <= t + FAILED_ATTEMPT_WINDOW)%Z) l) <= length (recent now l))%nat; [|lia].
  apply filter_le. eapply Forall_impl; [exact Hp|]. simpl. lia.
Qed.

Lemma reserve_login_spec log w : logs_ok w ->
  (reserve log w).1 = (if (5 <=? length (recent (instant w) (tried log w)))%nat then Err RateLimited else Ok tt) /\
  logs_ok (reserve log w).2.
Proof using Type.
  intros H. unfold reserve. rewrite popped_log by done. change MAX_FAILED_ATTEMPTS with 5%nat.
  destruct (recent_old (instant w) (tried log w) (l_sorted w H log)) as (k & Ek & Hl & Hk).
  destruct (Nat.leb_spec 5 (length (recent (instant w) (tried log w)))) as [E|E]; (split; [done|]); constructor; simpl.
  1-7: change (tried ?l (with_logins w _ _ (tries w))) with (tried l w).
  - intros log'. destruct (decide (log' = log)) as [->|Hne]; [rewrite lookup_insert_eq; simpl; by exists k|].
    rewrite lookup_insert_ne by done. apply (l_suffix w H).
  - apply (l_sorted w H).
  - apply (l_past w H).
  - intros log'. destruct (decide (log' = log)) as [->|Hne]; [by rewrite lookup_insert_eq|].
    rewrite lookup_insert_ne by done. apply (l_known w H).
  - apply (l_bound w H).
  - apply (l_own w H).
  - intros key log' Hkey. destruct (decide (log' = log)) as [->|Hne]; [by rewrite lookup_insert_eq|].
    rewrite lookup_insert_ne by done. by apply (l_exists w H key).
  - intros log'. rewrite tried_snoc. destruct (decide (log = log')) as [<-|Hne].
    + rewrite lookup_insert_eq. simpl. exists k. by rewrite Ek, drop_app_le, take_app_le by done.
    + rewrite lookup_insert_ne by done. rewrite app_nil_r. apply (l_suffix w H).
  - intros log'. rewrite tried_snoc. destruct (decide (log = log')) as [<-|Hne]; [|rewrite app_nil_r; apply (l_sorted w H)].
    apply sorted_snoc; [apply (l_sorted w H)|apply (l_past w H)].
  - intros log'. rewrite tried_snoc. apply Forall_app. split; [apply (l_past w H)|].
    destruct (decide (log = log')); by repeat constructor.
  - intros log'. rewrite tried_snoc. destruct (decide (log = log')) as [<-|Hne]; [by rewrite lookup_insert_eq|].
    rewrite lookup_insert_ne by done. rewrite app_nil_r. apply (l_known w H).
  - intros log' t. rewrite tried_snoc. destruct (decide (log = log')) as [<-|Hne]; [|rewrite app_nil_r; apply (l_bound w H)].
    apply during_snoc; [done|apply (l_bound w H)|apply (l_past w H)].
  - apply (l_own w H).
  - intros key log' Hkey. destruct (decide (log' = log)) as [->|Hne]; [by rewrite lookup_insert_eq|].
    rewrite lookup_insert_ne by done. by apply (l_exists w H key).
Qed.

Lemma logs_ok_same w w' : logs w' = logs w -> tries w' = tries w -> failed_logins w' = failed_logins w ->
  instant w <= instant w' -> logs_ok w -> logs_ok w'.
Proof using Type.
  intros El Et Ef Hi H. assert (forall log, tried log w' = tried log w) as E by (intros; unfold tried; by rewrite Et).
  constructor.
  - intros log. destruct (l_suffix w H log) as (k & Hk & Ho). exists k. rewrite El, E. split; [done|].
    eapply Forall_impl; [exact Ho|]. simpl. lia.
  - intros log. rewrite E. apply (l_sorted w H).
  - intros log. rewrite E. eapply Forall_impl; [apply (l_past w H)|]. simpl. lia.
  - intros log. rewrite El, E. apply (l_known w H).
  - intros log t. rewrite E. apply (l_bound w H).
  - rewrite Ef. apply (l_own w H).
  - rewrite Ef, El. apply (l_exists w H).
Qed.

Lemma get_log_ok key w : logs_ok w -> logs_ok (get_log key w).2 /\ failed_logins (get_log key w).2 !! key = Some (get_log key w).1.
Proof using Type.
  intros H. unfold get_log. destruct (failed_logins w !! key) as [l|] eqn:E; [done|]. simpl.
  set (l := fresh (dom (logs w))).
  assert (logs w !! l = None) as Hl by (apply not_elem_of_dom; apply is_fresh).
  assert (tried l w = []) as Ht by (apply (l_known w H); by rewrite Hl).
  split; [|by rewrite lookup_insert_eq]. constructor; simpl.
  all: change (tried ?x (with_logins w _ _ (tries w))) with (tried x w).
  - intros log. destruct (decide (log = l)) as [->|Hne].
    + rewrite lookup_insert_eq, Ht. by exists 0%nat.
    + rewrite lookup_insert_ne by done. apply (l_suffix w H).
  - apply (l_sorted w H).
  - apply (l_past w H).
  - intros log. destruct (decide (log = l)) as [->|Hne]; [done|]. rewrite lookup_insert_ne by done. apply (l_known w H).
  - apply (l_bound w H).
  - assert (forall k, failed_logins w !! k <> Some l) as Hf.
    { intros k Hk. apply (l_exists w H) in Hk. by rewrite Hl in Hk. }
    intros k k' log. rewrite !lookup_insert_Some. intros [[<- <-]|[Hk Ek]] [[<- El]|[Hk' Ek']]; try done.
    + by apply Hf in Ek'.
    + subst. by apply Hf in Ek.
    + by apply (l_own w H k k' log).
  - intros k log. rewrite !lookup_insert_Some. intros [[<- <-]|[Hk Ek]]; [by rewrite lookup_insert_eq|].
    destruct (decide (log = l)) as [->|Hne]; [by rewrite lookup_insert_eq|]. rewrite lookup_insert_ne by done.
    by apply (l_exists w H k).
Qed.

Lemma forget_ok key w : logs_ok w -> logs_ok (forget key w).
Proof using Type.
  intros H. constructor; simpl; try apply H; change (tried ?x (forget key w)) with (tried x w).
  - intros k k' log [_ Hk]%lookup_delete_Some [_ Hk']%lookup_delete_Some. by apply (l_own w H k k' log).
  - intros k log [_ Hk]%lookup_delete_Some. by apply (l_exists w H k).
Qed.

Lemma auth_step_logs issued w w' : auth_step issued w w' -> logs_ok w -> logs_ok w'.
Proof using Type.
  intros S H. destruct S; [done| | |by apply get_log_ok|by apply reserve_login_spec|by apply forget_ok|];
    apply (logs_ok_same w); simpl; try done; lia.
Qed.

(** C16: No guessing.  In every interleaving, from an empty cache: each log belongs to one
    user name, spelled in any case, and lets at most five attempts through in any
    fifteen minutes; an attempt is refused exactly when five were let through in the
    fifteen minutes before it, and then nothing is looked up, compared or written. *)
Theorem login_throttled issued w0 w :
  failed_logins w0 = ∅ -> logs w0 = ∅ -> tries w0 = [] -> rtc (auth_step issued) w0 w ->
  (forall log t, (length (during t (tried log w)) <= 5)%nat) /\
  (forall key key' log, failed_logins w !! key = Some log -> failed_logins w !! key' = Some log -> key = key') /\
  (forall name password token log, validate_username name = Ok tt -> slen password <= 1024 ->
     failed_logins w !! token_hash (to_ascii_lowercase name) = Some log ->
     let recently := length (recent (instant w) (tried log w)) in
     ((run (reserve_login_attempt (token_hash (to_ascii_lowercase name))) w).1 = Err RateLimited <-> (5 <= recently)%nat) /\
     ((5 <= recently)%nat -> exists w', run (login_local name password token) w = (Err RateLimited, w') /\
        db w' = db w /\ tries w' = tries w)).
Proof using Type.
  intros Hf Hl Ht H.
  assert (logs_ok w0) as H0.
  { assert (forall log, tried log w0 = []) as E by (intros; unfold tried; by rewrite Ht).
    constructor; intros *; rewrite ?Hf, ?Hl, ?E, ?lookup_empty; try done; [by exists 0%nat|constructor|simpl; lia]. }
  assert (logs_ok w) as Hw.
  { clear Hf Hl Ht. induction H; eauto using auth_step_logs. }
  split; [apply (l_bound w Hw)|]. split; [apply (l_own w Hw)|]. intros name password token log Hn Hp Hk recently.
  assert (run (reserve_login_attempt (token_hash (to_ascii_lowercase name))) w = reserve log w) as Er.
  { unfold reserve_login_attempt. rewrite run_bind. cbn [run]. unfold get_log. rewrite Hk. cbn [run]. by destruct (reserve log w). }
  destruct (reserve_login_spec log w Hw) as [Es _]. fold recently in Es.
  split.
  - rewrite Er, Es. destruct (Nat.leb_spec 5 recently); split; try done; lia.
  - intros Hr. destruct (Nat.leb_spec 5 recently) as [_|]; [|lia]. exists (reserve log w).2.
    unfold Auth.login_local. rewrite run_bind. cbn [run lift]. rewrite Hn.
    destruct (Z.ltb_spec 1024 (slen password)); [lia|]. rewrite run_bind, Er. destruct (reserve log w) as [r w'] eqn:E.
    cbn [fst snd] in *. subst r. cbn [run]. split; [done|]. pose proof (reserve_db log w) as Hd. rewrite E in Hd. split; [done|].
    unfold reserve in E. by destruct (_ <=? _)%nat; simplify_eq.
Qed.

(** ** The gate *)

(** A principal the session of a token stands for: the session was stored, then had not
    expired, then its account was enabled. *)
Definition vouched (env : World -> World -> Prop) (w : World) (token : string) (p : AuthPrincipal) : Prop :=
  exists s u w1 w2 w3, rtc env w w1 /\ rtc env w1 w2 /\ rtc env w2 w3 /\
    sessions (db w1) !! token_hash token = Some s /\ clock w2 < Session.expires_at s /\
    find_user (Session.user_id s) (db w3) = Some u /\ User.enabled u = true /\
    p = with_session (principal u) (token_hash token).

Lemma authenticate_Ok env h w p w' : runs env (authenticate h) w (Ok p) w' ->
  exists token, cookie_value h SESSION_COOKIE = Some token /\ vouched env w token p.
Proof using Type.
  unfold Auth.authenticate. destruct (cookie_value h SESSION_COOKIE) as [token|]; [|by intros [? _]].
  simpl. intros (w1 & S1 & H). exists token. split; [done|].
  destruct (sessions (db w1) !! token_hash token) as [s|] eqn:Es; [|by destruct H].
  simpl in H. destruct H as (w2 & S2 & H). destruct (Z.leb_spec (Session.expires_at s) (clock w2)) as [E|E].
  { by destruct H as (w3 & _ & ? & _). }
  simpl in H. destruct H as (w3 & S3 & H). destruct (find_user (Session.user_id s) (db w3)) as [u|] eqn:Eu; [|by destruct H].
  destruct (User.enabled u) eqn:Ee; [|by destruct H]. exists s, u, w1, w2, w3.
  do 7 (split; [done|]). simpl in H. destruct H as (w4 & _ & H).
  destruct (Session.last_seen_at s <? clock w4 - 5 * minute); [|by destruct H as [[= ->] _]].
  simpl in H. destruct H as (w5 & _ & w6 & _ & H).
  destruct (step_db (touch_session (token_hash token) (clock w5)) w6) as [[[]|e] w7]; by destruct H as [[= ->] _].
Qed.

(** C14: Nobody passes unknown.  Whatever runs beside it, a request below [/api/] passes the
    administration middleware only for one of the five public endpoints, or with a
    principal attached: one vouched for by a stored, unexpired session of an enabled
    account, or by the configured credential; and a request that changes something,
    except the logout, only with an administrator. *)
Theorem admin_gate env q w o w' :
  runs env (admin_auth_gate token_hash base64_decode config q) w (Pass o) w' ->
  starts_with "/api/" (u_path (q_uri q)) = true -> q_method q <> "CONNECT" ->
  (o = None /\ public_api (u_path (q_uri q)) = true) \/
  exists p, o = Some p /\
    ((exists token, cookie_value (q_headers q) SESSION_COOKIE = Some token /\ vouched env w token p) \/
     (exists secret encoded, admin_auth config = Some secret /\
        header_str (q_headers q) "authorization" = Some ("Basic " +:+ encoded) /\ base64_decode encoded = Some secret /\
        legacy p = true)) /\
    (is_write (q_method q) = true -> u_path (q_uri q) <> "/api/auth/logout" -> p_role p = "admin").
Proof using Type.
  intros H Hpath Hm. unfold admin_auth_gate in H. rewrite (proj2 (str_eqb_neq _ _) Hm), Hpath in H. simpl in H.
  destruct (public_api (u_path (q_uri q))); [left; by destruct H as [[= ->] _]|]. right.
  apply runs_bind_inv in H as (r & w1 & Ha & H).
  destruct (match r with Ok p => Some p | Err _ => _ end) as [p|] eqn:Ep; [|by destruct H].
  destruct (is_write _ && _ && negb (is_admin p)) eqn:Ew; [by destruct H|]. destruct H as [[= ->] _].
  exists p. split; [done|]. split.
  - destruct r as [p'|e]; [injection Ep as ->; left; eapply authenticate_Ok; exact Ha|]. right.
    unfold authenticate_legacy_basic in Ep. destruct (admin_auth config) as [secret|]; [|done].
    destruct (header_str (q_headers q) "authorization") as [v|]; [|done]. cbn [mbind option_bind] in Ep.
    destruct (strip_prefix "Basic " v) as [encoded|] eqn:Ev; [|done]. apply strip_prefix_Some in Ev as ->.
    destruct (base64_decode encoded) as [decoded|] eqn:Eb; [|done].
    destruct (negb (slen decoded =? slen secret) || negb (decoded =?s secret)) eqn:Ed; [done|]. injection Ep as <-.
    apply orb_false_iff in Ed as [_ Ed]. apply negb_false_iff, str_eqb_eq in Ed as ->. by exists secret, encoded.
  - intros Hw Hl. rewrite Hw, (proj2 (str_eqb_neq _ _) Hl) in Ew. simpl in Ew.
    apply negb_false_iff in Ew. by apply str_eqb_eq.
Qed.

(** ** The life of a session *)

(** A session that is gone stays gone while no session is issued under its key. *)
Lemma db_step_gone issued hash d d' : ~ issued hash -> db_step issued d d' -> sessions d !! hash = None -> sessions d' !! hash = None.
Proof using Type.
  intros Hi S Hg.
  destruct S as [i name h now r d' E|i iss subj mail now r d' E|i a b r d' E|i name h display now r d' E
    |h s r d' Hs E|h t r d' E|h r d' E|i h r d' E|now r d' E|h s r d' _ E|h r d' E|now r d' E].
  - unfold bootstrap, insert_user in E. repeat case_match; simplify_eq; done.
  - unfold provision, insert_user in E. repeat case_match; simplify_eq; done.
  - unfold update_user in E. repeat case_match; simplify_eq; done.
  - unfold update_user in E. repeat case_match; simplify_eq; done.
  - unfold insert_session in E. repeat case_match; simplify_eq. simpl. rewrite lookup_insert_ne; [done|]. by intros ->.
  - unfold touch_session in E. case_match; simplify_eq. simpl. rewrite lookup_insert_ne; [done|]. intros ->. congruence.
  - injection E as _ <-. simpl. by rewrite lookup_delete_None; right.
  - injection E as _ <-. simpl. apply map_lookup_filter_None. by left.
  - injection E as _ <-. simpl. apply map_lookup_filter_None. by left.
  - unfold insert_state in E. case_match; simplify_eq; done.
  - injection E as _ <-. done.
  - injection E as _ <-. done.
Qed.

(** The alphabet of a session token: base64 for URLs, without padding. *)
Definition token_byte (c : ascii) : bool := is_ascii_alphanumeric c || char_in c "-_".

Definition cookie_header (token : string) : HeaderMap := [("cookie", SESSION_COOKIE +:+ String "=" token)].

Lemma token_byte_between c : token_byte c = true -> between 33 126 c = true.
Proof using Type.
  unfold token_byte, is_ascii_alphanumeric, is_ascii_lowercase, is_ascii_uppercase, is_ascii_digit, between.
  cbn [char_in]. repeat match goal with |- context [Ascii.eqb c ?x] => destruct (Ascii.eqb_spec c x) as [->|] end; try done.
  lia.
Qed.

Lemma token_absent c token : token_byte c = false -> all_bytes token_byte token = true -> absent c token = true.
Proof using Type.
  intros Hc. apply all_bytes_impl. intros x Hx. apply negb_true_iff, Ascii.eqb_neq. intros ->. congruence.
Qed.

Lemma all_bytes_last p s : s <> "" -> all_bytes p s = true -> exists c, last_byte s = Some c /\ p c = true.
Proof using Type.
  induction s as [|c s IH]; [done|]. intros _. cbn [all_bytes]. intros [Hc Hs]%andb_true_iff.
  destruct s as [|c' s]; [by exists c|]. by apply IH.
Qed.

Lemma cookie_value_header token : token <> "" -> all_bytes token_byte token = true ->
  cookie_value (cookie_header token) SESSION_COOKIE = Some token.
Proof using Type.
  intros Hne Ht. unfold cookie_value, header_str, cookie_header, header_get. cbn [header_all List.filter fst]. 
  change (head (header_all [("cookie", SESSION_COOKIE +:+ String "=" token)] "cookie")) with (Some (SESSION_COOKIE +:+ String "=" token)).
  cbn [mbind option_bind]. unfold to_str.
  assert (all_bytes visible (SESSION_COOKIE +:+ String "=" token) = true) as ->.
  { rewrite all_bytes_app. apply andb_true_iff. split; [done|]. cbn [all_bytes]. apply andb_true_iff. split; [done|].
    eapply all_bytes_impl; [|exact Ht]. intros c Hc. apply token_byte_between in Hc. unfold visible, between in *. lia. }
  assert (absent ";" (SESSION_COOKIE +:+ String "=" token) = true) as Ha.
  { rewrite absent_app. apply andb_true_iff. split; [done|]. by apply (token_absent ";"%char) in Ht. }
  rewrite split_char_absent by done.
  cbn [find_map]. unfold cookie_part.
  destruct (all_bytes_last token_byte token Hne Ht) as (c & Hl & Hc).
  rewrite (trim_id _ "d"%char c); [|done| |done|by apply token_byte_between].
  - rewrite split_once_char by done. by destruct token.
  - change (SESSION_COOKIE +:+ String "=" token) with (SESSION_COOKIE +:+ (String "=" token)). rewrite last_byte_app; [|done].
    simpl. rewrite Hl. by destruct token.
Qed.

Lemma run_reserve key (w : World) : exists r w1, run (reserve_login_attempt key) w = (r, w1) /\ db w1 = db w /\ clock w1 = clock w.
Proof using Type.
  unfold reserve_login_attempt. rewrite run_bind. cbn [run]. destruct (get_log key w) as [l w1] eqn:El. cbn [run].
  destruct (reserve l w1) as [r w2] eqn:Er. exists r, w2. split; [done|].
  assert (db w1 = db w /\ clock w1 = clock w) as [<- <-].
  { unfold get_log in El. by destruct (_ !! _); injection El as _ <-. }
  unfold reserve in Er. by destruct (_ <=? _)%nat; injection Er as _ <-.
Qed.

Lemma run_create_session i token (w : World) r w' :
  run (create_session token_hash config i token) w = (r, w') ->
  match r with
  | Ok t => t = token /\ sessions (db w) !! token_hash token = None /\
      w' = with_db w (with_sessions (db w) (<[token_hash token :=
             {| Session.user_id := i; Session.created_at := clock w; Session.last_seen_at := clock w;
                Session.expires_at := clock w + session_ttl config |}]> (sessions (db w))))
  | Err e => w' = w
  end.
Proof using Type.
  unfold create_session. simpl. destruct (duration_max <? _); [by intros [= <- <-]|]. simpl.
  unfold step_db, insert_session. simpl. destruct (is_none _); [by intros [= <- <-]|].
  destruct (sessions (db w) !! token_hash token) eqn:E; simpl; [by intros [= <- <-]|]. by intros [= <- <-].
Qed.

Lemma run_mark_login u (w : World) r w' : accounts_ok (db w) -> find_user (User.id u) (db w) = Some u ->
  run (mark_login (User.id u)) w = (r, w') ->
  match r with
  | Ok _ => w' = with_db w (with_users (db w) (replace User.id (logged_in (clock w) (clock w) u) (users (db w))))
  | Err _ => w' = w
  end.
Proof using Type.
  intros Hd Hu. unfold mark_login. simpl. rewrite Hu. simpl. unfold step_db, update_user.
  unfold find_user in Hu. rewrite Hu. destruct (user_invalid _); [by intros [= <- <-]|].
  destruct (existsb _ _); simpl; by intros [= <- <-].
Qed.

Lemma find_replaced u u' (d : AuthDb) : find_user (User.id u) d = Some u -> User.id u' = User.id u ->
  find_user (User.id u) (with_users d (replace User.id u' (users d))) = Some u'.
Proof using Type.
  unfold find_user, by_id, find_one, replace. simpl. intros H Hi. rewrite Hi. induction (users d) as [|x l IH]; [done|]. csimpl.
  simpl in H. destruct (User.id x =? User.id u)%N eqn:E; [by rewrite Hi, N.eqb_refl|]. rewrite E. by apply IH.
Qed.

(** What a successful login leaves behind. *)
Lemma login_local_Ok name password token (w : World) p t (w' : World) : accounts_ok (db w) ->
  run (login_local name password token) w = (Ok (p, t), w') ->
  exists u, user_named name (db w) = Some u /\ User.enabled u = true /\
    argon_verify (unwrap_or (User.password_hash u) dummy_password_hash) password = Some true /\
    p = principal u /\ t = token /\ clock w' = clock w /\
    sessions (db w') !! token_hash token =
      Some {| Session.user_id := User.id u; Session.created_at := clock w; Session.last_seen_at := clock w;
              Session.expires_at := clock w + session_ttl config |} /\
    find_user (User.id u) (db w') = Some (logged_in (clock w) (clock w) u).
Proof using Type.
  intros Hd. unfold Auth.login_local. rewrite run_bind. cbn [run lift]. destruct (validate_username name); [|done].
  destruct (1024 <? slen password); [done|]. rewrite run_bind.
  destruct (run_reserve (token_hash (to_ascii_lowercase name)) w) as (r & w1 & -> & Ed & Ec).
  destruct r as [[]|e]; [|done]. rewrite run_bind. cbn [run query read]. rewrite Ed, run_bind. cbn [run lift].
  unfold verify_password.
  destruct (user_named name (db w)) as [u|] eqn:Eu; cbn [mbind option_bind].
  2: { by destruct (argon_verify _ _). }
  destruct (argon_verify _ password) as [[]|] eqn:Ev; cbn [ok_or]; [|by rewrite andb_false_r|done].
  destruct (User.enabled u) eqn:Ee; [|done]. cbn [negb andb]. rewrite run_bind. cbn [run clear_failed_login].
  set (w2 := forget _ w1). assert (accounts_ok (db w2)) as Hd2 by (subst w2; simpl; by rewrite Ed).
  assert (u ∈ users (db w)) as Hin.
  { unfold user_named, find_one in Eu. apply find_some in Eu as [Hi _]. by apply list_elem_of_In. }
  assert (find_user (User.id u) (db w2) = Some u) as Hf.
  { subst w2. simpl. rewrite Ed. unfold find_user.
    apply (by_id_elem User.id user_clash user_clash_sym user_clash_id); [apply (a_apart _ Hd)|done]. }
  rewrite run_bind. destruct (run (mark_login (User.id u)) w2) as [r w3] eqn:Em.
  pose proof (run_mark_login u w2 r w3 Hd2 Hf Em) as Hm. destruct r as [[]|e]; [|done]. rewrite run_bind.
  destruct (run (create_session _ _ _ _) w3) as [r w4] eqn:Es.
  apply run_create_session in Es. destruct r as [t'|e]; [|done]. destruct Es as (-> & _ & ->). cbn [run lift].
  intros [= <- <- <-]. exists u. subst w3. simpl. rewrite lookup_insert_eq.
  rewrite Ec. do 7 (split; [done|]). exact (find_replaced u (logged_in (clock w) (clock w) u) (db w1) Hf eq_refl).
Qed.

(** C17: A session lasts from the login to its expiry.  A login that succeeds has verified the
    password of an enabled account and hands out the token it was given; whoever
    returns the token as a cookie is that account until the session's time is over,
    and nobody afterwards. *)
Theorem session_lifecycle name password token (w : World) p t (w' : World) :
  accounts_ok (db w) -> token <> "" -> all_bytes token_byte token = true ->
  run (login_local name password token) w = (Ok (p, t), w') ->
  t = token /\
  (exists u, user_named name (db w) = Some u /\ User.enabled u = true /\ p = principal u /\
     argon_verify (unwrap_or (User.password_hash u) dummy_password_hash) password = Some true) /\
  (forall now i, now < clock w + session_ttl config ->
     (run (authenticate (cookie_header t)) (with_time w' now i)).1 = Ok (with_session p (token_hash token))) /\
  (forall now i, clock w + session_ttl config <= now ->
     exists w2, run (authenticate (cookie_header t)) (with_time w' now i) = (Err Unauthorized, w2) /\
       sessions (db w2) !! token_hash token = None).
Proof using Type.
  intros Hd Hne Ht H. destruct (login_local_Ok _ _ _ _ _ _ _ Hd H) as (u & Eu & Ee & Ev & -> & -> & Ec & Es & Ef).
  split; [done|]. split; [by exists u|]. unfold Auth.authenticate. rewrite cookie_value_header by done.
  split; intros now i Hn; simpl; rewrite Es; simpl.
  - rewrite (proj2 (Z.leb_gt _ _) Hn). simpl. rewrite Ef. simpl. rewrite Ee. simpl.
    destruct (clock w <? now - 5 * minute); [|done]. simpl. unfold step_db, touch_session. simpl. by rewrite Es.
  - rewrite (proj2 (Z.leb_le _ _) Hn). simpl. eexists. split; [done|]. simpl. apply lookup_delete_eq.
Qed.

(** A logout is final.  Once the logout of a token has been answered, the token
    authenticates nobody, whatever runs before, between and beside the two requests,
    unless the same token is drawn again. *)
Theorem logout_final env issued h token w c w1 r w2 :
  (forall x y, env x y -> auth_step issued x y) -> cookie_value h SESSION_COOKIE = Some token ->
  ~ issued (token_hash token) ->
  runs env (logout h) w (Ok c) w1 -> runs env (authenticate h) w1 r w2 -> r = Err Unauthorized.
Proof using Type.
  intros He Hc Hi Hl Ha. unfold Auth.logout, revoke_session in Hl. rewrite Hc in Hl.
  simpl in Hl. destruct Hl as (w0 & _ & Hl). destruct Hl as [_ Hl].
  unfold Auth.authenticate in Ha. rewrite Hc in Ha. simpl in Ha. destruct Ha as (w3 & S3 & Ha).
  assert (sessions (db w3) !! token_hash token = None) as E; [|rewrite E in Ha; by destruct Ha as [-> _]].
  eapply (auth_steps_kept (fun d => sessions d !! token_hash token = None)); [intros d d'; by apply db_step_gone| |].
  - eapply env_steps; [exact He|]. trans w1; [exact Hl|exact S3].
  - simpl. apply lookup_delete_eq.
Qed.

(** ** Profile changes *)

Lemma exec_inv {A} (env : World -> World -> Prop) (f : AuthDb -> result (A * AuthDb) DbErr) w (a : A) w' : runs env (exec f) w (Ok a) w' ->
  exists w1 d, rtc env w w1 /\ f (db w1) = Ok (a, d) /\ rtc env (with_db w1 d) w'.
Proof using Type.
  intros (w1 & S & H). simpl in H. destruct H as [H S']. unfold step_db in *.
  destruct (f (db w1)) as [[b d]|] eqn:E; [|done]. injection H as <-. by exists w1, d.
Qed.

Lemma changed_username_Ok (env : World -> World -> Prop) i input account w name w' : runs env (changed_username i input account) w (Ok name) w' ->
  rtc env w w' /\ name = (if username_changed input account then new_username input else User.username account).
Proof using Type.
  unfold changed_username. destruct (new_username input) as [n|] eqn:En.
  - destruct (username_changed input account) eqn:Ec; [|by intros [[= ->] ?]]. simpl.
    destruct (validate_username n); [|by intros [? _]]. simpl. intros (w1 & S1 & H).
    destruct (taken n i (db w1)); [by destruct H|]. destruct H as [[= ->] S2]. split; [by trans w1|done].
  - intros [[= ->] ?]. split; [done|]. unfold username_changed. by rewrite En.
Qed.

(** What a profile change read, checked and wrote: [w1] is the world it read the row in,
    [w2] the one it wrote in, [d] the tables its write made. *)
Record profile_change (env : World -> World -> Prop) (i : Uuid) (salt : string) (input : ProfileInput) (w w1 w2 : World)
    (d : AuthDb) (u u2 : User.Model) : Prop := {
  c_read : rtc env w w1 /\ find_user i (db w1) = Some u;
  c_written : rtc env w1 w2 /\ find_user i d = Some u2 /\ exists f, update_user i f (db w2) = Ok (u2, d);
  c_checked : username_changed input u = true \/ is_some (new_password input) = true ->
    exists hash current, User.password_hash u = Some hash /\ current_password input = Some current /\
      argon_verify hash current = Some true;
  c_username : User.username u2 = (if username_changed input u then new_username input else User.username u);
  c_password : match new_password input with
               | Some password => exists hash, argon_hash salt password = Some hash /\ User.password_hash u2 = Some hash
               | None => User.password_hash u2 = User.password_hash u
               end
}.

Lemma update_user_found i f d u d' : update_user i f d = Ok (u, d') -> (forall x, User.id (f x) = User.id x) ->
  find_user i d' = Some u /\ exists x, u = f x.
Proof using Type.
  unfold update_user. destruct (by_id User.id i (users d)) as [x|] eqn:Ex; [|done].
  destruct (user_invalid _); [done|]. destruct (existsb _ _); [done|]. intros [= <- <-] Hf.
  pose proof (by_id_Some _ _ _ _ Ex) as [_ Hi]. split; [|by exists x]. rewrite <- Hi.
  apply find_replaced; [by rewrite Hi|apply Hf].
Qed.

Definition others_revoked (i : Uuid) (token : string) (w : World) : World :=
  with_db w (with_sessions (db w) (filter (fun p => ~ (Session.user_id p.2 = i /\ p.1 <> token)) (sessions (db w)))).

Lemma update_profile_Ok env current i salt input w p w' : p_id current = Some i ->
  runs env (update_profile current salt input) w (Ok p) w' ->
  exists w1 u w2 d u2, profile_change env i salt input w w1 w2 d u u2 /\
    match new_password input, session_token_hash current with
    | Some _, Some token =>
        exists w3, rtc env (with_db w2 d) w3 /\
          rtc env (others_revoked i token w3) w'
    | _, _ => rtc env (with_db w2 d) w'
    end.
Proof using Type.
  intros Hi. unfold Auth.update_profile. rewrite Hi. destruct (is_empty _ || _); [by intros [? _]|].
  intros H. simpl in H. destruct H as (w1 & S1 & H). destruct (find_user i (db w1)) as [u|] eqn:Eu; [|by destruct H]. simpl in H.
  destruct (check_current argon_verify input u) as [[]|] eqn:Ek; [|by destruct H]. simpl in H.
  apply runs_bind_inv in H as (r & w4 & Hn & H). destruct r as [name|]; [|by destruct H].
  apply changed_username_Ok in Hn as [S4 ->]. destruct (changed_password argon_hash salt input u) as [hash|] eqn:Eh; [|by destruct H].
  simpl in H. destruct H as (w5 & S5 & w7 & S7 & H). unfold step_db in H.
  destruct (update_user i _ (db w7)) as [[u2 d]|] eqn:Ex; [|by destruct H]. simpl in H.
  destruct (update_user_found _ _ _ _ _ Ex ltac:(done)) as (Ef & x & ->).
  exists w1, u, w7, d, (profile_columns (if username_changed input u then new_username input else User.username u) hash
    (trim (new_display_name input)) (clock w5) x). split.
  - constructor; simpl; try done; [split_and!; [by trans w4; [|trans w5]|done|by eexists]|..].
    + intros Hc. unfold check_current in Ek.
      assert (username_changed input u || is_some (new_password input) = true) as Hor by (by apply orb_true_iff). rewrite Hor in Ek.
      destruct (User.password_hash u) as [h|]; [|done]. destruct (current_password input) as [c|]; [|done]. simpl in Ek.
      unfold verify_password in Ek. destruct (argon_verify h c) as [[]|] eqn:Ev; try done. by exists h, c.
    + unfold changed_password in Eh. destruct (new_password input) as [pw|]; [|by injection Eh as <-].
      destruct (validate_password pw); [|done]. simpl in Eh. unfold hash_password in Eh.
      destruct (argon_hash salt pw) as [h|]; [|done]. simpl in Eh. injection Eh as <-. by exists h.
  - destruct (new_password input), (session_token_hash current); simpl in H.
    1: destruct H as (w3 & S3 & H); exists w3; by destruct H.
    all: by destruct H.
Qed.

(** Of the sessions of account [i] only [token] and those issued since are left. *)
Definition only_session (issued : string -> Prop) (i : Uuid) (token : string) (d : AuthDb) : Prop :=
  map_Forall (fun hash s => Session.user_id s = i -> hash = token \/ issued hash) (sessions d).

Lemma only_subset issued i token d m : m ⊆ sessions d -> only_session issued i token d -> only_session issued i token (with_sessions d m).
Proof using Type. intros Hm H hash s Hs. apply (H hash s). simpl in Hs. by eapply lookup_weaken. Qed.

Lemma db_step_only issued i token d d' : db_step issued d d' -> only_session issued i token d -> only_session issued i token d'.
Proof using Type.
  intros S Hd.
  destruct S as [j name h now r d' E|j iss subj mail now r d' E|j a b r d' E|j name h display now r d' E
    |h s r d' Hs E|h t r d' E|h r d' E|j h r d' E|now r d' E|h s r d' _ E|h r d' E|now r d' E].
  - unfold bootstrap, insert_user in E. repeat case_match; simplify_eq; done.
  - unfold provision, insert_user in E. repeat case_match; simplify_eq; done.
  - unfold update_user in E. repeat case_match; simplify_eq; done.
  - unfold update_user in E. repeat case_match; simplify_eq; done.
  - unfold insert_session in E. repeat case_match; simplify_eq. apply map_Forall_insert_2; [by right|done].
  - unfold touch_session in E. case_match eqn:Es; simplify_eq. apply map_Forall_insert_2; [exact (Hd h _ Es)|done].
  - injection E as _ <-. apply only_subset; [apply delete_subseteq|done].
  - injection E as _ <-. apply only_subset; [apply map_filter_subseteq|done].
  - injection E as _ <-. apply only_subset; [apply map_filter_subseteq|done].
  - unfold insert_state in E. case_match; simplify_eq; done.
  - injection E as _ <-. done.
  - injection E as _ <-. done.
Qed.

(** A password change ends the other sessions.  When a change of password is answered
    with success, whatever ran beside it: the current password had been verified
    against the stored hash, the hash of the new one was stored, and of the sessions of
    the account there are left only the one that made the request and those issued
    while it ran. *)
Theorem password_change_revokes env issued current i token salt input password w p w' :
  (forall x y, env x y -> auth_step issued x y) ->
  p_id current = Some i -> session_token_hash current = Some token -> new_password input = Some password ->
  runs env (update_profile current salt input) w (Ok p) w' ->
  only_session issued i token (db w') /\
  exists w1 u w2 d u2 old given new, rtc env w w1 /\ find_user i (db w1) = Some u /\ User.password_hash u = Some old /\
    current_password input = Some given /\ argon_verify old given = Some true /\
    rtc env w1 w2 /\ argon_hash salt password = Some new /\ find_user i d = Some u2 /\ User.password_hash u2 = Some new /\
    exists w3, rtc env (with_db w2 d) w3 /\ rtc env (others_revoked i token w3) w'.
Proof using Type.
  intros He Hi Ht Hp H. destruct (update_profile_Ok _ _ _ _ _ _ _ _ Hi H) as (w1 & u & w2 & d & u2 & [[Hr Hf] (Hw & Hf2 & _) Hc _ Hn] & Hs).
  rewrite Hp, Ht in *. destruct Hs as (w3 & S2 & S3). split.
  - pose proof (env_steps env _ He _ _ S3) as S4.
    assert (only_session issued i token (db (others_revoked i token w3))) as Ho.
    { intros hash s [_ Hf']%map_lookup_filter_Some Hu. left. simpl in Hf'. destruct (decide (hash = token)); [done|by destruct Hf']. }
    eapply (auth_steps_kept (only_session issued i token)); [intros d1 d2; apply db_step_only|exact S4|exact Ho].
  - destruct Hc as (old & given & ? & ? & ?); [by right|]. destruct Hn as (new & ? & ?).
    exists w1, u, w2, d, u2, old, given, new. split_and!; try done. by exists w3.
Qed.

(** A profile change writes back what it read.  A change that leaves the password alone
    stores the password hash of the row it read at its start, so that a password
    changed by another request in between is lost and the old one is valid again. *)
Theorem profile_writes_back (env : World -> World -> Prop) current i salt input w p w' :
  p_id current = Some i -> new_password input = None ->
  runs env (update_profile current salt input) w (Ok p) w' ->
  exists w1 u w2 d u2, rtc env w w1 /\ find_user i (db w1) = Some u /\ rtc env w1 w2 /\ rtc env (with_db w2 d) w' /\
    (exists f, update_user i f (db w2) = Ok (u2, d)) /\ find_user i d = Some u2 /\ User.password_hash u2 = User.password_hash u.
Proof using Type.
  intros Hi Hp H. destruct (update_profile_Ok _ _ _ _ _ _ _ _ Hi H) as (w1 & u & w2 & d & u2 & [[Hr Hf] (Hw & Hf2 & Hu) _ _ Hn] & Hs).
  rewrite Hp in *. by exists w1, u, w2, d, u2.
Qed.

(** ** OIDC login *)

Definition returns_safe (d : AuthDb) : Prop :=
  map_Forall (fun _ s => safe_return_to (LoginState.return_to s) = LoginState.return_to s) (states d).

Lemma db_step_returns issued d d' : db_step issued d d' -> returns_safe d -> returns_safe d'.
Proof using Type.
  intros S Hd.
  destruct S as [j name h now r d' E|j iss subj mail now r d' E|j a b r d' E|j name h display now r d' E
    |h s r d' _ E|h t r d' E|h r d' E|j h r d' E|now r d' E|h s r d' Hs E|h r d' E|now r d' E].
  - unfold bootstrap, insert_user in E. repeat case_match; simplify_eq; done.
  - unfold provision, insert_user in E. repeat case_match; simplify_eq; done.
  - unfold update_user in E. repeat case_match; simplify_eq; done.
  - unfold update_user in E. repeat case_match; simplify_eq; done.
  - unfold insert_session in E. repeat case_match; simplify_eq; done.
  - unfold touch_session in E. case_match; simplify_eq; done.
  - by injection E as _ <-.
  - by injection E as _ <-.
  - by injection E as _ <-.
  - unfold insert_state in E. case_match; simplify_eq. by apply map_Forall_insert_2.
  - injection E as _ <-. by apply map_Forall_delete.
  - injection E as _ <-. intros hash s' [Hk _]%map_lookup_filter_Some. by apply (Hd hash).
Qed.

(** The identity a token response proves to a client: its id token is for this login and
    its access token is the one the id token was issued with. *)
Definition proves (client : Client) (tokens : Tokens) (nonce subj : string) : Prop :=
  exists id c, id_token api tokens = Some id /\ claims api client id nonce = Ok c /\ subject api c = subj /\
    subj <> "" /\ slen subj <= 512 /\
    (forall h, access_token_hash api c = Some h -> hashed_access_token api client id tokens = Some h).

Lemma checked_identity_Ok client tokens id nonce subj mail :
  id_token api tokens = Some id -> checked_identity api client tokens id nonce = Ok (subj, mail) -> proves client tokens nonce subj.
Proof using Type.
  intros Hid. unfold checked_identity. destruct (claims api client id nonce) as [c|] eqn:Ec; [|done].
  destruct (match access_token_hash api c with Some _ => _ | None => _ end) as [[]|] eqn:Eh; [|done]. simpl.
  destruct (is_empty (subject api c) || _) eqn:Es; [done|]. intros [= <- _]. apply orb_false_iff in Es as [Es1 Es2].
  exists id, c. do 3 (split; [done|]). split; [by intros E; rewrite E in Es1|]. split; [by apply Z.ltb_ge|].
  intros h Hh. rewrite Hh in Eh. destruct (hashed_access_token api client id tokens) as [a|]; [|done]. simpl in Eh.
  destruct (a =?s h) eqn:E; [|done]. by apply str_eqb_eq in E as ->.
Qed.

Lemma provision_Ok i iss subj mail now d u d' : provision token_hash i iss subj mail now d = Ok (Some u, d') ->
  User.enabled u = true /\ User.identity_key u = oidc_identity_key token_hash iss subj.
Proof using Type.
  unfold provision. destruct (user_with_key _ d) as [x|] eqn:E.
  - destruct (User.enabled x) eqn:Ee; [|done]. intros [= <- _]. split; [done|].
    unfold user_with_key, find_one in E. apply find_some in E as [_ E]. by apply str_eqb_eq in E.
  - destruct (insert_user _ d) as [[[] d1]|]; [|done]. by intros [= <- _].
Qed.

Lemma create_session_token (env : World -> World -> Prop) i token w t w' :
  runs env (create_session token_hash config i token) w (Ok t) w' -> t = token.
Proof using Type.
  unfold create_session. simpl. intros (w1 & _ & H). destruct (duration_max <? _); [by destruct H|].
  simpl in H. destruct H as (w2 & _ & H). unfold step_db in H. destruct (insert_session _ _ _) as [[[] d]|]; by destruct H as [[= ->] _].
Qed.

Lemma provisioned (env : World -> World -> Prop) i iss subj mail w u w' :
  runs env (provision_oidc_user token_hash i iss subj mail) w (Ok u) w' ->
  User.enabled u = true /\ User.identity_key u = oidc_identity_key token_hash iss subj.
Proof using Type.
  unfold provision_oidc_user. simpl. intros (w1 & _ & H). unfold step_db in H.
  destruct (provision token_hash i iss subj mail (clock w1) (db w1)) as [[o d]|] eqn:Ep; [|by destruct H].
  simpl in H. destruct H as [H _]. destruct o as [x|]; [|done]. injection H as ->. by eapply provision_Ok.
Qed.

#[local] Opaque checked_client provision_oidc_user mark_login create_session.

(** C18: An OIDC login is earned once.  When a callback succeeds, whatever ran beside it: the
    state it names was stored, not expired, and removed by this very request, so that
    no two callbacks can both use it; the code was redeemed with the verifier stored
    for the state; the id token is valid for the stored nonce and its subject is that of
    the account logged in, which is enabled; and the client is sent to the stored
    return path. *)
Theorem oidc_login_once (env : World -> World -> Prop) new_id token code state w p t return_to w' :
  runs env (finish_oidc new_id token code state) w (Ok (p, t, return_to)) w' ->
  exists runtime stored w1 w2 w3 n client client' tokens subj u,
    oidc = Some runtime /\ t = token /\ return_to = LoginState.return_to stored /\
    rtc env w w1 /\ states (db w1) !! token_hash state = Some stored /\
    rtc env w1 w2 /\ is_some (states (db w2) !! token_hash state) = true /\
    rtc env (with_db w2 (with_states (db w2) (delete (token_hash state) (states (db w2))))) w3 /\
    clock w3 < LoginState.expires_at stored /\
    exchange api n client code (LoginState.pkce_verifier stored) = Some tokens /\
    proves client' tokens (LoginState.nonce stored) subj /\
    p = principal u /\ User.enabled u = true /\ User.identity_key u = oidc_identity_key token_hash (issuer runtime) subj.
Proof using Type.
  unfold Auth.finish_oidc. destruct oidc as [runtime|]; [|by intros [? _]]. intros H. simpl in H.
  destruct H as (w1 & S1 & H). destruct (states (db w1) !! token_hash state) as [stored|] eqn:Es; [|by destruct H].
  simpl in H. destruct H as (w2 & S2 & H). destruct H as (w3 & S3 & H).
  destruct (is_some (states (db w2) !! token_hash state)) eqn:Ed; [|by destruct H]. simpl in H.
  destruct (Z.leb_spec (LoginState.expires_at stored) (clock w3)) as [|Hx]; [by destruct H|]. simpl in H.
  destruct H as (w4 & S4 & w5 & S5 & H).
  destruct (exchange api (net w5) (oidc_client w4) code (LoginState.pkce_verifier stored)) as [tokens|] eqn:Et; [|by destruct H].
  simpl in H. destruct (id_token api tokens) as [id|] eqn:Eid; [|by destruct H]. simpl in H.
  apply runs_bind_inv in H as (r & w6 & _ & H). destruct r as [client'|]; [|by destruct H].
  destruct (checked_identity api client' tokens id (LoginState.nonce stored)) as [[subj mail]|] eqn:Ec; [|by destruct H].
  apply runs_bind_inv in H as (r & w7 & Hp & H). destruct r as [u|]; [|by destruct H].
  apply runs_bind_inv in H as (r & w8 & _ & H). destruct r; [|by destruct H].
  apply runs_bind_inv in H as (r & w9 & Hs & H). destruct r as [t'|]; [|by destruct H]. destruct H as [[= -> -> ->] _].
  exists runtime, stored, w1, w2, w3, (net w5), (oidc_client w4), client', tokens, subj, u.
  apply create_session_token in Hs as ->. apply provisioned in Hp. do 10 (split; [done|]).
  split; [by eapply checked_identity_Ok|]. by split.
Qed.

#[local] Transparent checked_client provision_oidc_user mark_login create_session.

End Service.

(** ** Return paths *)

(** A return path that leaves the site.  The check refuses [//host], but not [/\host],
    which URL parsers resolve against an [http] or [https] page like [//host]: after
    the login the browser is sent to another host. *)
Theorem return_path_escapes {Url : Type} (join : Url -> string -> option Url) (host_of : Url -> option string) page host target :
  (forall u r, join u ("/\" +:+ r) = join u ("//" +:+ r)) ->
  (forall u h v, join u ("//" +:+ h) = Some v -> host_of v = Some h) ->
  any_byte newline host = false -> slen host <= 1022 ->
  join page (safe_return_to ("/\" +:+ host)) = Some target -> host_of target = Some host.
Proof.
  intros Hb Ha Hn Hl. unfold safe_return_to.
  assert (any_byte newline ("/\" +:+ host) = false) as -> by done.
  rewrite slen_app. change (slen "/\") with 2. rewrite (proj2 (Z.leb_le _ _)) by lia. simpl.
  change (String "/" (String "\" host)) with ("/\" +:+ host). rewrite Hb. apply Ha.
Qed.

End AuthProps.

(** ** Witnesses *)

Module AuthWitness.
Import Tables Paths Auth AuthProps.

Definition digest (s : string) : string := "#" +:+ s.
Definition toy_hash (salt p : string) : option string := Some (salt +:+ ":" +:+ p).
Definition toy_verify (hash p : string) : option bool := Some (ends_with (":" +:+ p) hash).

Definition toy_oidc : OidcApi unit string string string :=
  {| exchange := fun _ _ code verifier => if verifier =?s "verifier" then Some code else None;
     id_token := Some;
     claims := fun _ id nonce => if nonce =?s "nonce" then Ok id else Err OtherClaimsError;
     access_token_hash := fun _ => None;
     hashed_access_token := fun _ _ _ => None;
     Auth.subject := fun c => c;
     Auth.email := fun _ => None;
     discover := fun _ => None;
     authorize_url := fun _ state _ _ => "https://id.example/?state=" +:+ state |}.

Definition provider : option OidcRuntime := Some {| Auth.issuer := "https://id.example"; Auth.display_name := "Example" |}.

Definition toy_config : AuthConfig :=
  {| admin_auth := None; initial_admin_username := Some "owner"; initial_admin_password := Some "owner-password";
     session_ttl := 3600 * second; admin_external_tls := true |}.

Abbreviation World := (AuthWorld (Client := unit)).
Abbreviation alone := (fun _ _ : World => False).

Definition blank : World :=
  {| db := {| users := []; sessions := ∅; states := ∅ |}; clock := 0; instant := 0; failed_logins := ∅; logs := ∅;
     tries := []; oidc_client := tt; net := 0 |}.

Abbreviation start := (new toy_hash toy_config 7%N "salt").
Abbreviation log_in token := (login_local digest toy_verify "dummy" toy_config "owner" "owner-password" token).

Definition founded : World := (run start blank).2.
Definition entered : World := (run (log_in "tok") founded).2.
Definition owner : User.Model := first_admin 7 "owner" "salt:owner-password" 0.

Lemma founded_ok : accounts_ok (db founded).
Proof.
  constructor; [by split|by split|]. assert (sessions (db founded) = ∅) as -> by (vm_compute; reflexivity). apply map_Forall_empty.
Qed.

Lemma accounts_invariant_witness : accounts_ok (db founded).
Proof.
  refine (accounts_invariant digest Some toy_hash toy_verify "dummy" toy_config toy_oidc provider alone start (fun _ => False)
    blank blank (Ok tt) founded _ (h_new _ _ _ _ _ _ _ _ _ _ _) _ _ (rtc_refl _ _) _); [done|done|done|].
  apply run_runs. vm_compute. reflexivity.
Defined.

Definition attempts (n : nat) (w : World) : World := Nat.iter n (fun w => (reserve 0 w).2) w.

Lemma attempts_reached n w : rtc (auth_step digest (fun _ => False)) w (attempts n w).
Proof. induction n as [|n IH]; [apply rtc_refl|]. eapply rtc_r; [exact IH|]. apply (s_reserve _ _ (attempts n w) 0). Qed.

Definition locked : World := attempts 5 (get_log (digest "owner") founded).2.

Lemma locked_reached : rtc (auth_step digest (fun _ => False)) founded locked.
Proof. eapply rtc_l; [apply (s_get _ _ _ (digest "owner"))|apply attempts_reached]. Qed.

Lemma login_throttled_witness : exists w', run (log_in "tok") locked = (Err RateLimited, w') /\
  db w' = db locked /\ tries w' = tries locked.
Proof.
  destruct (login_throttled digest toy_verify "dummy" toy_config (fun _ => False) founded locked
    eq_refl eq_refl eq_refl locked_reached) as (_ & _ & H).
  destruct (H "owner" "owner-password" "tok" 0%nat) as [_ H5]; [reflexivity|vm_compute; discriminate|vm_compute; reflexivity|].
  apply H5. apply Nat.leb_le. vm_compute. reflexivity.
Defined.

Definition create_node : Request :=
  {| q_method := "POST"; q_uri := {| u_path := "/api/nodes"; u_query := None |}; q_headers := cookie_header "tok" |}.

Lemma admin_gate_witness : exists p, (run (admin_auth_gate digest Some toy_config create_node) entered).1 = Pass (Some p) /\
  p_role p = "admin".
Proof.
  destruct (run (admin_auth_gate digest Some toy_config create_node) entered) as [g w'] eqn:E.
  assert (exists p, g = Pass (Some p)) as [p ->] by (vm_compute in E; injection E as <- _; by eexists).
  exists p. split; [done|].
  destruct (admin_gate digest Some toy_config alone create_node entered (Some p) w') as [[? _]|(p' & [= <-] & _ & H)];
    [by apply run_runs|done|done|done|]. by apply H.
Defined.

Lemma session_lifecycle_witness : (run (authenticate digest (cookie_header "tok")) (with_time entered (1800 * second) 0)).1 =
  Ok (with_session (principal owner) (digest "tok")).
Proof.
  refine (proj1 (proj2 (proj2 (session_lifecycle digest toy_verify "dummy" toy_config "owner" "owner-password" "tok" founded
    (principal owner) "tok" entered founded_ok _ _ _))) (1800 * second) 0 _); [done|reflexivity|vm_compute; reflexivity|vm_compute; reflexivity].
Defined.

Lemma logout_final_witness : (run (authenticate digest (cookie_header "tok"))
  (run (logout digest toy_config (cookie_header "tok")) entered).2).1 = Err Unauthorized.
Proof.
  set (w1 := (run (logout digest toy_config (cookie_header "tok")) entered).2).
  refine (logout_final digest toy_config alone (fun _ => False) (cookie_header "tok") "tok" entered
    (clear_cookie toy_config) w1 _ (run (authenticate digest (cookie_header "tok")) w1).2 _ _ _ _ _);
    [done|reflexivity|tauto| |].
  - apply run_runs. vm_compute. reflexivity.
  - apply run_runs. by destruct (run _ w1).
Defined.

Definition principal_of (token : string) : AuthPrincipal := with_session (principal owner) (digest token).

Definition new_secret : ProfileInput :=
  {| new_display_name := "Owner"; new_username := None; current_password := Some "owner-password";
     new_password := Some "another-password" |}.
Definition rename : ProfileInput :=
  {| new_display_name := "Renamed"; new_username := None; current_password := None; new_password := None |}.

Abbreviation change input := (update_profile toy_hash toy_verify (principal_of "tok") "salt" input).

(** Two sessions; the one that changes the password remains. *)
Definition twice : World := (run (log_in "second") entered).2.

Lemma password_change_revokes_witness : only_session (fun _ => False) 7 (digest "tok") (db (run (change new_secret) twice).2) /\
  is_some (sessions (db twice) !! digest "second") = true.
Proof.
  split; [|vm_compute; reflexivity].
  destruct (run (change new_secret) twice) as [r w'] eqn:E. assert (exists p, r = Ok p) as [p ->].
  { vm_compute in E. injection E as <- _. by eexists. }
  assert (runs alone (change new_secret) twice (Ok p) w') as H by (by apply run_runs).
  exact (proj1 (password_change_revokes digest toy_hash toy_verify alone (fun _ => False) (principal_of "tok") 7 (digest "tok") "salt"
    new_secret "another-password" twice p w' (fun _ _ F => match F with end) eq_refl eq_refl eq_refl H)).
Defined.

Definition stored_hash (w : World) : option string := find_user 7 (db w) ≫= User.password_hash.

(** A password change between the read and the write of a rename. *)
Definition race (x y : World) : Prop := y = (run (change new_secret) x).2.
Definition changed : World := (run (change new_secret) entered).2.

Definition interfere (n : nat) (w : World) : World := if (n =? 1)%nat then (run (change new_secret) w).2 else w.

Lemma interfere_race n w : rtc race w (interfere n w).
Proof. unfold interfere. destruct (n =? 1)%nat; [by apply rtc_once|apply rtc_refl]. Qed.

Lemma race_run : exists p w', runs race (change rename) entered (Ok p) w' /\ stored_hash w' = stored_hash entered.
Proof.
  destruct (run_with interfere 0 (change rename) entered) as [r w'] eqn:E.
  assert (match r with Ok _ => stored_hash w' = Some "salt:owner-password" | Err _ => False end) as Hr.
  { vm_compute in E. injection E as <- <-. vm_compute. reflexivity. }
  destruct r as [p|]; [|done]. exists p, w'. split; [by apply (run_with_runs _ interfere _ interfere_race 0)|].
  rewrite Hr. vm_compute. reflexivity.
Qed.

Lemma profile_writes_back_witness : stored_hash changed = Some "salt:another-password" /\
  exists w1 u w2 d u2, rtc race entered w1 /\ find_user 7 (db w1) = Some u /\ rtc race w1 w2 /\
    (exists f, update_user 7 f (db w2) = Ok (u2, d)) /\ User.password_hash u2 = User.password_hash u.
Proof.
  split; [vm_compute; reflexivity|]. destruct race_run as (p & w' & H & _).
  destruct (profile_writes_back toy_hash toy_verify race (principal_of "tok") 7 "salt" rename entered p w' eq_refl eq_refl H)
    as (w1 & u & w2 & d & u2 & ? & ? & ? & _ & ? & _ & ?).
  by exists w1, u, w2, d, u2.
Defined.

Definition waiting : World := (run (oidc_start digest toy_oidc provider (Some "/settings") "state" "nonce" "verifier") founded).2.
Abbreviation callback := (finish_oidc digest toy_config toy_oidc provider 8%N "tok" "alice" "state").

Lemma oidc_login_once_witness : exists p w', run callback waiting = (Ok (p, "tok", "/settings"), w') /\
  exists stored (w1 : World), states (db w1) !! digest "state" = Some stored /\ LoginState.return_to stored = "/settings".
Proof.
  destruct (run callback waiting) as [r w'] eqn:E.
  assert (exists p, r = Ok (p, "tok", "/settings")) as [p ->] by (vm_compute in E; injection E as <- _; by eexists).
  exists p, w'. split; [done|].
  destruct (oidc_login_once digest toy_config toy_oidc provider alone 8 "tok" "alice" "state" waiting p "tok" "/settings" w')
    as (runtime & stored & w1 & w2 & w3 & n & c & c' & tokens & subj & u & _ & _ & Hr & _ & Hs & _); [by apply run_runs|].
  by exists stored, w1.
Defined.

(** A browser that knows hosts only. *)
Definition follow (page location : string) : option string :=
  match strip_prefix "//" location with
  | Some h => Some h
  | None => match strip_prefix "/\" location with Some h => Some h | None => Some page end
  end.

Lemma return_path_escapes_witness : follow "donkey.example" (safe_return_to "/\evil.example") = Some "evil.example".
Proof.
  assert (Some "evil.example" = Some "evil.example") as H; [|exact H].
  refine (return_path_escapes follow Some "donkey.example" "evil.example" "evil.example" _ _ _ _ _);
    [done|by intros u h v [= <-]|reflexivity|vm_compute; discriminate|reflexivity].
Defined.

End AuthWitness.
