(* ===== verification/Config.v ===== *)
(** * Configuration

    [Config] of src/src/config.rs: reading it from the environment, and overriding it
    with the settings stored by the administration API.  The settings the API can
    change are the record [Tunable], in the groups the services keep them in; the
    others are [Fixed].  Durations are nanoseconds.  The environment is a function from
    names to values.  [humantime], [url] and the text form of [f64] are parameters. *)

From stdpp Require Import base gmap sets list strings pretty.
From Stdlib Require Import ZArith Lia Ascii.
From S2P Require Import Prelude F64 Text Errors Chunks Scheduling Cache Security.

#[local] Set Default Proof Using "Type*".

Module Config.
Import Chunks Scheduling Cache.

Definition second : Z := 1000000000.

(** ** Data *)

Record SocketAddr := { ip : IpAddr; port : Z }.

Definition loopback (a : IpAddr) : bool :=
  match a with V4 n => (127 * 2 ^ 24 <=? n) && (n <? 128 * 2 ^ 24) | V6 n => n =? 1 end.
Definition unspecified (a : IpAddr) : bool := match a with V4 n | V6 n => n =? 0 end.

Record OidcConfig := {
  oidc_issuer : string; client_id : string; client_secret : string; redirect_url : string; oidc_display_name : string
}.

Record Fixed := {
  admin_addr : SocketAddr;
  registry_addr : SocketAddr;
  data_dir : string;
  database_url : string;
  tls_cert : option string;
  tls_key : option string;
  admin_auth : option string;
  initial_admin_username : option string;
  initial_admin_password : option string;
  admin_external_tls : bool;
  admin_external_loopback : bool;
  session_ttl : Z;
  oidc : option OidcConfig;
  registry_auth : option string;
  credential_key : option string;
  registry_external_tls : bool;
  outbound : SecurityConfig
}.

Record Tunable := {
  layout : SchedulerRuntimeConfig;
  scheduler_policy : SchedulerPolicy;
  scheduler_algorithm : string;
  upstream_timeout : Z;
  stream_fallback_timeout : Z;
  cache : CacheRuntimeConfig;
  health_interval : Z;
  max_export_bytes : Z;
  export_ttl : Z;
  pull_logging_enabled : bool;
  pull_log_retention_days : Z;
  pull_log_max_entries : Z
}.

Record Config := { fixed : Fixed; tunable : Tunable }.

(** ** Numbers and flags as text *)

Fixpoint digits_value (acc : Z) (s : string) : option Z :=
  match s with
  | EmptyString => Some acc
  | String c s => if is_ascii_digit c then digits_value (acc * 10 + (code c - 48)) s else None
  end.

(** [str::parse] for the unsigned types: an optional [+], digits, no overflow. *)
Definition parse_unsigned (max : Z) (s : string) : option Z :=
  let digits := match strip_prefix "+" s with Some r => r | None => s end in
  if is_empty digits then None
  else let* n := digits_value 0 digits in if n <=? max then Some n else None.

Definition parse_u64 : string -> option Z := parse_unsigned u64_max.

Definition parse_bool (s : string) : option bool :=
  if s =?s "true" then Some true else if s =?s "false" then Some false else None.

Definition bool_text (b : bool) : string := if b then "true" else "false".

(** ** Stored settings *)

Record RuntimeSetting := { key : string; value : string }.

Definition set_layout (t : Tunable) (l : SchedulerRuntimeConfig) : Tunable :=
  let '(Build_Tunable _ b c d e f g h i j k m) := t in Build_Tunable l b c d e f g h i j k m.
Definition set_policy (t : Tunable) (p : SchedulerPolicy) : Tunable :=
  let '(Build_Tunable a _ c d e f g h i j k m) := t in Build_Tunable a p c d e f g h i j k m.
Definition set_algorithm (t : Tunable) (s : string) : Tunable :=
  let '(Build_Tunable a b _ d e f g h i j k m) := t in Build_Tunable a b s d e f g h i j k m.
Definition set_upstream_timeout (t : Tunable) (n : Z) : Tunable :=
  let '(Build_Tunable a b c _ e f g h i j k m) := t in Build_Tunable a b c n e f g h i j k m.
Definition set_stream_fallback (t : Tunable) (n : Z) : Tunable :=
  let '(Build_Tunable a b c d _ f g h i j k m) := t in Build_Tunable a b c d n f g h i j k m.
Definition set_cache (t : Tunable) (r : CacheRuntimeConfig) : Tunable :=
  let '(Build_Tunable a b c d e _ g h i j k m) := t in Build_Tunable a b c d e r g h i j k m.
Definition set_health_interval (t : Tunable) (n : Z) : Tunable :=
  let '(Build_Tunable a b c d e f _ h i j k m) := t in Build_Tunable a b c d e f n h i j k m.
Definition set_max_export (t : Tunable) (n : Z) : Tunable :=
  let '(Build_Tunable a b c d e f g _ i j k m) := t in Build_Tunable a b c d e f g n i j k m.
Definition set_export_ttl (t : Tunable) (n : Z) : Tunable :=
  let '(Build_Tunable a b c d e f g h _ j k m) := t in Build_Tunable a b c d e f g h n j k m.
Definition set_pull_logging (t : Tunable) (b' : bool) : Tunable :=
  let '(Build_Tunable a b c d e f g h i _ k m) := t in Build_Tunable a b c d e f g h i b' k m.
Definition set_pull_retention (t : Tunable) (n : Z) : Tunable :=
  let '(Build_Tunable a b c d e f g h i j _ m) := t in Build_Tunable a b c d e f g h i j n m.
Definition set_pull_entries (t : Tunable) (n : Z) : Tunable :=
  let '(Build_Tunable a b c d e f g h i j k _) := t in Build_Tunable a b c d e f g h i j k n.

Definition set_chunk_size (l : SchedulerRuntimeConfig) (n : Z) : SchedulerRuntimeConfig :=
  let '(Build_SchedulerRuntimeConfig _ b c d e f) := l in Build_SchedulerRuntimeConfig n b c d e f.
Definition set_adaptive (l : SchedulerRuntimeConfig) (x : bool) : SchedulerRuntimeConfig :=
  let '(Build_SchedulerRuntimeConfig a _ c d e f) := l in Build_SchedulerRuntimeConfig a x c d e f.
Definition set_automatic (l : SchedulerRuntimeConfig) (x : bool) : SchedulerRuntimeConfig :=
  let '(Build_SchedulerRuntimeConfig a b _ d e f) := l in Build_SchedulerRuntimeConfig a b x d e f.
Definition set_parallel (l : SchedulerRuntimeConfig) (n : Z) : SchedulerRuntimeConfig :=
  let '(Build_SchedulerRuntimeConfig a b c _ e f) := l in Build_SchedulerRuntimeConfig a b c n e f.
Definition set_resumable (l : SchedulerRuntimeConfig) (n : Z) : SchedulerRuntimeConfig :=
  let '(Build_SchedulerRuntimeConfig a b c d _ f) := l in Build_SchedulerRuntimeConfig a b c d n f.
Definition set_concurrency (l : SchedulerRuntimeConfig) (n : Z) : SchedulerRuntimeConfig :=
  let '(Build_SchedulerRuntimeConfig a b c d e _) := l in Build_SchedulerRuntimeConfig a b c d e n.

Definition set_partial_ttl (r : CacheRuntimeConfig) (n : Z) : CacheRuntimeConfig :=
  let '(Build_CacheRuntimeConfig _ b c d e f g) := r in Build_CacheRuntimeConfig n b c d e f g.
Definition set_cache_ttl (r : CacheRuntimeConfig) (n : option Z) : CacheRuntimeConfig :=
  let '(Build_CacheRuntimeConfig a _ c d e f g) := r in Build_CacheRuntimeConfig a n c d e f g.
Definition set_max_cache (r : CacheRuntimeConfig) (n : Z) : CacheRuntimeConfig :=
  let '(Build_CacheRuntimeConfig a b _ d e f g) := r in Build_CacheRuntimeConfig a b n d e f g.
Definition set_cache_policy (r : CacheRuntimeConfig) (p : CachePolicy) : CacheRuntimeConfig :=
  let '(Build_CacheRuntimeConfig a b c _ e f g) := r in Build_CacheRuntimeConfig a b c p e f g.
Definition set_high (r : CacheRuntimeConfig) (x : f64) : CacheRuntimeConfig :=
  let '(Build_CacheRuntimeConfig a b c d _ f g) := r in Build_CacheRuntimeConfig a b c d x f g.
Definition set_low (r : CacheRuntimeConfig) (x : f64) : CacheRuntimeConfig :=
  let '(Build_CacheRuntimeConfig a b c d e _ g) := r in Build_CacheRuntimeConfig a b c d e x g.
Definition set_public_bearer (r : CacheRuntimeConfig) (x : bool) : CacheRuntimeConfig :=
  let '(Build_CacheRuntimeConfig a b c d e f _) := r in Build_CacheRuntimeConfig a b c d e f x.

Section Overrides.
Variable parse_f64 : string -> option f64.

Definition seconds (s : string) : option Z := let* n := parse_u64 s in Some (n * second).

Definition parse_policy (s : string) : option SchedulerPolicy :=
  if s =?s "balanced" then Some Balanced else if s =?s "speed-first" then Some SpeedFirst else None.

Definition parse_algorithm (s : string) : option string :=
  if (s =?s "current-balanced") || (s =?s "projected-completion") then Some s else None.

Definition parse_cache_policy (s : string) : option CachePolicy :=
  if s =?s "balanced" then Some BalancedPolicy else if s =?s "lru" then Some Lru
  else if s =?s "lfu" then Some Lfu else None.

Definition parse_cache_ttl (s : string) : option (option Z) :=
  let* n := parse_u64 s in Some (if 0 <? n then Some (n * second) else None).

(** One arm of the match: [None] is a value that does not parse. *)
Definition apply_setting (t : Tunable) (s : RuntimeSetting) : option Tunable :=
  let k := key s in
  let v := value s in
  if k =?s "chunk_size" then let* n := parse_u64 v in Some (set_layout t (set_chunk_size (layout t) n))
  else if k =?s "adaptive_chunking_enabled" then let* b := parse_bool v in Some (set_layout t (set_adaptive (layout t) b))
  else if k =?s "automatic_concurrency_enabled" then let* b := parse_bool v in Some (set_layout t (set_automatic (layout t) b))
  else if k =?s "chunk_concurrency" then let* n := parse_u64 v in Some (set_layout t (set_concurrency (layout t) n))
  else if k =?s "parallel_threshold" then let* n := parse_u64 v in Some (set_layout t (set_parallel (layout t) n))
  else if k =?s "resumable_threshold" then let* n := parse_u64 v in Some (set_layout t (set_resumable (layout t) n))
  else if k =?s "scheduler_policy" then let* p := parse_policy v in Some (set_policy t p)
  else if k =?s "scheduler_algorithm" then let* a := parse_algorithm v in Some (set_algorithm t a)
  else if k =?s "upstream_timeout_seconds" then let* n := seconds v in Some (set_upstream_timeout t n)
  else if k =?s "stream_fallback_timeout_seconds" then let* n := seconds v in Some (set_stream_fallback t n)
  else if k =?s "partial_ttl_seconds" then let* n := seconds v in Some (set_cache t (set_partial_ttl (cache t) n))
  else if k =?s "max_cache_bytes" then let* n := parse_u64 v in Some (set_cache t (set_max_cache (cache t) n))
  else if k =?s "cache_policy" then let* p := parse_cache_policy v in Some (set_cache t (set_cache_policy (cache t) p))
  else if k =?s "cache_high_watermark" then let* x := parse_f64 v in Some (set_cache t (set_high (cache t) x))
  else if k =?s "cache_low_watermark" then let* x := parse_f64 v in Some (set_cache t (set_low (cache t) x))
  else if k =?s "cache_ttl_seconds" then let* n := parse_cache_ttl v in Some (set_cache t (set_cache_ttl (cache t) n))
  else if k =?s "public_bearer_cache_enabled" then let* b := parse_bool v in Some (set_cache t (set_public_bearer (cache t) b))
  else if k =?s "health_interval_seconds" then let* n := seconds v in Some (set_health_interval t n)
  else if k =?s "max_export_bytes" then let* n := parse_u64 v in Some (set_max_export t n)
  else if k =?s "export_ttl_seconds" then let* n := seconds v in Some (set_export_ttl t n)
  else if k =?s "pull_logging_enabled" then let* b := parse_bool v in Some (set_pull_logging t b)
  else if k =?s "pull_log_retention_days" then let* n := parse_u64 v in Some (set_pull_retention t n)
  else if k =?s "pull_log_max_entries" then let* n := parse_u64 v in Some (set_pull_entries t n)
  else Some t.

Fixpoint apply_settings (t : Tunable) (l : list RuntimeSetting) : option Tunable :=
  match l with
  | [] => Some t
  | s :: l => let* t := apply_setting t s in apply_settings t l
  end.

Definition within (lo hi n : Z) : bool := (lo <=? n) && (n <=? hi).

Definition KIB : Z := 1024.

Definition in_range (t : Tunable) : bool :=
  within (256 * KIB) (32 * KIB * KIB) (chunk_size (layout t)) && within 1 64 (chunk_concurrency (layout t))
  && within (KIB * KIB) u64_max (parallel_threshold (layout t)) && within (KIB * KIB) u64_max (resumable_threshold (layout t))
  && negb (upstream_timeout t =? 0) && negb (stream_fallback_timeout t =? 0) && negb (partial_ttl (cache t) =? 0)
  && (64 * KIB * KIB <=? max_cache_bytes (cache t)) && (64 * KIB * KIB <=? max_export_bytes t)
  && within 1 3650 (pull_log_retention_days t) && within 100 1000000 (pull_log_max_entries t).

Definition apply_runtime_overrides (t : Tunable) (l : list RuntimeSetting) : result Tunable string :=
  match apply_settings t l with
  | None => Err "invalid persisted setting"
  | Some t =>
      if fle (cache_high_watermark (cache t)) (cache_low_watermark (cache t)) then Err "persisted cache watermarks are invalid"
      else if negb (bool_decide (l = [])) && negb (in_range t) then Err "persisted runtime settings are out of range"
      else Ok t
  end.
End Overrides.

(** ** The environment *)

(** [SocketAddr::from_str], with the readers of [IpAddr::from_str]. *)
Definition read_port (s : string) : option (Z * string) := read_number 10 u16_max (String.length s) true s.

Definition read_socket_v4 (s : string) : option (SocketAddr * string) :=
  let* (a, r) := read_ipv4_addr s in
  let* r := read_given_char ":"%char r in
  let* (p, r) := read_port r in
  Some ({| ip := V4 a; port := p |}, r).

Definition read_scope (s : string) : option string :=
  match read_given_char "%"%char s with
  | None => Some s
  | Some r => let* (_, r) := read_number 10 u32_max (String.length r) true r in Some r
  end.

Definition read_socket_v6 (s : string) : option (SocketAddr * string) :=
  let* r := read_given_char "["%char s in
  let* (a, r) := read_ipv6_addr r in
  let* r := read_scope r in
  let* r := read_given_char "]"%char r in
  let* r := read_given_char ":"%char r in
  let* (p, r) := read_port r in
  Some ({| ip := V6 a; port := p |}, r).

Definition parse_socket (s : string) : option SocketAddr :=
  let* (a, r) := match read_socket_v4 s with Some x => Some x | None => read_socket_v6 s end in
  if is_empty r then Some a else None.

Definition path_join (a b : string) : string := if is_empty a || ends_with "/" a then a +:+ b else a +:+ "/" +:+ b.

(** [collect] of results: the first error, or every value. *)
Fixpoint collect {A E} (l : list (result A E)) : result (list A) E :=
  match l with
  | [] => Ok []
  | Ok x :: l => match collect l with Ok r => Ok (x :: r) | Err e => Err e end
  | Err e :: _ => Err e
  end.

Definition parse_remap (entry : string) : result (string * string) string :=
  match split_once "=" entry with
  | None => Err ("invalid CONNECT remap " +:+ entry)
  | Some (source, target) =>
      if is_empty source || is_empty target || negb (contains ":" source) || negb (contains ":" target)
      then Err "CONNECT remap must use source:port=target:port"
      else Ok (to_ascii_lowercase source, target)
  end.

Definition entries (raw : string) : list string :=
  List.filter (fun v => negb (is_empty v)) (trim <$> split_char ","%char raw).

Definition parse_remaps (raw : string) : result (list (string * string)) string := collect (parse_remap <$> entries raw).

Section Env.
Variable env : string -> option string.
Variable parse_f64 : string -> option f64.
Variable parse_duration : string -> option Z.
Context {Url : Type}.
Variable api : UrlApi Url.
Variable url_text : Url -> string.

Abbreviation Res A := (result A string).

Definition env_or (k default : string) : string := unwrap_or (env k) default.
Definition invalid (k : string) : string := "invalid " +:+ k.

Definition parse_addr (k default : string) : Res SocketAddr := ok_or (parse_socket (env_or k default)) (invalid k).

Definition optional_path (k : string) : option string :=
  let* v := env k in if is_empty v then None else Some v.
Definition optional_string (k : string) : option string :=
  let* v := env k in if is_empty (trim v) then None else Some v.
Definition optional_secret : string -> option string := optional_string.

Definition csv (k : string) : list string := to_ascii_lowercase <$> entries (env_or k "").

Definition bool_env (k : string) (default : bool) : Res bool :=
  match env k with Some v => ok_or (parse_bool v) (invalid k) | None => Ok default end.

Definition duration_env (k default : string) : Res Z := ok_or (parse_duration (env_or k default)) (invalid k).

Definition optional_duration_env (k : string) : Res (option Z) :=
  match optional_string k with
  | None => Ok None
  | Some v => match parse_duration v with Some d => Ok (Some d) | None => Err (invalid k) end
  end.

Definition cache_policy_env : Res CachePolicy :=
  ok_or (parse_cache_policy (to_ascii_lowercase (env_or "DONKEY_CACHE_POLICY" "balanced")))
        "DONKEY_CACHE_POLICY must be balanced, lru, or lfu".

Definition scheduler_policy_env : Res SchedulerPolicy :=
  let v := to_ascii_lowercase (env_or "DONKEY_SCHEDULER_POLICY" "balanced") in
  if v =?s "balanced" then Ok Balanced
  else if (v =?s "speed-first") || (v =?s "speed") then Ok SpeedFirst
  else Err "DONKEY_SCHEDULER_POLICY must be balanced or speed-first".

Definition scheduler_algorithm_env : Res string :=
  let v := to_ascii_lowercase (env_or "DONKEY_SCHEDULER_ALGORITHM" "current-balanced") in
  if v =?s "current" then Ok "current-balanced"
  else if v =?s "projected" then Ok "projected-completion"
  else ok_or (parse_algorithm v) "DONKEY_SCHEDULER_ALGORITHM must be current-balanced or projected-completion".

Definition bounds_message (k : string) : string := k +:+ " is out of bounds".

Definition is_finite (x : f64) : bool :=
  match x with SpecFloat.S754_nan | SpecFloat.S754_infinity _ => false | _ => true end.

(** [default] is the text of the default value. *)
Definition f64_env (k default : string) (min max : f64) : Res f64 :=
  let? v := ok_or (parse_f64 (env_or k default)) (invalid k) in
  if negb (is_finite v) || negb (fle min v && fle v max) then Err (bounds_message k) else Ok v.

Definition u64_env (k : string) (default min max : Z) : Res Z :=
  let? v := ok_or (parse_u64 (env_or k (pretty (Z.to_N default)))) (invalid k) in
  if negb (within min max v) then Err (bounds_message k) else Ok v.

Definition oidc_message : string :=
  "DONKEY_OIDC_ISSUER, CLIENT_ID, CLIENT_SECRET and REDIRECT_URL must be configured together".

Definition oidc_config : Res (option OidcConfig) :=
  match optional_string "DONKEY_OIDC_ISSUER", optional_string "DONKEY_OIDC_CLIENT_ID",
        optional_secret "DONKEY_OIDC_CLIENT_SECRET", optional_string "DONKEY_OIDC_REDIRECT_URL" with
  | None, None, None, None => Ok None
  | Some iss, Some client, Some secret, Some redirect =>
      let? issuer_url := ok_or (url_parse api iss) "invalid DONKEY_OIDC_ISSUER" in
      let? redirect := ok_or (url_parse api redirect) "invalid DONKEY_OIDC_REDIRECT_URL" in
      if negb (url_scheme api issuer_url =?s "https") || negb (url_scheme api redirect =?s "https")
      then Err "OIDC issuer and redirect URL must use HTTPS"
      else
        let display := env_or "DONKEY_OIDC_DISPLAY_NAME" "Single sign-on" in
        if is_empty (trim display) || (80 <? slen display) then Err "DONKEY_OIDC_DISPLAY_NAME must be 1-80 characters"
        else Ok (Some {| oidc_issuer := iss; client_id := client; client_secret := secret;
                         redirect_url := url_text redirect; oidc_display_name := display |})
  | _, _, _, _ => Err oidc_message
  end.

Definition minute : Z := 60 * second.
Definition day : Z := 24 * 60 * minute.

(** [from_env]. *)
Definition from_env : Res Config :=
  let data_dir := env_or "DONKEY_DATA_DIR" "./data" in
  let database_url := unwrap_or (env "DONKEY_DATABASE_URL") ("sqlite://" +:+ path_join data_dir "donkey.db" +:+ "?mode=rwc") in
  let tls_cert := optional_path "DONKEY_TLS_CERT" in
  let tls_key := optional_path "DONKEY_TLS_KEY" in
  if negb (Bool.eqb (is_some tls_cert) (is_some tls_key))
  then Err "DONKEY_TLS_CERT and DONKEY_TLS_KEY must be configured together"
  else
    let? high := f64_env "DONKEY_CACHE_HIGH_WATERMARK" "0.9" (f64_ratio 1 2) (f64_of_Z 1) in
    let? low := f64_env "DONKEY_CACHE_LOW_WATERMARK" "0.8" (f64_ratio 1 10) (f64_ratio 99 100) in
    if fle high low then Err "DONKEY_CACHE_LOW_WATERMARK must be lower than DONKEY_CACHE_HIGH_WATERMARK"
    else
      let username := optional_string "DONKEY_INITIAL_ADMIN_USERNAME" in
      let password := optional_secret "DONKEY_INITIAL_ADMIN_PASSWORD" in
      if negb (Bool.eqb (is_some username) (is_some password))
      then Err "DONKEY_INITIAL_ADMIN_USERNAME and DONKEY_INITIAL_ADMIN_PASSWORD must be configured together"
      else if is_some_and username (fun v => (80 <? slen v) || is_empty (trim v))
      then Err "DONKEY_INITIAL_ADMIN_USERNAME must be 1-80 characters"
      else if is_some_and password (fun v => negb (within 12 1024 (slen v)))
      then Err "DONKEY_INITIAL_ADMIN_PASSWORD must be 12-1024 bytes"
      else
        let? oidc := oidc_config in
        let? session_ttl := duration_env "DONKEY_SESSION_TTL" "7d" in
        if negb (within (5 * minute) (90 * day) session_ttl) then Err "DONKEY_SESSION_TTL must be between 5m and 90d"
        else
          let? admin_addr := parse_addr "DONKEY_ADMIN_ADDR" "127.0.0.1:5003" in
          let? registry_addr := parse_addr "DONKEY_REGISTRY_ADDR" "0.0.0.0:5443" in
          let? admin_external_tls := bool_env "DONKEY_ADMIN_EXTERNAL_TLS" false in
          let? admin_external_loopback := bool_env "DONKEY_ADMIN_EXTERNAL_LOOPBACK" false in
          let? registry_external_tls := bool_env "DONKEY_REGISTRY_EXTERNAL_TLS" false in
          let? remaps := parse_remaps (env_or "DONKEY_CONNECT_REMAP" "") in
          let? private := bool_env "DONKEY_ALLOW_PRIVATE_UPSTREAMS" false in
          let? insecure := bool_env "DONKEY_ALLOW_INSECURE_UPSTREAMS" false in
          let? chunk_size := u64_env "DONKEY_CHUNK_SIZE" (2 * KIB * KIB) (256 * KIB) (32 * KIB * KIB) in
          let? adaptive := bool_env "DONKEY_ADAPTIVE_CHUNKING_ENABLED" true in
          let? automatic := bool_env "DONKEY_AUTOMATIC_CONCURRENCY_ENABLED" true in
          let? concurrency := u64_env "DONKEY_CHUNK_CONCURRENCY" 32 1 64 in
          let? parallel := u64_env "DONKEY_PARALLEL_THRESHOLD" (8 * KIB * KIB) (KIB * KIB) (KIB * KIB * KIB) in
          let? resumable := u64_env "DONKEY_RESUMABLE_THRESHOLD" (8 * KIB * KIB) (KIB * KIB) u64_max in
          let? policy := scheduler_policy_env in
          let? algorithm := scheduler_algorithm_env in
          let? upstream_timeout := duration_env "DONKEY_UPSTREAM_TIMEOUT" "30s" in
          let? fallback := duration_env "DONKEY_STREAM_FALLBACK_TIMEOUT" "10s" in
          let? partial_ttl := duration_env "DONKEY_PARTIAL_TTL" "1h" in
          let? interval := duration_env "DONKEY_HEALTH_INTERVAL" "60s" in
          let? max_cache := u64_env "DONKEY_MAX_CACHE_BYTES" (50 * KIB * KIB * KIB) (64 * KIB * KIB) u64_max in
          let? cache_policy := cache_policy_env in
          let? cache_ttl := optional_duration_env "DONKEY_CACHE_TTL" in
          let? public_bearer := bool_env "DONKEY_PUBLIC_BEARER_CACHE_ENABLED" false in
          let? max_export := u64_env "DONKEY_MAX_EXPORT_BYTES" (20 * KIB * KIB * KIB) (64 * KIB * KIB) u64_max in
          let? export_ttl := duration_env "DONKEY_EXPORT_TTL" "7d" in
          let? logging := bool_env "DONKEY_PULL_LOGGING_ENABLED" true in
          let? retention := u64_env "DONKEY_PULL_LOG_RETENTION_DAYS" 30 1 3650 in
          let? max_entries := u64_env "DONKEY_PULL_LOG_MAX_ENTRIES" 10000 100 1000000 in
          let f := {| admin_addr := admin_addr; registry_addr := registry_addr; data_dir := data_dir;
                      database_url := database_url; tls_cert := tls_cert; tls_key := tls_key;
                      admin_auth := optional_secret "DONKEY_ADMIN_AUTH"; initial_admin_username := username;
                      initial_admin_password := password; admin_external_tls := admin_external_tls;
                      admin_external_loopback := admin_external_loopback; session_ttl := session_ttl; oidc := oidc;
                      registry_auth := optional_secret "DONKEY_REGISTRY_AUTH";
                      credential_key := optional_secret "DONKEY_CREDENTIAL_KEY";
                      registry_external_tls := registry_external_tls;
                      outbound := {| allow_private_upstreams := private; allow_insecure_upstreams := insecure;
                                     connect_allow := csv "DONKEY_CONNECT_ALLOW"; connect_remap := remaps;
                                     proxy_auth := optional_secret "DONKEY_PROXY_AUTH" |} |} in
          let t := {| layout := {| Chunks.chunk_size := chunk_size; adaptive_chunking_enabled := adaptive;
                                   automatic_concurrency_enabled := automatic; parallel_threshold := parallel;
                                   resumable_threshold := resumable; chunk_concurrency := concurrency |};
                      scheduler_policy := policy; scheduler_algorithm := algorithm; upstream_timeout := upstream_timeout;
                      stream_fallback_timeout := fallback;
                      cache := {| partial_ttl := partial_ttl; cache_ttl := cache_ttl; max_cache_bytes := max_cache;
                                  cache_policy := cache_policy; cache_high_watermark := high; cache_low_watermark := low;
                                  public_bearer_cache_enabled := public_bearer |};
                      health_interval := interval; max_export_bytes := max_export; export_ttl := export_ttl;
                      pull_logging_enabled := logging; pull_log_retention_days := retention;
                      pull_log_max_entries := max_entries |} in
          if unspecified (ip admin_addr) && is_none (admin_auth f) && is_none username && is_none oidc
          then Err "an admin authentication method is required when DONKEY_ADMIN_ADDR listens on all interfaces"
          else if is_some (registry_auth f) && is_none tls_cert && negb registry_external_tls
          then Err "Registry Basic auth requires TLS or DONKEY_REGISTRY_EXTERNAL_TLS=true"
          else Ok {| fixed := f; tunable := t |}.

(** ** What an accepted environment guarantees *)

Record tunable_ok (t : Tunable) : Prop := {
  o_chunk : 256 * KIB <= chunk_size (layout t) <= 32 * KIB * KIB;
  o_concurrency : 1 <= chunk_concurrency (layout t) <= 64;
  o_parallel : KIB * KIB <= parallel_threshold (layout t) <= KIB * KIB * KIB;
  o_resumable : KIB * KIB <= resumable_threshold (layout t) <= u64_max;
  o_cache : 64 * KIB * KIB <= max_cache_bytes (cache t) <= u64_max;
  o_export : 64 * KIB * KIB <= max_export_bytes t <= u64_max;
  o_retention : 1 <= pull_log_retention_days t <= 3650;
  o_entries : 100 <= pull_log_max_entries t <= 1000000;
  o_marks : fle (f64_ratio 1 2) (cache_high_watermark (cache t)) = true /\ fle (cache_high_watermark (cache t)) (f64_of_Z 1) = true /\
    fle (f64_ratio 1 10) (cache_low_watermark (cache t)) = true /\ fle (cache_low_watermark (cache t)) (f64_ratio 99 100) = true /\
    fle (cache_high_watermark (cache t)) (cache_low_watermark (cache t)) = false;
  o_algorithm : scheduler_algorithm t = "current-balanced" \/ scheduler_algorithm t = "projected-completion"
}.

(** Both addresses of the identity provider are HTTPS URLs. *)
Record oidc_ok (o : OidcConfig) : Prop := {
  o_issuer : exists u, url_parse api (oidc_issuer o) = Some u /\ url_scheme api u = "https";
  o_redirect : exists raw u, url_parse api raw = Some u /\ url_scheme api u = "https" /\ redirect_url o = url_text u;
  o_client : trim (client_id o) <> "" /\ trim (client_secret o) <> "";
  o_display : trim (oidc_display_name o) <> "" /\ slen (oidc_display_name o) <= 80
}.

(** The durations but the session lifetime are read and not bounded: each is what its
    variable, or the default, parses to. *)
Record durations_read (t : Tunable) : Prop := {
  d_upstream : parse_duration (env_or "DONKEY_UPSTREAM_TIMEOUT" "30s") = Some (upstream_timeout t);
  d_fallback : parse_duration (env_or "DONKEY_STREAM_FALLBACK_TIMEOUT" "10s") = Some (stream_fallback_timeout t);
  d_partial : parse_duration (env_or "DONKEY_PARTIAL_TTL" "1h") = Some (partial_ttl (cache t));
  d_health : parse_duration (env_or "DONKEY_HEALTH_INTERVAL" "60s") = Some (health_interval t);
  d_export : parse_duration (env_or "DONKEY_EXPORT_TTL" "7d") = Some (export_ttl t);
  d_cache : match optional_string "DONKEY_CACHE_TTL" with
            | None => cache_ttl (cache t) = None
            | Some v => is_some (cache_ttl (cache t)) = true /\ parse_duration v = cache_ttl (cache t)
            end
}.

Record fixed_ok (f : Fixed) : Prop := {
  o_tls : is_some (tls_cert f) = is_some (tls_key f);
  o_admin : unspecified (ip (admin_addr f)) = true ->
    is_some (admin_auth f) = true \/ is_some (initial_admin_username f) = true \/ is_some (oidc f) = true;
  o_registry : is_some (registry_auth f) = true -> is_some (tls_cert f) = true \/ registry_external_tls f = true;
  o_account : is_some (initial_admin_username f) = is_some (initial_admin_password f) /\
    (forall u, initial_admin_username f = Some u -> trim u <> "" /\ slen u <= 80) /\
    (forall p, initial_admin_password f = Some p -> 12 <= slen p <= 1024);
  o_session : 5 * minute <= session_ttl f <= 90 * day;
  o_oidc : forall o, oidc f = Some o -> oidc_ok o;
  o_allow : Forall (fun h => to_ascii_lowercase h = h /\ h <> "") (connect_allow (outbound f));
  o_remap : Forall (fun r => to_ascii_lowercase r.1 = r.1 /\ contains ":" r.1 = true /\ contains ":" r.2 = true) (connect_remap (outbound f))
}.

Lemma within_true lo hi n : within lo hi n = true <-> lo <= n <= hi.
Proof using Type. unfold within. rewrite andb_true_iff, !Z.leb_le. done. Qed.

Lemma u64_env_Ok k d lo hi v : u64_env k d lo hi = Ok v -> lo <= v <= hi.
Proof using Type.
  unfold u64_env. destruct (parse_u64 _); [|done]. cbn [ok_or]. destruct (within lo hi _) eqn:E; [|done].
  intros [= <-]. by apply within_true.
Qed.

Lemma f64_env_Ok k d lo hi v : f64_env k d lo hi = Ok v -> fle lo v = true /\ fle v hi = true.
Proof using Type.
  unfold f64_env. destruct (parse_f64 _) as [x|]; [|done]. cbn [ok_or]. destruct (negb _ || negb _) eqn:E; [done|].
  intros [= <-]. apply orb_false_iff in E as [_ E]. apply negb_false_iff in E. by apply andb_true_iff.
Qed.

Lemma scheduler_algorithm_env_Ok a : scheduler_algorithm_env = Ok a -> a = "current-balanced" \/ a = "projected-completion".
Proof using Type.
  unfold scheduler_algorithm_env, parse_algorithm. destruct (_ =?s "current"); [intros [= <-]; by left|].
  destruct (_ =?s "projected"); [intros [= <-]; by right|].
  destruct (_ =?s "current-balanced") eqn:E1; simpl; [intros [= <-]; apply str_eqb_eq in E1; by left|].
  destruct (_ =?s "projected-completion") eqn:E2; simpl; [intros [= <-]; apply str_eqb_eq in E2; by right|done].
Qed.

Lemma duration_env_Ok k default d : duration_env k default = Ok d -> parse_duration (env_or k default) = Some d.
Proof using Type. unfold duration_env. destruct (parse_duration _); [|done]. by intros [= ->]. Qed.

Lemma optional_duration_env_Ok k d : optional_duration_env k = Ok d ->
  match optional_string k with None => d = None | Some v => is_some d = true /\ parse_duration v = d end.
Proof using Type.
  unfold optional_duration_env. destruct (optional_string k) as [v|]; [|by intros [= <-]].
  destruct (parse_duration v); [|done]. by intros [= <-].
Qed.

Lemma is_empty_false s : is_empty s = false -> s <> "".
Proof using Type. by destruct s. Qed.

Lemma optional_string_Some k v : optional_string k = Some v -> trim v <> "".
Proof using Type.
  unfold optional_string. destruct (env k) as [x|]; [|done]. cbn. destruct (is_empty (trim x)) eqn:E; [done|].
  intros [= <-]. by apply is_empty_false.
Qed.

Lemma oidc_config_Ok o : oidc_config = Ok (Some o) -> oidc_ok o.
Proof using Type.
  unfold oidc_config, optional_secret. destruct (optional_string "DONKEY_OIDC_ISSUER") as [iss|],
    (optional_string "DONKEY_OIDC_CLIENT_ID") as [client|] eqn:Ec, (optional_string "DONKEY_OIDC_CLIENT_SECRET") as [secret|] eqn:Es',
    (optional_string "DONKEY_OIDC_REDIRECT_URL") as [r|]; try done.
  destruct (url_parse api iss) as [u|] eqn:Eu; [|done]. cbn [ok_or]. destruct (url_parse api r) as [v|] eqn:Ev; [|done]. cbn [ok_or].
  destruct (negb (url_scheme api u =?s "https") || _) eqn:Es; [done|]. destruct (is_empty _ || _) eqn:Ed; [done|]. intros [= <-].
  apply orb_false_iff in Es as [Es Es2], Ed as [Ed1 Ed2]. apply negb_false_iff, str_eqb_eq in Es, Es2. apply Z.ltb_ge in Ed2.
  split; simpl; [by exists u|by exists r, v| |split; [by apply is_empty_false|done]].
  split; by eapply optional_string_Some.
Qed.

Lemma collect_Ok {A E} (l : list (result A E)) r x : collect l = Ok r -> x ∈ r -> Ok x ∈ l.
Proof using Type.
  revert r. induction l as [|[y|e] l IH]; intros r; simpl; [by intros [= <-] ?%not_elem_of_nil| |done].
  destruct (collect l) as [r0|]; [|done]. intros [= <-] [->|Hx]%elem_of_cons; [by left|]. right. by apply (IH r0).
Qed.

Lemma csv_ok k : Forall (fun h => to_ascii_lowercase h = h /\ h <> "") (csv k).
Proof using Type.
  apply Forall_forall. intros x (y & -> & Hy)%list_elem_of_fmap. split; [apply to_ascii_lowercase_idemp|].
  unfold entries in Hy. apply list_elem_of_In, filter_In in Hy as [_ Hy]. by destruct y.
Qed.

Lemma contains_char c s : contains (String c "") s = negb (absent c s).
Proof using Type.
  unfold contains. induction s as [|x s IH]; [done|]. unfold absent. simpl. destruct (Ascii.eqb_spec c x) as [->|Hne].
  - by rewrite Ascii.eqb_refl.
  - destruct (Ascii.eqb_spec x c); [congruence|]. simpl. unfold absent in IH. rewrite <- IH. by destruct (split_once _ s) as [[]|].
Qed.

Lemma colon_lower s : absent ":" (to_ascii_lowercase s) = absent ":" s.
Proof using Type.
  unfold absent, to_ascii_lowercase. induction s as [|x s IH]; [done|]. simpl. rewrite IH. f_equal. f_equal.
  destruct x as [[] [] [] [] [] [] [] []]; reflexivity.
Qed.

Lemma parse_remaps_ok raw r : parse_remaps raw = Ok r ->
  Forall (fun r => to_ascii_lowercase r.1 = r.1 /\ contains ":" r.1 = true /\ contains ":" r.2 = true) r.
Proof using Type.
  intros H. apply Forall_forall. intros [source target] Hx. apply (collect_Ok _ _ _ H) in Hx.
  apply list_elem_of_fmap in Hx as (entry & E & _). unfold parse_remap in E.
  destruct (split_once "=" entry) as [[a b]|]; [|done]. destruct (is_empty a || _ || _ || _) eqn:Eb; [done|]. injection E as -> ->.
  apply orb_false_iff in Eb as [Eb E4]. apply orb_false_iff in Eb as [Eb E3]. apply negb_false_iff in E3, E4. simpl.
  split; [apply to_ascii_lowercase_idemp|]. split; [|done]. rewrite contains_char in *. by rewrite colon_lower.
Qed.

Ltac accept H :=
  repeat match type of H with
  | (match ?e with Ok _ => _ | Err _ => _ end) = Ok _ => let E := fresh "E" in destruct e eqn:E; [|discriminate H]
  | (if ?b then Err _ else _) = Ok _ => let E := fresh "E" in destruct b eqn:E; [discriminate H|]
  end.

(** C19: An accepted environment is a well-formed configuration.  Whatever the variables
    hold, in a configuration that is accepted the sizes, counts and watermarks are
    within the bounds of their variables, the low watermark below the high one; the
    certificate and its key come together, and so do the initial account's name and
    password, within their lengths; a credential for the registry comes with a
    certificate or the statement that TLS ends outside; an administration listener on
    every interface has some way to authenticate, with or without TLS; the session
    lifetime is five minutes to ninety days; the issuer and the redirect of an identity
    provider are HTTPS URLs; the host lists are in the form they are compared in.  The
    other durations are what their variables parse to, with no bound. *)
Theorem from_env_well_formed c : from_env = Ok c ->
  tunable_ok (tunable c) /\ durations_read (tunable c) /\ fixed_ok (fixed c).
Proof using Type.
  unfold from_env. cbv zeta. intros H. accept H. injection H as <-. cbn [fixed tunable].
  repeat match goal with
    | E : u64_env _ _ _ _ = Ok _ |- _ => apply u64_env_Ok in E
    | E : f64_env _ _ _ _ = Ok _ |- _ => apply f64_env_Ok in E
    | E : duration_env _ _ = Ok _ |- _ => apply duration_env_Ok in E
    | E : optional_duration_env _ = Ok _ |- _ => apply optional_duration_env_Ok in E
    | E : scheduler_algorithm_env = Ok _ |- _ => apply scheduler_algorithm_env_Ok in E
    | E : parse_remaps _ = Ok _ |- _ => apply parse_remaps_ok in E
    | E : negb (Bool.eqb _ _) = false |- _ => apply negb_false_iff, Bool.eqb_prop in E
    | E : negb (within _ _ _) = false |- _ => apply negb_false_iff, within_true in E
    end.
  cbn [registry_auth admin_auth] in *. split; [|split]; constructor; cbn -[f64_ratio f64_of_Z fle Z.mul u64_max]; try done; try apply csv_ok.
  - tauto.
  - intros Hu. match goal with E : _ && _ && _ && is_none _ = false |- _ => rewrite Hu in E; simpl in E; revert E end.
    unfold is_none. destruct (is_some (optional_secret "DONKEY_ADMIN_AUTH")); [by left|].
    destruct (is_some (optional_string "DONKEY_INITIAL_ADMIN_USERNAME")); [by right; left|].
    intros Hx. right. right. by apply negb_false_iff in Hx.
  - intros Hr. match goal with E : is_some _ && _ && _ = false |- _ => rewrite Hr in E; simpl in E; revert E end.
    unfold is_none. destruct (is_some (optional_path "DONKEY_TLS_CERT")); [by left|]. intros Hx. right. by apply negb_false_iff in Hx.
  - split; [done|]. split.
    { intros u Hu. match goal with E : is_some_and (optional_string _) _ = false |- _ => rewrite Hu in E; simpl in E;
        apply orb_false_iff in E as [Hlen Hname]; apply Z.ltb_ge in Hlen end. by split; [apply is_empty_false|]. }
    intros p Hp.
    match goal with E : is_some_and (optional_secret _) _ = false |- _ => rewrite Hp in E; simpl in E; apply negb_false_iff, within_true in E; exact E end.
  - intros o ->. by apply oidc_config_Ok.
Qed.

End Env.

Definition admin_secret_transport_is_secure (f : Fixed) : bool :=
  admin_external_tls f || admin_external_loopback f || loopback (ip (admin_addr f)).

End Config.

(** ** Instances *)

Module ConfigWitness.
Import Chunks Cache Config.

Definition decimals (s : string) : option f64 :=
  if s =?s "0.9" then Some (f64_ratio 9 10) else if s =?s "0.8" then Some (f64_ratio 8 10) else None.

Definition durations (s : string) : option Z :=
  if s =?s "7d" then Some (7 * day) else if s =?s "1h" then Some (60 * minute)
  else if s =?s "60s" then Some minute else if s =?s "30s" then Some (30 * second)
  else if s =?s "10s" then Some (10 * second) else None.

Definition nothing (k : string) : option string := if k =?s "DONKEY_ADMIN_ADDR" then Some "[::1]:5003" else None.

Abbreviation here := (from_env nothing decimals durations SecurityWitness.toy_url id).

Lemma here_accepted :
  match here with Ok c => loopback (ip (admin_addr (fixed c))) && (data_dir (fixed c) =?s "./data") | Err _ => false end = true.
Proof. vm_compute. reflexivity. Qed.

Lemma from_env_well_formed_witness : exists c, here = Ok c /\
  tunable_ok (tunable c) /\ durations_read nothing durations (tunable c) /\ fixed_ok SecurityWitness.toy_url id (fixed c).
Proof.
  pose proof here_accepted as H. destruct here as [c|e] eqn:E; [|discriminate H]. exists c. split; [reflexivity|].
  exact (from_env_well_formed nothing decimals durations SecurityWitness.toy_url id c E).
Defined.

End ConfigWitness.
