(* ===== verification/Settings.v ===== *)
(** * Runtime settings

    The settings the administration API changes while the server runs: the handlers
    [runtime] and [update_runtime] of src/src/api.rs with the statements on
    [runtime_settings] of src/src/db.rs, the construction of the services and
    [apply_runtime_config] of src/src/state.rs, and the [new] and [update_runtime] of
    each service.  The world is the table and the values the services hold behind
    their locks and atomics; each lock taken is one action of a handler (Prog.v).
    The text form of [f64] and the order in which SQLite returns rows are parameters. *)

From stdpp Require Import base gmap sets list strings pretty.
From Stdlib Require Import ZArith Lia Ascii Permutation.
From S2P Require Import Prelude F64 Text Errors Model Prog.
From S2P Require Import Chunks Scheduling Metrics Cache Security Config.

#[local] Set Default Proof Using "Type*".

(** [RuntimeSettingsInput]. *)
Module Input.
Record RuntimeSettingsInput := {
  chunk_size : Z;
  adaptive_chunking_enabled : bool;
  automatic_concurrency_enabled : bool;
  chunk_concurrency : Z;
  parallel_threshold : Z;
  resumable_threshold : Z;
  scheduler_policy : string;
  scheduler_algorithm : string;
  upstream_timeout_seconds : Z;
  stream_fallback_timeout_seconds : Z;
  partial_ttl_seconds : Z;
  max_cache_bytes : Z;
  cache_policy : string;
  cache_high_watermark : f64;
  cache_low_watermark : f64;
  cache_ttl_seconds : option Z;
  public_bearer_cache_enabled : bool;
  health_interval_seconds : Z;
  max_export_bytes : Z;
  export_ttl_seconds : Z;
  pull_logging_enabled : bool;
  pull_log_retention_days : Z;
  pull_log_max_entries : Z
}.
End Input.

Module Settings.
Import Chunks Scheduling Cache Config.
Abbreviation RuntimeSettingsInput := Input.RuntimeSettingsInput.

(** ** Validation and the stored form *)

Definition fwithin (lo hi x : f64) : bool := fle lo x && fle x hi.

Definition out_of_range (i : RuntimeSettingsInput) : bool :=
  negb (within (256 * 1024) (32 * 1024 * 1024) (Input.chunk_size i))
  || negb (within 1 64 (Input.chunk_concurrency i))
  || negb (within (1024 * 1024) u64_max (Input.parallel_threshold i))
  || negb (within (1024 * 1024) u64_max (Input.resumable_threshold i))
  || negb (within 1 3600 (Input.upstream_timeout_seconds i))
  || negb (within 1 3600 (Input.stream_fallback_timeout_seconds i))
  || negb (within 60 (7 * 24 * 3600) (Input.partial_ttl_seconds i))
  || negb (within (64 * 1024 * 1024) u64_max (Input.max_cache_bytes i))
  || negb (fwithin (f64_ratio 5 10) (f64_of_Z 1) (Input.cache_high_watermark i))
  || negb (fwithin (f64_ratio 1 10) (f64_ratio 99 100) (Input.cache_low_watermark i))
  || fle (Input.cache_high_watermark i) (Input.cache_low_watermark i)
  || negb (within 1 86400 (Input.health_interval_seconds i))
  || (Input.max_export_bytes i <? 64 * 1024 * 1024)
  || negb (within 60 (365 * 24 * 3600) (Input.export_ttl_seconds i))
  || negb (within 1 3650 (Input.pull_log_retention_days i))
  || negb (within 100 1000000 (Input.pull_log_max_entries i)).

Definition unknown_policy (i : RuntimeSettingsInput) : bool :=
  is_none (parse_policy (Input.scheduler_policy i)) || is_none (parse_algorithm (Input.scheduler_algorithm i))
  || is_none (parse_cache_policy (Input.cache_policy i)).

Definition validate_runtime_settings (i : RuntimeSettingsInput) : ApiResult unit :=
  if out_of_range i then Err (BadRequest "runtime settings are out of range")
  else if unknown_policy i then Err (BadRequest "runtime settings contain an invalid policy")
  else Ok tt.

(** [u64::to_string]. *)
Definition decimal (n : Z) : string := pretty (Z.to_N n).

Section Stored.
Variable f64_text : f64 -> string.

Definition runtime_setting_values (i : RuntimeSettingsInput) : list (string * string) :=
  [ ("chunk_size", decimal (Input.chunk_size i));
    ("adaptive_chunking_enabled", bool_text (Input.adaptive_chunking_enabled i));
    ("automatic_concurrency_enabled", bool_text (Input.automatic_concurrency_enabled i));
    ("chunk_concurrency", decimal (Input.chunk_concurrency i));
    ("parallel_threshold", decimal (Input.parallel_threshold i));
    ("resumable_threshold", decimal (Input.resumable_threshold i));
    ("scheduler_policy", Input.scheduler_policy i);
    ("scheduler_algorithm", Input.scheduler_algorithm i);
    ("upstream_timeout_seconds", decimal (Input.upstream_timeout_seconds i));
    ("stream_fallback_timeout_seconds", decimal (Input.stream_fallback_timeout_seconds i));
    ("partial_ttl_seconds", decimal (Input.partial_ttl_seconds i));
    ("max_cache_bytes", decimal (Input.max_cache_bytes i));
    ("cache_policy", Input.cache_policy i);
    ("cache_high_watermark", f64_text (Input.cache_high_watermark i));
    ("cache_low_watermark", f64_text (Input.cache_low_watermark i));
    ("cache_ttl_seconds", decimal (unwrap_or (Input.cache_ttl_seconds i) 0));
    ("public_bearer_cache_enabled", bool_text (Input.public_bearer_cache_enabled i));
    ("health_interval_seconds", decimal (Input.health_interval_seconds i));
    ("max_export_bytes", decimal (Input.max_export_bytes i));
    ("export_ttl_seconds", decimal (Input.export_ttl_seconds i));
    ("pull_logging_enabled", bool_text (Input.pull_logging_enabled i));
    ("pull_log_retention_days", decimal (Input.pull_log_retention_days i));
    ("pull_log_max_entries", decimal (Input.pull_log_max_entries i)) ].
End Stored.

(** The table [runtime_settings]: [key] is its primary key. *)
Abbreviation SettingsTable := (gmap string string).

(** [replace_runtime_settings], one transaction; an insert of a key that is there
    updates it. *)
Definition replace_runtime_settings (l : list (string * string)) : SettingsTable :=
  foldl (fun m kv => <[kv.1 := kv.2]> m) ∅ l.

(** [Display] of the policies. *)
Definition scheduler_policy_text (p : SchedulerPolicy) : string :=
  match p with Balanced => "balanced" | SpeedFirst => "speed-first" end.

Definition as_secs (d : Z) : Z := d / second.

(** The settings of a configuration, as [export_runtime] writes them. *)
Definition exported (t : Tunable) : RuntimeSettingsInput := {|
  Input.chunk_size := chunk_size (layout t);
  Input.adaptive_chunking_enabled := adaptive_chunking_enabled (layout t);
  Input.automatic_concurrency_enabled := automatic_concurrency_enabled (layout t);
  Input.chunk_concurrency := chunk_concurrency (layout t);
  Input.parallel_threshold := parallel_threshold (layout t);
  Input.resumable_threshold := resumable_threshold (layout t);
  Input.scheduler_policy := scheduler_policy_text (scheduler_policy t);
  Input.scheduler_algorithm := scheduler_algorithm t;
  Input.upstream_timeout_seconds := as_secs (upstream_timeout t);
  Input.stream_fallback_timeout_seconds := as_secs (stream_fallback_timeout t);
  Input.partial_ttl_seconds := as_secs (partial_ttl (cache t));
  Input.max_cache_bytes := max_cache_bytes (cache t);
  Input.cache_policy := policy_name (cache_policy (cache t));
  Input.cache_high_watermark := cache_high_watermark (cache t);
  Input.cache_low_watermark := cache_low_watermark (cache t);
  Input.cache_ttl_seconds := as_secs <$> cache_ttl (cache t);
  Input.public_bearer_cache_enabled := public_bearer_cache_enabled (cache t);
  Input.health_interval_seconds := as_secs (health_interval t);
  Input.max_export_bytes := max_export_bytes t;
  Input.export_ttl_seconds := as_secs (export_ttl t);
  Input.pull_logging_enabled := pull_logging_enabled t;
  Input.pull_log_retention_days := pull_log_retention_days t;
  Input.pull_log_max_entries := pull_log_max_entries t
|}.

(** ** The services *)

Inductive SchedulerAlgorithmKind := Current | ProjectedCompletion.

Definition parse_kind (s : string) : option SchedulerAlgorithmKind :=
  if (s =?s "current-balanced") || (s =?s "current") then Some Current
  else if (s =?s "projected-completion") || (s =?s "projected") then Some ProjectedCompletion
  else None.

Definition implementation (k : SchedulerAlgorithmKind) : Algorithm :=
  match k with Current => CurrentAlgorithm | ProjectedCompletion => ProjectedCompletionAlgorithm end.

(** [SchedulerRuntimeConfig], all of it: Chunks.v has the part the layout reads. *)
Record SchedulerRuntime := {
  sr_layout : SchedulerRuntimeConfig;
  sr_policy : SchedulerPolicy;
  sr_stream_fallback_timeout : Z
}.

Record NodeRuntimeConfig := { nr_policy : SchedulerPolicy; nr_upstream_timeout : Z; nr_health_interval : Z }.

Record ImageToolsRuntimeConfig := { ir_max_export_bytes : Z; ir_export_ttl : Z }.

Record RuntimeFlags := { rf_pull_logging_enabled : bool; rf_pull_log_retention_days : Z; rf_pull_log_max_entries : Z }.

(** What the running services hold, the cache apart (its store has its own): the
    scheduler and its selector's algorithm, the upstream service and the one of the
    image tools, the nodes, the image tools and the flags. *)
Record Services := {
  scheduler : SchedulerRuntime;
  selector : Algorithm;
  upstream : Z;
  nodes : NodeRuntimeConfig;
  image_tools : ImageToolsRuntimeConfig;
  tools_upstream : Z;
  runtime_flags : RuntimeFlags
}.

Definition scheduler_runtime_of (t : Tunable) : SchedulerRuntime :=
  {| sr_layout := layout t; sr_policy := scheduler_policy t; sr_stream_fallback_timeout := stream_fallback_timeout t |}.
Definition node_runtime_of (t : Tunable) : NodeRuntimeConfig :=
  {| nr_policy := scheduler_policy t; nr_upstream_timeout := upstream_timeout t; nr_health_interval := health_interval t |}.
Definition tools_runtime_of (t : Tunable) : ImageToolsRuntimeConfig :=
  {| ir_max_export_bytes := max_export_bytes t; ir_export_ttl := export_ttl t |}.
Definition flags_of (t : Tunable) : RuntimeFlags :=
  {| rf_pull_logging_enabled := pull_logging_enabled t; rf_pull_log_retention_days := pull_log_retention_days t;
     rf_pull_log_max_entries := pull_log_max_entries t |}.

Definition algorithm_of (t : Tunable) : Algorithm := implementation (unwrap_or (parse_kind (scheduler_algorithm t)) Current).

Record AppState := {
  config : Config;
  settings : SettingsTable;
  services : Services;
  store : CacheStore;
  clock : Z
}.

Definition with_settings (w : AppState) (m : SettingsTable) : AppState :=
  {| config := config w; settings := m; services := services w; store := store w; clock := clock w |}.
Definition with_services (w : AppState) (v : Services) : AppState :=
  {| config := config w; settings := settings w; services := v; store := store w; clock := clock w |}.
Definition with_store (w : AppState) (c : CacheStore) : AppState :=
  {| config := config w; settings := settings w; services := services w; store := c; clock := clock w |}.

Definition set_scheduler (x : SchedulerRuntime) (v : Services) : Services :=
  let '(Build_Services _ b c d e f g) := v in Build_Services x b c d e f g.
Definition set_selector (x : Algorithm) (v : Services) : Services :=
  let '(Build_Services a _ c d e f g) := v in Build_Services a x c d e f g.
Definition set_upstream (x : Z) (v : Services) : Services :=
  let '(Build_Services a b _ d e f g) := v in Build_Services a b x d e f g.
Definition set_nodes (x : NodeRuntimeConfig) (v : Services) : Services :=
  let '(Build_Services a b c _ e f g) := v in Build_Services a b c x e f g.
Definition set_image_tools (x : ImageToolsRuntimeConfig) (v : Services) : Services :=
  let '(Build_Services a b c d _ f g) := v in Build_Services a b c d x f g.
Definition set_tools_upstream (x : Z) (v : Services) : Services :=
  let '(Build_Services a b c d e _ g) := v in Build_Services a b c d e x g.
Definition set_flags (f : RuntimeFlags -> RuntimeFlags) (v : Services) : Services :=
  let '(Build_Services a b c d e f' g) := v in Build_Services a b c d e f' (f g).

Definition store_pull_logging (x : bool) (f : RuntimeFlags) : RuntimeFlags :=
  let '(Build_RuntimeFlags _ b c) := f in Build_RuntimeFlags x b c.
Definition store_retention (x : Z) (f : RuntimeFlags) : RuntimeFlags :=
  let '(Build_RuntimeFlags a _ c) := f in Build_RuntimeFlags a x c.
Definition store_entries (x : Z) (f : RuntimeFlags) : RuntimeFlags :=
  let '(Build_RuntimeFlags a b _) := f in Build_RuntimeFlags a b x.

(** ** The handlers *)

Abbreviation prog := (program AppState).

Definition act {A} (f : AppState -> A * AppState) : prog A := Act f Ret.
Definition put (f : Services -> Services) : prog unit := act (fun w => (tt, with_services w (f (services w)))).

(** [RuntimeConfig]; the addresses are kept as addresses. *)
Record RuntimeConfig := {
  v_admin_addr : SocketAddr;
  v_registry_addr : SocketAddr;
  v_tls_enabled : bool;
  v_private_upstreams : bool;
  v_settings : RuntimeSettingsInput;
  v_cache_used_bytes : Z;
  v_cache_entries : Z;
  v_admin_external_tls : bool;
  v_admin_external_loopback : bool;
  v_registry_external_tls : bool;
  v_registry_auth_enabled : bool
}.

Definition runtime_config (c : Config) (stats : CacheAggregate) : RuntimeConfig :=
  let f := fixed c in
  {| v_admin_addr := admin_addr f; v_registry_addr := registry_addr f; v_tls_enabled := is_some (tls_cert f);
     v_private_upstreams := allow_private_upstreams (outbound f); v_settings := exported (tunable c);
     v_cache_used_bytes := agg_bytes stats; v_cache_entries := Z.min (agg_entries stats) u64_max;
     v_admin_external_tls := admin_external_tls f; v_admin_external_loopback := admin_external_loopback f;
     v_registry_external_tls := registry_external_tls f; v_registry_auth_enabled := is_some (registry_auth f) |}.

Section Handlers.
Variable parse_f64 : string -> option f64.
Variable f64_text : f64 -> string.
(** The rows of the table in the order SQLite returns them, and those of the cache. *)
Variable rows : SettingsTable -> list (string * string).

Definition load_runtime_settings (m : SettingsTable) : list RuntimeSetting :=
  (fun kv => {| key := kv.1; value := kv.2 |}) <$> rows m.

Definition overridden (c : Config) (m : SettingsTable) : ApiResult Config :=
  match apply_runtime_overrides parse_f64 (tunable c) (load_runtime_settings m) with
  | Ok t => Ok {| fixed := fixed c; tunable := t |}
  | Err e => Err (Internal e)
  end.

Definition effective_config : prog (ApiResult Config) := read (fun w => overridden (config w) (settings w)).

Definition persist_runtime (i : RuntimeSettingsInput) : prog (ApiResult unit) :=
  match validate_runtime_settings i with
  | Err e => Ret (Err e)
  | Ok _ => act (fun w => (Ok tt, with_settings w (replace_runtime_settings (runtime_setting_values f64_text i))))
  end.

(** [update_runtime] of the scheduler, the cache, the upstream service, the nodes and
    the image tools, and [RuntimeFlags::update]. *)
Definition scheduler_update_runtime (t : Tunable) : prog unit :=
  let- _ := put (set_scheduler (scheduler_runtime_of t)) in
  put (set_selector (algorithm_of t)).

Definition cache_update_runtime (t : Tunable) : prog unit :=
  act (fun w => (tt, with_store w (Cache.update_runtime (store w) (cache t)))).

Definition image_tools_update_runtime (t : Tunable) : prog unit :=
  let- _ := put (set_image_tools (tools_runtime_of t)) in
  put (set_tools_upstream (upstream_timeout t)).

Definition update_flags (t : Tunable) : prog unit :=
  let- _ := put (set_flags (store_pull_logging (pull_logging_enabled t))) in
  let- _ := put (set_flags (store_retention (pull_log_retention_days t))) in
  put (set_flags (store_entries (pull_log_max_entries t))).

Definition apply_runtime_config (c : Config) : prog unit :=
  let t := tunable c in
  let- _ := scheduler_update_runtime t in
  let- _ := cache_update_runtime t in
  let- _ := put (set_upstream (upstream_timeout t)) in
  let- _ := put (set_nodes (node_runtime_of t)) in
  let- _ := image_tools_update_runtime t in
  update_flags t.

Definition cache_stats : prog (ApiResult CacheAggregate) :=
  act (fun w => let (r, c) := Cache.stats (store w) (clock w) in (r, with_store w c)).

Definition runtime_response (c : Config) : prog (ApiResult RuntimeConfig) :=
  let! stats := cache_stats in Ret (Ok (runtime_config c stats)).

Definition update_runtime (i : RuntimeSettingsInput) : prog (ApiResult RuntimeConfig) :=
  let! _ := persist_runtime i in
  let! effective := effective_config in
  let- _ := apply_runtime_config effective in
  runtime_response effective.

Definition runtime : prog (ApiResult RuntimeConfig) :=
  let! stats := cache_stats in
  let! effective := effective_config in
  Ret (Ok (runtime_config effective stats)).

(** [AppState::new_from_config]: the values the services are built with.  The parts of
    the constructors that read no setting are those of the services' own files. *)
Definition services_of (t : Tunable) (algorithm : Algorithm) : Services :=
  {| scheduler := scheduler_runtime_of t; selector := algorithm; upstream := upstream_timeout t;
     nodes := node_runtime_of t; image_tools := tools_runtime_of t; tools_upstream := upstream_timeout t;
     runtime_flags := flags_of t |}.

Definition new_from_config (c : Config) (algorithm_override : option SchedulerAlgorithmKind) (table : SettingsTable)
    (has_authenticated_nodes : bool) (contents : CacheStore) (now : Z) : ApiResult AppState :=
  let? c := overridden c table in
  let t := tunable c in
  let algorithm := unwrap_or algorithm_override (unwrap_or (parse_kind (scheduler_algorithm t)) Current) in
  if is_none (registry_auth (fixed c)) && has_authenticated_nodes
  then Err (BadRequest "DONKEY_REGISTRY_AUTH is required because authenticated upstream nodes are stored")
  else Ok {| config := c; settings := table; services := services_of t (implementation algorithm);
             store := Cache.update_runtime contents (cache t); clock := now |}.

Definition new (c : Config) : SettingsTable -> bool -> CacheStore -> Z -> ApiResult AppState := new_from_config c None.
End Handlers.

End Settings.

(** ** What is stored is what is read back *)

Module SettingsProps.
Import Chunks Scheduling Cache Config Settings.

Lemma Ok_inj {A E} (a b : A) : @Ok A E a = Ok b -> a = b.
Proof. by intros [=]. Qed.

(** *** Decimal text *)

Lemma digits_value_app s t acc n : digits_value acc s = Some n -> digits_value acc (s +:+ t) = digits_value n t.
Proof.
  revert acc. induction s as [|c s IH]; intros acc; simpl; [by intros [= ->]|]. destruct (is_ascii_digit c); [|done]. apply IH.
Qed.

Lemma digits_value_go (x : N) s n :
  digits_value (Z.of_N x) s = Some n -> digits_value 0 (pretty_N_go x s) = Some n.
Proof.
  revert s n. induction (N.lt_wf_0 x) as [x _ IH]. intros s n H.
  destruct (decide (x = 0%N)) as [->|Hx]; [by rewrite pretty_N_go_0|].
  rewrite pretty_N_go_step by lia. apply IH; [apply N.div_lt; lia|]. simpl.
  assert (x `mod` 10 < 10)%N as Hm by (apply N.mod_lt; lia).
  assert (Z.of_N x = Z.of_N (x `div` 10) * 10 + Z.of_N (x `mod` 10)) as E by (pose proof (N.div_mod x 10); lia).
  revert E Hm. generalize (x `mod` 10)%N. intros d E Hd.
  assert (is_ascii_digit (pretty_N_char d) = true /\ code (pretty_N_char d) - 48 = Z.of_N d) as [-> ->]; [|by rewrite <- E].
  destruct d as [|q]; [done|]. do 4 (destruct q as [q|q|]; try done); lia.
Qed.

Lemma parse_u64_decimal n : 0 <= n <= u64_max -> parse_u64 (decimal n) = Some n.
Proof.
  intros Hn. assert (exists c s, decimal n = String c s /\ is_ascii_digit c = true /\ digits_value 0 (decimal n) = Some n) as (c & s & E & Hc & Hv).
  { unfold decimal. assert (digits_value 0 (pretty (Z.to_N n)) = Some n) as Hv.
    { unfold pretty, pretty_N. case_decide as H0; [|apply digits_value_go; simpl; f_equal; lia].
      by replace n with 0 by lia. }
    pose proof (all_bytes_pretty_N is_ascii_digit (Z.to_N n) eq_refl) as Hd.
    destruct (pretty (Z.to_N n)) as [|c s] eqn:E; [exfalso|exists c, s; simpl in Hd; apply andb_true_iff in Hd as [? _]; done].
    injection Hv as <-. done. }
  unfold parse_u64, parse_unsigned. assert (strip_prefix "+" (decimal n) = None) as ->.
  { rewrite E. simpl. destruct c as [[] [] [] [] [] [] [] []]; try done. }
  rewrite Hv. rewrite E. simpl. destruct (Z.leb_spec n u64_max); [done|lia].
Qed.

(** *** The settings as a vector

    A [Tunable] is a vector of values, one per key; a stored row assigns one slot. *)

Inductive fval :=
| FNum (n : Z) | FBool (b : bool) | FPolicy (p : SchedulerPolicy) | FAlgorithm (s : string)
| FCachePolicy (p : CachePolicy) | FFloat (x : f64) | FTtl (o : option Z).

Definition values (t : Tunable) : list fval :=
  [ FNum (chunk_size (layout t)); FBool (adaptive_chunking_enabled (layout t));
    FBool (automatic_concurrency_enabled (layout t)); FNum (chunk_concurrency (layout t));
    FNum (parallel_threshold (layout t)); FNum (resumable_threshold (layout t));
    FPolicy (scheduler_policy t); FAlgorithm (scheduler_algorithm t); FNum (upstream_timeout t);
    FNum (stream_fallback_timeout t); FNum (partial_ttl (cache t)); FNum (max_cache_bytes (cache t));
    FCachePolicy (cache_policy (cache t)); FFloat (cache_high_watermark (cache t));
    FFloat (cache_low_watermark (cache t)); FTtl (cache_ttl (cache t)); FBool (public_bearer_cache_enabled (cache t));
    FNum (health_interval t); FNum (max_export_bytes t); FNum (export_ttl t); FBool (pull_logging_enabled t);
    FNum (pull_log_retention_days t); FNum (pull_log_max_entries t) ].

Lemma values_inj t t' : values t = values t' -> t = t'.
Proof.
  destruct t as [[] ? ? ? ? [] ? ? ? ? ? ?], t' as [[] ? ? ? ? [] ? ? ? ? ? ?]. unfold values. simpl. intros H.
  injection H. intros. by subst.
Qed.

Section Rows.
Variable parse_f64 : string -> option f64.

(** The slot of a key, and its value read from text. *)
Definition slots : list (string * (string -> option fval)) :=
  let num v := FNum <$> parse_u64 v in
  let secs v := FNum <$> seconds v in
  let flag v := FBool <$> parse_bool v in
  [ ("chunk_size", num); ("adaptive_chunking_enabled", flag); ("automatic_concurrency_enabled", flag);
    ("chunk_concurrency", num); ("parallel_threshold", num); ("resumable_threshold", num);
    ("scheduler_policy", fun v => FPolicy <$> parse_policy v); ("scheduler_algorithm", fun v => FAlgorithm <$> parse_algorithm v);
    ("upstream_timeout_seconds", secs); ("stream_fallback_timeout_seconds", secs); ("partial_ttl_seconds", secs);
    ("max_cache_bytes", num); ("cache_policy", fun v => FCachePolicy <$> parse_cache_policy v);
    ("cache_high_watermark", fun v => FFloat <$> parse_f64 v); ("cache_low_watermark", fun v => FFloat <$> parse_f64 v);
    ("cache_ttl_seconds", fun v => FTtl <$> parse_cache_ttl v); ("public_bearer_cache_enabled", flag);
    ("health_interval_seconds", secs); ("max_export_bytes", num); ("export_ttl_seconds", secs);
    ("pull_logging_enabled", flag); ("pull_log_retention_days", num); ("pull_log_max_entries", num) ].

(** The assignment a row makes: [None] when its text does not parse, [Some None] when
    its key is unknown. *)
Fixpoint assigned (j : nat) (l : list (string * (string -> option fval))) (s : RuntimeSetting) : option (option (nat * fval)) :=
  match l with
  | [] => Some None
  | (k, read) :: l => if key s =?s k then (fun x => Some (j, x)) <$> read (value s) else assigned (S j) l s
  end.

Abbreviation assignment := (assigned 0 slots).

Definition assign (vs : list fval) (p : option (nat * fval)) : list fval :=
  match p with Some (j, x) => <[j := x]> vs | None => vs end.

Lemma apply_setting_values t s :
  match assignment s with
  | None => apply_setting parse_f64 t s = None
  | Some p => exists t', apply_setting parse_f64 t s = Some t' /\ values t' = assign (values t) p
  end.
Proof using Type.
  unfold apply_setting, slots. cbn [assigned].
  repeat match goal with
  | |- context [key s =?s ?k] =>
      destruct (key s =?s k);
      [match goal with |- context [_ <$> (_ <$> ?e)] => destruct e; [eexists; split; [reflexivity|]; by destruct t as [[] ? ? ? ? [] ? ? ? ? ? ?]|done] end|]
  end.
  by exists t.
Qed.

Lemma apply_settings_values t l : forall ps,
  Forall2 (fun s p => assignment s = Some p) l ps ->
  exists t', apply_settings parse_f64 t l = Some t' /\ values t' = foldl assign (values t) ps.
Proof using Type.
  revert t. induction l as [|s l IH]; intros t ps H; [apply Forall2_nil_inv_l in H as ->; by exists t|].
  apply Forall2_cons_inv_l in H as (p & ps' & Hs & H & ->). pose proof (apply_setting_values t s) as Ht.
  rewrite Hs in Ht. destruct Ht as (t1 & E1 & V1). destruct (IH t1 _ H) as (t' & E & V).
  exists t'. simpl. rewrite E1, V, V1. done.
Qed.

Lemma apply_settings_assignments t l t' : apply_settings parse_f64 t l = Some t' ->
  exists ps, Forall2 (fun s p => assignment s = Some p) l ps.
Proof using Type.
  revert t. induction l as [|s l IH]; intros t H; [by exists []|]. simpl in H.
  pose proof (apply_setting_values t s) as Ht. destruct (assignment s) as [p|] eqn:Es; [|by rewrite Ht in H].
  destruct Ht as (t1 & E1 & _). rewrite E1 in H. destruct (IH _ H) as (ps & Hps). exists (p :: ps). by constructor.
Qed.

(** *** The vector a list of assignments leaves *)

Definition last_write (ps : list (option (nat * fval))) (j : nat) (x : option fval) : option fval :=
  foldl (fun acc p => match p with Some (k, v) => if decide (k = j) then Some v else acc | None => acc end) x ps.

Lemma assign_length vs ps : length (foldl assign vs ps) = length vs.
Proof using Type.
  revert vs. induction ps as [|[[k v]|] ps IH]; intros vs; simpl; [done| |by apply IH]. rewrite IH. apply length_insert.
Qed.

Lemma assign_lookup ps : forall vs j, (j < length vs)%nat -> foldl assign vs ps !! j = last_write ps j (vs !! j).
Proof using Type.
  induction ps as [|[[k v]|] ps IH]; intros vs j Hj; simpl; [done| |by apply IH].
  rewrite IH by (by rewrite length_insert). f_equal. destruct (decide (k = j)) as [->|Hne].
  - by rewrite list_lookup_insert_eq.
  - by rewrite list_lookup_insert_ne.
Qed.

Lemma last_write_absent ps j x : (forall v, Some (j, v) ∉ ps) -> last_write ps j x = x.
Proof using Type.
  unfold last_write. revert x. induction ps as [|[[k v]|] ps IH]; intros x H; simpl; [done| |].
  - destruct (decide (k = j)) as [->|]; [destruct (H v); by left|]. apply IH. intros v' Hv. apply (H v'). by right.
  - apply IH. intros v' Hv. apply (H v'). by right.
Qed.

(** The last write does not depend on what was there, once there is one. *)
Lemma last_write_some ps j x : last_write ps j x = x \/ exists v, forall y, last_write ps j y = Some v.
Proof using Type.
  unfold last_write. revert x. induction ps as [|[[k v]|] ps IH]; intros x; simpl; [by left| |apply IH].
  destruct (decide (k = j)) as [->|]; [|apply IH]. right. destruct (IH (Some v)) as [E|(v' & E)].
  - exists v. by intros _.
  - by exists v'.
Qed.

Lemma last_write_twice ps j x : last_write ps j (last_write ps j x) = last_write ps j x.
Proof using Type. destruct (last_write_some ps j x) as [E|(v & E)]; [by rewrite !E|by rewrite !E]. Qed.

Lemma last_write_unique ps j v x : NoDup (fst <$> omap (fun p => p) ps) -> Some (j, v) ∈ ps -> last_write ps j x = Some v.
Proof using Type.
  unfold last_write. revert x. induction ps as [|[[k u]|] ps IH]; intros x Hn Hp; [by apply not_elem_of_nil in Hp| |].
  - simpl in Hn. apply NoDup_cons in Hn as [Hk Hn]. simpl. apply elem_of_cons in Hp as [E|Hp]; [|by apply IH].
    injection E as -> ->. rewrite decide_True by done. change (last_write ps k (Some u) = Some u).
    apply last_write_absent. intros w Hw. apply Hk, list_elem_of_fmap. exists (k, w). split; [done|].
    apply list_elem_of_omap. by exists (Some (k, w)).
  - apply elem_of_cons in Hp as [?|Hp]; [done|]. by apply IH.
Qed.

(** Rows applied to a configuration they were applied to change nothing. *)
Lemma apply_settings_idemp t l t' : apply_settings parse_f64 t l = Some t' -> apply_settings parse_f64 t' l = Some t'.
Proof using Type.
  intros H. destruct (apply_settings_assignments _ _ _ H) as (ps & Hps).
  destruct (apply_settings_values t l ps Hps) as (t1 & E1 & V1). rewrite E1 in H. injection H as ->.
  destruct (apply_settings_values t' l ps Hps) as (t2 & E2 & V2). rewrite E2. f_equal. apply values_inj.
  rewrite V2, V1. apply list_eq. intros j. destruct (decide (j < length (values t))%nat) as [Hj|Hj].
  - rewrite !assign_lookup by (rewrite ?assign_length; done). apply last_write_twice.
  - rewrite !lookup_ge_None_2; [done|rewrite ?assign_length; lia..].
Qed.

(** Rows that assign every slot once, in any order, determine the configuration. *)
Lemma apply_settings_total t l t' :
  (assignment <$> l) ≡ₚ imap (fun j x => Some (Some (j, x))) (values t') -> apply_settings parse_f64 t l = Some t'.
Proof using Type.
  intros HP.
  assert (exists ps, Forall2 (fun s p => assignment s = Some p) l ps /\ ps ≡ₚ imap (fun j x => Some (j, x)) (values t')) as (ps & Hps & Pps).
  { assert (imap (fun j x => Some (Some (j, x))) (values t') = Some <$> imap (fun j x => Some (j, x)) (values t')) as E by done.
    rewrite E in HP. destruct (Permutation_map_inv Some (imap (fun j x => Some (j, x)) (values t')) HP) as (ps & E' & P).
    exists ps. split; [|by symmetry]. apply list_eq_Forall2 in E'. by apply (Forall2_fmap _ Some eq) in E'. }
  destruct (apply_settings_values t l ps Hps) as (t1 & E1 & V1). rewrite E1. f_equal. apply values_inj. rewrite V1.
  apply list_eq. intros j. destruct (decide (j < length (values t))%nat) as [Hj|Hj].
  - rewrite assign_lookup by done. destruct (lookup_lt_is_Some_2 (values t') j Hj) as [v Hv]. rewrite Hv.
    apply last_write_unique; [|rewrite Pps; apply list_elem_of_lookup; exists j; rewrite list_lookup_imap, Hv; done].
    rewrite Pps. apply (bool_decide_unpack _). by vm_compute.
  - rewrite !lookup_ge_None_2; [done|simpl in *; rewrite ?assign_length; simpl; lia..].
Qed.
End Rows.

(** *** What an accepted input describes *)

(** The values the fields of the input can have: [u64], [usize] and [f64]. *)
Record typed (i : RuntimeSettingsInput) : Prop := {
  ty_chunk : 0 <= Input.chunk_size i <= u64_max;
  ty_concurrency : 0 <= Input.chunk_concurrency i <= u64_max;
  ty_parallel : 0 <= Input.parallel_threshold i <= u64_max;
  ty_resumable : 0 <= Input.resumable_threshold i <= u64_max;
  ty_upstream : 0 <= Input.upstream_timeout_seconds i <= u64_max;
  ty_stream : 0 <= Input.stream_fallback_timeout_seconds i <= u64_max;
  ty_partial : 0 <= Input.partial_ttl_seconds i <= u64_max;
  ty_cache : 0 <= Input.max_cache_bytes i <= u64_max;
  ty_high : SpecFloat.valid_binary prec emax (Input.cache_high_watermark i) = true;
  ty_low : SpecFloat.valid_binary prec emax (Input.cache_low_watermark i) = true;
  ty_ttl : 0 <= unwrap_or (Input.cache_ttl_seconds i) 0 <= u64_max;
  ty_health : 0 <= Input.health_interval_seconds i <= u64_max;
  ty_export : 0 <= Input.max_export_bytes i <= u64_max;
  ty_export_ttl : 0 <= Input.export_ttl_seconds i <= u64_max;
  ty_retention : 0 <= Input.pull_log_retention_days i <= u64_max;
  ty_entries : 0 <= Input.pull_log_max_entries i <= u64_max
}.

(** The configuration an input stands for; no time to live and zero are the same. *)
Definition configured (i : RuntimeSettingsInput) : Tunable := {|
  layout := {| chunk_size := Input.chunk_size i; adaptive_chunking_enabled := Input.adaptive_chunking_enabled i;
               automatic_concurrency_enabled := Input.automatic_concurrency_enabled i;
               parallel_threshold := Input.parallel_threshold i; resumable_threshold := Input.resumable_threshold i;
               chunk_concurrency := Input.chunk_concurrency i |};
  scheduler_policy := unwrap_or (parse_policy (Input.scheduler_policy i)) Balanced;
  scheduler_algorithm := Input.scheduler_algorithm i;
  upstream_timeout := Input.upstream_timeout_seconds i * second;
  stream_fallback_timeout := Input.stream_fallback_timeout_seconds i * second;
  cache := {| partial_ttl := Input.partial_ttl_seconds i * second;
              cache_ttl := let n := unwrap_or (Input.cache_ttl_seconds i) 0 in if 0 <? n then Some (n * second) else None;
              max_cache_bytes := Input.max_cache_bytes i;
              cache_policy := unwrap_or (parse_cache_policy (Input.cache_policy i)) BalancedPolicy;
              cache_high_watermark := Input.cache_high_watermark i; cache_low_watermark := Input.cache_low_watermark i;
              public_bearer_cache_enabled := Input.public_bearer_cache_enabled i |};
  health_interval := Input.health_interval_seconds i * second;
  max_export_bytes := Input.max_export_bytes i;
  export_ttl := Input.export_ttl_seconds i * second;
  pull_logging_enabled := Input.pull_logging_enabled i;
  pull_log_retention_days := Input.pull_log_retention_days i;
  pull_log_max_entries := Input.pull_log_max_entries i
|}.

(** The input a second export gives: zero is no time to live. *)
Definition canonical (i : RuntimeSettingsInput) : RuntimeSettingsInput :=
  let '(Input.Build_RuntimeSettingsInput a b c d e f g h j k l m n o p ttl q r s t u v w) := i in
  Input.Build_RuntimeSettingsInput a b c d e f g h j k l m n o p
    (match ttl with Some z => if 0 <? z then Some z else None | None => None end) q r s t u v w.

Lemma settings_valid i : validate_runtime_settings i = Ok tt ->
  out_of_range i = false /\ (exists p, parse_policy (Input.scheduler_policy i) = Some p) /\
  parse_algorithm (Input.scheduler_algorithm i) = Some (Input.scheduler_algorithm i) /\
  (exists p, parse_cache_policy (Input.cache_policy i) = Some p).
Proof.
  unfold validate_runtime_settings. destruct (out_of_range i); [done|]. unfold unknown_policy.
  destruct (parse_policy _) as [p|]; [|done]. destruct (parse_algorithm _) as [a|] eqn:Ea; [|done].
  destruct (parse_cache_policy _) as [q|]; [|done]. intros _. repeat split; [by exists p| |by exists q].
  unfold parse_algorithm in *. by destruct (_ || _).
Qed.

Section Laws.
Variable parse_f64 : string -> option f64.
Variable f64_text : f64 -> string.
Variable rows : SettingsTable -> list (string * string).
(** [Display] and [FromStr] of [f64] round-trip, and a query returns each row once. *)
Hypothesis f64_roundtrip : forall x, SpecFloat.valid_binary prec emax x = true -> parse_f64 (f64_text x) = Some x.
Hypothesis rows_scan : forall m, rows m ≡ₚ map_to_list m.

Lemma bool_roundtrip b : parse_bool (bool_text b) = Some b.
Proof using Type. by destruct b. Qed.

Definition setting_of (kv : string * string) : RuntimeSetting := {| key := kv.1; value := kv.2 |}.

Lemma stored_assignments i : typed i -> validate_runtime_settings i = Ok tt ->
  assigned 0 (slots parse_f64) <$> (setting_of <$> runtime_setting_values f64_text i)
  = imap (fun j x => Some (Some (j, x))) (values (configured i)).
Proof using f64_roundtrip.
  intros [] (_ & [p Hp] & Ha & [q Hq])%settings_valid. unfold slots, values, runtime_setting_values.
  cbn -[parse_u64 decimal parse_bool bool_text parse_policy parse_algorithm parse_cache_policy second].
  unfold seconds, parse_cache_ttl. rewrite !bool_roundtrip, !parse_u64_decimal, !f64_roundtrip, Hp, Ha, Hq by done. done.
Qed.

Lemma replace_perm l : NoDup l.*1 -> map_to_list (replace_runtime_settings l) ≡ₚ l.
Proof using Type.
  unfold replace_runtime_settings. intros Hn.
  assert (forall (m : SettingsTable) , (forall k, k ∈ l.*1 -> m !! k = None) ->
    map_to_list (foldl (fun m kv => <[kv.1 := kv.2]> m) m l) ≡ₚ l ++ map_to_list m) as H; [|rewrite (H ∅), map_to_list_empty, app_nil_r; [done|intros; apply lookup_empty]].
  induction l as [|[k v] l IH]; intros m Hm; [done|]. simpl in *. apply NoDup_cons in Hn as [Hk Hn].
  rewrite IH; [|done|].
  - rewrite map_to_list_insert by (apply Hm; by left). by rewrite <- Permutation_middle.
  - intros k' Hk'. rewrite lookup_insert_ne; [apply Hm; by right|]. by intros ->.
Qed.

Lemma stored_keys i : NoDup (runtime_setting_values f64_text i).*1.
Proof using Type. apply (bool_decide_unpack _). by vm_compute. Qed.

Lemma configured_in_range i : validate_runtime_settings i = Ok tt ->
  fle (cache_high_watermark (cache (configured i))) (cache_low_watermark (cache (configured i))) = false /\
  in_range (configured i) = true.
Proof using Type.
  intros (H & _)%settings_valid. unfold out_of_range in H. rewrite !orb_false_iff in H. split; [apply H|].
  destruct H as [[[[[[[[[[[[[[[H1 H2] H3] H4] H5] H6] H7] H8] _] _] _] _] H9] _] H10] H11].
  apply negb_false_iff, within_true in H1, H2, H3, H4, H5, H6, H7, H8, H10, H11. apply Z.ltb_ge in H9.
  unfold in_range, configured, within, KIB, second. cbn [layout cache chunk_size chunk_concurrency parallel_threshold resumable_threshold
    upstream_timeout stream_fallback_timeout partial_ttl max_cache_bytes max_export_bytes pull_log_retention_days pull_log_max_entries].
  rewrite !andb_true_iff, !negb_true_iff, !Z.leb_le, !Z.eqb_neq. unfold u64_max in *. lia.
Qed.

(** Whatever the rest of the configuration was, an accepted input replaces all of it,
    in any order of the rows. *)
Lemma stored_overrides i t : typed i -> validate_runtime_settings i = Ok tt ->
  apply_runtime_overrides parse_f64 t (load_runtime_settings rows (replace_runtime_settings (runtime_setting_values f64_text i)))
  = Ok (configured i).
Proof using All.
  intros Hi Hv. pose proof (configured_in_range i Hv) as [Hm Hr]. unfold apply_runtime_overrides.
  rewrite (apply_settings_total parse_f64 t _ (configured i)).
  - by rewrite Hm, Hr, andb_false_r.
  - rewrite <- (stored_assignments i) by done. unfold load_runtime_settings. apply fmap_Permutation, fmap_Permutation.
    rewrite rows_scan. apply replace_perm, stored_keys.
Qed.

Lemma exported_configured i : validate_runtime_settings i = Ok tt -> exported (configured i) = canonical i.
Proof using Type.
  intros (_ & [p Hp] & _ & [q Hq])%settings_valid. unfold exported, configured. simpl. rewrite Hp, Hq.
  unfold as_secs. rewrite !Z.div_mul by done.
  assert (scheduler_policy_text p = Input.scheduler_policy i) as Ep.
  { unfold parse_policy in Hp. repeat case_match; simplify_eq; symmetry; by apply str_eqb_eq. }
  assert (policy_name q = Input.cache_policy i) as Eq.
  { unfold parse_cache_policy in Hq. repeat case_match; simplify_eq; symmetry; by apply str_eqb_eq. }
  simpl. rewrite Ep, Eq. destruct i as [? ? ? ? ? ? ? ? ? ? ? ? ? ? ? [n|] ? ? ? ? ? ? ?]; simpl; [|done].
  destruct (0 <? n); simpl; [|done]. by rewrite Z.div_mul.
Qed.

(** *** The handlers *)

Abbreviation update i := (update_runtime parse_f64 f64_text rows i).
Abbreviation show := (runtime parse_f64 rows).
Abbreviation start := (new parse_f64 rows).

Lemma stats_runtime s now : Cache.runtime (Cache.stats s now).2 = Cache.runtime s.
Proof using Type.
  unfold Cache.stats, Cache.aggregate. case_match; simpl; apply sr_runtime, flush_hits_same.
Qed.

(** What a configuration puts in the services. *)
Definition installed (t : Tunable) (w : AppState) : Prop :=
  services w = services_of t (algorithm_of t) /\ Cache.runtime (store w) = cache t.

Lemma update_refused i w e : validate_runtime_settings i = Err e -> run (update i) w = (Err e, w).
Proof using Type. intros H. unfold update_runtime, persist_runtime. by rewrite H. Qed.

Lemma update_accepted i w : typed i -> validate_runtime_settings i = Ok tt ->
  let w' := (run (update i) w).2 in
  settings w' = replace_runtime_settings (runtime_setting_values f64_text i) /\ config w' = config w /\
  installed (configured i) w' /\
  (run (update i) w).1 = let? stats := (Cache.stats (Cache.update_runtime (store w) (cache (configured i))) (clock w)).1 in
    Ok (runtime_config {| fixed := fixed (config w); tunable := configured i |} stats).
Proof using All.
  intros Hi Hv. unfold update_runtime, persist_runtime. rewrite Hv. cbn -[replace_runtime_settings Cache.stats].
  unfold overridden. cbn -[replace_runtime_settings Cache.stats]. rewrite stored_overrides by done.
  cbn -[replace_runtime_settings Cache.stats]. set (t := configured i).
  pose proof (stats_runtime (Cache.update_runtime (store w) (cache t)) (clock w)) as Hs.
  destruct (Cache.stats _ _) as [[stats|e] c] eqn:E; cbn -[replace_runtime_settings] in *;
    (split; [done|]; split; [done|]; split; [|done]; split; [|done]); by destruct (services w) as [? ? ? ? ? ? []].
Qed.

(** The requests of the server one at a time, and whatever changes neither the
    settings nor what the services hold of them. *)
Inductive served : AppState -> AppState -> Prop :=
| served_update i w : typed i -> served w (run (update i) w).2
| served_show w : served w (run show w).2
| served_other w w' : config w' = config w -> settings w' = settings w -> services w' = services w ->
    Cache.runtime (store w') = Cache.runtime (store w) -> served w w'.

(** A restart from the same environment gives the services what they hold now. *)
Definition restarts (env : Config) (w : AppState) : Prop :=
  exists c, overridden parse_f64 rows env (settings w) = Ok c /\ fixed c = fixed env /\ installed (tunable c) w.

Lemma restarts_kept env w w' : restarts env w -> settings w' = settings w -> services w' = services w ->
  Cache.runtime (store w') = Cache.runtime (store w) -> restarts env w'.
Proof using Type. intros (c & Hc & Hf & Hs & Hr) E1 E2 E3. exists c. rewrite E1. unfold installed. by rewrite E2, E3. Qed.

Lemma served_restarts env w w' : served w w' -> restarts env w -> restarts env w'.
Proof using All.
  intros [i w1 Hi|w1|w1 w2 _ H1 H2 H3] H; [| |by eapply restarts_kept].
  - destruct (validate_runtime_settings i) as [[]|e] eqn:Ev; [|by rewrite (update_refused _ _ _ Ev)].
    destruct (update_accepted i w1 Hi Ev) as (Hs & _ & Ht & _).
    exists {| fixed := fixed env; tunable := configured i |}. split; [|done].
    rewrite Hs. unfold overridden. by rewrite stored_overrides.
  - unfold runtime, cache_stats. cbn -[Cache.stats]. pose proof (stats_runtime (store w1) (clock w1)) as Hs.
    destruct (Cache.stats _ _) as [[stats|e] c]; cbn in *; [destruct (overridden _ _ _ _)|]; by eapply restarts_kept.
Qed.

Lemma new_Ok env table auth contents now w : start env table auth contents now = Ok w ->
  restarts env w /\ settings w = table.
Proof using Type.
  unfold new, new_from_config. destruct (overridden _ _ _ _) as [c|] eqn:E; [|done]. case_match; [done|].
  intros [= <-]. split; [|done]. exists c. split; [done|]. split; [|done].
  unfold overridden in E. by destruct (apply_runtime_overrides _ _ _); simplify_eq.
Qed.

(** C20: The running server is the one a restart would build.  Start from any stored
    settings, serve any settings updates one at a time, accepted and refused, with
    reads and other work between them: starting again from the same environment and
    the table as it is now succeeds, and gives every service (scheduler, algorithm,
    cache, upstream clients, nodes, image tools, log flags) exactly the values the
    running one holds. *)
Theorem restart_equivalence env table auth contents now w0 w contents' now' :
  start env table auth contents now = Ok w0 -> rtc served w0 w ->
  exists w', start env (settings w) auth contents' now' = Ok w' /\
    services w' = services w /\ Cache.runtime (store w') = Cache.runtime (store w) /\ settings w' = settings w.
Proof using All.
  intros H0 Hw. pose proof (new_Ok _ _ _ _ _ _ H0) as [Hr _].
  assert (restarts env w) as (c & Hc & Hf & Hs & Hrt).
  { clear H0. induction Hw as [|w1 w2 w3 H12 _ IH]; [done|]. apply IH. by eapply served_restarts. }
  unfold new, new_from_config. rewrite Hc.
  assert (is_none (registry_auth (fixed c)) && auth = false) as ->.
  { revert H0. unfold new, new_from_config. destruct (overridden _ _ env table) as [c0|] eqn:E; [|done].
    assert (fixed c0 = fixed env) as -> by (unfold overridden in E; by destruct (apply_runtime_overrides _ _ _); simplify_eq).
    rewrite Hf. by destruct (_ && _). }
  eexists. split; [done|]. split; [|by rewrite Hrt]. by rewrite Hs.
Qed.

Lemma show_settings w view : (run show w).1 = Ok view ->
  exists c, overridden parse_f64 rows (config w) (settings w) = Ok c /\ v_settings view = exported (tunable c).
Proof using Type.
  unfold runtime, cache_stats. cbn -[Cache.stats]. destruct (Cache.stats _ _) as [[stats|e] k]; cbn; [|done].
  destruct (overridden _ _ _ _) as [c|] eqn:E; cbn; [|done]. intros [= <-]. by exists c.
Qed.

(** Settings read back as they were written.  An accepted update stores the settings
    so that, in whatever order the rows return and whatever the configuration was
    before, they are read back as exactly what was sent (a time to live of zero as
    none); the answer shows them, and so does every later request. *)
Theorem settings_roundtrip i w c : typed i -> validate_runtime_settings i = Ok tt ->
  let w' := (run (update i) w).2 in
  exists t, overridden parse_f64 rows c (settings w') = Ok {| fixed := fixed c; tunable := t |} /\
    exported t = canonical i /\
    (forall view, (run (update i) w).1 = Ok view -> v_settings view = canonical i) /\
    (forall view, (run show w').1 = Ok view -> v_settings view = canonical i).
Proof using All.
  intros Hi Hv w'. destruct (update_accepted i w Hi Hv) as (Hs & Hc & _ & Ha). fold w' in Hs, Hc.
  exists (configured i). unfold overridden. rewrite Hs, stored_overrides by done.
  split; [done|]. split; [by apply exported_configured|]. split.
  - intros view Hr. rewrite Hr in Ha. destruct (Cache.stats _ _).1; [|done]. injection Ha as ->. by apply exported_configured.
  - intros view Hr. destruct (show_settings _ _ Hr) as (c' & Hc' & ->). unfold overridden in Hc'.
    rewrite Hs, stored_overrides in Hc' by done. apply Ok_inj in Hc' as <-. by apply exported_configured.
Qed.
End Laws.
End SettingsProps.

(** ** Instances *)

Module SettingsWitness.
Import Chunks Scheduling Cache Config Settings SettingsProps.

(** A text form of floating-point numbers that can be read back. *)
Definition sign_text (b : bool) : string := if b then "-" else "+".
Definition text (x : f64) : string :=
  match x with
  | SpecFloat.S754_zero b => sign_text b +:+ "0"
  | SpecFloat.S754_infinity b => sign_text b +:+ "inf"
  | SpecFloat.S754_nan => "NaN"
  | SpecFloat.S754_finite b m e => sign_text b +:+ decimal (Z.pos m) +:+ "e" +:+ (sign_text (e <? 0) +:+ decimal (Z.abs e))
  end.

Definition read_sign (s : string) : option (bool * string) :=
  match s with
  | String "-" r => Some (true, r)
  | String "+" r => Some (false, r)
  | _ => None
  end.

Definition read_f64 (s : string) : option f64 :=
  match read_sign s with
  | None => if s =?s "NaN" then Some SpecFloat.S754_nan else None
  | Some (b, r) =>
      if r =?s "0" then Some (SpecFloat.S754_zero b)
      else if r =?s "inf" then Some (SpecFloat.S754_infinity b)
      else
        let* (m, r) := split_once "e" r in
        let* (b', e) := read_sign r in
        let* m := digits_value 0 m in
        let* e := digits_value 0 e in
        match m with Z.pos m => Some (SpecFloat.S754_finite b m (if b' then - e else e)) | _ => None end
  end.

Lemma digits_value_decimal n : 0 <= n -> digits_value 0 (decimal n) = Some n.
Proof.
  intros Hn. unfold decimal, pretty, pretty_N. case_decide; [by replace n with 0 by lia|].
  apply digits_value_go. simpl. f_equal. lia.
Qed.

Lemma read_sign_text b s : read_sign (sign_text b +:+ s) = Some (b, s).
Proof. by destruct b. Qed.

Lemma read_text x : read_f64 (text x) = Some x.
Proof.
  destruct x as [b|b| |b m e]; [by destruct b|by destruct b|done|]. unfold text, read_f64. rewrite read_sign_text.
  assert (forall c, is_ascii_digit c = false -> absent c (decimal (Z.pos m)) = true) as Ha.
  { intros c Hc. unfold absent, decimal. apply all_bytes_pretty_N. destruct c as [[] [] [] [] [] [] [] []]; done. }
  assert (forall t, absent "e" t = true -> ((decimal (Z.pos m) +:+ "e" +:+ (sign_text (e <? 0) +:+ decimal (Z.abs e))) =?s t) = false) as Hne.
  { intros t Ht. apply str_eqb_neq. intros <-. rewrite !absent_app in Ht. simpl in Ht. by rewrite andb_false_r in Ht. }
  rewrite !Hne by done. change ("e" +:+ ?t) with (String "e" t). rewrite (split_once_char "e") by (by apply Ha).
  rewrite read_sign_text, !digits_value_decimal by lia.
  do 2 f_equal. destruct (Z.ltb_spec e 0); lia.
Qed.

Definition base : Tunable := {|
  layout := {| chunk_size := 8 * MIB; adaptive_chunking_enabled := true; automatic_concurrency_enabled := true;
               parallel_threshold := 16 * MIB; resumable_threshold := 16 * MIB; chunk_concurrency := 4 |};
  scheduler_policy := Balanced; scheduler_algorithm := "current-balanced"; upstream_timeout := 30 * second;
  stream_fallback_timeout := 10 * second;
  cache := {| partial_ttl := 3600 * second; cache_ttl := None; max_cache_bytes := 1024 * MIB; cache_policy := Lru;
              cache_high_watermark := f64_ratio 9 10; cache_low_watermark := f64_ratio 8 10;
              public_bearer_cache_enabled := false |};
  health_interval := 60 * second; max_export_bytes := 1024 * MIB; export_ttl := 86400 * second;
  pull_logging_enabled := true; pull_log_retention_days := 30; pull_log_max_entries := 10000
|}.

Definition local (port : Z) : SocketAddr := {| ip := V4 (127 * 2 ^ 24 + 1); port := port |}.

Definition env : Config := {|
  fixed := {| admin_addr := local 5003; registry_addr := local 5000; data_dir := "./data"; database_url := "sqlite://data";
              tls_cert := None; tls_key := None; admin_auth := None; initial_admin_username := None;
              initial_admin_password := None; admin_external_tls := false; admin_external_loopback := false;
              session_ttl := 86400 * second; oidc := None; registry_auth := None; credential_key := None;
              registry_external_tls := false;
              outbound := {| allow_private_upstreams := false; allow_insecure_upstreams := false; connect_allow := []; connect_remap := []; proxy_auth := None |} |};
  tunable := base
|}.

Definition faster : RuntimeSettingsInput :=
  let i := exported base in
  let '(Input.Build_RuntimeSettingsInput a b c d e f g h j k l m n o p ttl q r s t u v w) := i in
  Input.Build_RuntimeSettingsInput a b c 16 e f "speed-first" "projected-completion" j k l m n o p (Some 3600) q r s t u v w.

Definition empty_store : CacheStore :=
  {| Cache.files := ∅; Cache.entries := ∅; Cache.pending_hits := ∅; Cache.active_flights := ∅; Cache.runtime := cache base;
     Cache.metrics := Metrics.TransferMetrics.new |}.

Abbreviation scan := (fun m : SettingsTable => map_to_list m).

Definition launched : AppState :=
  {| config := env; settings := ∅; services := services_of base CurrentAlgorithm; store := empty_store; clock := 0 |}.

Lemma launched_ok : new read_f64 scan env ∅ false empty_store 0 = Ok launched.
Proof. vm_compute. reflexivity. Qed.

Lemma faster_typed : typed faster.
Proof. split; vm_compute; (split; discriminate) || reflexivity. Qed.

Lemma faster_valid : validate_runtime_settings faster = Ok tt.
Proof. vm_compute. reflexivity. Qed.

Lemma restart_equivalence_witness :
  let w := (run (update_runtime read_f64 text scan faster) launched).2 in
  exists w', new read_f64 scan env (settings w) false empty_store 7 = Ok w' /\
    services w' = services w /\ Cache.runtime (store w') = Cache.runtime (store w) /\ settings w' = settings w.
Proof.
  apply (restart_equivalence read_f64 text scan) with (table := ∅) (contents := empty_store) (now := 0) (w0 := launched).
  - intros x _. apply read_text.
  - done.
  - exact launched_ok.
  - apply rtc_once, served_update, faster_typed.
Defined.

Lemma settings_roundtrip_witness :
  let w := (run (update_runtime read_f64 text scan faster) launched).2 in
  exists t, overridden read_f64 scan env (settings w) = Ok {| fixed := fixed env; tunable := t |} /\
    exported t = canonical faster /\ Input.chunk_concurrency (canonical faster) = 16.
Proof.
  destruct (settings_roundtrip read_f64 text scan (fun x _ => read_text x) (fun m => Permutation_refl _) faster launched env
              faster_typed faster_valid) as (t & H1 & H2 & _).
  exists t. split; [exact H1|]. split; [exact H2|reflexivity].
Defined.

(** *** Two updates at once

    An update stores its settings, reads them back and then installs them in the
    services.  When another update runs in full between the last two, the table holds
    the other's settings and the services the first's. *)

Definition slower : RuntimeSettingsInput := exported base.

Definition interrupt (n : nat) (w : AppState) : AppState :=
  if (n =? 2)%nat then (run (update_runtime read_f64 text scan slower) w).2 else w.

Definition raced : AppState := (run_with interrupt 0 (update_runtime read_f64 text scan faster) launched).2.

Lemma updates_can_diverge :
  settings raced = replace_runtime_settings (runtime_setting_values text slower) /\
  chunk_concurrency (sr_layout (scheduler (services raced))) = 16 /\
  match new read_f64 scan env (settings raced) false empty_store 0 with
  | Ok w => chunk_concurrency (sr_layout (scheduler (services w))) = 4
  | Err _ => False
  end.
Proof.
  assert (bool_decide (settings raced = replace_runtime_settings (runtime_setting_values text slower))
          && (chunk_concurrency (sr_layout (scheduler (services raced))) =? 16)
          && match new read_f64 scan env (settings raced) false empty_store 0 with
             | Ok w => chunk_concurrency (sr_layout (scheduler (services w))) =? 4 | Err _ => false end = true) as H
    by (vm_compute; reflexivity).
  apply andb_true_iff in H as [[H1%bool_decide_eq_true H2%Z.eqb_eq]%andb_true_iff H3]. split; [exact H1|]. split; [exact H2|].
  destruct (new _ _ _ _ _ _ _); [by apply Z.eqb_eq|discriminate].
Qed.
End SettingsWitness.
