(* ===== verification/Snapshot.v ===== *)
(** * Snapshots of the settings

    The export of the routes, nodes and runtime settings and its import: the handlers
    [export_runtime] and [import_runtime] of src/src/api.rs.  An import checks the
    document, prepares the rows from what the tables hold, and writes them in one
    transaction; other requests run between these actions (Prog.v).  The identifiers
    drawn for new rows are parameters, as are the parsers the checks call. *)

From stdpp Require Import base gmap sets list strings.
From Stdlib Require Import ZArith Lia Ascii.
From S2P Require Import Prelude F64 Text Errors Model Prog.
From S2P Require Import Scheduling Cache Security Tables Routes Crypto Nodes Config Settings.

#[local] Set Default Proof Using "Type*".

Module Snapshot.
Import Tables Routes Nodes.
Abbreviation AppState := Settings.AppState.
Abbreviation RuntimeSettingsInput := Input.RuntimeSettingsInput.

(** ** The document *)

Record ExportNode := {
  x_name : string;
  x_url : string;
  x_registry_route : string;
  x_enabled : bool;
  x_priority : Z;
  x_max_concurrency : Z;
  x_cf_preferred : bool;
  x_connect_ip_type : string;
  x_connect_ip : option string;
  x_auth_mode : string;
  x_auth_username : option string;
  x_auth_header : option string
}.

(** [RuntimeSettingsExport]; a [RegistryRouteView] has the fields of the row. *)
Record RuntimeSettingsExport := {
  format : string;
  version : Z;
  x_settings : option RuntimeSettingsInput;
  registry_routes : list Route.Model;
  x_nodes : list ExportNode
}.

Definition FORMAT : string := "donkey-runtime-settings".

Definition export_node (v : NodeView) : ExportNode :=
  let n := node v in
  {| x_name := Node.name n; x_url := Node.url n; x_registry_route := RouteSummary.key (route v); x_enabled := Node.enabled n;
     x_priority := Node.priority n; x_max_concurrency := max_concurrency v; x_cf_preferred := Node.cf_preferred n;
     x_connect_ip_type := Node.connect_ip_type n; x_connect_ip := Node.connect_ip n; x_auth_mode := Node.auth_mode n;
     x_auth_username := Node.auth_username n; x_auth_header := Node.auth_header n |}.

(** ** The checks of the document *)

Fixpoint check_routes (keys : list string) (l : list Route.Model) : ApiResult unit :=
  match l with
  | [] => Ok tt
  | r :: l =>
      if bool_decide (Route.key r ∈ keys) then Err (BadRequest ("duplicate Registry route key '" +:+ Route.key r +:+ "'"))
      else if is_empty (trim (Route.key r)) || is_empty (trim (Route.canonical_registry r))
      then Err (BadRequest "Registry route key and canonical registry are required")
      else check_routes (Route.key r :: keys) l
  end.

Fixpoint check_nodes (known : string -> bool) (l : list ExportNode) : ApiResult unit :=
  match l with
  | [] => Ok tt
  | n :: l =>
      if negb (auth_mode_known (x_auth_mode n))
      then Err (BadRequest ("node '" +:+ x_name n +:+ "' has an invalid authentication mode"))
      else if (x_max_concurrency n <? 1) || (64 <? x_max_concurrency n)
      then Err (BadRequest ("node '" +:+ x_name n +:+ "' has an invalid concurrency limit"))
      else if negb (known (x_registry_route n))
      then Err (BadRequest ("unknown Registry route '" +:+ x_registry_route n +:+ "'"))
      else check_nodes known l
  end.

Definition validate_import_snapshot (existing : list Route.Model) (x : RuntimeSettingsExport) : ApiResult unit :=
  let? _ := check_routes [] (registry_routes x) in
  check_nodes (fun k => existsb (fun r => Route.key r =?s k) (registry_routes x) || existsb (fun r => Route.key r =?s k) existing)
    (x_nodes x).

(** ** Preparing the rows *)

Record PreparedRoute := { pr_model : Route.Model; pr_exists : bool }.
Record PreparedNode := { pn_model : Node.Model; pn_max_concurrency : Z; pn_exists : bool }.

Definition route_input (r : Route.Model) : RegistryRouteInput :=
  {| i_key := Route.key r; i_name := Route.name r; i_canonical_registry := Route.canonical_registry r;
     i_path_prefix := Route.path_prefix r; i_repository_mode := Route.repository_mode r;
     i_is_default := Route.is_default r; i_enabled := Route.enabled r |}.

(** The node without its credential, as the checks of a new node see it. *)
Definition node_input (n : ExportNode) (r : Uuid) : NodeInput :=
  {| in_name := x_name n; in_url := x_url n; in_registry_route_id := r; in_enabled := x_enabled n;
     in_priority := x_priority n; in_max_concurrency := x_max_concurrency n; in_cf_preferred := x_cf_preferred n;
     in_connect_ip_type := x_connect_ip_type n; in_connect_ip := x_connect_ip n; in_auth_mode := "none";
     in_auth_username := None; in_auth_header := None; in_auth_secret := None |}.

Section Prepare.
Variable parse_authority : string -> option (string * option Z).
Context (net_contains : string -> IpAddr -> bool) (lookup_host : string -> Z -> option (list IpAddr)).
Context {Url : Type} (api : UrlApi Url) (url_to_string : Url -> string).
(** The identifier drawn for the [k]-th new route or node. *)
Context (route_uuid node_uuid : nat -> Uuid).

Definition prepare_route (existing : list Route.Model) (now : Z) (k : nat) (r : Route.Model) : ApiResult PreparedRoute :=
  let? n := normalize_input parse_authority (route_input r) in
  let old := find_one (fun c => Route.key c =?s n_key n) existing in
  let i := match old with Some o => Route.id o | None => route_uuid k end in
  let created := match old with Some o => Route.created_at o | None => now end in
  Ok {| pr_model := route_of i n created now; pr_exists := is_some old |}.

(** The loop: the rows, and the identifiers of the routes by key. *)
Fixpoint prepare_routes (existing : list Route.Model) (now : Z) (k : nat) (l : list Route.Model) (ids : gmap string Uuid)
    : ApiResult (list PreparedRoute * gmap string Uuid) :=
  match l with
  | [] => Ok ([], ids)
  | r :: l =>
      let? p := prepare_route existing now k r in
      let ids := <[Route.key (pr_model p) := Route.id (pr_model p)]> ids in
      let? (ps, ids) := prepare_routes existing now (S k) l ids in
      Ok (p :: ps, ids)
  end.

Definition existing_ids (existing : list Route.Model) : gmap string Uuid :=
  foldl (fun m r => <[Route.key r := Route.id r]> m) ∅ existing.

Definition check_connect_target (input : NodeInput) : ApiResult unit :=
  match in_connect_ip input with
  | Some target => validate_connect_target_syntax target (in_connect_ip_type input)
  | None => Ok tt
  end.

Definition imported_node (x : ExportNode) (input : NodeInput) (i : Uuid) (url connect : string) (created now : Z) : Node.Model :=
  {| Node.id := i; Node.name := trim (in_name input); Node.url := url; Node.registry_route_id := in_registry_route_id input;
     Node.enabled := in_enabled input && (x_auth_mode x =?s "none"); Node.priority := in_priority input;
     Node.cf_preferred := in_cf_preferred input; Node.connect_ip_type := connect; Node.connect_ip := in_connect_ip input;
     Node.auth_mode := x_auth_mode x; Node.auth_username := x_auth_username x; Node.auth_header := x_auth_header x;
     Node.auth_secret_enc := None; Node.created_at := created; Node.updated_at := now |}.

Definition prepare_node (config : SecurityConfig) (existing : list Node.Model) (ids : gmap string Uuid) (now : Z) (k : nat)
    (x : ExportNode) : ApiResult PreparedNode :=
  let? r := ok_or (ids !! x_registry_route x) (BadRequest ("unknown Registry route '" +:+ x_registry_route x +:+ "'")) in
  let input := node_input x r in
  let? _ := validate_input input in
  let? _ := check_connect_target input in
  let? validated := validate_upstream net_contains lookup_host api (in_url input) config in
  let canonical := url_to_string (vu_url validated) in
  let old := find_one (same_place r canonical) existing in
  let? connect := normalize_connect_ip_type (in_connect_ip_type input) in
  let i := match old with Some o => Node.id o | None => node_uuid k end in
  let created := match old with Some o => Node.created_at o | None => now end in
  Ok {| pn_model := imported_node x input i canonical connect created now;
        pn_max_concurrency := in_max_concurrency input; pn_exists := is_some old |}.

Fixpoint prepare_nodes (config : SecurityConfig) (existing : list Node.Model) (ids : gmap string Uuid) (now : Z) (k : nat)
    (l : list ExportNode) : ApiResult (list PreparedNode) :=
  match l with
  | [] => Ok []
  | x :: l =>
      let? p := prepare_node config existing ids now k x in
      let? ps := prepare_nodes config existing ids now (S k) l in
      Ok (p :: ps)
  end.
End Prepare.

(** ** The transaction *)

Definition set_default (b : bool) (r : Route.Model) : Route.Model :=
  let '(Route.Build_Model a k n c p m _ e t u) := r in Route.Build_Model a k n c p m b e t u.
Definition set_prefix (x : option string) (r : Route.Model) : Route.Model :=
  let '(Route.Build_Model a k n c _ m d e t u) := r in Route.Build_Model a k n c x m d e t u.

(** [UPDATE registry_routes SET is_default = 0]. *)
Definition clear_defaults (d : RegistryDb) : RegistryDb := with_routes d (set_default false <$> routes d).

(** [UPDATE registry_routes SET path_prefix = NULL WHERE id = ?]. *)
Definition clear_prefix (d : RegistryDb) (p : PreparedRoute) : RegistryDb :=
  with_routes d ((fun r => if (Route.id r =? Route.id (pr_model p))%N then set_prefix None r else r) <$> routes d).

Definition write_route (d : RegistryDb) (p : PreparedRoute) : result RegistryDb DbErr :=
  if pr_exists p then update_route d (pr_model p) else insert_route d (pr_model p).

Definition insert_metric (d : RegistryDb) (m : Metric.Model) : result RegistryDb DbErr :=
  if is_none (get_node d (Metric.node_id m)) then Err (raised "node metric requires an existing node")
  else if is_some (metrics d !! Metric.node_id m) then Err unique_failed
  else Ok (with_metrics d (<[Metric.node_id m := m]> (metrics d))).

Definition write_node (d : RegistryDb) (p : PreparedNode) : result RegistryDb DbErr :=
  let? d :=
    if pn_exists p then save_node d (pn_model p)
    else let? d := insert_node d (pn_model p) in insert_metric d (empty_metric (Node.id (pn_model p))) in
  set_node_max_concurrency d (Node.id (pn_model p)) (pn_max_concurrency p).

Fixpoint write_all {A} (f : RegistryDb -> A -> result RegistryDb DbErr) (d : RegistryDb) (l : list A) : result RegistryDb DbErr :=
  match l with
  | [] => Ok d
  | x :: l => let? d := f d x in write_all f d l
  end.

(** [INSERT INTO runtime_settings] without an upsert. *)
Fixpoint insert_settings (m : Settings.SettingsTable) (l : list (string * string)) : result Settings.SettingsTable DbErr :=
  match l with
  | [] => Ok m
  | (k, v) :: l => if is_some (m !! k) then Err unique_failed else insert_settings (<[k := v]> m) l
  end.

Section Transaction.
Variable f64_text : f64 -> string.

Definition apply_prepared_snapshot (rs : list PreparedRoute) (ns : list PreparedNode) (settings : option RuntimeSettingsInput)
    (d : RegistryDb) (m : Settings.SettingsTable) : result (RegistryDb * Settings.SettingsTable) DbErr :=
  let d := if existsb (fun p => Route.is_default (pr_model p)) rs then clear_defaults d else d in
  let d := foldl clear_prefix d rs in
  let? d := write_all write_route d rs in
  let? d := write_all write_node d ns in
  match settings with
  | None => Ok (d, m)
  | Some i => let? m := insert_settings ∅ (Settings.runtime_setting_values f64_text i) in Ok (d, m)
  end.
End Transaction.

(** ** The handlers *)

Record World := { app : AppState; service : NodeService }.

Definition tables (w : World) : RegistryDb := db (service w).
Definition table (w : World) : Settings.SettingsTable := Settings.settings (app w).
Definition with_app (w : World) (a : AppState) : World := {| app := a; service := service w |}.
Definition with_service (w : World) (s : NodeService) : World := {| app := app w; service := s |}.
Definition committed (w : World) (d : RegistryDb) (m : Settings.SettingsTable) : World :=
  {| app := Settings.with_settings (app w) m; service := with_db (service w) d |}.

Abbreviation prog := (program World).

Section Handlers.
Variable parse_f64 : string -> option f64.
Variable f64_text : f64 -> string.
Variable rows : Settings.SettingsTable -> list (string * string).
Variable ln_1p : f64 -> f64.
Variable parse_authority : string -> option (string * option Z).
Context (net_contains : string -> IpAddr -> bool) (lookup_host : string -> Z -> option (list IpAddr)).
Context {Url : Type} (api : UrlApi Url) (url_to_string : Url -> string).
Context (route_uuid node_uuid : nat -> Uuid).

Definition on_app {A} (p : program AppState A) : prog A := zoom app with_app p.

(** [state.nodes.list()] with the instant of its samples. *)
Definition node_views (instant : Z) : prog (ApiResult (list NodeView)) :=
  Act (fun w => let (r, s) := list_views ln_1p (Settings.nr_policy (Settings.nodes (Settings.services (app w)))) (service w) instant in (r, with_service w s)) Ret.

Definition export_runtime (instant : Z) : prog (ApiResult RuntimeSettingsExport) :=
  let! config := on_app (Settings.effective_config parse_f64 rows) in
  let! views := node_views instant in
  let- stored := read (fun w => list_routes (tables w)) in
  Ret (Ok {| format := FORMAT; version := 1; x_settings := Some (Settings.exported (Config.tunable config));
             registry_routes := stored; x_nodes := export_node <$> views |}).

Definition outbound (w : World) : SecurityConfig := Config.outbound (Config.fixed (Settings.config (app w))).

Definition commit_snapshot (rs : list PreparedRoute) (ns : list PreparedNode) (settings : option RuntimeSettingsInput)
    (w : World) : ApiResult unit * World :=
  match apply_prepared_snapshot f64_text rs ns settings (tables w) (table w) with
  | Ok (d, m) => (Ok tt, committed w d m)
  | Err e => (Err (Database e), w)
  end.

Definition apply_runtime_snapshot (x : RuntimeSettingsExport) : prog (ApiResult unit) :=
  let- now := read (fun w => Settings.clock (app w)) in
  let- stored := read (fun w => routes (tables w)) in
  let! (rs, ids) := Ret (prepare_routes parse_authority route_uuid stored now 0 (registry_routes x) (existing_ids stored)) in
  let- (config, existing) := read (fun w => (outbound w, list_nodes (tables w))) in
  let! ns := Ret (prepare_nodes net_contains lookup_host api url_to_string node_uuid config existing ids now 0 (x_nodes x)) in
  Act (commit_snapshot rs ns (x_settings x)) Ret.

Definition import_runtime (x : RuntimeSettingsExport) : prog (ApiResult Settings.RuntimeConfig) :=
  if negb (format x =?s FORMAT) || negb (version x =? 1) then Ret (Err (BadRequest "unsupported settings export format"))
  else
    let! _ := Ret (match x_settings x with Some i => Settings.validate_runtime_settings i | None => Ok tt end) in
    let- existing := read (fun w => list_routes (tables w)) in
    let! _ := Ret (validate_import_snapshot existing x) in
    let! _ := apply_runtime_snapshot x in
    let! effective := on_app (Settings.effective_config parse_f64 rows) in
    let- _ := on_app (Settings.apply_runtime_config effective) in
    on_app (Settings.runtime_response effective).
End Handlers.

End Snapshot.
