(* ===== verification/SnapshotProps.v ===== *)
(** * Importing and exporting

    What an import guarantees: it takes effect at one instant or not at all, it keeps
    the registry tables well formed, and importing an export restores what was
    exported, credentials apart. *)

From stdpp Require Import base gmap sets list strings relations.
From Stdlib Require Import ZArith Lia Ascii.
From S2P Require Import Prelude F64 Text Errors Model Prog.
From S2P Require Import Scheduling Cache Security Tables Routes Crypto Nodes Config Settings Snapshot.

#[local] Set Default Proof Using "Type*".

Module SnapshotProps.
Import Tables Routes Nodes Snapshot.

(** ** One instant *)

(** Steps that leave the stored rows as they are. *)
Definition quiet (x y : World) : Prop := tables y = tables x /\ table y = table x.

Definition same_settings (a b : AppState) : Prop := Settings.settings b = Settings.settings a.

Lemma apply_config_quiet c : obeys same_settings (Settings.apply_runtime_config c).
Proof. repeat (split; [intros w; reflexivity|intros b]). done. Qed.

Lemma response_quiet c : obeys same_settings (Settings.runtime_response c).
Proof.
  split; [intros w|intros [stats|e]; done]. unfold same_settings. by destruct (Cache.stats _ _).
Qed.

(** ** The tables *)

Lemma apart_fmap {A} (clash : A -> A -> bool) (f : A -> A) l :
  (forall x y, clash x y = false -> clash (f x) (f y) = false) -> apart clash l -> apart clash (f <$> l).
Proof.
  intros H. induction l as [|x l IH]; [done|]. intros [Hx Hl]. split; [|by apply IH].
  apply Forall_fmap. eapply Forall_impl; [exact Hx|]. intros y. apply H.
Qed.

(** [r'] is [r], or [r] without its prefix or default flag. *)
Definition weaker (r r' : Route.Model) : Prop :=
  Route.id r' = Route.id r /\ Route.key r' = Route.key r /\
  (Route.path_prefix r' = Route.path_prefix r \/ Route.path_prefix r' = None) /\
  (Route.is_default r' = Route.is_default r \/ Route.is_default r' = false).

Lemma clash_weaker x y x' y' : weaker x x' -> weaker y y' -> route_clash x y = false -> route_clash x' y' = false.
Proof.
  intros (Ei & Ek & Ep & Ed) (Fi & Fk & Fp & Fd). unfold route_clash. rewrite Ei, Fi, Ek, Fk, !orb_false_iff.
  intros [[[-> ->] Hp] Hd]. split_and!; [done|done| |].
  - destruct Ep as [->| ->]; [|done]. destruct Fp as [->| ->]; [done|]. by destruct (Route.path_prefix x).
  - destruct Ed as [->| ->], Fd as [->| ->]; [done|done|apply andb_false_r|done].
Qed.

Lemma weaker_refl r : weaker r r.
Proof. unfold weaker. auto. Qed.
Lemma weaker_prefix r : weaker r (set_prefix None r).
Proof. destruct r. unfold weaker. simpl. auto. Qed.
Lemma weaker_default r : weaker r (set_default false r).
Proof. destruct r. unfold weaker. simpl. auto. Qed.

Lemma set_prefix_id v r : Route.id (set_prefix v r) = Route.id r.
Proof. by destruct r. Qed.
Lemma set_default_id b r : Route.id (set_default b r) = Route.id r.
Proof. by destruct r. Qed.

Lemma rerouted_wf d f : db_wf d -> (forall r, Route.id (f r) = Route.id r) ->
  (forall x y, route_clash x y = false -> route_clash (f x) (f y) = false) -> db_wf (with_routes d (f <$> routes d)).
Proof.
  intros Hd Hi Hc. apply with_routes_wf; [done|apply apart_fmap; [done|apply Hd]|].
  intros i Hr. rewrite <- list_fmap_compose. erewrite list_fmap_ext; [exact Hr|]. intros ? r _. apply Hi.
Qed.

Lemma clear_defaults_wf d : db_wf d -> db_wf (clear_defaults d).
Proof.
  intros Hd. apply rerouted_wf; [done|apply set_default_id|]. intros x y.
  apply clash_weaker; apply weaker_default.
Qed.

Lemma clear_prefix_wf d p : db_wf d -> db_wf (clear_prefix d p).
Proof.
  intros Hd. apply rerouted_wf; [done|intros r; case_match; [apply set_prefix_id|done]|]. intros x y.
  apply clash_weaker; case_match; auto using weaker_refl, weaker_prefix.
Qed.

Lemma write_route_wf d p d' : db_wf d -> write_route d p = Ok d' ->
  db_wf d' /\ (forall i, i ∈ route_ids d -> i ∈ route_ids d') /\ Route.id (pr_model p) ∈ route_ids d' /\
  (forall r, r ∈ routes d' -> r = pr_model p \/ (r ∈ routes d /\ Route.id r <> Route.id (pr_model p))).
Proof.
  intros Hd. unfold write_route. destruct (pr_exists p); intros H.
  - pose proof (update_route_wf _ _ _ Hd H) as [Hd' Er]. split; [done|]. unfold route_ids. rewrite Er, replace_ids.
    split; [done|]. split.
    + unfold update_route in H. destruct (by_id Route.id _ _) as [x|] eqn:E; [|done].
      apply by_id_Some in E as [Hx <-]. by apply list_elem_of_fmap_2.
    + intros r [?|[? ?]]%replace_elem; auto.
  - pose proof (insert_route_wf _ _ _ Hd H) as [Hd' Er]. split; [done|]. unfold route_ids. rewrite Er, fmap_app.
    split; [intros i Hi; apply elem_of_app; by left|]. split; [apply elem_of_app; right; by left|].
    intros r [Hr|Hr%list_elem_of_singleton]%elem_of_app; [right; split; [done|]|by left].
    unfold insert_route in H. destruct (existsb _ _) eqn:E; [done|]. apply existsb_false in E. rewrite Forall_forall in E.
    intros Ei. specialize (E r Hr). by rewrite route_clash_id in E.
Qed.

Lemma write_route_nodes d p d' : write_route d p = Ok d' -> nodes d' = nodes d.
Proof. unfold write_route, update_route, insert_route. intros H. repeat case_match; simplify_eq; done. Qed.

Lemma write_routes_wf rs d d' : db_wf d -> write_all write_route d rs = Ok d' ->
  db_wf d' /\ (forall i, i ∈ route_ids d -> i ∈ route_ids d') /\
  nodes d' = nodes d /\ (forall p, p ∈ rs -> Route.id (pr_model p) ∈ route_ids d') /\
  (forall r, r ∈ routes d' -> (exists p, p ∈ rs /\ r = pr_model p) \/
     (r ∈ routes d /\ forall p, p ∈ rs -> Route.id (pr_model p) <> Route.id r)).
Proof.
  revert d. induction rs as [|p rs IH]; intros d Hd; simpl.
  - intros [= <-]. do 3 (split; [done|]). split; [by intros p ?%not_elem_of_nil|]. intros r Hr. right. split; [done|]. by intros p ?%not_elem_of_nil.
  - destruct (write_route d p) as [d1|] eqn:E; [|done]. intros H.
    destruct (write_route_wf _ _ _ Hd E) as (Hd1 & Hi & Hp & Hr). destruct (IH _ Hd1 H) as (Hd' & Hi' & Hn' & Hps & Hr').
    split; [done|]. split; [auto|]. split; [by rewrite Hn', (write_route_nodes _ _ _ E)|].
    split; [intros q [->|Hq]%elem_of_cons; auto|]. intros r Hin. destruct (Hr' r Hin) as [(q & Hq & ->)|[Hin1 Hne]].
    + left. exists q. split; [by right|done].
    + destruct (Hr r Hin1) as [->|[Hin0 Hne0]]; [left; exists p; split; [by left|done]|].
      right. split; [done|]. intros q [->|Hq]%elem_of_cons; [congruence|by apply Hne].
Qed.

Lemma insert_metric_wf d m d' : db_wf d -> insert_metric d m = Ok d' ->
  db_wf d' /\ routes d' = routes d /\ nodes d' = nodes d.
Proof.
  intros Hd. unfold insert_metric. destruct (is_none _) eqn:E; [done|]. destruct (is_some _) eqn:Em; [done|]. intros [= <-].
  assert (upsert_metric d m = Ok (with_metrics d (<[Metric.node_id m := m]> (metrics d)))) as Eu.
  { unfold upsert_metric. destruct (metrics d !! _); [done|]. unfold is_none in E. by destruct (is_some (get_node d _)). }
  destruct (upsert_metric_wf _ _ _ Hd Eu) as (? & ? & ? & _). done.
Qed.

Lemma write_node_wf d p d' : db_wf d -> write_node d p = Ok d' ->
  db_wf d' /\ routes d' = routes d /\ (forall n, n ∈ nodes d' -> n = pn_model p \/ n ∈ nodes d).
Proof.
  intros Hd. unfold write_node. destruct (pn_exists p).
  - destruct (save_node _ _) as [d1|] eqn:E; [|done]. intros H.
    destruct (save_node_wf _ _ _ Hd E) as (Hd1 & Hr & Hn). destruct (set_limit_wf _ _ _ _ Hd1 H) as (Hd' & Hr' & Hn' & _).
    rewrite Hr', Hn', Hn. split; [done|]. split; [done|]. intros n [->|[? _]]%replace_elem; auto.
  - destruct (insert_node _ _) as [d1|] eqn:E; [|done]. destruct (insert_metric _ _) as [d2|] eqn:E2; [|done]. intros H.
    destruct (insert_node_wf _ _ _ Hd E) as (Hd1 & Hr & Hn). destruct (insert_metric_wf _ _ _ Hd1 E2) as (Hd2 & Hr2 & Hn2).
    destruct (set_limit_wf _ _ _ _ Hd2 H) as (Hd' & Hr' & Hn' & _). rewrite Hr', Hn', Hn2, Hr2, Hn. split; [done|].
    split; [done|]. intros n [?|?%list_elem_of_singleton]%elem_of_app; auto.
Qed.

Lemma write_nodes_wf ns d d' : db_wf d -> write_all write_node d ns = Ok d' ->
  db_wf d' /\ routes d' = routes d /\ (forall n, n ∈ nodes d' -> (exists p, p ∈ ns /\ n = pn_model p) \/ n ∈ nodes d).
Proof.
  revert d. induction ns as [|p ns IH]; intros d Hd; simpl; [intros [= <-]; auto|].
  destruct (write_node d p) as [d1|] eqn:E; [|done]. intros H. destruct (write_node_wf _ _ _ Hd E) as (Hd1 & Hr & Hn).
  destruct (IH _ Hd1 H) as (Hd' & Hr' & Hn'). split; [done|]. split; [congruence|]. intros n Hin.
  destruct (Hn' n Hin) as [(q & Hq & ->)|Hin1]; [left; exists q; split; [by right|done]|].
  destruct (Hn n Hin1) as [->|?]; [left; exists p; split; [by left|done]|by right].
Qed.

Section Transaction.
Variable f64_text : f64 -> string.

Definition cleared (rs : list PreparedRoute) (d : RegistryDb) : RegistryDb :=
  foldl clear_prefix (if existsb (fun p => Route.is_default (pr_model p)) rs then clear_defaults d else d) rs.

Lemma clear_prefixes_wf rs d : db_wf d -> db_wf (foldl clear_prefix d rs) /\ route_ids (foldl clear_prefix d rs) = route_ids d /\
  nodes (foldl clear_prefix d rs) = nodes d /\
  (forall r, r ∈ routes (foldl clear_prefix d rs) -> (forall p, p ∈ rs -> Route.id (pr_model p) <> Route.id r) -> r ∈ routes d).
Proof using Type.
  revert d. induction rs as [|p rs IH]; intros d Hd; simpl; [done|].
  destruct (IH _ (clear_prefix_wf d p Hd)) as (H1 & H2 & H3 & H4). split; [done|]. rewrite H2, H3. split.
  { unfold route_ids. simpl. rewrite <- list_fmap_compose. apply list_fmap_ext. intros i r _. simpl. case_match; [apply set_prefix_id|done]. }
  split; [done|]. intros r Hr Hn. specialize (H4 r Hr (fun q Hq => Hn q (proj2 (elem_of_cons _ _ _) (or_intror Hq)))).
  simpl in H4. apply list_elem_of_fmap in H4 as (r0 & -> & Hr0). destruct (N.eqb_spec (Route.id r0) (Route.id (pr_model p))) as [E|E]; [|done].
  exfalso. apply (Hn p); [by left|]. rewrite set_prefix_id. done.
Qed.

(** A transaction that commits: what its rows are. *)
Lemma transaction_spec rs ns x d m d' m' : db_wf d -> apply_prepared_snapshot f64_text rs ns x d m = Ok (d', m') ->
  db_wf d' /\ (forall i, i ∈ route_ids d -> i ∈ route_ids d') /\ (forall p, p ∈ rs -> Route.id (pr_model p) ∈ route_ids d') /\
  (forall r, r ∈ routes d' -> (exists p, p ∈ rs /\ r = pr_model p) \/
     exists r0, r0 ∈ routes d /\ (forall p, p ∈ rs -> Route.id (pr_model p) <> Route.id r0) /\
       r = if existsb (fun p => Route.is_default (pr_model p)) rs then set_default false r0 else r0) /\
  (forall n, n ∈ nodes d' -> (exists p, p ∈ ns /\ n = pn_model p) \/ n ∈ nodes d).
Proof using Type.
  intros Hd. unfold apply_prepared_snapshot. set (b := existsb _ rs). set (d0 := if b then _ else d).
  assert (db_wf d0 /\ route_ids d0 = route_ids d /\ nodes d0 = nodes d /\
    forall r, r ∈ routes d0 -> exists r0, r0 ∈ routes d /\ Route.id r0 = Route.id r /\ r = if b then set_default false r0 else r0) as (Hd0 & Ei & En & Hr0).
  { subst d0. destruct b; [|split; [done|]; split; [done|]; split; [done|]; intros r Hr; by exists r].
    split; [by apply clear_defaults_wf|]. split; [|split; [done|]].
    - unfold route_ids. simpl. rewrite <- list_fmap_compose. apply list_fmap_ext. intros i r _. apply set_default_id.
    - intros r (r0 & -> & H)%list_elem_of_fmap. exists r0. by rewrite set_default_id. }
  destruct (clear_prefixes_wf rs d0 Hd0) as (Hd1 & Ei1 & En1 & Hr1).
  destruct (write_all write_route _ rs) as [d2|] eqn:E2; [|done]. destruct (write_all write_node d2 ns) as [d3|] eqn:E3; [|done].
  intros H. assert (d' = d3) as -> by (destruct x; [destruct (insert_settings _ _)|]; congruence). clear H.
  destruct (write_routes_wf _ _ _ Hd1 E2) as (Hd2 & Hi2 & En2 & Hp2 & Hr2). destruct (write_nodes_wf _ _ _ Hd2 E3) as (Hd3 & Er3 & Hn3).
  split; [done|]. split.
  { intros i Hi. unfold route_ids. rewrite Er3. apply Hi2. by rewrite Ei1, Ei. }
  split; [intros p Hp; unfold route_ids; rewrite Er3; by apply Hp2|]. split.
  - intros r Hr. rewrite Er3 in Hr. destruct (Hr2 r Hr) as [?|[Hin Hne]]; [by left|right].
    destruct (Hr0 r (Hr1 r Hin Hne)) as (r0 & Hin0 & Eid & ->). exists r0. split; [done|]. split; [|done].
    intros p Hp. rewrite Eid. by apply Hne.
  - intros n Hn. destruct (Hn3 n Hn) as [?|Hin]; [by left|right].
    by rewrite En2, En1, En in Hin.
Qed.
End Transaction.

(** ** The rows of a transaction, by identifier *)

(** The last entry of a list with a key: what a sequence of writes leaves. *)
Fixpoint latest {A} (key : A -> Uuid) (i : Uuid) (l : list A) : option A :=
  match l with
  | [] => None
  | a :: l => match latest key i l with Some b => Some b | None => if (key a =? i)%N then Some a else None end
  end.

Section Lookup.
Context {A : Type} (id : A -> Uuid).

Lemma by_id_fmap f i l : (forall r, id (f r) = id r) -> by_id id i (f <$> l) = f <$> by_id id i l.
Proof using Type.
  intros Hf. unfold by_id, find_one. induction l as [|r l IH]; [done|]. simpl. rewrite Hf. by destruct (id r =? i)%N.
Qed.

Lemma by_id_replaced r i l : by_id id (id r) l <> None ->
  by_id id i (replace id r l) = if (id r =? i)%N then Some r else by_id id i l.
Proof using Type.
  intros Hr. unfold replace. rewrite by_id_fmap by (intros x; by destruct (N.eqb_spec (id x) (id r))).
  destruct (N.eqb_spec (id r) i) as [<-|Hne].
  - destruct (by_id id (id r) l) as [x|] eqn:E; [|done]. apply by_id_Some in E as [_ E]. simpl. by rewrite E, N.eqb_refl.
  - destruct (by_id id i l) as [x|] eqn:E; [|done]. apply by_id_Some in E as [_ E]. simpl. rewrite E.
    by destruct (N.eqb_spec i (id r)) as [->|].
Qed.

Lemma by_id_appended r i l : by_id id (id r) l = None ->
  by_id id i (l ++ [r]) = if (id r =? i)%N then Some r else by_id id i l.
Proof using Type.
  unfold by_id, find_one. induction l as [|x l IH]; intros Hr; simpl in *; [done|].
  destruct (N.eqb_spec (id x) (id r)) as [|Hne]; [done|]. destruct (N.eqb_spec (id x) i) as [<-|]; [|by apply IH].
  by destruct (N.eqb_spec (id r) (id x)).
Qed.
End Lookup.

Lemma write_all_lookup {A B} (f : RegistryDb -> A -> result RegistryDb DbErr) (look : RegistryDb -> Uuid -> option B) key val i :
  (forall d a d', f d a = Ok d' -> look d' i = if (key a =? i)%N then Some (val a) else look d i) ->
  forall l d d', write_all f d l = Ok d' -> look d' i = match latest key i l with Some a => Some (val a) | None => look d i end.
Proof.
  intros Hf l. induction l as [|a l IH]; intros d d'; simpl; [by intros [= ->]|].
  destruct (f d a) as [d1|] eqn:E; [|done]. intros H. rewrite (IH _ _ H). destruct (latest key i l); [done|].
  rewrite (Hf _ _ _ E). by destruct (key a =? i)%N.
Qed.

Lemma write_all_frame {A} (f : RegistryDb -> A -> result RegistryDb DbErr) (R : RegistryDb -> RegistryDb -> Prop) `{!PreOrder R} :
  (forall d a d', f d a = Ok d' -> R d d') -> forall l d d', write_all f d l = Ok d' -> R d d'.
Proof.
  intros Hf l. induction l as [|a l IH]; intros d d'; simpl; [by intros [= ->]|].
  destruct (f d a) as [d1|] eqn:E; [|done]. intros H. trans d1; [by eapply Hf|by apply IH].
Qed.

Lemma fresh_id {A} (clash : A -> A -> bool) (id : A -> Uuid) r l :
  (forall x, id x = id r -> clash r x = true) -> existsb (clash r) l = false -> by_id id (id r) l = None.
Proof.
  intros Hc He. apply by_id_None. apply existsb_false in He. eapply Forall_impl; [exact He|]. intros x Hx E.
  cbn beta in Hx. rewrite (Hc x E) in Hx. discriminate Hx.
Qed.

Definition route_key (p : PreparedRoute) : Uuid := Route.id (pr_model p).
Definition node_key (p : PreparedNode) : Uuid := Node.id (pn_model p).

Lemma write_route_lookup i d p d' : write_route d p = Ok d' ->
  by_id Route.id i (routes d') = if (route_key p =? i)%N then Some (pr_model p) else by_id Route.id i (routes d).
Proof.
  unfold write_route, update_route, insert_route. destruct (pr_exists p).
  - destruct (by_id _ _ _) eqn:E; [|done]. destruct (existsb _ _); [done|]. intros [= <-]. apply (by_id_replaced Route.id (pr_model p)). by rewrite E.
  - destruct (existsb _ _) eqn:E; [done|]. intros [= <-]. apply (by_id_appended Route.id (pr_model p)). eapply fresh_id; [|exact E].
    intros x Hx. by apply route_clash_id.
Qed.

Lemma insert_metric_Ok d r d' : insert_metric d r = Ok d' -> metrics d ⊆ metrics d' /\ d' = with_metrics d (metrics d').
Proof.
  unfold insert_metric. destruct (is_none _); [done|]. destruct (metrics d !! Metric.node_id r) eqn:E; [done|]. intros [= <-].
  split; [|done]. by apply insert_subseteq.
Qed.

Lemma write_node_Ok d p d' : write_node d p = Ok d' ->
  (forall i, by_id Node.id i (nodes d') = if (node_key p =? i)%N then Some (pn_model p) else by_id Node.id i (nodes d)) /\
  limits d' = <[node_key p := pn_max_concurrency p]> (limits d) /\ metrics d ⊆ metrics d' /\
  routes d' = routes d /\ pulls d' = pulls d /\ referenced d' = referenced d.
Proof.
  assert (forall d1 d2, set_node_max_concurrency d1 (node_key p) (pn_max_concurrency p) = Ok d2 ->
    d2 = with_limits d1 (<[node_key p := pn_max_concurrency p]> (limits d1))) as Hlim.
  { intros d1 d2. unfold set_node_max_concurrency. destruct (_ || _); [done|]. destruct (negb _); [done|]. by intros [= <-]. }
  unfold write_node, save_node, insert_node. destruct (pn_exists p).
  - destruct (by_id _ _ _) eqn:E; [|done]. repeat (destruct (_ : bool); [done|]). intros ->%Hlim.
    simpl. split; [|done]. intros i. apply (by_id_replaced Node.id (pn_model p)). by rewrite E.
  - destruct (negb _); [done|]. destruct (existsb _ _) eqn:E; [done|]. destruct (negb _); [done|].
    destruct (insert_metric _ _) as [d2|] eqn:E2; [|done]. apply insert_metric_Ok in E2 as [Hm ->]. intros ->%Hlim.
    simpl in *. split; [|done]. intros i. apply (by_id_appended Node.id (pn_model p)). eapply fresh_id; [|exact E].
    intros x Hx. unfold node_clash. by rewrite Hx, N.eqb_refl.
Qed.

Lemma write_node_lookup i d p d' : write_node d p = Ok d' ->
  by_id Node.id i (nodes d') = if (node_key p =? i)%N then Some (pn_model p) else by_id Node.id i (nodes d).
Proof. intros H. by apply write_node_Ok in H as (-> & _). Qed.

Lemma write_node_limit i d p d' : write_node d p = Ok d' ->
  limits d' !! i = if (node_key p =? i)%N then Some (pn_max_concurrency p) else limits d !! i.
Proof.
  intros H. apply write_node_Ok in H as (_ & -> & _). destruct (N.eqb_spec (node_key p) i) as [->|].
  - by rewrite lookup_insert_eq.
  - by rewrite lookup_insert_ne.
Qed.

Lemma insert_settings_Ok l : forall m m', insert_settings m l = Ok m' -> m' = foldl (fun m kv => <[kv.1 := kv.2]> m) m l.
Proof.
  induction l as [|[k v] l IH]; intros m m'; simpl; [by intros [= <-]|]. destruct (is_some _); [done|]. apply IH.
Qed.

(** What a snapshot leaves in the registry tables: the row of every prepared route and
    node, the last one of a kind where an identifier repeats, with the node's limit;
    every other route, without its default flag when a prepared route has it; every other
    node with its limit; every metric and pull event. *)
Record rows_written (rs : list PreparedRoute) (ns : list PreparedNode) (d d' : RegistryDb) : Prop := {
  w_routes : forall i, by_id Route.id i (routes d') =
    match latest route_key i rs with
    | Some p => Some (pr_model p)
    | None => (if existsb (fun p => Route.is_default (pr_model p)) rs then set_default false else id) <$> by_id Route.id i (routes d)
    end;
  w_nodes : forall i, by_id Node.id i (nodes d') =
    match latest node_key i ns with Some p => Some (pn_model p) | None => by_id Node.id i (nodes d) end;
  w_limits : forall i, limits d' !! i =
    match latest node_key i ns with Some p => Some (pn_max_concurrency p) | None => limits d !! i end;
  w_metrics : metrics d ⊆ metrics d';
  w_kept : pulls d' = pulls d /\ referenced d' = referenced d
}.

(** The parts of the tables that writing routes leaves alone. *)
Definition beside_routes (d d' : RegistryDb) : Prop := d' = with_routes d (routes d').

#[local] Instance beside_routes_preorder : PreOrder beside_routes.
Proof. split; [by intros []|]. intros x y z Hy Hz. unfold beside_routes. rewrite Hz, Hy. done. Qed.

Lemma write_route_beside d p d' : write_route d p = Ok d' -> beside_routes d d'.
Proof. unfold write_route, update_route, insert_route. intros H. repeat case_match; simplify_eq; done. Qed.

(** The parts that writing nodes keeps. *)
Definition beside_nodes (d d' : RegistryDb) : Prop :=
  metrics d ⊆ metrics d' /\ routes d' = routes d /\ pulls d' = pulls d /\ referenced d' = referenced d.

#[local] Instance beside_nodes_preorder : PreOrder beside_nodes.
Proof.
  split; [done|]. intros x y z (M1 & R1 & P1 & F1) (M2 & R2 & P2 & F2). repeat split; [by trans (metrics y)|congruence..].
Qed.

Lemma cleared_lookup rs d i : latest route_key i rs = None ->
  by_id Route.id i (routes (cleared rs d)) =
    (if existsb (fun p => Route.is_default (pr_model p)) rs then set_default false else id) <$> by_id Route.id i (routes d).
Proof.
  intros Hi. unfold cleared. set (b := existsb _ rs). set (d0 := if b then _ else d).
  trans (by_id Route.id i (routes d0)).
  - clearbody d0 b. revert d0. induction rs as [|p rs IH]; intros d0; [done|]. simpl in Hi |- *.
    destruct (latest route_key i rs) eqn:E; [done|]. rewrite IH by done. simpl.
    rewrite by_id_fmap by (intros r; destruct (Route.id r =? _)%N; [apply set_prefix_id|done]).
    destruct (by_id Route.id i (routes d0)) as [r|] eqn:Er; [|done]. apply by_id_Some in Er as [_ <-]. simpl.
    unfold route_key in Hi. rewrite N.eqb_sym. by destruct (_ =? _)%N.
  - subst d0. destruct b; [apply by_id_fmap, set_default_id|]. by destruct (by_id _ _ _).
Qed.

Lemma cleared_beside rs d : beside_routes d (cleared rs d).
Proof.
  unfold cleared. set (d0 := if existsb _ rs then _ else d).
  trans d0; [by subst d0; case_match; [|destruct d]|]. clearbody d0. revert d0.
  induction rs as [|p rs IH]; intros d0; simpl; [done|]. by trans (clear_prefix d0 p).
Qed.

Lemma snapshot_written f64_text rs ns settings d m d' m' :
  apply_prepared_snapshot f64_text rs ns settings d m = Ok (d', m') ->
  rows_written rs ns d d' /\
  m' = match settings with
       | Some s => Settings.replace_runtime_settings (Settings.runtime_setting_values f64_text s)
       | None => m
       end.
Proof.
  unfold apply_prepared_snapshot. fold (cleared rs d).
  destruct (write_all write_route _ rs) as [d2|] eqn:E2; [|done]. destruct (write_all write_node d2 ns) as [d3|] eqn:E3; [|done].
  intros H. assert (d' = d3) as -> by (destruct settings; [destruct (insert_settings _ _)|]; congruence).
  split; [|destruct settings as [s|]; [|congruence]; destruct (insert_settings _ _) as [m1|] eqn:Es; [|done];
           injection H as <-; by apply insert_settings_Ok in Es].
  assert (beside_routes d d2) as Hb2
    by (trans (cleared rs d); [apply cleared_beside|by apply (write_all_frame _ _ write_route_beside _ _ _ E2)]).
  assert (beside_nodes d2 d3) as (M & R & P & F)
    by (refine (write_all_frame _ _ _ _ _ _ E3); intros ? ? ? Hw; apply write_node_Ok in Hw as (_ & _ & ?); done).
  rewrite Hb2 in M, P, F. split; [| | |done|done].
  - intros i. rewrite R, (write_all_lookup _ (fun d i => by_id Route.id i (routes d)) route_key pr_model i (write_route_lookup i) _ _ _ E2).
    destruct (latest route_key i rs) eqn:E; [done|]. by apply cleared_lookup.
  - intros i. rewrite (write_all_lookup _ (fun d i => by_id Node.id i (nodes d)) node_key pn_model i (write_node_lookup i) _ _ _ E3).
    by rewrite Hb2.
  - intros i. rewrite (write_all_lookup _ (fun d i => limits d !! i) node_key pn_max_concurrency i (write_node_limit i) _ _ _ E3).
    by rewrite Hb2.
Qed.

Section Handlers.
Variable parse_f64 : string -> option f64.
Variable f64_text : f64 -> string.
Variable rows : Settings.SettingsTable -> list (string * string).
Variable ln_1p : f64 -> f64.
Variable parse_authority : string -> option (string * option Z).
Context (net_contains : string -> IpAddr -> bool) (lookup_host : string -> Z -> option (list IpAddr)).
Context {Url : Type} (api : UrlApi Url) (url_to_string : Url -> string).
Context (route_uuid node_uuid : nat -> Uuid).

Abbreviation import := (import_runtime parse_f64 f64_text rows parse_authority net_contains lookup_host api url_to_string route_uuid node_uuid).
Abbreviation prepare_all_routes := (prepare_routes parse_authority route_uuid).
Abbreviation prepare_all_nodes := (prepare_nodes net_contains lookup_host api url_to_string node_uuid).

(** The rows prepared for a document from what its handler read on the way. *)
Definition prepared (env : World -> World -> Prop) (x : RuntimeSettingsExport) (w w1 : World)
    (rs : list PreparedRoute) (ns : list PreparedNode) : Prop :=
  exists wv wt wr wn ids, rtc env w wv /\ validate_import_snapshot (list_routes (tables wv)) x = Ok tt /\ rtc env wv wt /\ rtc env wt wr /\ rtc env wr wn /\ rtc env wn w1 /\
    prepare_all_routes (routes (tables wr)) (Settings.clock (app wt)) 0 (registry_routes x) (existing_ids (routes (tables wr))) = Ok (rs, ids) /\
    prepare_all_nodes (outbound wn) (list_nodes (tables wn)) ids (Settings.clock (app wt)) 0 (x_nodes x) = Ok ns.

Definition after (env : World -> World -> Prop) (x y : World) : Prop := env x y \/ quiet x y.

Lemma import_spec env x w r w' : runs env (import x) w r w' ->
  (exists e, r = Err e /\ rtc env w w') \/
  exists w1 rs ns d m, rtc env w w1 /\ prepared env x w w1 rs ns /\
    apply_prepared_snapshot f64_text rs ns (x_settings x) (tables w1) (table w1) = Ok (d, m) /\
    rtc (after env) (committed w1 d m) w'.
Proof using Type.
  unfold import_runtime. destruct (_ || _); [intros [-> H]; left; by eexists|].
  destruct (match x_settings x with Some i => _ | None => _ end) as [[]|e]; [|intros [-> H]; left; by eexists].
  intros (w0 & S0 & H). cbn [bind fst snd] in H. destruct (validate_import_snapshot _ x) as [[]|e] eqn:Ev; [|destruct H as [-> H]; left; eexists; split; [done|by trans w0]].
  apply runs_bind_inv in H as (r1 & w1 & H1 & H2). unfold apply_runtime_snapshot in H1.
  destruct H1 as (wt & St & wr & Sr & H1). cbn [bind fst snd] in H1.
  destruct (prepare_routes _ _ _ _ _ _ _) as [[rs ids]|e] eqn:Er.
  2:{ destruct H1 as [-> H1]. simpl in H2. destruct H2 as [-> H2]. left. eexists. split; [done|]. by repeat (etrans; [eassumption|]). }
  destruct H1 as (wn & Sn & H1). cbn [bind fst snd] in H1.
  destruct (prepare_nodes _ _ _ _ _ _ _ _ _ _ _) as [ns|e] eqn:En.
  2:{ destruct H1 as [-> H1]. simpl in H2. destruct H2 as [-> H2]. left. eexists. split; [done|]. by repeat (etrans; [eassumption|]). }
  destruct H1 as (wc & Sc & H1). unfold commit_snapshot in H1.
  destruct (apply_prepared_snapshot _ _ _ _ _ _) as [[d m]|e] eqn:Ea.
  2:{ destruct H1 as [-> H1]. simpl in H2. destruct H2 as [-> H2]. left. eexists. split; [done|]. by repeat (etrans; [eassumption|]). }
  destruct H1 as [-> H1]. right. exists wc, rs, ns, d, m. split; [by repeat (etrans; [eassumption|])|]. split.
  { by exists w0, wt, wr, wn, ids. }
  split; [done|]. trans w1; [eapply env_steps; [|exact H1]; by left|].
  eapply (runs_steps env (after env)); [by left| |exact H2].
  apply obeys_bind; [|intros [eff|e]; [|done]; apply obeys_bind; [|intros _]].
  - split; [|done]. intros v. by right.
  - apply (obeys_zoom same_settings); [|apply apply_config_quiet]. intros v a Ha. right. split; [done|exact Ha].
  - apply (obeys_zoom same_settings); [|apply response_quiet]. intros v a Ha. right. split; [done|exact Ha].
Qed.

(** A prepared route has the fields of the document's route in its normal form. *)
Definition route_as_written (r : Route.Model) (p : PreparedRoute) : Prop :=
  exists n, normalize_input parse_authority (route_input r) = Ok n /\
    pr_model p = route_of (Route.id (pr_model p)) n (Route.created_at (pr_model p)) (Route.updated_at (pr_model p)).

(** The route an imported node names: one of the document, or one that was stored when
    the import read the tables. *)
Definition names_route (env : World -> World -> Prop) (w w1 : World) (rs : list PreparedRoute) (key : string) (i : Uuid) : Prop :=
  (exists p, p ∈ rs /\ Route.key (pr_model p) = key /\ Route.id (pr_model p) = i) \/
  (exists w0 r, rtc env w w0 /\ rtc env w0 w1 /\ r ∈ routes (tables w0) /\ Route.key r = key /\ Route.id r = i).

(** A prepared node has the fields of the document's node, its URL as it was accepted;
    it has no secret and is enabled only if it needs none. *)
Record node_as_written (env : World -> World -> Prop) (w w1 : World) (rs : list PreparedRoute) (x : ExportNode) (p : PreparedNode)
    : Prop := {
  nw_name : Node.name (pn_model p) = trim (x_name x);
  nw_url : exists w0 v, rtc env w w0 /\ rtc env w0 w1 /\
    validate_upstream net_contains lookup_host api (x_url x) (outbound w0) = Ok v /\ Node.url (pn_model p) = url_to_string (vu_url v);
  nw_route : names_route env w w1 rs (x_registry_route x) (Node.registry_route_id (pn_model p));
  nw_enabled : Node.enabled (pn_model p) = x_enabled x && (x_auth_mode x =?s "none");
  nw_priority : Node.priority (pn_model p) = x_priority x;
  nw_limit : pn_max_concurrency p = x_max_concurrency x;
  nw_preferred : Node.cf_preferred (pn_model p) = x_cf_preferred x;
  nw_connect : normalize_connect_ip_type (x_connect_ip_type x) = Ok (Node.connect_ip_type (pn_model p)) /\
    Node.connect_ip (pn_model p) = x_connect_ip x;
  nw_auth : Node.auth_mode (pn_model p) = x_auth_mode x /\ Node.auth_username (pn_model p) = x_auth_username x /\
    Node.auth_header (pn_model p) = x_auth_header x /\ Node.auth_secret_enc (pn_model p) = None
}.

Lemma existing_ids_stored l key i : existing_ids l !! key = Some i -> exists r, r ∈ l /\ Route.key r = key /\ Route.id r = i.
Proof using Type.
  unfold existing_ids. assert (forall m : gmap string Uuid, foldl (fun m r => <[Route.key r := Route.id r]> m) m l !! key = Some i ->
    m !! key = Some i \/ exists r, r ∈ l /\ Route.key r = key /\ Route.id r = i) as H.
  { induction l as [|r l IH]; intros m; simpl; [by left|]. intros [Hm|(x & Hx & ?)]%IH; [|right; exists x; split; [by right|done]].
    apply lookup_insert_Some in Hm as [[<- <-]|[_ Hm]]; [right; exists r; split; [by left|done]|by left]. }
  intros [He|He]%H; [by rewrite lookup_empty in He|done].
Qed.

Lemma prepare_routes_written stored now l : forall k ids rs ids',
  prepare_all_routes stored now k l ids = Ok (rs, ids') ->
  Forall2 route_as_written l rs /\
  forall key i, ids' !! key = Some i ->
    ids !! key = Some i \/ exists p, p ∈ rs /\ Route.key (pr_model p) = key /\ Route.id (pr_model p) = i.
Proof using Type.
  induction l as [|r l IH]; intros k ids rs ids'; simpl; [intros [= <- <-]; split; [constructor|by left]|].
  destruct (prepare_route _ _ _ _ k r) as [p|] eqn:E; [|done].
  destruct (prepare_routes _ _ _ _ (S k) l _) as [[ps ids1]|] eqn:E1; [|done]. intros [= <- <-].
  apply IH in E1 as [H1 H2]. split.
  - constructor; [|done]. unfold prepare_route in E. destruct (normalize_input _ _) as [n|] eqn:En; [|done].
    injection E as <-. by exists n.
  - intros key i [Hi|(q & Hq & ?)]%H2; [|right; exists q; split; [by right|done]].
    apply lookup_insert_Some in Hi as [[<- <-]|[_ Hi]]; [right; exists p; split; [by left|done]|by left].
Qed.

Lemma prepared_written env x w w1 rs ns : prepared env x w w1 rs ns ->
  Forall2 route_as_written (registry_routes x) rs /\ Forall2 (node_as_written env w w1 rs) (x_nodes x) ns.
Proof using Type.
  intros (wv & wt & wr & wn & ids & Sv & _ & St & Sr & Sn & S1 & Er & En).
  apply prepare_routes_written in Er as [Hr Hids]. split; [done|].
  assert (rtc env w wr /\ rtc env wr w1 /\ rtc env w wn) as (A & B & C)
    by (repeat split; repeat (eassumption || (etrans; [eassumption|]))).
  revert ns En. generalize 0%nat. induction (x_nodes x) as [|n l IH]; intros k ns; simpl; [by intros [= <-]|].
  destruct (prepare_node _ _ _ _ _ _ _ _ _ k n) as [p|] eqn:E; [|done].
  destruct (prepare_nodes _ _ _ _ _ _ _ _ _ _ l) as [ps|] eqn:Eps; [|done]. intros [= <-].
  constructor; [|by eapply IH]. clear IH Eps. unfold prepare_node in E.
  destruct (ids !! x_registry_route n) as [i|] eqn:Ei; [|done]. cbn [ok_or] in E.
  destruct (validate_input _); [|done]. destruct (check_connect_target _); [|done].
  destruct (validate_upstream _ _ _ _ _) as [v|] eqn:Ev; [|done]. destruct (normalize_connect_ip_type _) as [c|] eqn:Ec; [|done].
  injection E as <-. split; try done; simpl.
  - by exists wn, v.
  - apply Hids in Ei as [Ei%existing_ids_stored|Ei]; [right|by left]. destruct Ei as (r & Hr0 & ?). by exists wr, r.
Qed.

(** C21: An import is all or nothing, and all of it is the document.  Whatever runs beside
    it, an import that fails before its transaction commits leaves no trace: the world
    is the one the other requests alone made.  Otherwise there is one instant at which
    the tables change from what they were: each route and node of the document has a
    prepared row with its fields, and the tables hold these rows, found by identifier,
    with the nodes' limits; every other route and node, every metric and pull event is
    kept, a route without its default flag when the document has a default; the
    settings table is exactly the document's settings, or untouched when it has none.
    After that instant the import changes no table, even when it answers with an
    error.  (The transaction is one act, as the database makes it.) *)
Theorem import_atomic env x w r w' : runs env (import x) w r w' ->
  (exists e, r = Err e /\ rtc env w w') \/
  exists w1 rs ns d m, rtc env w w1 /\ prepared env x w w1 rs ns /\
    Forall2 route_as_written (registry_routes x) rs /\ Forall2 (node_as_written env w w1 rs) (x_nodes x) ns /\
    rows_written rs ns (tables w1) d /\
    m = match x_settings x with
        | Some s => Settings.replace_runtime_settings (Settings.runtime_setting_values f64_text s)
        | None => table w1
        end /\
    rtc (after env) (committed w1 d m) w'.
Proof using Type.
  intros [H|(w1 & rs & ns & d & m & S1 & Hp & Hc & S2)]%import_spec; [by left|right].
  apply snapshot_written in Hc as [Hd Hm]. pose proof (prepared_written _ _ _ _ _ _ Hp) as [Hr Hn].
  by exists w1, rs, ns, d, m.
Qed.

(** ** The registry after an import *)

Definition freshly (i : nat -> Uuid) (d : RegistryDb) : Prop := forall k, i k ∉ route_ids d.

Lemma prepare_route_spec stored now k r p :
  prepare_route parse_authority route_uuid stored now k r = Ok p ->
  exists n, normalize_input parse_authority (route_input r) = Ok n /\ Route.key (pr_model p) = n_key n /\
    (forall i, route_of i n (Route.created_at (pr_model p)) now = pr_model p <-> i = Route.id (pr_model p)) /\
    ((exists old, old ∈ stored /\ Route.key old = n_key n /\ Route.id (pr_model p) = Route.id old) \/
     Route.id (pr_model p) = route_uuid k).
Proof using Type.
  unfold prepare_route. destruct (normalize_input _ _) as [n|]; [|done].
  destruct (find_one _ stored) as [old|] eqn:E; intros [= <-]; exists n; (split; [done|]); (split; [done|]); (split; [intros i; split; [by intros [=]|by intros ->]|]); simpl.
  - left. exists old. apply find_some in E as [Hin E%str_eqb_eq]. by rewrite list_elem_of_In.
  - by right.
Qed.

Lemma prepare_routes_spec stored now l : forall k ids rs ids',
  prepare_all_routes stored now k l ids = Ok (rs, ids') ->
  (forall p, p ∈ rs -> exists j r, l !! j = Some r /\ prepare_route parse_authority route_uuid stored now (k + j) r = Ok p) /\
  (forall r, r ∈ l -> exists j p, p ∈ rs /\ prepare_route parse_authority route_uuid stored now j r = Ok p).
Proof using Type.
  induction l as [|r l IH]; intros k ids rs ids'; simpl.
  - intros [= <- <-]. split; intros ? ?%not_elem_of_nil; done.
  - destruct (prepare_route _ _ _ _ k r) as [p|] eqn:E; [|done].
    destruct (prepare_routes _ _ _ _ (S k) l _) as [[ps ids1]|] eqn:E1; [|done]. intros [= <- <-].
    destruct (IH _ _ _ _ E1) as [H1 H2]. split.
    + intros q [->|Hq]%elem_of_cons; [exists 0%nat, r; split; [done|]; by rewrite Nat.add_0_r|].
      destruct (H1 q Hq) as (j & r' & Hr & Ej). exists (S j), r'. split; [done|]. by rewrite Nat.add_succ_r.
    + intros r' [->|Hr]%elem_of_cons; [exists k, p; split; [by left|done]|].
      destruct (H2 r' Hr) as (j & q & Hq & Ej). exists j, q. split; [by right|done].
Qed.

Section Fresh.
Context (stored : list Route.Model) (Hstored : apart route_clash stored) (Hok : Forall route_ok stored).
Context (Hinj : Inj eq eq route_uuid) (Hfresh : forall k, route_uuid k ∉ Route.id <$> stored).
Context (Hbuiltin : forall k, route_uuid k <> DOCKER_HUB_ROUTE_ID /\ route_uuid k <> GHCR_ROUTE_ID).

Lemma prepared_keys now l ids rs ids' p q : prepare_all_routes stored now 0 l ids = Ok (rs, ids') ->
  p ∈ rs -> q ∈ rs -> Route.id (pr_model p) = Route.id (pr_model q) -> Route.key (pr_model p) = Route.key (pr_model q).
Proof using Hstored Hinj Hfresh.
  intros H Hp Hq E. destruct (prepare_routes_spec _ _ _ _ _ _ _ H) as [H1 _].
  destruct (H1 p Hp) as (j & r & Hj & Ep), (H1 q Hq) as (j' & r' & Hj' & Eq').
  destruct (prepare_route_spec _ _ _ _ _ Ep) as (n & _ & Kp & _ & [(o & Ho & Ko & Io)|Ip]),
           (prepare_route_spec _ _ _ _ _ Eq') as (n' & _ & Kq & _ & [(o' & Ho' & Ko' & Io')|Iq]).
  - rewrite Kp, Kq, <- Ko, <- Ko'. f_equal. apply (apart_unique route_clash route_clash_sym stored); [done..|].
    apply route_clash_id. congruence.
  - exfalso. apply (Hfresh (0 + j')). rewrite <- Iq, <- E, Io. by apply list_elem_of_fmap_2.
  - exfalso. apply (Hfresh (0 + j)). rewrite <- Ip, E, Io'. by apply list_elem_of_fmap_2.
  - rewrite Ip, Iq in E. apply Hinj in E. simpl in E. subst j'.
    rewrite Hj in Hj'. injection Hj' as <-. rewrite Ep in Eq'. by injection Eq' as <-.
Qed.

Lemma prepared_ok now l ids rs ids' p : prepare_all_routes stored now 0 l ids = Ok (rs, ids') -> p ∈ rs -> route_ok (pr_model p).
Proof using Hok Hbuiltin.
  intros H Hp. destruct (prepare_routes_spec _ _ _ _ _ _ _ H) as [H1 _]. destruct (H1 p Hp) as (j & r & _ & Ep).
  destruct (prepare_route_spec _ _ _ _ _ Ep) as (n & En & Kp & Hm & Hi).
  rewrite <- (proj2 (Hm _) eq_refl). eapply normalize_input_ok; [exact En|].
  destruct Hi as [(o & Ho & Ko & Io)|Ip].
  - rewrite Io, <- Ko. rewrite Forall_forall in Hok. apply (Hok o Ho).
  - rewrite Ip. unfold builtin_key_changed. destruct (Hbuiltin (0 + j)) as [H2 H3].
    by rewrite (proj2 (N.eqb_neq _ _) H2), (proj2 (N.eqb_neq _ _) H3).
Qed.
End Fresh.

(** ** The registry stays well formed *)

Record node_fine (n : Node.Model) : Prop := {
  nf_name : is_empty (Node.name n) = false;
  nf_priority : 0 <= Node.priority n <= 1000;
  nf_mode : auth_mode_known (Node.auth_mode n) = true
}.

Record good (w : World) : Prop := {
  g_routes : routes_inv (tables w);
  g_nodes : Forall node_fine (nodes (tables w))
}.

(** When the document names a default route, it lists the one of the tables too. *)
Definition covers (x : RuntimeSettingsExport) (w : World) : Prop :=
  existsb Route.is_default (registry_routes x) = true ->
  forall r, r ∈ routes (tables w) -> Route.is_default r = true ->
  exists r', r' ∈ registry_routes x /\ to_ascii_lowercase (trim (Route.key r')) = Route.key r.

Lemma prepared_default stored now l ids rs ids' : prepare_all_routes stored now 0 l ids = Ok (rs, ids') ->
  existsb (fun p => Route.is_default (pr_model p)) rs = true -> existsb Route.is_default l = true.
Proof using Type.
  intros H (p & Hp & Hd)%existsb_exists. destruct (prepare_routes_spec _ _ _ _ _ _ _ H) as [H1 _].
  destruct (H1 p) as (j & r & Hr & Ep); [by apply list_elem_of_In|]. apply existsb_exists. exists r.
  split; [apply list_elem_of_In; by eapply list_elem_of_lookup_2|].
  destruct (prepare_route_spec _ _ _ _ _ Ep) as (n & En & _ & Hm & _). rewrite <- (proj2 (Hm _) eq_refl) in Hd. simpl in Hd.
  unfold normalize_input in En. repeat case_match; simplify_eq; done.
Qed.

Lemma normalized_key r n : normalize_input parse_authority (route_input r) = Ok n ->
  n_key n = to_ascii_lowercase (trim (Route.key r)).
Proof using Type.
  unfold normalize_input, normalize_identifier. simpl. destruct (identifier _); [|done]. intros. repeat case_match; simplify_eq; done.
Qed.

Lemma prepare_node_spec config existing ids now k x p :
  prepare_node net_contains lookup_host api url_to_string node_uuid config existing ids now k x = Ok p ->
  is_empty (Node.name (pn_model p)) = false /\ 0 <= Node.priority (pn_model p) <= 1000 /\
  Node.auth_mode (pn_model p) = x_auth_mode x /\ Node.auth_secret_enc (pn_model p) = None /\
  (Node.enabled (pn_model p) = true -> x_auth_mode x = "none").
Proof using Type.
  unfold prepare_node. destruct (ids !! _) as [r|]; [|done]. simpl.
  destruct (validate_input _) as [[]|] eqn:Ev; [|done]. apply validate_input_Ok in Ev as (Hn & Hp & _).
  destruct (check_connect_target _); [|done]. destruct (validate_upstream _ _ _ _ _) as [v|]; [|done].
  destruct (normalize_connect_ip_type _) as [c|]; [|done]. intros [= <-]. simpl in *. split_and!; try done; try lia.
  intros [_ H%str_eqb_eq]%andb_true_iff. done.
Qed.

Lemma prepare_nodes_spec config existing ids now l : forall k ns,
  prepare_all_nodes config existing ids now k l = Ok ns ->
  Forall2 (fun x p => exists j, prepare_node net_contains lookup_host api url_to_string node_uuid config existing ids now j x = Ok p) l ns.
Proof using Type.
  induction l as [|x l IH]; intros k ns; simpl; [by intros [= <-]|].
  destruct (prepare_node _ _ _ _ _ _ _ _ _ k x) as [p|] eqn:E; [|done].
  destruct (prepare_nodes _ _ _ _ _ _ _ _ _ _ l) as [ps|] eqn:E1; [|done]. intros [= <-]. constructor; [by exists k|by eapply IH].
Qed.

Lemma check_nodes_modes known l : check_nodes known l = Ok tt -> Forall (fun x => auth_mode_known (x_auth_mode x) = true) l.
Proof using Type.
  induction l as [|x l IH]; simpl; [done|]. destruct (auth_mode_known (x_auth_mode x)) eqn:E; simpl; [|done].
  destruct (_ || _); [done|]. destruct (negb _); [done|]. intros H. constructor; [done|by apply IH].
Qed.

(** The rows of a transaction on well-formed tables, prepared from well-formed tables. *)
Lemma transaction_inv env x w w1 rs ns d m :
  (forall a b, env a b -> good a -> good b) -> good w ->
  Inj eq eq route_uuid -> (forall a, rtc env w a -> freshly route_uuid (tables a) /\ covers x a) ->
  rtc env w w1 -> prepared env x w w1 rs ns ->
  apply_prepared_snapshot f64_text rs ns (x_settings x) (tables w1) (table w1) = Ok (d, m) -> good (committed w1 d m).
Proof using Type.
  intros He Hw Hinj Ha S1 (wv & wt & wr & wn & ids & Sv & Ev & St & Sr & Sn & _ & Er & En) Hc.
  assert (forall a, rtc env w a -> good a) as Hg by (intros a S; clear -He Hw S; induction S; eauto).
  assert (rtc env w wr) as Swr by (trans wv; [done|]; by trans wt).
  pose proof (Hg _ Swr) as [[Hwfr Hokr Hhr Hgr] _]. pose proof (Hg _ S1) as [[Hwf Hok Hhub Hghcr] Hn].
  destruct (Ha _ Swr) as [Hfr _]. destruct (Ha _ S1) as [_ Hcov].
  assert (forall k, route_uuid k <> DOCKER_HUB_ROUTE_ID /\ route_uuid k <> GHCR_ROUTE_ID) as Hb
    by (intros k; split; intros E; apply (Hfr k); by rewrite E).
  pose proof (fun p => prepared_ok (routes (tables wr)) Hokr Hb _ _ _ _ _ p Er) as Hrs.
  pose proof (fun p q => prepared_keys (routes (tables wr)) (wf_routes _ Hwfr) Hinj Hfr _ _ _ _ _ p q Er) as Hkeys.
  destruct (transaction_spec _ _ _ _ _ _ _ _ Hwf Hc) as (Hwf' & Hids & Hps & Hrows & Hnodes).
  constructor; [constructor; simpl; auto|].
  - apply Forall_forall. intros r Hr. destruct (Hrows r Hr) as [(p & Hp & ->)|(r0 & Hr0 & Hne & E)]; [by apply Hrs|].
    rewrite Forall_forall in Hok. destruct (existsb _ rs) eqn:Eb; [|by subst r; apply Hok].
    destruct (Route.is_default r0) eqn:Ed; [|assert (r = r0) as -> by (rewrite E; clear -Ed; destruct r0; simpl in *; by subst); by apply Hok].
    exfalso. destruct (Hcov (prepared_default _ _ _ _ _ _ Er Eb) r0 Hr0 Ed) as (r' & Hr' & Ek).
    destruct (prepare_routes_spec _ _ _ _ _ _ _ Er) as [_ H2]. destruct (H2 r' Hr') as (j & p & Hp & Ep).
    destruct (prepare_route_spec _ _ _ _ _ Ep) as (n & En' & Kp & _). rewrite (normalized_key _ _ En'), Ek in Kp.
    apply Hps in Hp as Hi. apply list_elem_of_fmap in Hi as (rp & Eid & Hrp).
    destruct (Hrows rp Hrp) as [(q & Hq & ->)|(r1 & _ & Hne1 & E1)].
    + assert (r = pr_model q) as Erq.
      { apply (apart_unique route_clash route_clash_sym (routes d)); [apply (wf_routes _ Hwf')|done|done|].
        unfold route_clash. assert (Route.key r = Route.key r0) as Kr by (rewrite E; by destruct r0).
        rewrite Kr, <- Kp, (Hkeys p q Hp Hq Eid), str_eqb_refl. by rewrite orb_true_r. }
      apply (Hne q Hq). rewrite <- Erq, E. apply set_default_id.
    + apply (Hne1 p Hp). rewrite Eid, E1. apply set_default_id.
  - apply Forall_forall. intros n Hin. destruct (Hnodes n Hin) as [(p & Hp & ->)|?]; [|by rewrite Forall_forall in Hn; apply Hn].
    apply prepare_nodes_spec in En. apply list_elem_of_lookup in Hp as [k Hk].
    destruct (Forall2_lookup_r _ _ _ _ _ En Hk) as (xn & Hx & j & Ej).
    destruct (prepare_node_spec _ _ _ _ _ _ _ Ej) as (H1 & H2 & H3 & _). constructor; [done|done|].
    rewrite H3. unfold validate_import_snapshot in Ev. destruct (check_routes _ _) as [[]|]; [|done].
    apply check_nodes_modes in Ev. rewrite Forall_forall in Ev. apply Ev. by eapply list_elem_of_lookup_2.
Qed.

(** An import keeps the registry well formed.  Whatever well-behaved requests run beside
    it, and whether it succeeds or not: keys, prefixes, the default and the node
    addresses stay unique, references resolve, the built-in routes stay, and every route
    and node is a valid one, provided that a document that names a default route also
    lists the default of the tables.  No imported node carries a secret, and one that
    needs a secret is imported disabled. *)
Theorem import_keeps_registry env x w r w' :
  (forall a b, env a b -> good a -> good b) -> good w ->
  Inj eq eq route_uuid -> (forall a, rtc env w a -> freshly route_uuid (tables a) /\ covers x a) ->
  runs env (import x) w r w' ->
  good w' /\ (forall w1 rs ns, prepared env x w w1 rs ns -> Forall (fun p =>
    Node.auth_secret_enc (pn_model p) = None /\ (Node.enabled (pn_model p) = true -> Node.auth_mode (pn_model p) = "none")) ns).
Proof using Type.
  intros He Hw Hinj Ha H. split.
  - destruct (import_spec _ _ _ _ _ H) as [(e & _ & S)|(w1 & rs & ns & d & m & S1 & Hp & Hc & S)].
    + clear -He Hw S. induction S; eauto.
    + pose proof (transaction_inv _ _ _ _ _ _ _ _ He Hw Hinj Ha S1 Hp Hc) as Hg. clear -He Hg S.
      induction S as [|a b c [E|[E _]] _ IH]; [done|eauto|]. apply IH. destruct Hg. constructor; by rewrite E.
  - intros w1 rs ns (wv & wt & wr & wn & ids & _ & _ & _ & _ & _ & _ & _ & En). apply prepare_nodes_spec in En.
    apply Forall_forall. intros p Hp. apply list_elem_of_lookup in Hp as [k Hk].
    destruct (Forall2_lookup_r _ _ _ _ _ En Hk) as (xn & _ & j & Ej).
    destruct (prepare_node_spec _ _ _ _ _ _ _ Ej) as (_ & _ & -> & H4 & H5). done.
Qed.
End Handlers.
End SnapshotProps.
