(* ===== verification/Roundtrip.v ===== *)
(** * An export imported where it was made

    Importing the export of a server into that server writes every row back: the
    tables keep their rows, identifiers, order, limits and metrics; the times of change
    move, and nodes that need a secret lose it and are disabled, as an export carries
    no secrets. *)

From stdpp Require Import base gmap sets list strings relations.
From Stdlib Require Import ZArith Lia Ascii.
From S2P Require Import Prelude F64 Text Errors Model Prog.
From S2P Require Import Scheduling Cache Security Tables Routes Crypto Nodes Config Settings Snapshot SnapshotProps.

#[local] Set Default Proof Using "Type*".

Module Roundtrip.
Import Tables Routes Nodes Snapshot SnapshotProps.
Abbreviation run := Prog.run.

(** ** Writing every row of a table back *)

Section Rows.
Context {A : Type} (id : A -> Uuid) (clash : A -> A -> bool).
Context (clash_sym : forall x y, clash x y = clash y x) (clash_id : forall x y, id x = id y -> clash x y = true).
Context (pre final : A -> A) (pre_id : forall x, id (pre x) = id x) (final_id : forall x, id (final x) = id x).
Context (l : list A) (Hl : apart clash l).
Context (Hff : forall x y, x ∈ l -> y ∈ l -> id x <> id y -> clash (final x) (final y) = false).
Context (Hfp : forall x y, x ∈ l -> y ∈ l -> id x <> id y -> clash (final x) (pre y) = false).

(** The rows of [done] are written, the others as they were before. *)
Definition written (done : gset Uuid) (x : A) : A := if decide (id x ∈ done) then final x else pre x.

Lemma written_id done x : id (written done x) = id x.
Proof using pre_id final_id. unfold written. by case_decide. Qed.

Lemma same_row x y : x ∈ l -> y ∈ l -> id x = id y -> x = y.
Proof using Hl clash_sym clash_id. intros Hx Hy E. by apply (apart_unique clash clash_sym l); [..|apply clash_id]. Qed.

Lemma written_found done x : x ∈ l -> by_id id (id (final x)) (written done <$> l) <> None.
Proof using pre_id final_id.
  intros Hx E. apply by_id_None in E. rewrite Forall_forall in E. apply (E (written done x)); [by apply list_elem_of_fmap_2|].
  by rewrite written_id, final_id.
Qed.

Lemma written_apart done x : x ∈ l ->
  existsb (clash (final x)) (others id (id (final x)) (written done <$> l)) = false.
Proof using All.
  intros Hx. apply existsb_false, Forall_forall. intros y [Hy Hi]%others_elem. apply list_elem_of_fmap in Hy as (z & -> & Hz).
  rewrite written_id, final_id in Hi. unfold written. case_decide; [apply Hff|apply Hfp]; auto.
Qed.

Lemma written_next done x : x ∈ l -> replace id (final x) (written done <$> l) = written ({[id x]} ∪ done) <$> l.
Proof using Hl clash_sym clash_id pre_id final_id.
  clear Hff Hfp. intros Hx. unfold replace. rewrite <- list_fmap_compose. apply list_fmap_ext. intros i y Hy. simpl.
  apply list_elem_of_lookup_2 in Hy. rewrite written_id, final_id. destruct (N.eqb_spec (id y) (id x)) as [E|E].
  - rewrite (same_row y x) by done. unfold written. rewrite decide_True by set_solver. done.
  - unfold written. destruct (decide (id y ∈ done)); [rewrite decide_True by set_solver|rewrite decide_False by set_solver]; done.
Qed.

Lemma written_none : written ∅ <$> l = pre <$> l.
Proof using Type. apply list_fmap_ext. intros i x _. unfold written. by rewrite decide_False by apply not_elem_of_empty. Qed.

Lemma written_all done : (forall x, x ∈ l -> id x ∈ done) -> written done <$> l = final <$> l.
Proof using Type.
  intros H. apply list_fmap_ext. intros i x Hx. unfold written. rewrite decide_True; [done|]. apply H. by eapply list_elem_of_lookup_2.
Qed.

Lemma find_unique p x : x ∈ l -> p x = true -> (forall y, y ∈ l -> p y = true -> y = x) -> find_one p l = Some x.
Proof using Type.
  intros Hx Hp Hu. unfold find_one. destruct (List.find p l) as [y|] eqn:E.
  - apply find_some in E as [Hy Ey]. f_equal. apply Hu; [by apply list_elem_of_In|done].
  - apply list_elem_of_In in Hx. by rewrite (find_none _ _ E x Hx) in Hp.
Qed.
End Rows.

(** ** Routes *)

(** A route written back. *)
Definition touched (now : Z) (r : Route.Model) : Route.Model :=
  let '(Route.Build_Model a k n c p m b e t _) := r in Route.Build_Model a k n c p m b e t now.

Lemma touched_weaker now r : weaker r (touched now r).
Proof. destruct r. unfold weaker. simpl. auto. Qed.

Definition rewritten (now : Z) (r : Route.Model) : PreparedRoute := {| pr_model := touched now r; pr_exists := true |}.

Lemma clear_prefixes_rows rs d : routes (foldl clear_prefix d rs) =
  (fun r => if existsb (fun p => (Route.id r =? Route.id (pr_model p))%N) rs then set_prefix None r else r) <$> routes d.
Proof.
  revert d. induction rs as [|p rs IH]; intros d; simpl; [by rewrite list_fmap_id|]. rewrite IH. simpl.
  rewrite <- list_fmap_compose. apply list_fmap_ext. intros i r _. simpl.
  destruct (N.eqb_spec (Route.id r) (Route.id (pr_model p))) as [E|E]; simpl; [|done].
  rewrite ?set_prefix_id. destruct (existsb _ rs); [by destruct r|done].
Qed.

Section Routes.
Context (d0 : RegistryDb) (Hwf : db_wf d0) (now : Z).
Abbreviation l := (routes d0).

(** The columns the transaction clears first. *)
Definition reset (b : bool) (r : Route.Model) : Route.Model := set_prefix None (if b then set_default false r else r).

Lemma reset_weaker b r : weaker r (reset b r).
Proof using Type. destruct r, b; unfold weaker, reset; simpl; auto. Qed.

Lemma reset_id b r : Route.id (reset b r) = Route.id r.
Proof using Type. apply reset_weaker. Qed.
Lemma touched_id r : Route.id (touched now r) = Route.id r.
Proof using Type. apply touched_weaker. Qed.

Lemma apart_false x y : x ∈ l -> y ∈ l -> Route.id x <> Route.id y -> route_clash x y = false.
Proof using Hwf.
  intros Hx Hy Hne. destruct (route_clash x y) eqn:E; [|done]. destruct Hne. f_equal.
  by apply (apart_unique route_clash route_clash_sym l); [apply (wf_routes _ Hwf)|..].
Qed.

Lemma write_routes_back b todo : forall d done, (forall r, r ∈ todo -> r ∈ l) ->
  routes d = written Route.id (reset b) (touched now) done <$> l ->
  exists d', write_all write_route d (rewritten now <$> todo) = Ok d' /\
    d' = with_routes d (written Route.id (reset b) (touched now) (list_to_set (Route.id <$> todo) ∪ done) <$> l).
Proof using Hwf.
  induction todo as [|r todo IH]; intros d done Hin Hd; simpl.
  - exists d. split; [done|]. rewrite union_empty_l_L, <- Hd. by destruct d.
  - assert (r ∈ l) as Hr by (apply Hin; by left).
    pose proof (written_found Route.id (reset b) (touched now) (reset_id b) touched_id l done r Hr) as Hf.
    pose proof (written_apart Route.id route_clash route_clash_sym route_clash_id (reset b) (touched now) (reset_id b) touched_id l
      (wf_routes _ Hwf)) as Ha.
    assert (forall f g, (forall x, weaker x (f x)) -> (forall x, weaker x (g x)) -> forall x y, x ∈ l -> y ∈ l -> Route.id x <> Route.id y ->
      route_clash (f x) (g y) = false) as Hc.
    { intros f g Hf' Hg x y Hx Hy Hne. eapply clash_weaker; [apply Hf'|apply Hg|by apply apart_false]. }
    specialize (Ha (Hc _ _ (touched_weaker now) (touched_weaker now)) (Hc _ _ (touched_weaker now) (reset_weaker b)) done r Hr).
    unfold write_route. simpl. unfold update_route. rewrite Hd. destruct (by_id _ _ _); [|done]. rewrite Ha.
    rewrite (written_next Route.id route_clash route_clash_sym route_clash_id _ _ (reset_id b) touched_id l (wf_routes _ Hwf)) by done.
    destruct (IH (with_routes d (written Route.id (reset b) (touched now) ({[Route.id r]} ∪ done) <$> l)) ({[Route.id r]} ∪ done))
      as (d' & E & ->); [intros x Hx; apply Hin; by right|done|].
    eexists. split; [exact E|]. simpl. f_equal. apply list_fmap_ext. intros i x _. unfold written.
    apply decide_ext. set_solver.
Qed.

(** The routes of the transaction, when the document lists every route. *)
Lemma routes_back doc : doc ≡ₚ l -> let rs := rewritten now <$> doc in
  let d1 := if existsb (fun p => Route.is_default (pr_model p)) rs then clear_defaults d0 else d0 in
  write_all write_route (foldl clear_prefix d1 rs) rs = Ok (with_routes d0 (touched now <$> l)).
Proof using Hwf.
  intros Hp rs d1. set (b := existsb _ rs) in d1.
  assert (routes (foldl clear_prefix d1 rs) = reset b <$> l) as Er.
  { rewrite clear_prefixes_rows. subst d1. assert (forall r, r ∈ l -> existsb (fun p => (Route.id r =? Route.id (pr_model p))%N) rs = true) as He.
    { intros r Hr. apply existsb_exists. exists (rewritten now r). split; [apply list_elem_of_In, list_elem_of_fmap_2; by rewrite Hp|].
      simpl. rewrite touched_id. apply N.eqb_refl. }
    destruct b; simpl; rewrite <- ?list_fmap_compose; apply list_fmap_ext; intros i r Hr; apply list_elem_of_lookup_2 in Hr; simpl;
      rewrite ?set_default_id, He by done; done. }
  destruct (write_routes_back b doc (foldl clear_prefix d1 rs) ∅) as (d' & E & ->).
  { intros r Hr. by rewrite <- Hp. }
  { rewrite Er. symmetry. apply written_none. }
  etrans; [exact E|]. f_equal. rewrite written_all.
  - assert (forall d, with_routes (foldl clear_prefix d rs) (touched now <$> l) = with_routes d (touched now <$> l)) as ->.
    { clear. induction rs as [|p rs IH]; intros d; simpl; [done|]. by rewrite IH. }
    subst d1. by destruct b.
  - intros x Hx. apply elem_of_union_l, elem_of_list_to_set, list_elem_of_fmap_2. by rewrite Hp.
Qed.
End Routes.

(** ** Nodes *)

(** A node written back without its secret. *)
Definition reimported (now : Z) (n : Node.Model) : Node.Model :=
  {| Node.id := Node.id n; Node.name := Node.name n; Node.url := Node.url n; Node.registry_route_id := Node.registry_route_id n;
     Node.enabled := Node.enabled n && (Node.auth_mode n =?s "none"); Node.priority := Node.priority n;
     Node.cf_preferred := Node.cf_preferred n; Node.connect_ip_type := Node.connect_ip_type n; Node.connect_ip := Node.connect_ip n;
     Node.auth_mode := Node.auth_mode n; Node.auth_username := Node.auth_username n; Node.auth_header := Node.auth_header n;
     Node.auth_secret_enc := None; Node.created_at := Node.created_at n; Node.updated_at := now |}.

Definition renode (now : Z) (limit : Node.Model -> Z) (n : Node.Model) : PreparedNode :=
  {| pn_model := reimported now n; pn_max_concurrency := limit n; pn_exists := true |}.

Definition set_limits (limit : Node.Model -> Z) (l : list Node.Model) (m : gmap Uuid Z) : gmap Uuid Z :=
  foldl (fun m n => <[Node.id n := limit n]> m) m l.

Section Nodes.
Context (d0 : RegistryDb) (Hwf : db_wf d0) (now : Z) (limit : Node.Model -> Z).
Context (Hlimit : forall n, n ∈ nodes d0 -> 1 <= limit n <= 64).
Abbreviation l := (nodes d0).
Abbreviation rows done := (written Node.id (fun n => n) (reimported now) done <$> l).

Lemma node_apart (f g : Node.Model -> Node.Model) :
  (forall n, node_clash (f n) = node_clash n) -> (forall m n, node_clash m (g n) = node_clash m n) ->
  forall x y, x ∈ l -> y ∈ l -> Node.id x <> Node.id y -> node_clash (f x) (g y) = false.
Proof using Hwf.
  intros Hf Hg x y Hx Hy Hne. rewrite Hf, Hg. destruct (node_clash x y) eqn:E; [|done]. destruct Hne. f_equal.
  by apply (apart_unique node_clash node_clash_sym l); [apply (wf_nodes _ Hwf)|..].
Qed.

Lemma write_node_back d done n : n ∈ l -> nodes d = rows done -> routes d = routes d0 ->
  write_node d (renode now limit n) = Ok (with_limits (with_nodes d (rows ({[Node.id n]} ∪ done))) (<[Node.id n := limit n]> (limits d))).
Proof using Hwf Hlimit.
  intros Hn Hd Hr. unfold write_node, save_node. cbn [renode pn_exists pn_model pn_max_concurrency]. rewrite Hd.
  pose proof (written_found Node.id (fun n => n) (reimported now) (fun _ => eq_refl) (fun _ => eq_refl) l) as Hf.
  destruct (by_id Node.id (Node.id (reimported now n)) (rows done)) eqn:E; [|by destruct (Hf done n Hn)].
  assert (connect_type_ok (reimported now n) = true) as ->.
  { pose proof (wf_connect _ Hwf) as H. rewrite Forall_forall in H. exact (H n Hn). }
  rewrite (written_apart Node.id node_clash node_clash_sym node_clash_id (fun n => n) (reimported now) (fun _ => eq_refl) (fun _ => eq_refl) l
    (wf_nodes _ Hwf)) by (done || (apply (node_apart _ _); done)).
  assert (route_exists d (Node.registry_route_id n) = true) as Hre.
  { apply route_exists_ids. unfold route_ids. rewrite Hr. pose proof (wf_node_routes _ Hwf) as H. rewrite Forall_forall in H. by apply H. }
  cbn [negb reimported Node.registry_route_id]. rewrite Hre. cbn [negb].
  rewrite (written_next Node.id node_clash node_clash_sym node_clash_id (fun n => n) (reimported now) (fun _ => eq_refl) (fun _ => eq_refl) l
    (wf_nodes _ Hwf)) by done.
  unfold set_node_max_concurrency. specialize (Hlimit n Hn). rewrite (proj2 (Z.ltb_ge _ _)), (proj2 (Z.ltb_ge 64 _)) by lia. simpl.
  unfold get_node. simpl. specialize (Hf ({[Node.id n]} ∪ done) n Hn). simpl in Hf. by destruct (by_id _ _ _).
Qed.

Lemma write_nodes_back todo : forall d done, (forall n, n ∈ todo -> n ∈ l) -> nodes d = rows done -> routes d = routes d0 ->
  write_all write_node d (renode now limit <$> todo)
  = Ok (with_limits (with_nodes d (rows (list_to_set (Node.id <$> todo) ∪ done))) (set_limits limit todo (limits d))).
Proof using Hwf Hlimit.
  induction todo as [|n todo IH]; intros d done Hin Hd Hr; simpl.
  - rewrite union_empty_l_L, <- Hd. by destruct d.
  - rewrite (write_node_back d done) by (done || (apply Hin; by left)).
    rewrite (IH _ ({[Node.id n]} ∪ done)); [|intros x Hx; apply Hin; by right|done|done]. 
    assert (rows (list_to_set (Node.id <$> todo) ∪ ({[Node.id n]} ∪ done)) = rows (list_to_set (Node.id <$> (n :: todo)) ∪ done)) as ->; [|done].
    apply list_fmap_ext. intros i x _. unfold written. apply decide_ext. set_solver.
Qed.
End Nodes.

Lemma set_limits_lookup limit l m i : set_limits limit l m !! i = m !! i \/
  exists n, n ∈ l /\ Node.id n = i /\ set_limits limit l m !! i = Some (limit n).
Proof.
  unfold set_limits. revert m. induction l as [|n l IH]; intros m; simpl; [by left|].
  destruct (IH (<[Node.id n := limit n]> m)) as [E|(x & Hx & Ei & E)].
  - destruct (decide (Node.id n = i)) as [<-|Hne].
    + right. exists n. split; [by left|]. split; [done|]. by rewrite E, lookup_insert_eq.
    + left. by rewrite E, lookup_insert_ne.
  - right. exists x. split; [by right|done].
Qed.

(** ** Views and settings *)

Lemma views_spec ln_1p policy now l : forall s, db_wf (db s) -> (forall n, n ∈ l -> n ∈ nodes (db s)) ->
  exists vs s', views ln_1p policy s l now = (Ok vs, s') /\ db s' = db s /\
    Forall2 (fun n v => node v = n /\ max_concurrency v = get_node_max_concurrency (db s) (Node.id n) /\
      exists r, by_id Route.id (Node.registry_route_id n) (routes (db s)) = Some r /\ RouteSummary.key (route v) = Route.key r) l vs.
Proof.
  induction l as [|n l IH]; intros s Hd Hin; simpl; [by exists [], s|].
  unfold view. destruct (by_id Route.id (Node.registry_route_id n) (routes (db s))) as [r|] eqn:Er.
  2:{ exfalso. pose proof (wf_node_routes _ Hd) as H. rewrite Forall_forall in H.
      apply by_id_None in Er. specialize (H n (Hin n (list_elem_of_here _ _))). apply list_elem_of_fmap in H as (x & E & Hx).
      rewrite Forall_forall in Er. by apply (Er x Hx). }
  destruct (view_with ln_1p policy s n (unwrap_or _ _) r now) as [v s1] eqn:Ev.
  pose proof (view_with_db ln_1p policy s n (unwrap_or (metric_for (db s) (Node.id n)) (empty_metric (Node.id n))) r now) as Hs.
  rewrite Ev in Hs. simpl in Hs.
  destruct (IH s1) as (vs & s' & E & Hs' & Hv); [by rewrite Hs|intros x Hx; rewrite Hs; apply Hin; by right|].
  rewrite E. exists (v :: vs), s'. split; [done|]. split; [congruence|]. rewrite Hs in Hv. constructor; [|done].
  unfold view_with in Ev. pose proof (live_rate_db s (Node.id n) now) as Hl. destruct (live_rate s (Node.id n) now) as [live s2].
  injection Ev as <- <-. simpl in *. split; [done|]. split; [by rewrite Hl|]. by exists r.
Qed.

Lemma insert_settings_replace l : NoDup l.*1 -> insert_settings ∅ l = Ok (Settings.replace_runtime_settings l).
Proof.
  unfold Settings.replace_runtime_settings. intros Hn.
  assert (forall m : Settings.SettingsTable, (forall k, k ∈ l.*1 -> m !! k = None) ->
    insert_settings m l = Ok (foldl (fun m kv => <[kv.1 := kv.2]> m) m l)) as H; [|apply H; intros; apply lookup_empty].
  induction l as [|[k v] l IH]; intros m Hm; simpl in *; [done|]. apply NoDup_cons in Hn as [Hk Hn].
  rewrite (Hm k) by (by left). simpl. apply IH; [done|]. intros k' Hk'. rewrite lookup_insert_ne; [apply Hm; by right|]. by intros ->.
Qed.

(** ** The handlers *)

Section Handlers.
Variable parse_f64 : string -> option f64.
Variable f64_text : f64 -> string.
Variable rows : Settings.SettingsTable -> list (string * string).
Variable ln_1p : f64 -> f64.
Variable parse_authority : string -> option (string * option Z).
Context (net_contains : string -> IpAddr -> bool) (lookup_host : string -> Z -> option (list IpAddr)).
Context {Url : Type} (api : UrlApi Url) (url_to_string : Url -> string).
Context (route_uuid node_uuid : nat -> Uuid).

Abbreviation export := (export_runtime parse_f64 rows ln_1p).
Abbreviation import := (import_runtime parse_f64 f64_text rows parse_authority net_contains lookup_host api url_to_string route_uuid node_uuid).

(** A stored route in its normal form: what [create] stores, sent again, is itself. *)
Definition portable_route (r : Route.Model) : Prop :=
  exists n, normalize_input parse_authority (route_input r) = Ok n /\ route_of (Route.id r) n (Route.created_at r) (Route.updated_at r) = r.

(** A stored node whose address still resolves to itself. *)
Definition exported_node (key : string) (c : Z) (n : Node.Model) : ExportNode :=
  {| x_name := Node.name n; x_url := Node.url n; x_registry_route := key; x_enabled := Node.enabled n;
     x_priority := Node.priority n; x_max_concurrency := c; x_cf_preferred := Node.cf_preferred n;
     x_connect_ip_type := Node.connect_ip_type n; x_connect_ip := Node.connect_ip n; x_auth_mode := Node.auth_mode n;
     x_auth_username := Node.auth_username n; x_auth_header := Node.auth_header n |}.

Record portable_node (config : SecurityConfig) (d : RegistryDb) (n : Node.Model) : Prop := {
  po_name : trim (Node.name n) = Node.name n;
  po_mode : auth_mode_known (Node.auth_mode n) = true;
  po_limit : 1 <= get_node_max_concurrency d (Node.id n) <= 64;
  po_input : forall key r, validate_input (node_input (exported_node key (get_node_max_concurrency d (Node.id n)) n) r) = Ok tt;
  po_connect : forall target, Node.connect_ip n = Some target -> validate_connect_target_syntax target (Node.connect_ip_type n) = Ok tt;
  po_url : exists v, validate_upstream net_contains lookup_host api (Node.url n) config = Ok v /\ url_to_string (vu_url v) = Node.url n
}.

Record portable (w : World) : Prop := {
  pw_wf : db_wf (tables w);
  pw_routes : Forall portable_route (routes (tables w));
  pw_nodes : Forall (portable_node (outbound w) (tables w)) (nodes (tables w))
}.

Section Prepare.
Context (d : RegistryDb) (Hwf : db_wf d) (Hroutes : Forall portable_route (routes d)) (now : Z).

Lemma same_key x y : x ∈ routes d -> y ∈ routes d -> Route.key x = Route.key y -> x = y.
Proof using Hwf.
  intros Hx Hy E. apply (apart_unique route_clash route_clash_sym (routes d)); [apply (wf_routes _ Hwf)|done|done|].
  unfold route_clash. by rewrite E, str_eqb_refl, orb_true_r.
Qed.

Lemma prepare_route_back k r : r ∈ routes d ->
  prepare_route parse_authority route_uuid (routes d) now k r = Ok (rewritten now r).
Proof using Hwf Hroutes.
  intros Hr. rewrite Forall_forall in Hroutes. destruct (Hroutes r Hr) as (n & En & E). unfold prepare_route. rewrite En.
  assert (n_key n = Route.key r) as Ek by (by rewrite <- E).
  rewrite (find_unique (routes d) _ r); [|done|by rewrite Ek, str_eqb_refl|].
  - unfold rewritten. do 2 f_equal. rewrite <- E at 3. done.
  - intros y Hy H%str_eqb_eq. apply same_key; [done..|]. congruence.
Qed.

Definition names (ids : gmap string Uuid) : Prop := forall r, r ∈ routes d -> ids !! Route.key r = Some (Route.id r).

Lemma prepare_routes_back doc : forall k ids, (forall r, r ∈ doc -> r ∈ routes d) -> names ids ->
  exists ids', prepare_routes parse_authority route_uuid (routes d) now k doc ids = Ok (rewritten now <$> doc, ids') /\ names ids'.
Proof using Hwf Hroutes.
  induction doc as [|r doc IH]; intros k ids Hin Hids; simpl; [by exists ids|].
  rewrite prepare_route_back by (apply Hin; by left). simpl.
  destruct (IH (S k) (<[Route.key (touched now r) := Route.id (touched now r)]> ids)) as (ids' & E & Hids').
  - intros x Hx. apply Hin. by right.
  - intros x Hx. destruct (decide (Route.key x = Route.key r)) as [E|E].
    + rewrite (same_key x r); [|done|apply Hin; by left|done]. destruct (touched_weaker now r) as (-> & -> & _). apply lookup_insert_eq.
    + rewrite lookup_insert_ne; [by apply Hids|]. destruct (touched_weaker now r) as (_ & -> & _). congruence.
  - rewrite E. by exists ids'.
Qed.

Lemma existing_names : names (existing_ids (routes d)).
Proof using Hwf.
  unfold existing_ids. intros r Hr. generalize (∅ : gmap string Uuid).
  assert (forall l, (forall x, x ∈ l -> x ∈ routes d) -> forall m : gmap string Uuid, r ∈ l \/ m !! Route.key r = Some (Route.id r) ->
    foldl (fun m r => <[Route.key r := Route.id r]> m) m l !! Route.key r = Some (Route.id r)) as H; [|intros m; apply H; auto].
  induction l as [|x l IH]; intros Hin m Hm; simpl; [by destruct Hm as [?%not_elem_of_nil|?]|].
  apply IH; [intros y Hy; apply Hin; by right|]. destruct (decide (Route.key x = Route.key r)) as [E|E].
  - right. rewrite E, lookup_insert_eq. do 2 f_equal. apply same_key; [apply Hin; by left|done|done].
  - rewrite lookup_insert_ne by done. destruct Hm as [[->|Hm]%elem_of_cons|Hm]; [done|by left|by right].
Qed.

Lemma prepare_node_back config ids k n key : names ids -> n ∈ nodes d -> portable_node config d n ->
  (exists r, by_id Route.id (Node.registry_route_id n) (routes d) = Some r /\ key = Route.key r) ->
  prepare_node net_contains lookup_host api url_to_string node_uuid config (list_nodes d) ids now k
    (exported_node key (get_node_max_concurrency d (Node.id n)) n)
  = Ok (renode now (fun n => get_node_max_concurrency d (Node.id n)) n).
Proof using Hwf.
  intros Hids Hn [Hname _ _ Hin Hc (v & Ev & Eu)] (r & Er & ->). apply by_id_Some in Er as [Hr Ei].
  unfold prepare_node. simpl. rewrite (Hids r Hr). simpl. rewrite Hin.
  assert (check_connect_target (node_input (exported_node (Route.key r) (get_node_max_concurrency d (Node.id n)) n) (Route.id r)) = Ok tt) as ->.
  { unfold check_connect_target. simpl. destruct (Node.connect_ip n) as [t|] eqn:E; [by apply Hc|done]. }
  rewrite Ev, Eu, Ei.
  assert (find_one (same_place (Node.registry_route_id n) (Node.url n)) (list_nodes d) = Some n) as ->.
  { apply find_unique.
    - unfold list_nodes. by rewrite sort_by_perm.
    - unfold same_place. by rewrite N.eqb_refl, str_eqb_refl.
    - intros y Hy H. unfold list_nodes in Hy. rewrite sort_by_perm in Hy.
      apply (apart_unique node_clash node_clash_sym (nodes d)); [apply (wf_nodes _ Hwf)|done|done|].
      rewrite node_clash_sym. unfold node_clash. by rewrite H, orb_true_r. }
  assert (normalize_connect_ip_type (Node.connect_ip_type n) = Ok (Node.connect_ip_type n)) as ->.
  { pose proof (wf_connect _ Hwf) as H. rewrite Forall_forall in H. specialize (H n Hn). unfold connect_type_ok in H.
    unfold normalize_connect_ip_type. apply orb_true_iff in H as [H|H]; apply str_eqb_eq in H; by rewrite H. }
  unfold renode, imported_node, reimported. simpl. by rewrite Hname.
Qed.

Lemma prepare_nodes_back config ids vs : names ids ->
  Forall (fun v => node v ∈ nodes d /\ portable_node config d (node v) /\
    max_concurrency v = get_node_max_concurrency d (Node.id (node v)) /\
    exists r, by_id Route.id (Node.registry_route_id (node v)) (routes d) = Some r /\ RouteSummary.key (route v) = Route.key r) vs ->
  forall k, prepare_nodes net_contains lookup_host api url_to_string node_uuid config (list_nodes d) ids now k (export_node <$> vs)
    = Ok (renode now (fun n => get_node_max_concurrency d (Node.id n)) <$> (node <$> vs)).
Proof using Hwf.
  intros Hids. induction 1 as [|v vs (Hn & Hp & Hm & Hr) _ IH]; intros k; simpl; [done|].
  assert (export_node v = exported_node (RouteSummary.key (route v)) (get_node_max_concurrency d (Node.id (node v))) (node v)) as ->
    by (unfold export_node, exported_node; by rewrite Hm).
  rewrite prepare_node_back by done. by rewrite IH.
Qed.

(** The document of well-formed tables passes the checks. *)
Lemma check_routes_back doc : forall keys, (forall r, r ∈ doc -> r ∈ routes d /\ Route.key r ∉ keys) -> NoDup (Route.key <$> doc) ->
  check_routes keys doc = Ok tt.
Proof using Hroutes.
  induction doc as [|r doc IH]; intros keys Hin Hnd; [done|]. simpl in *. apply NoDup_cons in Hnd as [Hr Hnd].
  destruct (Hin r (list_elem_of_here _ _)) as [Hd Hk]. rewrite bool_decide_eq_false_2 by done.
  rewrite Forall_forall in Hroutes. destruct (Hroutes r Hd) as (n & En & _).
  assert (forall s, is_empty (to_ascii_lowercase s) = is_empty s) as Hl by (by intros []).
  assert (is_empty (trim (Route.key r)) = false /\ is_empty (trim (Route.canonical_registry r)) = false) as [-> ->].
  { unfold normalize_input, normalize_identifier in En. simpl in En. split; rewrite <- Hl.
    - destruct (to_ascii_lowercase (trim (Route.key r))) ; [by simpl in En|done].
    - destruct (identifier _); [|done]. destruct (is_empty (trim (Route.name r)) || _); [done|]. unfold normalize_registry_authority in En.
      destruct (is_empty (to_ascii_lowercase (trim (Route.canonical_registry r)))); [done|done]. }
  simpl. apply IH; [|done]. intros x Hx. destruct (Hin x ltac:(by right)) as [? ?]. split; [done|].
  intros [E|?]%elem_of_cons; [|done]. apply Hr. rewrite <- E. by apply list_elem_of_fmap_2.
Qed.

Lemma check_nodes_back known l : Forall (fun x => auth_mode_known (x_auth_mode x) = true /\ 1 <= x_max_concurrency x <= 64 /\
  known (x_registry_route x) = true) l -> check_nodes known l = Ok tt.
Proof using Type.
  induction 1 as [|x l (Hm & Hc & Hk) _ IH]; simpl; [done|]. rewrite Hm, Hk, (proj2 (Z.ltb_ge _ _)), (proj2 (Z.ltb_ge 64 _)) by lia. done.
Qed.
End Prepare.

Lemma quiet_run {A} (p : program World A) w : obeys quiet p -> quiet w (run p w).2.
Proof using Type.
  intros Hp. destruct (run p w) as [a w'] eqn:E. apply (run_runs (fun _ _ => False)) in E.
  apply (runs_steps _ quiet) in E; [|done|done]. simpl. induction E as [|x y z [H1 H2] _ [H3 H4]]; [done|].
  split; congruence.
Qed.

(** What an export holds. *)
Lemma export_document w instant x w1 : db_wf (tables w) -> run (export instant) w = (Ok x, w1) ->
  app w1 = app w /\ tables w1 = tables w /\ format x = FORMAT /\ version x = 1 /\
  registry_routes x = list_routes (tables w) /\ is_some (x_settings x) = true /\
  exists vs, x_nodes x = export_node <$> vs /\ (node <$> vs) ≡ₚ nodes (tables w) /\
    Forall (fun v => max_concurrency v = get_node_max_concurrency (tables w) (Node.id (node v)) /\
      exists r, by_id Route.id (Node.registry_route_id (node v)) (routes (tables w)) = Some r /\ RouteSummary.key (route v) = Route.key r) vs.
Proof using Type.
  intros Hwf. unfold export_runtime, on_app, Settings.effective_config, node_views, list_views. cbn.
  destruct (Settings.overridden _ _ _ _) as [c|]; cbn; [|done].
  destruct (views_spec ln_1p (Settings.nr_policy (Settings.nodes (Settings.services (app w)))) instant (list_nodes (tables w)) (service w) Hwf)
    as (vs & s' & E & Hs & Hv).
  { intros n. unfold list_nodes. by rewrite sort_by_perm. }
  unfold tables in *. destruct w as [a s]. cbn in *. rewrite E. cbn. intros [= <- <-]. cbn. rewrite Hs. split_and!; try done.
  exists (sort_by view_order vs). split; [done|]. rewrite sort_by_perm. split.
  - assert (node <$> vs = list_nodes (db s)) as ->; [|unfold list_nodes; by rewrite sort_by_perm].
    clear -Hv. induction Hv as [|n v l vs [<- _] _ IH]; csimpl; [done|]. by rewrite IH.
  - apply Forall_forall. intros v Hv'. apply list_elem_of_lookup in Hv' as [k Hk].
    destruct (Forall2_lookup_r _ _ _ _ _ Hv Hk) as (n & _ & <- & ? & ?). done.
Qed.

Section Back.
Context (d : RegistryDb) (Hwf : db_wf d) (Hr : Forall portable_route (routes d)) (config : SecurityConfig) (now : Z).
Abbreviation limit := (fun n : Node.Model => get_node_max_concurrency d (Node.id n)).

Lemma checks_back x vs : registry_routes x = list_routes d -> x_nodes x = export_node <$> vs ->
  Forall (fun v => node v ∈ nodes d /\ portable_node config d (node v) /\ max_concurrency v = limit (node v) /\
    exists r, by_id Route.id (Node.registry_route_id (node v)) (routes d) = Some r /\ RouteSummary.key (route v) = Route.key r) vs ->
  validate_import_snapshot (list_routes d) x = Ok tt.
Proof using Hwf Hr.
  intros Er En Hvs. assert (list_routes d ≡ₚ routes d) as Hperm by apply sort_by_perm.
  unfold validate_import_snapshot. rewrite Er, En, (check_routes_back d Hr).
  - apply check_nodes_back, Forall_fmap. eapply Forall_impl; [exact Hvs|]. intros v (_ & [] & Hm & r & Hb & Hk). simpl.
    rewrite Hm. split; [done|]. split; [done|]. apply orb_true_iff. left. apply existsb_exists. apply by_id_Some in Hb as [Hin _].
    exists r. split; [apply list_elem_of_In; by rewrite Hperm|]. by rewrite Hk, str_eqb_refl.
  - intros r Hin. rewrite Hperm in Hin. split; [done|]. apply not_elem_of_nil.
  - rewrite Hperm. pose proof (wf_routes _ Hwf) as Ha. clear -Ha. induction (routes d) as [|r l IH]; csimpl; [constructor|].
    destruct Ha as [Hx Ha]. apply NoDup_cons. split; [|by apply IH]. intros (y & E & Hy)%list_elem_of_fmap.
    rewrite Forall_forall in Hx. specialize (Hx y Hy). unfold route_clash in Hx. by rewrite E, str_eqb_refl, orb_true_r in Hx.
Qed.

Lemma transaction_back l s m : l ≡ₚ nodes d -> (forall n, n ∈ nodes d -> 1 <= limit n <= 64) ->
  apply_prepared_snapshot f64_text (rewritten now <$> list_routes d) (renode now limit <$> l) (Some s) d m
  = Ok (with_limits (with_nodes (with_routes d (touched now <$> routes d)) (reimported now <$> nodes d)) (set_limits limit l (limits d)),
        Settings.replace_runtime_settings (Settings.runtime_setting_values f64_text s)).
Proof using Hwf.
  intros Hp Hl. assert (list_routes d ≡ₚ routes d) as Hperm by apply sort_by_perm.
  unfold apply_prepared_snapshot. pose proof (routes_back d Hwf now (list_routes d) Hperm) as E. cbv zeta in E. rewrite E.
  assert (db_wf (with_routes d (touched now <$> routes d))) as Hwf'.
  { apply rerouted_wf; [done|intros r; apply touched_weaker|]. intros x y. apply clash_weaker; apply touched_weaker. }
  rewrite (write_nodes_back (with_routes d (touched now <$> routes d)) Hwf' now limit Hl l _ ∅); [|by intros n; rewrite Hp| |done].
  - rewrite written_all; [|intros n Hn; apply elem_of_union_l, elem_of_list_to_set, list_elem_of_fmap_2; by rewrite Hp].
    rewrite insert_settings_replace by apply SettingsProps.stored_keys. done.
  - rewrite written_none. by rewrite list_fmap_id.
Qed.
End Back.

(** An import whose steps succeed. *)
Lemma import_run w x ids rs ns d m : format x = FORMAT -> version x = 1 ->
  match x_settings x with Some i => Settings.validate_runtime_settings i | None => Ok tt end = Ok tt ->
  validate_import_snapshot (list_routes (tables w)) x = Ok tt ->
  prepare_routes parse_authority route_uuid (routes (tables w)) (Settings.clock (app w)) 0 (registry_routes x) (existing_ids (routes (tables w)))
    = Ok (rs, ids) ->
  prepare_nodes net_contains lookup_host api url_to_string node_uuid (outbound w) (list_nodes (tables w)) ids (Settings.clock (app w)) 0 (x_nodes x)
    = Ok ns ->
  apply_prepared_snapshot f64_text rs ns (x_settings x) (tables w) (table w) = Ok (d, m) ->
  tables (run (import x) w).2 = d /\ table (run (import x) w).2 = m.
Proof using Type.
  intros Ef Ev Es Ec Er En Et. unfold import_runtime, apply_runtime_snapshot. rewrite Ef, Ev, str_eqb_refl, Z.eqb_refl, Es.
  cbn [negb orb bind]. unfold read. cbn [bind Prog.run]. rewrite Ec. cbn [bind Prog.run]. rewrite Er. cbn [bind Prog.run]. rewrite En. cbn [bind Prog.run].
  unfold commit_snapshot. rewrite Et. cbn [bind Prog.run].
  match goal with |- context [run ?p (committed w d m)] => destruct (quiet_run p (committed w d m)) as [H1 H2] end.
  - apply obeys_bind; [|intros [eff|e]; [|done]; apply obeys_bind; [|intros _]].
    + split; [|done]. intros v. done.
    + apply (obeys_zoom same_settings); [|apply apply_config_quiet]. intros v a Ha. split; [done|exact Ha].
    + apply (obeys_zoom same_settings); [|apply response_quiet]. intros v a Ha. split; [done|exact Ha].
  - by rewrite H1, H2.
Qed.

(** C22: An export that can be imported changes nothing but secrets and times.  Let the
    tables be portable: routes and nodes in the form the API stores, and every node's
    address accepted again when it is resolved; and let the exported settings pass the
    checks of the settings API, which those read from the environment need not do.
    Then importing the document where it was made writes every row: the same routes and
    nodes under the same identifiers and in the same order, with their limits, metrics
    and pull log; the stored settings are the exported ones; only the times of change
    are new, and a node that needs a secret has lost it and is disabled.  The handler is
    given the document whole: the router in front of it refuses a body above 64 KiB. *)
Theorem export_import_roundtrip w instant x w1 s :
  portable w -> run (export instant) w = (Ok x, w1) -> x_settings x = Some s -> Settings.validate_runtime_settings s = Ok tt ->
  let w2 := (run (import x) w1).2 in
  let now := Settings.clock (app w) in
  routes (tables w2) = touched now <$> routes (tables w) /\ nodes (tables w2) = reimported now <$> nodes (tables w) /\
  metrics (tables w2) = metrics (tables w) /\ pulls (tables w2) = pulls (tables w) /\
  (forall i, get_node_max_concurrency (tables w2) i = get_node_max_concurrency (tables w) i) /\
  table w2 = Settings.replace_runtime_settings (Settings.runtime_setting_values f64_text s).
Proof using Type.
  intros [Hwf Hr Hn] He Hs Hv w2 now. destruct (export_document _ _ _ _ Hwf He) as (Ea & Et & Ef & Ever & Er & _ & vs & En & Hp & Hvs).
  set (d := tables w) in *. set (limit := fun n => get_node_max_concurrency d (Node.id n)).
  assert (list_routes d ≡ₚ routes d) as Hperm by apply sort_by_perm.
  assert (Forall (fun v => node v ∈ nodes d /\ portable_node (outbound w) d (node v) /\
    max_concurrency v = get_node_max_concurrency d (Node.id (node v)) /\
    exists r, by_id Route.id (Node.registry_route_id (node v)) (routes d) = Some r /\ RouteSummary.key (route v) = Route.key r) vs) as Hvs'.
  { apply Forall_forall. intros v Hin. rewrite Forall_forall in Hvs. assert (node v ∈ nodes d) as H by (rewrite <- Hp; by apply list_elem_of_fmap_2).
    destruct (Hvs v Hin) as [H1 H2]. split; [done|]. split; [|done]. by eapply Forall_forall in Hn. }
  destruct (prepare_routes_back d Hwf Hr now (list_routes d) 0 (existing_ids (routes d))) as (ids & Eids & Hids);
    [by intros r; rewrite Hperm|by apply existing_names|].
  pose proof (prepare_nodes_back d Hwf now (outbound w) ids vs Hids Hvs' 0) as Ens.
  assert (validate_import_snapshot (list_routes d) x = Ok tt) as Echk by (by apply (checks_back d Hwf Hr (outbound w) x vs)).
  set (final := with_limits (with_nodes (with_routes d (touched now <$> routes d)) (reimported now <$> nodes d)) (set_limits limit (node <$> vs) (limits d))).
  assert (apply_prepared_snapshot f64_text (rewritten now <$> list_routes d) (renode now limit <$> (node <$> vs)) (Some s) d (table w)
    = Ok (final, Settings.replace_runtime_settings (Settings.runtime_setting_values f64_text s))) as Etx.
  { apply (transaction_back d Hwf now (node <$> vs) s (table w) Hp). intros n Hin. eapply Forall_forall in Hn; [|exact Hin]. apply Hn. }
  assert (tables w2 = final /\ table w2 = Settings.replace_runtime_settings (Settings.runtime_setting_values f64_text s)) as [-> ->].
  { assert (outbound w1 = outbound w) as Eo by (unfold outbound; by rewrite Ea).
    apply (import_run w1 x ids (rewritten now <$> list_routes d) (renode now limit <$> (node <$> vs))); rewrite ?Et, ?Ea, ?Eo, ?Hs, ?Er, ?En; done. }
  split; [done|]. split; [done|]. split; [done|]. split; [done|]. split; [|done].
  intros i. unfold get_node_max_concurrency. simpl. destruct (set_limits_lookup limit (node <$> vs) (limits d) i) as [->|(n & _ & <- & ->)]; [done|].
  unfold limit, get_node_max_concurrency. simpl. lia.
Qed.
End Handlers.
End Roundtrip.

(** ** Instances *)

Module SnapshotWitness.
Import Tables Routes Nodes Snapshot SnapshotProps Roundtrip.

(** A server with a mirror route and an authenticated node on it. *)
Definition stored : RegistryDb :=
  {| routes := [docker_hub 0; ghcr 0; NodesWitness.mirror_row]; nodes := [NodesWitness.basic_row]; metrics := ∅;
     limits := {[9%N := 4]}; pulls := []; referenced := ∅ |}.
Definition server : World := {| app := SettingsWitness.launched; service := {| db := stored; live_rates := ∅ |} |}.

Definition route_uuid (k : nat) : Uuid := (2 ^ 130 + N.of_nat k)%N.
Definition node_uuid (k : nat) : Uuid := (2 ^ 131 + N.of_nat k)%N.
Definition scan (m : Settings.SettingsTable) : list (string * string) := map_to_list m.

Abbreviation export_here := (export_runtime SettingsWitness.read_f64 scan (fun x => x)).
Abbreviation import_here := (import_runtime SettingsWitness.read_f64 SettingsWitness.text scan SecurityWitness.authority
  SecurityWitness.cidr_contains SecurityWitness.dns SecurityWitness.toy_url id route_uuid node_uuid).

Definition alone (a b : World) : Prop := False.

Lemma alone_same w a : rtc alone w a -> a = w.
Proof. intros H. by inversion H. Qed.

(** The default route, listed with a new one that takes its place. *)
Definition demoted : Route.Model :=
  {| Route.id := DOCKER_HUB_ROUTE_ID; Route.key := "dockerhub"; Route.name := "Docker Hub"; Route.canonical_registry := "docker.io";
     Route.path_prefix := Some "hub"; Route.repository_mode := "docker_hub_library"; Route.is_default := false; Route.enabled := true;
     Route.created_at := 0; Route.updated_at := 0 |}.
Definition promoted : Route.Model :=
  {| Route.id := 5; Route.key := " Local "; Route.name := "Local"; Route.canonical_registry := "registry.example";
     Route.path_prefix := None; Route.repository_mode := "passthrough"; Route.is_default := true; Route.enabled := true;
     Route.created_at := 0; Route.updated_at := 0 |}.
Definition swap (l : list Route.Model) : RuntimeSettingsExport :=
  {| format := FORMAT; version := 1; x_settings := None; registry_routes := l; x_nodes := [] |}.
Abbreviation swap_default := (swap [demoted; promoted]).

Lemma stored_wf : db_wf stored.
Proof.
  constructor; cbn [stored routes nodes limits metrics pulls].
  - repeat constructor.
  - repeat constructor.
  - constructor; [|constructor]. right; right; left.
  - repeat constructor.
  - apply map_Forall_empty.
  - apply map_Forall_singleton. split; [lia|left].
  - constructor.
Qed.

Lemma server_good : good server.
Proof.
  constructor; [constructor|].
  - apply stored_wf.
  - pose proof (ri_ok _ RoutesWitness.seeded_routes) as H. apply Forall_app_2 with (l1 := [docker_hub 0; ghcr 0]); [exact H|].
    constructor; [|constructor]. constructor; try reflexivity; [intros p [= <-]; reflexivity|by exists Passthrough].
  - left.
  - right; left.
  - constructor; [|constructor]. constructor; [reflexivity|simpl; lia|reflexivity].
Qed.

Lemma swap_ok : is_ok (run (import_here swap_default) server).1 = true.
Proof. vm_compute. reflexivity. Qed.

Lemma import_atomic_witness :
  exists w1 rs ns d m, rtc alone server w1 /\ length rs = length (registry_routes swap_default) /\
    rows_written rs ns (tables w1) d /\
    rtc (after alone) (committed w1 d m) (run (import_here swap_default) server).2.
Proof.
  pose proof swap_ok as Hr. destruct (run (import_here swap_default) server) as [r w'] eqn:E. cbn [fst snd] in *.
  destruct (import_atomic SettingsWitness.read_f64 SettingsWitness.text scan SecurityWitness.authority SecurityWitness.cidr_contains
    SecurityWitness.dns SecurityWitness.toy_url id route_uuid node_uuid alone swap_default server r w' (run_runs alone _ _ _ _ E))
    as [(e & Ee & _)|(w1 & rs & ns & d & m & S1 & _ & Hrs & _ & Hd & _ & S2)].
  - rewrite Ee in Hr. discriminate Hr.
  - exists w1, rs, ns, d, m. split; [exact S1|]. split; [symmetry; by eapply Forall2_length|]. split; [exact Hd|exact S2].
Defined.

Lemma swapped_routes : length (routes (tables (run (import_here swap_default) server).2)) = 4%nat.
Proof. vm_compute. reflexivity. Qed.

Lemma fresh_here k : route_uuid k ∉ route_ids stored.
Proof.
  intros H. apply list_elem_of_In in H. unfold route_uuid in H. cbn in H. 
  destruct H as [H|[H|[H|[]]]]; revert H; (unfold DOCKER_HUB_ROUTE_ID, GHCR_ROUTE_ID; lia).
Qed.

Lemma listed_default r : r ∈ routes stored -> Route.is_default r = true -> Route.key r = "dockerhub".
Proof.
  intros H. apply list_elem_of_In in H. destruct H as [<-|[<-|[<-|[]]]]; [reflexivity|discriminate..].
Qed.

Lemma import_keeps_registry_witness : good (run (import_here swap_default) server).2 /\
  length (routes (tables (run (import_here swap_default) server).2)) = 4%nat.
Proof.
  split; [|exact swapped_routes].
  destruct (run (import_here swap_default) server) as [r w'] eqn:E. cbn [fst snd].
  refine (proj1 (import_keeps_registry SettingsWitness.read_f64 SettingsWitness.text scan SecurityWitness.authority SecurityWitness.cidr_contains
      SecurityWitness.dns SecurityWitness.toy_url id route_uuid node_uuid alone swap_default server r w' _ server_good _ _ (run_runs alone _ _ _ _ E))).
  - intros a b [].
  - intros a b H. unfold route_uuid in H. lia.
  - intros a ->%alone_same. split; [exact fresh_here|]. intros _ r0 Hr Hd. exists demoted.
    split; [left|]. rewrite (listed_default r0 Hr Hd). reflexivity.
Defined.

(** A document with a new default that omits the default of the tables: the row that
    loses the flag has no prefix, so no request reaches it any more. *)
Lemma orphaned_default :
  (fun r => (Route.is_default r, Route.path_prefix r)) <$>
    by_id Route.id DOCKER_HUB_ROUTE_ID (routes (tables (run (import_here (swap [promoted])) server).2)) = Some (false, None).
Proof. vm_compute. reflexivity. Qed.

Lemma server_portable :
  portable SecurityWitness.authority SecurityWitness.cidr_contains SecurityWitness.dns SecurityWitness.toy_url id server.
Proof.
  constructor; [apply stored_wf| |].
  - repeat (apply Forall_cons; split; [eexists; split; vm_compute; reflexivity|]). apply Forall_nil. exact I.
  - apply Forall_cons. split; [|apply Forall_nil; exact I]. constructor.
    + vm_compute. reflexivity.
    + vm_compute. reflexivity.
    + split; vm_compute; discriminate.
    + intros key r. vm_compute. reflexivity.
    + intros t E. discriminate E.
    + eexists. split; vm_compute; reflexivity.
Qed.

Definition document : RuntimeSettingsExport :=
  match (run (export_here 3) server).1 with Ok x => x | Err _ => swap [] end.

Lemma document_exported : is_ok (run (export_here 3) server).1 = true.
Proof. vm_compute. reflexivity. Qed.

Lemma document_settings : match x_settings document with
  | Some s => is_ok (Settings.validate_runtime_settings s) | None => false end = true.
Proof. vm_compute. reflexivity. Qed.

Lemma export_import_roundtrip_witness : exists x w1,
  run (export_here 3) server = (Ok x, w1) /\
  nodes (tables (run (import_here x) w1).2) = [reimported 0 NodesWitness.basic_row] /\
  get_node_max_concurrency (tables (run (import_here x) w1).2) 9 = 4.
Proof.
  pose proof document_exported as Hx. pose proof document_settings as Hs. unfold document in Hs.
  destruct (run (export_here 3) server) as [[x|e] w1] eqn:E; [|discriminate Hx]. cbn [fst snd] in *.
  destruct (x_settings x) as [s|] eqn:Es; [|discriminate Hs].
  assert (Settings.validate_runtime_settings s = Ok tt) as Hv by (destruct (Settings.validate_runtime_settings s) as [[]|]; [reflexivity|discriminate Hs]).
  destruct (export_import_roundtrip SettingsWitness.read_f64 SettingsWitness.text scan (fun x => x) SecurityWitness.authority
    SecurityWitness.cidr_contains SecurityWitness.dns SecurityWitness.toy_url id route_uuid node_uuid server 3 x w1 s server_portable E Es Hv)
    as (_ & Hn & _ & _ & Hl & _).
  exists x, w1. split; [reflexivity|]. rewrite Hn, Hl. split; reflexivity.
Defined.
End SnapshotWitness.
