(* ===== verification/Artifacts.v ===== *)
(** * The artifact store of the image tools

    src/src/image_tools/artifacts.rs and the file helpers of src/src/image_tools.rs:
    the directory [image-tools] with the shared blobs, the jobs' directories and the
    partial files, the lock that keeps the garbage collector away from writers and the
    locks of the jobs.

    A path is the list of its components below [image-tools]; a directory is the
    common prefix of its files.  A hard link and a copy are the same, as no file is
    changed in place once it has its final name.  [io] gives the error, if any, that
    the [n]-th file operation meets.  A lock that has to wait tries again until its
    [patience] is out; then the program has no result yet ([None]). *)

From stdpp Require Import base gmap sets list strings relations.
From Stdlib Require Import ZArith Lia Ascii Strings.Byte.
From S2P Require Import Prelude Text Errors Prog Threads Files Jobs.

#[local] Set Default Proof Using "Type*".

(** Programs that may still be waiting for a lock. *)
Definition ok {W A} (a : A) : program W (option (ApiResult A)) := Ret (Some (Ok a)).
Definition failed {W A} (e : AppError) : program W (option (ApiResult A)) := Ret (Some (Err e)).
Definition lifted {W A} (p : program W (ApiResult A)) : program W (option (ApiResult A)) := let- r := p in Ret (Some r).
Definition checked {W A} (r : ApiResult A) : program W (option (ApiResult A)) := Ret (Some r).

Notation "'do!' x ':=' p 'in' k" :=
  (bind p (fun r => match r with Some (Ok x) => k | Some (Err e) => Ret (Some (Err e)) | None => Ret None end))
  (at level 10, x pattern, p at level 100, k at level 200,
   format "'[v' 'do!'  x  ':='  p  'in' '/' k ']'") : donkey_scope.

Module Artifacts.

Abbreviation Path := (list string).
Inductive entry := Regular (b : bytes) | Symlink (target : string).
Abbreviation Disk := (gmap Path entry).

(** [BlobWriteGuard]: the worker that holds it, its job and the digest's value. *)
Record Guard := { g_worker : Uuid; g_job : Uuid; g_value : string }.

#[global] Instance guard_eq_dec : EqDecision Guard.
Proof. solve_decision. Defined.

(** [writers] hold the collector's lock shared, [collecting] is the worker that holds it
    exclusively, [locked] the job locks with the worker that holds each; [ops] counts file operations. *)
Record Store := {
  disk : Disk;
  writers : list Guard;
  collecting : option Uuid;
  locked : gmap Uuid Uuid;
  ops : nat
}.

Definition with_disk (s : Store) (d : Disk) : Store :=
  {| disk := d; writers := writers s; collecting := collecting s; locked := locked s; ops := ops s |}.
Definition with_writers (s : Store) (l : list Guard) : Store :=
  {| disk := disk s; writers := l; collecting := collecting s; locked := locked s; ops := ops s |}.
Definition with_collecting (s : Store) (b : option Uuid) : Store :=
  {| disk := disk s; writers := writers s; collecting := b; locked := locked s; ops := ops s |}.
Definition with_locked (s : Store) (l : gmap Uuid Uuid) : Store :=
  {| disk := disk s; writers := writers s; collecting := collecting s; locked := l; ops := ops s |}.
Definition counted (s : Store) : Store :=
  {| disk := disk s; writers := writers s; collecting := collecting s; locked := locked s; ops := S (ops s) |}.

(** ** Paths *)

Definition job_root (i : Uuid) : Path := ["jobs"; uuid_string i].
Definition layout (i : Uuid) : Path := job_root i ++ ["layout"].

(** The digest's value: what [shared_blob_path] and [blob_path] accept. *)
Definition sha256_value (digest : string) : ApiResult string :=
  let? v := ok_or (strip_prefix "sha256:" digest) (BadRequest "only sha256 image blobs are supported") in
  if (slen v =? 64) && all_bytes is_ascii_hexdigit v then Ok v
  else Err (BadRequest "only sha256 image blobs are supported").

Definition shared_path (v : string) : Path := ["blobs"; "sha256"; v].
Definition shared_blob_path (digest : string) : ApiResult Path :=
  let? v := sha256_value digest in Ok (shared_path v).
Definition layout_path (i : Uuid) (v : string) : Path := layout i ++ ["blobs"; "sha256"; v].
Definition blob_path (i : Uuid) (digest : string) : ApiResult Path :=
  let? v := sha256_value digest in Ok (layout_path i v).
Definition partial_path (i : Uuid) (v : string) : Path := ["partials"; uuid_string i +:+ "-" +:+ v].

Definition temporary (g : Guard) : Path := partial_path (g_job g) (g_value g).
Definition destination (g : Guard) : Path := shared_path (g_value g).

Definition below (dir p : Path) : bool := bool_decide (dir `prefix_of` p).

(** ** File operations *)

Section Store.
Variable io : nat -> option string.
Variable patience : nat.

Abbreviation prog A := (program Store (option (ApiResult A))).

(** One file operation, or the error it meets. *)
Definition on_disk {A} (f : Disk -> ApiResult A * Disk) : prog A :=
  Act (fun s => match io (ops s) with
                | Some kind => (Some (Err (Io kind)), counted s)
                | None => let '(r, d) := f (disk s) in (Some r, counted (with_disk s d))
                end) Ret.

(** An operation whose error the code ignores. *)
Definition attempt {A} (p : prog A) : prog bool :=
  let- r := p in Ret (match r with Some r => Some (Ok (is_ok r)) | None => None end).

(** [metadata(path)]. *)
Definition stat (p : Path) : prog unit :=
  on_disk (fun d => (match d !! p with Some _ => Ok tt | None => Err not_found end, d)).

Definition write_file (p : Path) (b : bytes) : prog unit := on_disk (fun d => (Ok tt, <[p := Regular b]> d)).

(** [write_all] of one chunk at the end of the file. *)
Definition append (p : Path) (b : bytes) : prog unit :=
  on_disk (fun d => match d !! p with
                    | Some (Regular b0) => (Ok tt, <[p := Regular (b0 ++ b)]> d)
                    | _ => (Err not_found, d)
                    end).

Definition remove_file (p : Path) : prog unit :=
  on_disk (fun d => match d !! p with Some _ => (Ok tt, delete p d) | None => (Err not_found, d) end).

Definition rename (from to : Path) : prog unit :=
  on_disk (fun d => match d !! from with
                    | Some e => (Ok tt, <[to := e]> (delete from d))
                    | None => (Err not_found, d)
                    end).

Definition remove_dir_all (dir : Path) (d : Disk) : Disk := filter (fun e : Path * entry => below dir e.1 = false) d.

Definition open_lock : prog unit := on_disk (fun d => (Ok tt, d)).

(** ** Locks and guards *)

(** [lock_shared] on [gc.lock]. *)
Definition lock_shared (g : Guard) : prog unit :=
  let- r := await patience (fun s => if is_some (collecting s) then None else Some (tt, with_writers s (g :: writers s))) in
  Ret (match r with Some _ => Some (Ok tt) | None => None end).

(** [lock] on [gc.lock]. *)
Definition lock_exclusive (worker : Uuid) : prog unit :=
  let- r := await patience (fun s => if is_some (collecting s) || negb (bool_decide (writers s = [])) then None
                                     else Some (tt, with_collecting s (Some worker))) in
  Ret (match r with Some _ => Some (Ok tt) | None => None end).

Definition unlock : program Store unit := Act (fun s => (tt, with_collecting s None)) Ret.

Fixpoint drop_first (g : Guard) (l : list Guard) : list Guard :=
  match l with
  | [] => []
  | x :: l => if decide (x = g) then l else x :: drop_first g l
  end.

(** [Drop for BlobWriteGuard], then the lock file is closed. *)
Definition drop_guard (g : Guard) : program Store unit :=
  let- _ := attempt (remove_file (temporary g)) in
  Act (fun s => (tt, with_writers s (drop_first g (writers s)))) Ret.

(** A result given after the guard is dropped. *)
Definition dropping {A} (g : Guard) (r : ApiResult A) : prog A := let- _ := drop_guard g in checked r.

Definition begin_blob_write (worker job : Uuid) (digest : string) : prog Guard :=
  match sha256_value digest with
  | Err e => failed e
  | Ok v =>
      let g := {| g_worker := worker; g_job := job; g_value := v |} in
      do! _ := open_lock in
      do! _ := lock_shared g in
      ok g
  end.

(** [BlobWriteGuard::commit], which consumes the guard. *)
Definition commit (g : Guard) : prog Path :=
  do! present := attempt (stat (destination g)) in
  if present : bool then
    let- _ := attempt (remove_file (temporary g)) in
    dropping g (Ok (destination g))
  else
    let- renamed := rename (temporary g) (destination g) in
    match renamed with
    | Some (Ok _) => dropping g (Ok (destination g))
    | Some (Err (Io kind)) =>
        if kind =?s "AlreadyExists" then
          let- _ := attempt (remove_file (temporary g)) in
          dropping g (Ok (destination g))
        else dropping g (Err (Io kind))
    | Some (Err e) => dropping g (Err e)
    | None => Ret None
    end.

(** The rest of a function that holds a guard, which an error drops. *)
Definition holding {A B} (g : Guard) (p : prog A) (k : A -> prog B) : prog B :=
  let- r := p in
  match r with
  | Some (Ok a) => k a
  | Some (Err e) => dropping g (Err e)
  | None => Ret None
  end.

Definition write_blob_bytes (worker job : Uuid) (digest : string) (b : bytes) : prog Path :=
  do! g := begin_blob_write worker job digest in
  holding g (write_file (temporary g) b) (fun _ => commit g).

(** [lock_job]; dropping its guard releases it. *)
Definition lock_job (worker i : Uuid) : prog unit :=
  do! _ := open_lock in
  let- r := await patience (fun s => if is_some (locked s !! i) then None else Some (tt, with_locked s (<[i := worker]> (locked s)))) in
  Ret (match r with Some _ => Some (Ok tt) | None => None end).

Definition unlock_job (worker i : Uuid) : program Store unit :=
  Act (fun s => (tt, if bool_decide (locked s !! i = Some worker) then with_locked s (delete i (locked s)) else s)) Ret.

Definition remove_job (i : Uuid) : prog unit :=
  let- r := on_disk (fun d => (Ok tt, remove_dir_all (job_root i) d)) in
  Ret (match r with Some (Err (Io kind)) => if kind =?s "NotFound" then Some (Ok tt) else r | _ => r end).

(** ** Usage and collection *)

(** The files under a job's [layout/blobs/sha256] are links to shared blobs. *)
Definition is_layout_blob (p : Path) : bool :=
  match p with
  | a :: _ :: b :: c :: d :: _ :: _ => (a =?s "jobs") && (b =?s "layout") && (c =?s "blobs") && (d =?s "sha256")
  | _ => false
  end.

Definition counted_size (f : Path * entry) : Z :=
  match f.2 with
  | Regular b => if is_layout_blob f.1 then 0 else blen b
  | Symlink _ => 0
  end.

Definition storage_usage_sync (d : Disk) : Z := foldr (fun f total => saturating_add (counted_size f) total) 0 (map_to_list d).

Definition usage : prog Z := on_disk (fun d => (Ok (storage_usage_sync d), d)).

(** A file of some job's [layout/blobs/sha256]: its name. *)
Definition layout_name (f : Path * entry) : option string :=
  match f with
  | ([a; _; b; c; d; v], Regular _) =>
      if (a =?s "jobs") && (b =?s "layout") && (c =?s "blobs") && (d =?s "sha256") then Some v else None
  | _ => None
  end.

Definition referenced (d : Disk) : gset string := list_to_set (omap layout_name (map_to_list d)).

(** A shared blob that no layout refers to. *)
Definition orphan (refs : gset string) (f : Path * entry) : bool :=
  match f with
  | ([a; b; v], Regular _) => (a =?s "blobs") && (b =?s "sha256") && bool_decide (v ∉ refs)
  | _ => false
  end.

Definition is_partial (p : Path) : bool := match p with a :: _ :: _ => a =?s "partials" | _ => false end.

(** [gc_shared_blobs_sync]: the two scans. *)
Definition gc_shared_blobs_sync : prog unit :=
  do! refs := on_disk (fun d => (Ok (referenced d), d)) in
  on_disk (fun d => (Ok tt, filter (fun f => orphan refs f = false) d)).

Definition cleanup_partials_sync : prog unit :=
  on_disk (fun d => (Ok tt, filter (fun f : Path * entry => is_partial f.1 = false) d)).

Definition gc_shared_blobs (worker : Uuid) : prog unit :=
  do! _ := open_lock in
  do! _ := lock_exclusive worker in
  let- r := (do! _ := gc_shared_blobs_sync in cleanup_partials_sync) in
  let- _ := unlock in
  Ret r.

(** ** File helpers of the pipelines *)

(** [path.with_extension("partial")] for a name without a dot or with one. *)
Definition with_partial (name : string) : string :=
  match rsplit_once "." name with
  | Some (stem, _) => (if is_empty stem then name else stem) +:+ ".partial"
  | None => name +:+ ".partial"
  end.

Definition atomic_write (dir : Path) (name : string) (b : bytes) : prog unit :=
  do! _ := write_file (dir ++ [with_partial name]) b in
  rename (dir ++ [with_partial name]) (dir ++ [name]).

Definition link (source target : Path) : prog unit :=
  on_disk (fun d => match d !! source with
                    | Some e => match d !! target with
                                | None => (Ok tt, <[target := e]> d)
                                | Some _ => (Err (Io "AlreadyExists"), d)
                                end
                    | None => (Err not_found, d)
                    end).

Definition copy (source target : Path) : prog unit :=
  on_disk (fun d => match d !! source with Some e => (Ok tt, <[target := e]> d) | None => (Err not_found, d) end).

Definition link_or_copy (source target : Path) : prog unit :=
  do! present := attempt (stat target) in
  if present : bool then ok tt
  else
    do! linked := attempt (link source target) in
    if linked : bool then ok tt else copy source target.
End Store.
End Artifacts.
