(* ===== verification/StoreProps.v ===== *)
(** * The artifact store under concurrency

    Rely and guarantee for the operations of Artifacts.v.  A thread [n] is a worker
    [workers n] on the job [ids n].  The invariant [inv] says that every shared blob
    has the content its name promises, that the collector runs only when nobody writes,
    and that guards belong to threads.  [frame n] is what thread [n] relies on: nobody
    touches its guards, the partial files they name, or its collector's lock. *)

From stdpp Require Import base gmap sets list strings relations.
From Stdlib Require Import ZArith Lia Ascii Strings.Byte.
From S2P Require Import Prelude Text Errors Prog Threads Files Jobs Artifacts.

#[local] Set Default Proof Using "Type*".

Module StoreProps.
Import Artifacts.

Lemma hex_digits_length w n : String.length (hex_digits w n) = w.
Proof. revert n. induction w as [|w IH]; intros n; simpl; [done|]. rewrite str_length_app, IH. simpl. lia. Qed.

Lemma uuid_string_length u : String.length (uuid_string u) = 36%nat.
Proof. unfold uuid_string. rewrite !str_length_app, !hex_digits_length. reflexivity. Qed.

Lemma string_app_inj (a b x y : string) : String.length a = String.length b -> a +:+ x = b +:+ y -> a = b.
Proof.
  revert b. induction a as [|c a IH]; intros [|c' b] H E; simpl in H; try lia; [done|].
  change (String c (a +:+ x) = String c' (b +:+ y)) in E. injection E as -> E. f_equal. apply IH; [lia|done].
Qed.

Lemma temporary_job g g' : temporary g = temporary g' -> uuid_string (g_job g) = uuid_string (g_job g').
Proof.
  intros E. eapply string_app_inj; [|exact (f_equal (fun p => List.nth 1 p EmptyString) E)]. by rewrite !uuid_string_length.
Qed.

Section Threads.
Variable sha256_hex : bytes -> string.
Variable io : nat -> option string.
Variable patience : nat.
Context {Thread : Type} (workers ids : Thread -> Uuid).
Context (Hworkers : Inj eq eq workers) (Hids : forall m n, uuid_string (ids m) = uuid_string (ids n) -> m = n).

(** Every shared blob is what its name says. *)
Definition blobs_ok (d : Disk) : Prop :=
  forall v e, d !! shared_path v = Some e -> exists b, e = Regular b /\ sha256_hex b = v.

Record inv (s : Store) : Prop := {
  inv_blobs : blobs_ok (disk s);
  inv_lock : is_Some (collecting s) -> writers s = [];
  inv_guards : forall g, g ∈ writers s -> exists n, g_worker g = workers n /\ g_job g = ids n
}.

Definition mine (n : Thread) (s : Store) : list Guard := List.filter (fun g => (g_worker g =? workers n)%N) (writers s).

Definition frame (n : Thread) (s s' : Store) : Prop := inv s ->
  inv s' /\ mine n s' = mine n s /\ (forall g, g ∈ mine n s -> disk s' !! temporary g = disk s !! temporary g) /\
  (collecting s' = Some (workers n) <-> collecting s = Some (workers n)).

Definition guarantee (n : Thread) (s s' : Store) : Prop := (inv s -> inv s') /\ forall m, m <> n -> frame m s s'.

Lemma frame_refl n s : frame n s s.
Proof using Type. intros H. done. Qed.

Lemma guarantee_refl n s : guarantee n s s.
Proof using Type. split; [done|]. intros m _. apply frame_refl. Qed.

Lemma guarantee_frame m n s s' : m <> n -> guarantee m s s' -> frame n s s'.
Proof using Type. intros Hne [_ H]. apply H. congruence. Qed.

Lemma mine_elem n s g : g ∈ mine n s <-> g ∈ writers s /\ g_worker g = workers n.
Proof using Type. unfold mine. rewrite !list_elem_of_In, filter_In, N.eqb_eq. done. Qed.

(** ** States of a thread *)

Definition idle (n : Thread) (s : Store) : Prop := inv s /\ mine n s = [] /\ collecting s <> Some (workers n).
Definition held (n : Thread) (g : Guard) (s : Store) : Prop := inv s /\ mine n s = [g] /\ g_job g = ids n.
Definition filled (n : Thread) (g : Guard) (b : bytes) (s : Store) : Prop := held n g s /\ disk s !! temporary g = Some (Regular b).
Definition exclusive (n : Thread) (s : Store) : Prop := inv s /\ collecting s = Some (workers n).

Definition stable (n : Thread) (P : Store -> Prop) : Prop := forall x y, frame n x y -> P x -> P y.

Lemma idle_stable n : stable n (idle n).
Proof using Type. intros x y H (Hi & Hm & Hc). destruct (H Hi) as (H1 & H2 & _ & H4). split; [done|]. rewrite H2, H4. done. Qed.

Lemma held_stable n g : stable n (held n g).
Proof using Type. intros x y H (Hi & Hm & Hj). destruct (H Hi) as (H1 & H2 & _). split; [done|]. by rewrite H2. Qed.

Lemma filled_stable n g b : stable n (filled n g b).
Proof using Type.
  intros x y H [Hh Hb]. split; [by eapply held_stable|]. destruct Hh as (Hi & Hm & _). destruct (H Hi) as (_ & _ & H3 & _).
  rewrite H3; [done|]. rewrite Hm. left.
Qed.

Lemma exclusive_stable n : stable n (exclusive n).
Proof using Type. intros x y H (Hi & Hc). destruct (H Hi) as (H1 & _ & _ & H4). split; [done|]. by apply H4. Qed.

Lemma true_stable n : stable n (fun _ => True).
Proof using Type. done. Qed.

#[local] Hint Resolve idle_stable held_stable filled_stable exclusive_stable true_stable : core.

(** ** Programs of a thread

    [triple N n P p Q]: from [P], beside the others, the program ends in [Q], or still
    waits for a lock, if [N] allows it. *)
Definition triple (N : Prop) {A} (n : Thread) (P : Store -> Prop) (p : program Store (option (ApiResult A))) (Q : ApiResult A -> Store -> Prop) : Prop :=
  forall s, P s -> secured (frame n) (guarantee n) p (fun o s => match o with Some r => Q r s | None => N end) s.

Section Any.
Variable N : Prop.

Lemma triple_ret {A} n P (r : ApiResult A) Q : stable n (Q r) -> (forall s, P s -> Q r s) -> triple N n P (Ret (Some r)) Q.
Proof using Type. intros HQ H s Hs. apply secured_ret; [done|]. by apply H. Qed.

Lemma triple_bind {A B} n P (p : program Store (option (ApiResult A))) Q (k : option (ApiResult A) -> program Store (option (ApiResult B))) Q' :
  triple N n P p Q -> (forall r, triple N n (Q r) (k (Some r)) Q') -> k None = Ret None -> triple N n P (bind p k) Q'.
Proof using Type.
  intros Hp Hk Hn s Hs. eapply secured_seq; [by apply Hp|]. intros [r|] w Hw; [by apply Hk|]. rewrite Hn. by intros ? _.
Qed.

Lemma triple_do {A B} n P (p : program Store (option (ApiResult A))) Q (k : A -> program Store (option (ApiResult B))) Q' :
  triple N n P p Q -> (forall a, triple N n (Q (Ok a)) (k a) Q') -> (forall e, stable n (Q' (Err e))) ->
  (forall e s, Q (Err e) s -> Q' (Err e) s) -> triple N n P (do! a := p in k a) Q'.
Proof using Type.
  intros Hp Hk Hs He. eapply triple_bind; [exact Hp| |done]. intros [a|e]; [apply Hk|]. apply triple_ret; [done|apply He].
Qed.

Lemma triple_mono {A} n (P P' : Store -> Prop) (p : program Store (option (ApiResult A))) Q Q' :
  (forall s, P' s -> P s) -> (forall r s, Q r s -> Q' r s) -> triple N n P p Q -> triple N n P' p Q'.
Proof using Type. intros HP HQ H s Hs. eapply secured_mono; [|apply H, HP, Hs]. intros [r|] w; [apply HQ|done]. Qed.

Lemma inv_counted s d : inv s -> blobs_ok d -> inv (counted (with_disk s d)).
Proof using Type. intros [_ H2 H3] H1. exact (Build_inv (counted (with_disk s d)) H1 H2 H3). Qed.

Lemma guarantee_counted n s : guarantee n s (counted s).
Proof using Type.
  assert (inv s -> inv (counted s)) as H by (intros [H1 H2 H3]; exact (Build_inv (counted s) H1 H2 H3)).
  split; [exact H|]. intros m _ Hi. split; [by apply H|done].
Qed.

(** A file operation. *)
Lemma triple_disk {A} (n : Thread) (P : Store -> Prop) (f : Disk -> ApiResult A * Disk) (Q : ApiResult A -> Store -> Prop) : stable n P -> (forall r, stable n (Q r)) ->
  (forall s, P s -> guarantee n s (counted (with_disk s (f (disk s)).2)) /\ Q (f (disk s)).1 (counted (with_disk s (f (disk s)).2))) ->
  (forall s kind, P s -> Q (Err (Io kind)) (counted s)) -> triple N n P (on_disk io f) Q.
Proof using Type.
  intros HP HQ Hf He s Hs. eapply (secured_act _ _ _ _ P); [exact HP|exact Hs|]. intros x Hx. destruct (io (ops x)) as [kind|].
  - split; [apply guarantee_counted|exact (secured_ret _ _ (Some (Err (Io kind))) _ _ (HQ _) (He x kind Hx))].
  - destruct (Hf x Hx) as [H1 H2]. destruct (f (disk x)) as [r d]. split; [exact H1|]. exact (secured_ret _ _ (Some r) _ _ (HQ r) H2).
Qed.

Lemma guarantee_disk n s d : (inv s -> blobs_ok d) ->
  (inv s -> forall m g, m <> n -> g ∈ mine m s -> d !! temporary g = disk s !! temporary g) -> guarantee n s (counted (with_disk s d)).
Proof using Type.
  intros Hb Hp. split; [intros Hi; by apply inv_counted; [|apply Hb]|]. intros m Hne Hi. split; [by apply inv_counted; [|apply Hb]|].
  split; [done|]. split; [|done]. intros g Hg. by eapply Hp.
Qed.

(** The partial files of other threads. *)
Lemma other_temporary n m s g v : inv s -> m <> n -> g ∈ mine m s -> temporary g <> partial_path (ids n) v.
Proof using Hworkers Hids.
  intros Hi Hne [Hg Hw]%mine_elem E. destruct (inv_guards _ Hi g Hg) as (k & Ek & Ej).
  rewrite Hw in Ek. apply Hworkers in Ek as <-.
  change (partial_path (ids n) v) with (temporary {| g_worker := workers n; g_job := ids n; g_value := v |}) in E.
  apply temporary_job in E. simpl in E. rewrite Ej in E. by apply Hids in E.
Qed.

Lemma blobs_insert d p e : (forall v, p <> shared_path v) -> blobs_ok d -> blobs_ok (<[p := e]> d).
Proof using Type. intros Hp Hd v e'. rewrite lookup_insert_ne by apply Hp. apply Hd. Qed.

Lemma blobs_filter d (P : Path * entry -> Prop) `{!forall x, Decision (P x)} : blobs_ok d -> blobs_ok (filter P d).
Proof using Type. intros Hd v e [He _]%map_lookup_filter_Some. by apply (Hd v e). Qed.

Lemma blobs_delete d p : blobs_ok d -> blobs_ok (delete p d).
Proof using Type. intros Hd v e [_ H]%lookup_delete_Some. by apply (Hd v e). Qed.

(** ** Operations away from the blobs *)

(** Predicates about the thread's own part of the store. *)
Definition own (n : Thread) (P : Store -> Prop) : Prop :=
  (forall s, P s -> inv s) /\ (forall s l, P s -> P (with_locked s l)) /\
  (forall s d, P s -> blobs_ok d -> (forall g, g ∈ mine n s -> d !! temporary g = disk s !! temporary g) -> P (counted (with_disk s d))).

Lemma inv_locked s l : inv s -> inv (with_locked s l).
Proof using Type. intros [H1 H2 H3]. exact (Build_inv (with_locked s l) H1 H2 H3). Qed.

Lemma idle_own n : own n (idle n).
Proof using Type. split; [by intros s []|]. split; [intros s l (Hi & H); split; [by apply inv_locked|done]|]. intros s d (Hi & H) Hd _. split; [by apply inv_counted|done]. Qed.

Lemma held_own n g : own n (held n g).
Proof using Type. split; [by intros s []|]. split; [intros s l (Hi & H); split; [by apply inv_locked|done]|]. intros s d (Hi & H) Hd _. split; [by apply inv_counted|done]. Qed.

Lemma filled_own n g b : own n (filled n g b).
Proof using Type.
  split; [by intros s [[] _]|]. split; [intros s l [Hh Hb]; split; [by apply held_own|done]|]. intros s d [Hh Hb] Hd Ht. split; [by apply held_own|]. simpl. rewrite Ht; [done|].
  destruct Hh as (_ & -> & _). left.
Qed.

Lemma exclusive_own n : own n (exclusive n).
Proof using Type. split; [by intros s []|]. split; [intros s l (Hi & H); split; [by apply inv_locked|done]|]. intros s d (Hi & H) Hd _. split; [by apply inv_counted|done]. Qed.

Lemma own_counted n P s : own n P -> P s -> P (counted s).
Proof using Type.
  intros (H1 & _ & H2) Hs. replace (counted s) with (counted (with_disk s (disk s))) by (by destruct s). apply H2; [done|by apply H1|done].
Qed.

#[local] Hint Resolve idle_own held_own filled_own exclusive_own : core.

(** Shared blobs and partial files are as before. *)
Definition quiet {A} (f : Disk -> ApiResult A * Disk) : Prop := forall d,
  (forall v, (f d).2 !! shared_path v = d !! shared_path v) /\ (forall g, (f d).2 !! temporary g = d !! temporary g).

Lemma still_quiet {A} (f : Disk -> ApiResult A) : quiet (fun d => (f d, d)).
Proof using Type. done. Qed.

Lemma triple_quiet {A} (n : Thread) (P : Store -> Prop) (f : Disk -> ApiResult A * Disk) : stable n P -> own n P -> quiet f ->
  triple N n P (on_disk io f) (fun _ => P).
Proof using Type.
  intros HP Ho Hq. assert (forall s, P s -> blobs_ok (f (disk s)).2) as Hb.
  { intros s Hs v e. destruct (Hq (disk s)) as [-> _]. apply (inv_blobs s). by apply Ho. }
  apply triple_disk; [done|done| |].
  - intros s Hs. split.
    + apply guarantee_disk; [by auto|]. intros _ m g _ _. apply Hq.
    + apply Ho; [done|by apply Hb|]. intros g _. apply Hq.
  - intros s kind Hs. by eapply own_counted.
Qed.

(** A file is read. *)
Lemma triple_read {A} (n : Thread) (P : Store -> Prop) (f : Disk -> ApiResult A) (φ : A -> Prop) : stable n P -> own n P ->
  (forall s a, P s -> f (disk s) = Ok a -> φ a) ->
  triple N n P (on_disk io (fun d => (f d, d))) (fun r s => P s /\ match r with Ok a => φ a | Err _ => True end).
Proof using Type.
  intros HP Ho Hf. assert (forall s, counted (with_disk s (disk s)) = counted s) as E by (by intros []).
  apply triple_disk; [done| | |].
  - intros r x y H [Hx ?]. split; [by eapply HP|done].
  - intros s Hs. simpl. rewrite E. split; [apply guarantee_counted|]. split; [by eapply own_counted|].
    destruct (f (disk s)) as [a|] eqn:Ef; [by eapply Hf|done].
  - intros s kind Hs. split; [by eapply own_counted|done].
Qed.

Lemma triple_attempt {A} n P (p : program Store (option (ApiResult A))) (Q : Store -> Prop) : stable n Q ->
  triple N n P p (fun _ => Q) -> triple N n P (attempt p) (fun r s => is_ok r = true /\ Q s).
Proof using Type.
  intros HQ Hp. eapply triple_bind; [exact Hp| |done]. intros r. apply triple_ret; [|done].
  intros x y Hf [? ?]. split; [done|by eapply HQ].
Qed.

Lemma triple_stat n P p : stable n P -> own n P -> triple N n P (stat io p) (fun _ => P).
Proof using Type. intros HP Ho. apply triple_quiet; [done|done|]. intros d. done. Qed.

Lemma first_differs (a b : string) (p q : Path) : a <> b -> a :: p <> b :: q.
Proof using Type. intros H [= E _]. done. Qed.

(** Files of a job's directory. *)
Definition in_job (p : Path) : Prop := exists q, p = "jobs" :: q.

Lemma in_job_shared p v : in_job p -> p <> shared_path v.
Proof using Type. intros [q ->]. by apply first_differs. Qed.

Lemma in_job_temporary p g : in_job p -> p <> temporary g.
Proof using Type. intros [q ->]. by apply first_differs. Qed.

Lemma in_job_root i p : in_job (job_root i ++ p).
Proof using Type. by eexists. Qed.

Lemma in_layout i p : in_job (layout i ++ p).
Proof using Type. by eexists. Qed.

Lemma quiet_insert {A} (f : Disk -> ApiResult A * Disk) :
  (forall d, (f d).2 = d \/ exists p e, in_job p /\ (f d).2 = <[p := e]> d) -> quiet f.
Proof using Type.
  intros H d. destruct (H d) as [->|(p & e & Hp & ->)]; [done|].
  split; intros x; (rewrite lookup_insert_ne; [done|]); [by apply in_job_shared|by apply in_job_temporary].
Qed.

Section Own.
Context (n : Thread) (P : Store -> Prop) (HP : stable n P) (HO : own n P).

Lemma triple_write p b : in_job p -> triple N n P (write_file io p b) (fun _ => P).
Proof using HP HO. intros Hp. apply triple_quiet; [done|done|]. apply quiet_insert. intros d. right. by exists p, (Regular b). Qed.

Lemma triple_rename from to : in_job from -> in_job to -> triple N n P (rename io from to) (fun _ => P).
Proof using HP HO.
  intros Hf Ht. apply triple_quiet; [done|done|]. intros d. destruct (d !! from) as [e|]; [|done]. simpl.
  split; intros x; (rewrite lookup_insert_ne, lookup_delete_ne; [done|..]); auto using in_job_shared, in_job_temporary.
Qed.

Lemma triple_atomic_write dir name b : in_job (dir ++ [name]) -> in_job (dir ++ [with_partial name]) ->
  triple N n P (atomic_write io dir name b) (fun _ => P).
Proof using HP HO. intros H1 H2. eapply triple_do; [by apply triple_write| |done|done]. intros u. by apply triple_rename. Qed.

Lemma triple_link source target : in_job target -> triple N n P (link io source target) (fun _ => P).
Proof using HP HO.
  intros Ht. apply triple_quiet; [done|done|]. apply quiet_insert. intros d. destruct (d !! source) as [e|]; [|by left].
  destruct (d !! target); [by left|]. right. by exists target, e.
Qed.

Lemma triple_copy source target : in_job target -> triple N n P (copy io source target) (fun _ => P).
Proof using HP HO.
  intros Ht. apply triple_quiet; [done|done|]. apply quiet_insert. intros d. destruct (d !! source) as [e|]; [|by left].
  right. by exists target, e.
Qed.

Lemma triple_link_or_copy source target : in_job target -> triple N n P (link_or_copy io source target) (fun _ => P).
Proof using HP HO.
  intros Ht. eapply triple_do; [apply triple_attempt, triple_stat; done| |done|by intros e s []].
  intros [|]; [apply triple_ret; [done|by intros s []]|]. eapply (triple_mono _ P _ _ (fun _ => P)); [by intros s []|done|].
  eapply triple_do; [apply triple_attempt, triple_link; done| |done|by intros e s []].
  intros [|]; [apply triple_ret; [done|by intros s []]|]. eapply (triple_mono _ P _ _ (fun _ => P)); [by intros s []|done|]. by apply triple_copy.
Qed.

Lemma remove_dir_lookup dir d p : below dir p = false -> remove_dir_all dir d !! p = d !! p.
Proof using Type.
  intros Hp. unfold remove_dir_all. destruct (d !! p) eqn:E; [by apply map_lookup_filter_Some|].
  apply map_lookup_filter_None. by left.
Qed.

Lemma below_first a dir b p : a <> b -> below (a :: dir) (b :: p) = false.
Proof using Type. intros H. apply bool_decide_eq_false. intros E. apply H. by apply prefix_cons_inv_1 in E. Qed.

Lemma triple_remove_dir i p : triple N n P (on_disk io (fun d => (Ok tt, remove_dir_all (job_root i ++ p) d))) (fun _ => P).
Proof using HP HO.
  apply triple_quiet; [done|done|]. intros d. simpl. split; intros x; apply remove_dir_lookup; by apply below_first.
Qed.

Lemma triple_remove_job i : triple N n P (remove_job io i) (fun _ => P).
Proof using HP HO.
  eapply triple_bind; [apply (triple_remove_dir i [])| |done]. intros r.
  destruct r as [a|e]; [by apply triple_ret|]. destruct e; try (by apply triple_ret). destruct (_ =?s _); by apply triple_ret.
Qed.

Lemma triple_usage : triple N n P (usage io) (fun _ => P).
Proof using HP HO. by apply triple_quiet. Qed.

Lemma triple_open_lock : triple N n P (open_lock io) (fun _ => P).
Proof using HP HO. by apply triple_quiet. Qed.
End Own.

(** ** Guards *)

Lemma held_writer n g s : held n g s -> g ∈ writers s /\ g_worker g = workers n.
Proof using Type. intros (_ & Hm & _). apply mine_elem. rewrite Hm. left. Qed.

Lemma held_temporary n g s : held n g s -> temporary g = partial_path (ids n) (g_value g).
Proof using Type. intros (_ & _ & Hj). unfold temporary. by rewrite Hj. Qed.

(** An operation on the partial file of the guard that is held. *)
Lemma triple_temporary {A} (n : Thread) (g : Guard) (P : Store -> Prop) (f : Disk -> ApiResult A * Disk) (Q : ApiResult A -> Store -> Prop) :
  (forall s, P s -> held n g s) -> stable n P -> (forall r, stable n (Q r)) ->
  (forall d p, p <> temporary g -> p <> destination g -> (f d).2 !! p = d !! p) ->
  (forall s, P s -> blobs_ok (f (disk s)).2) ->
  (forall s, P s -> Q (f (disk s)).1 (counted (with_disk s (f (disk s)).2))) ->
  (forall s kind, P s -> Q (Err (Io kind)) (counted s)) -> triple N n P (on_disk io f) Q.
Proof using Hworkers Hids.
  intros Hh HP HQ Hf Hb Ho He. apply triple_disk; [done|done| |done]. intros s Hs. split; [|by apply Ho].
  apply guarantee_disk; [by auto|]. intros Hi m g' Hne Hg'. apply Hf; [|by apply first_differs].
  rewrite (held_temporary n g s) by auto. by eapply other_temporary.
Qed.

Lemma held_disk n g s d : held n g s -> blobs_ok d -> held n g (counted (with_disk s d)).
Proof using Type. intros (Hi & H) Hd. split; [by apply inv_counted|done]. Qed.

Lemma triple_write_temporary n g b :
  triple N n (held n g) (write_file io (temporary g) b) (fun r s => match r with Ok _ => filled n g b s | Err _ => held n g s end).
Proof using Hworkers Hids.
  assert (forall s, held n g s -> blobs_ok (<[temporary g := Regular b]> (disk s))) as Hb.
  { intros s (Hi & _). apply blobs_insert; [by intros v; apply first_differs|apply Hi]. }
  eapply (triple_temporary n g); [done|by auto|by intros []; auto| |exact Hb| |].
  - intros d p H1 H2. by apply lookup_insert_ne.
  - intros s Hs. split; [by apply held_disk; [|apply Hb]|]. by apply lookup_insert_eq.
  - intros s kind Hs. by eapply own_counted; [apply held_own|].
Qed.

Lemma triple_append n g b c :
  triple N n (filled n g c) (append io (temporary g) b) (fun r s => match r with Ok _ => filled n g (c ++ b) s | Err _ => held n g s end).
Proof using Hworkers Hids.
  assert (forall s, filled n g c s -> blobs_ok (<[temporary g := Regular (c ++ b)]> (disk s))) as Hb.
  { intros s [(Hi & _) _]. apply blobs_insert; [by intros v; apply first_differs|apply Hi]. }
  eapply (triple_temporary n g); [by intros s []|by auto|by intros []; auto| | | |].
  - intros d p H1 H2. destruct (d !! temporary g) as [[b0|t]|]; [by apply lookup_insert_ne|done|done].
  - intros s Hs. pose proof (proj2 Hs) as ->. by apply Hb.
  - intros s Hs. pose proof (proj2 Hs) as ->. split; [apply held_disk; [by apply Hs|by apply Hb]|]. by apply lookup_insert_eq.
  - intros s kind [Hs _]. by eapply own_counted; [apply held_own|].
Qed.

Lemma triple_remove_temporary n g : triple N n (held n g) (remove_file io (temporary g)) (fun _ => held n g).
Proof using Hworkers Hids.
  eapply (triple_temporary n g); [done|by auto|by auto| | | |].
  - intros d p H1 H2. destruct (d !! temporary g); [by apply lookup_delete_ne|done].
  - intros s (Hi & _). destruct (disk s !! temporary g); [apply blobs_delete|]; apply Hi.
  - intros s Hs. apply held_disk; [done|]. destruct Hs as (Hi & _). destruct (disk s !! temporary g); [apply blobs_delete|]; apply Hi.
  - intros s kind Hs. by eapply own_counted; [apply held_own|].
Qed.

(** The verified file takes its final name. *)
Lemma triple_rename_temporary n g b : sha256_hex b = g_value g ->
  triple N n (filled n g b) (rename io (temporary g) (destination g)) (fun _ => held n g).
Proof using Hworkers Hids.
  intros Hsha. assert (forall s, filled n g b s -> blobs_ok (<[destination g := Regular b]> (delete (temporary g) (disk s)))) as Hb.
  { intros s [(Hi & _) _] v e. destruct (decide (v = g_value g)) as [->|Hne].
    - change (shared_path (g_value g)) with (destination g). rewrite lookup_insert_eq. intros [= <-]. by exists b.
    - rewrite lookup_insert_ne; [apply blobs_delete, Hi|]. intros E. apply Hne. by injection E as ->. }
  eapply (triple_temporary n g); [by intros s []|by auto|by auto| | | |].
  - intros d p H1 H2. destruct (d !! temporary g); [|done]. simpl. rewrite lookup_insert_ne, lookup_delete_ne; done.
  - intros s Hs. pose proof (proj2 Hs) as ->. by apply Hb.
  - intros s Hs. pose proof (proj2 Hs) as ->. apply held_disk; [by apply Hs|by apply Hb].
  - intros s kind [Hs _]. by eapply own_counted; [apply held_own|].
Qed.
End Any.

#[local] Hint Resolve idle_own held_own filled_own exclusive_own : core.

(** ** Locks *)

Lemma await_secured {A} (n : Thread) (P : Store -> Prop) (Q : A -> Store -> Prop) (try : Store -> option (A * Store)) :
  stable n P -> (forall a, stable n (Q a)) ->
  (forall x a y, P x -> try x = Some (a, y) -> guarantee n x y /\ Q a y) ->
  forall k s, P s -> secured (frame n) (guarantee n) (await k try) (fun o s => match o with Some a => Q a s | None => True end) s.
Proof using Type.
  intros HP HQ Ht k. induction k as [|k IH]; intros s Hs; [by intros ? _|].
  eapply (secured_act _ _ _ _ P); [exact HP|exact Hs|]. intros x Hx. destruct (try x) as [[a y]|] eqn:E.
  - destruct (Ht x a y Hx E) as [H1 H2]. split; [exact H1|]. exact (secured_ret _ _ (Some a) _ _ (HQ a) H2).
  - split; [apply guarantee_refl|]. by apply IH.
Qed.

Lemma triple_await {A} (n : Thread) (P : Store -> Prop) (Q : Store -> Prop) (try : Store -> option (A * Store)) :
  stable n P -> stable n Q -> (forall x a y, P x -> try x = Some (a, y) -> guarantee n x y /\ Q y) ->
  triple True n P (let- r := await patience try in Ret (match r with Some _ => Some (Ok tt) | None => None end))
    (fun r s => r = Ok tt /\ Q s).
Proof using Type.
  intros HP HQ Ht s Hs. eapply secured_seq; [apply (await_secured n P (fun _ => Q)); [exact HP|intros _; exact HQ|exact Ht|exact Hs]|].
  intros [a|] w Hw; [|by intros ? _]. apply secured_ret; [|done]. intros x y Hf [? ?]. split; [done|]. by eapply HQ.
Qed.

Lemma triple_lock_job n P i : stable n P -> own n P -> triple True n P (lock_job io patience (workers n) i) (fun _ => P).
Proof using Type.
  intros HP HO. eapply triple_do; [by apply triple_open_lock| |done|done]. intros u.
  eapply (triple_mono _ _ P _ _ (fun r s => r = Ok tt /\ P s)); [done|by intros r s []|]. apply triple_await; [done|done|].
  intros x a y Hx. destruct (locked x !! i); [done|]. intros [= _ <-]. split; [|by apply HO].
  split; [by apply inv_locked|]. intros m _ Hi. split; [by apply inv_locked|done].
Qed.

Lemma mine_cons n s g : g_worker g = workers n -> mine n (with_writers s (g :: writers s)) = g :: mine n s.
Proof using Type. intros Hg. unfold mine. simpl. by rewrite Hg, N.eqb_refl. Qed.

Lemma mine_cons_other n m s g : g_worker g = workers n -> m <> n -> mine m (with_writers s (g :: writers s)) = mine m s.
Proof using Hworkers.
  intros Hg Hne. unfold mine. simpl. rewrite Hg. destruct (N.eqb_spec (workers n) (workers m)) as [E|]; [|done]. by apply Hworkers in E as ->.
Qed.

Lemma triple_begin n digest :
  triple True n (idle n) (begin_blob_write io patience (workers n) (ids n) digest)
    (fun r s => match r with Ok g => held n g s /\ sha256_value digest = Ok (g_value g) | Err _ => idle n s end).
Proof using Hworkers.
  unfold begin_blob_write. destruct (sha256_value digest) as [v|e] eqn:Ev; [|by apply triple_ret].
  set (g := {| g_worker := workers n; g_job := ids n; g_value := v |}).
  eapply triple_do; [by apply triple_open_lock| |by auto|done]. intros u.
  eapply (triple_do _ _ _ _ (fun r s => r = Ok tt /\ held n g s)); [| |by auto|by intros e s [? _]].
  - apply triple_await; [by auto|by auto|]. intros x a y (Hi & Hm & Hc). destruct (collecting x) as [c|] eqn:Ec; [done|]. intros [= _ <-].
    assert (inv (with_writers x (g :: writers x))) as Hi'.
    { destruct Hi as [H1 H2 H3]. constructor; [exact H1| |].
      - simpl. rewrite Ec. by intros [].
      - intros g' [->|Hg']%elem_of_cons; [by exists n|by apply H3]. }
    split; [split; [done|]|].
    + intros m Hne _. split; [done|]. rewrite (mine_cons_other n m x g eq_refl Hne). done.
    + split; [done|]. rewrite (mine_cons n x g eq_refl). by rewrite Hm.
  - intros u0. apply triple_ret; [|by intros s []]. intros x y Hf [? ?]. split; [by eapply held_stable|done].
Qed.

Lemma drop_first_other g l (p : Guard -> bool) : p g = false -> List.filter p (drop_first g l) = List.filter p l.
Proof using Type.
  intros Hp. induction l as [|x l IH]; simpl; [done|]. case_decide as E; simpl.
  - subst. by rewrite Hp.
  - by rewrite IH.
Qed.

Lemma drop_first_mine g l (p : Guard -> bool) : p g = true -> List.filter p (drop_first g l) = drop_first g (List.filter p l).
Proof using Type.
  intros Hp. induction l as [|x l IH]; simpl; [done|]. case_decide as E; simpl.
  - subst. rewrite Hp. simpl. by rewrite decide_True.
  - rewrite IH. destruct (p x); [|done]. simpl. by rewrite decide_False.
Qed.

Lemma drop_first_elem g x l : x ∈ drop_first g l -> x ∈ l.
Proof using Type.
  induction l as [|y l IH]; simpl; [done|]. case_decide; [by right|]. intros [->|Hx]%elem_of_cons; [left|right; auto].
Qed.

Lemma inv_dropped s g : inv s -> inv (with_writers s (drop_first g (writers s))).
Proof using Type.
  intros [H1 H2 H3]. constructor; [exact H1| |].
  - intros Hc. simpl. by rewrite (H2 Hc).
  - intros x Hx. apply H3. exact (drop_first_elem _ _ _ Hx).
Qed.

(** The guards of a thread, whatever they are. *)
Definition holds (n : Thread) (gs : list Guard) (s : Store) : Prop := inv s /\ mine n s = gs.

Lemma holds_stable n gs : stable n (holds n gs).
Proof using Type. intros x y H (Hi & Hm). destruct (H Hi) as (H1 & H2 & _). split; [done|]. by rewrite H2. Qed.

Lemma triple_remove_listed n g gs : triple False n (holds n (g :: gs)) (remove_file io (temporary g)) (fun _ => holds n (g :: gs)).
Proof using Hworkers Hids.
  assert (forall s, inv s -> blobs_ok (match disk s !! temporary g with Some _ => (Ok tt, delete (temporary g) (disk s)) | None => (@Err unit _ not_found, disk s) end).2) as Hb.
  { intros s Hi. destruct (disk s !! temporary g); [apply blobs_delete|]; apply Hi. }
  apply triple_disk; [apply holds_stable|intros r; apply holds_stable| |].
  - intros s (Hi & Hm). split; [|split; [by apply inv_counted; [|apply Hb]|done]]. apply guarantee_disk; [apply Hb|].
    intros _ m g' Hne Hg'. destruct (disk s !! temporary g); [|done]. apply lookup_delete_ne.
    assert (g ∈ mine n s) as [Hin Hw]%mine_elem by (rewrite Hm; left). destruct (inv_guards _ Hi g Hin) as (k & Ek & Ej).
    rewrite Hw in Ek. apply Hworkers in Ek as <-. intros E. symmetry in E. revert E. unfold temporary at 2. rewrite Ej. by eapply other_temporary.
  - intros s kind (Hi & Hm). split; [|done]. destruct Hi as [H1 H2 H3]. exact (Build_inv (counted s) H1 H2 H3).
Qed.

Lemma drop_listed n g gs s : holds n (g :: gs) s ->
  secured (frame n) (guarantee n) (drop_guard io g) (fun _ s => holds n gs s /\ collecting s <> Some (workers n)) s.
Proof using Hworkers Hids.
  intros Hs. eapply secured_seq; [apply (triple_attempt False n (holds n (g :: gs)) _ (holds n (g :: gs))); [apply holds_stable|apply triple_remove_listed|exact Hs]|].
  intros [r|] w Hw; [destruct Hw as [_ Hw]|done].
  eapply (secured_act _ _ _ _ (holds n (g :: gs))); [exact (holds_stable n _)|exact Hw|]. intros x (Hi & Hm).
  assert (g ∈ mine n x) as [Hin Hgw]%mine_elem by (rewrite Hm; left).
  assert (holds n gs (with_writers x (drop_first g (writers x)))) as Hafter.
  { split; [by apply inv_dropped|]. unfold mine. simpl. rewrite drop_first_mine by (by apply N.eqb_eq). fold (mine n x). rewrite Hm. simpl. by rewrite decide_True. }
  split.
  - split; [by intros _; apply Hafter|]. intros m Hne _. split; [by apply Hafter|]. split; [|done].
    unfold mine. simpl. apply drop_first_other. apply N.eqb_neq. rewrite Hgw. intros E%Hworkers. congruence.
  - refine (secured_ret _ _ tt (fun _ s => holds n gs s /\ collecting s <> Some (workers n)) _ _ _).
    + intros y z H [Hy Hc]. split; [by eapply holds_stable|]. destruct (H (proj1 Hy)) as (_ & _ & _ & ->). done.
    + split; [exact Hafter|]. intros Hc. destruct Hi as [_ H2 _]. simpl in Hc. rewrite (H2 (ex_intro _ _ Hc)) in Hin. by apply not_elem_of_nil in Hin.
Qed.

Lemma drop_guard_secured n g s : held n g s -> secured (frame n) (guarantee n) (drop_guard io g) (fun _ => idle n) s.
Proof using Hworkers Hids.
  intros (Hi & Hm & _). eapply secured_mono; [|by apply (drop_listed n g [])]. by intros u w [[H1 H2] H3].
Qed.

Lemma triple_dropping {A} N n g (r : ApiResult A) : triple N n (held n g) (dropping io g r) (fun _ => idle n).
Proof using Hworkers Hids.
  intros s Hs. eapply secured_seq; [by apply drop_guard_secured|]. intros u w Hw. exact (secured_ret _ _ (Some r) _ _ (idle_stable n) Hw).
Qed.

(** A step that is followed by dropping the guard. *)
Lemma triple_then_drop {A B} n g (P : Store -> Prop) (p : program Store (option (ApiResult A))) (r : ApiResult B) :
  triple False n P p (fun _ => held n g) -> triple True n P (let- _ := p in dropping io g r) (fun _ => idle n).
Proof using Hworkers Hids.
  intros Hp s Hs. eapply secured_seq; [by apply Hp|]. intros [x|] w Hw; [|done]. by apply triple_dropping.
Qed.

(** A verified file is committed; in every case the guard is gone. *)
Lemma triple_commit n g b : sha256_hex b = g_value g -> triple True n (filled n g b) (commit io g) (fun _ => idle n).
Proof using Hworkers Hids.
  intros Hsha. assert (forall {A} (p : program Store (option (ApiResult A))), triple False n (held n g) p (fun _ => held n g) ->
    triple True n (held n g) (let- _ := attempt p in dropping io g (Ok (destination g))) (fun _ => idle n)) as Hdrop.
  { intros A p Hp. apply triple_then_drop. eapply (triple_mono _ _ (held n g) _ _ (fun r s => is_ok r = true /\ held n g s)); [done|by intros r s []|].
    apply triple_attempt; [by auto|exact Hp]. }
  unfold commit. eapply (triple_do _ _ _ _ (fun r s => is_ok r = true /\ filled n g b s)); [| |by auto|by intros e s []].
  - apply triple_attempt; [by auto|]. apply triple_stat; auto.
  - intros [|].
    + eapply (triple_mono _ _ (held n g) _ _ (fun _ => idle n)); [by intros s [_ []]|done|]. apply Hdrop, triple_remove_temporary.
    + eapply (triple_mono _ _ (filled n g b) _ _ (fun _ => idle n)); [by intros s []|done|].
      eapply triple_bind; [by apply triple_rename_temporary| |done]. intros [u|e]; [apply triple_dropping|].
      destruct e; try apply triple_dropping. destruct (_ =?s _); [|apply triple_dropping]. apply Hdrop, triple_remove_temporary.
Qed.

(** The rest of a function that holds a guard. *)
Lemma triple_holding {A B} n g (P : Store -> Prop) (p : program Store (option (ApiResult A))) (Q : A -> Store -> Prop) (k : A -> program Store (option (ApiResult B))) :
  triple True n P p (fun r s => match r with Ok a => Q a s | Err _ => held n g s end) ->
  (forall a, triple True n (Q a) (k a) (fun _ => idle n)) -> triple True n P (holding io g p k) (fun _ => idle n).
Proof using Hworkers Hids.
  intros Hp Hk. eapply triple_bind; [exact Hp| |done]. intros [a|e]; [apply Hk|]. apply triple_dropping.
Qed.

Lemma triple_write_blob_bytes n digest b : (forall v, sha256_value digest = Ok v -> sha256_hex b = v) ->
  triple True n (idle n) (write_blob_bytes io patience (workers n) (ids n) digest b) (fun _ => idle n).
Proof using Hworkers Hids.
  intros Hsha. eapply triple_do; [apply triple_begin| |by auto|done]. intros g.
  eapply (triple_holding n g _ _ (fun _ s => filled n g b s /\ sha256_value digest = Ok (g_value g))).
  - intros s [Hs Hv]. eapply secured_mono; [|apply (triple_write_temporary True n g b s Hs)].
    intros [[u|e]|] w Hw; [by split|done|done].
  - intros u s [Hs Hv]. apply (triple_commit n g b); [by apply Hsha|done].
Qed.

(** ** The collector *)

Lemma exclusive_alone n m s : exclusive n s -> mine m s = [].
Proof using Type. intros [Hi Hc]. unfold mine. by rewrite (inv_lock _ Hi (ex_intro _ _ Hc)). Qed.

Lemma triple_collect {A} (N : Prop) (n : Thread) (f : Disk -> ApiResult A * Disk) : (forall d, blobs_ok d -> blobs_ok (f d).2) ->
  triple N n (exclusive n) (on_disk io f) (fun _ => exclusive n).
Proof using Type.
  intros Hf. apply triple_disk; [by auto|by auto| |].
  - intros s Hs. pose proof (Hf _ (inv_blobs _ (proj1 Hs))) as Hb. split.
    + apply guarantee_disk; [done|]. intros _ m g _ Hg. rewrite (exclusive_alone n m s Hs) in Hg. by apply not_elem_of_nil in Hg.
    + apply exclusive_own; [done|done|]. intros g Hg. rewrite (exclusive_alone n n s Hs) in Hg. by apply not_elem_of_nil in Hg.
  - intros s kind Hs. by eapply own_counted; [apply exclusive_own|].
Qed.

Lemma triple_lock_exclusive n :
  triple True n (idle n) (lock_exclusive patience (workers n)) (fun r s => r = Ok tt /\ exclusive n s).
Proof using Hworkers.
  apply triple_await; [by auto|by auto|]. intros x a y (Hi & Hm & Hc). destruct (collecting x) as [c|] eqn:Ec; [done|].
  case_bool_decide as Ew; [|done]. intros [= _ <-].
  assert (inv (with_collecting x (Some (workers n)))) as Hi'.
  { destruct Hi as [H1 H2 H3]. constructor; [exact H1|intros _; exact Ew|exact H3]. }
  split; [|done]. split; [done|]. intros m Hne _. split; [done|]. split; [done|]. split; [done|].
  rewrite Ec. simpl. split; [|done]. intros [= E%Hworkers]. congruence.
Qed.

Lemma unlock_secured n s : exclusive n s -> secured (frame n) (guarantee n) unlock (fun _ => idle n) s.
Proof using Hworkers.
  intros Hs. eapply (secured_act _ _ _ _ (exclusive n)); [exact (exclusive_stable n)|exact Hs|]. intros x Hx.
  assert (idle n (with_collecting x None)) as Hidle.
  { split; [|split; [by apply (exclusive_alone n n x Hx)|done]]. destruct Hx as [[H1 H2 H3] Hc]. constructor; [exact H1|by intros []|exact H3]. }
  split; [|exact (secured_ret _ _ tt _ _ (idle_stable n) Hidle)]. split; [by intros _; apply Hidle|].
  intros m Hne _. split; [by apply Hidle|]. split; [done|]. split; [done|]. destruct Hx as [_ Hc]. rewrite Hc. simpl.
  split; [done|]. intros [= E%Hworkers]. congruence.
Qed.

Lemma triple_gc n : triple True n (idle n) (gc_shared_blobs io patience (workers n)) (fun _ => idle n).
Proof using Hworkers.
  eapply triple_do; [apply triple_open_lock; auto| |by auto|done]. intros u.
  eapply triple_do; [apply triple_lock_exclusive| |by auto|by intros e s []]. intros u'.
  eapply (triple_mono _ _ (exclusive n) _ _ (fun _ => idle n)); [by intros s []|done|].
  assert (triple False n (exclusive n) (do! _ := gc_shared_blobs_sync io in cleanup_partials_sync io) (fun _ => exclusive n)) as Hg.
  { eapply (triple_do _ _ _ _ (fun _ => exclusive n)); [| |by auto|done].
    - eapply (triple_do _ _ _ _ (fun _ => exclusive n)); [by apply triple_collect| |by auto|done]. intros refs. apply triple_collect.
      intros d. apply blobs_filter.
    - intros v. apply triple_collect. intros d. apply blobs_filter. }
  intros s Hs. eapply secured_seq; [by apply Hg|]. intros [r|] w Hw; [|done].
  eapply secured_seq; [by apply unlock_secured|]. intros v w' Hw'. exact (secured_ret _ _ (Some r) _ _ (idle_stable n) Hw').
Qed.

Lemma unlock_job_secured n i P s : stable n P -> own n P -> P s -> secured (frame n) (guarantee n) (unlock_job (workers n) i) (fun _ => P) s.
Proof using Type.
  intros HP HO Hs. eapply (secured_act _ _ _ _ P); [exact HP|exact Hs|]. intros x Hx. simpl.
  case_bool_decide; [|split; [apply guarantee_refl|exact (secured_ret _ (guarantee n) tt (fun _ => P) _ HP Hx)]]. split.
  - split; [by apply inv_locked|]. intros m _ Hi. split; [by apply inv_locked|done].
  - refine (secured_ret _ (guarantee n) tt (fun _ => P) _ HP _). by apply HO.
Qed.

Lemma unlock_job_any n i s : secured (frame n) (guarantee n) (unlock_job (workers n) i) (fun _ _ => True) s.
Proof using Type.
  apply obeys_secured. split; [|done]. intros x. simpl. case_bool_decide; [|apply guarantee_refl].
  split; [by apply inv_locked|]. intros m _ Hi. split; [by apply inv_locked|done].
Qed.
End Threads.
End StoreProps.
