(* ===== verification/Tools.v ===== *)
(** * Registry credentials and synchronisation rules

    The handlers of src/src/image_tools.rs that edit registry credentials and
    synchronisation rules, on the tables of Jobs.v extended by the credentials, and
    the authentication a job gets from a stored credential.

    [Url::parse] and the accessors of a URL are those of Security.v with the explicit
    port [url_port]; the cipher is that of Crypto.v; [upcoming] is what the cron and
    time zone crates compute.  Identifiers and nonces drawn at random are arguments. *)

From stdpp Require Import base gmap sets list strings pretty relations.
From Stdlib Require Import ZArith Lia Ascii.
From S2P Require Import Prelude Text Errors Prog Config Security Crypto Jobs.

#[local] Set Default Proof Using "Type*".

(** A row of [registry_credentials]; the primary key is the key of the table. *)
Module Credential.
Record Model := {
  name : string;
  registry : string;
  auth_mode : string;
  username : option string;
  secret_enc : string;
  generation : Z;
  created_at : Z;
  updated_at : Z
}.
End Credential.

Module Tools.

Inductive RegistryAuth := Anonymous | Basic (username password : string) | Bearer (token : string).

Record CredentialInput := {
  c_name : string;
  c_registry : string;
  c_auth_mode : string;
  c_username : option string;
  c_secret : string
}.

Record CredentialView := {
  v_id : Uuid;
  v_name : string;
  v_registry : string;
  v_auth_mode : string;
  v_username : option string;
  v_credential_configured : bool;
  v_generation : Z;
  v_updated_at : Z
}.

Definition credential_view (i : Uuid) (c : Credential.Model) : CredentialView :=
  {| v_id := i; v_name := Credential.name c; v_registry := Credential.registry c; v_auth_mode := Credential.auth_mode c;
     v_username := Credential.username c; v_credential_configured := negb (is_empty (Credential.secret_enc c));
     v_generation := Credential.generation c; v_updated_at := Credential.updated_at c |}.

Record SyncRuleInput := {
  s_name : string;
  s_enabled : bool;
  s_source_ref : string;
  s_source_node_id : option Uuid;
  s_source_credential_id : option Uuid;
  s_destination_ref : string;
  s_destination_credential_id : Uuid;
  s_platform_os : string;
  s_platform_arch : string;
  s_cron : string;
  s_timezone : string
}.

(** ** Tables

    [credentials] of Jobs.v is the set of the identifiers of [creds]. *)

Record World := { queue : JobsWorld; creds : gmap Uuid Credential.Model }.

Definition with_credentials (d : Db) (s : gset Uuid) : Db :=
  {| jobs := jobs d; owners := owners d; lineage := lineage d; rules := rules d; nodes := nodes d; credentials := s |}.
Definition with_queue (w : World) (q : JobsWorld) : World := {| queue := q; creds := creds w |}.
Definition tables (w : World) : Db := db (queue w).
Definition with_tables (w : World) (d : Db) : World := with_queue w (with_db (queue w) d).
Definition with_creds (w : World) (m : gmap Uuid Credential.Model) : World :=
  {| queue := with_db (queue w) (with_credentials (tables w) (dom m)); creds := m |}.

(** [trg_registry_credentials_validate_insert] and [.._update]. *)
Definition credential_valid (c : Credential.Model) : bool :=
  ((Credential.auth_mode c =?s "basic") || (Credential.auth_mode c =?s "bearer")) &&
  (1 <=? Credential.generation c) && negb (blank (Credential.name c)) && negb (blank (Credential.registry c)) &&
  negb (is_empty (Credential.secret_enc c)) &&
  negb ((Credential.auth_mode c =?s "basic") && is_none_or (Credential.username c) blank).

Definition invalid_credential : DbErr := raise "invalid Registry credential".
Definition not_updated : DbErr := DbOther "None of the records are updated".

Definition insert_credential (i : Uuid) (c : Credential.Model) (w : World) : result World DbErr :=
  if negb (credential_valid c) then Err invalid_credential
  else if is_some (creds w !! i) then Err (DbUniqueConstraint "UNIQUE constraint failed")
  else Ok (with_creds w (<[i := c]> (creds w))).

Definition save_credential (i : Uuid) (c : Credential.Model) (w : World) : result World DbErr :=
  match creds w !! i with
  | None => Err not_updated
  | Some _ => if credential_valid c then Ok (with_creds w (<[i := c]> (creds w))) else Err invalid_credential
  end.

Definition uses_credential (i : Uuid) (source destination : option Uuid) : bool :=
  bool_decide (source = Some i) || bool_decide (destination = Some i).
Definition rule_uses (i : Uuid) (r : image_sync_rule) : bool :=
  uses_credential i (rule_source_credential_id r) (Some (rule_destination_credential_id r)).
Definition job_uses (i : Uuid) (j : image_job) : bool :=
  uses_credential i (source_credential_id (job_input j)) (destination_credential_id (job_input j)).
Definition active (j : image_job) : bool := is_status JobStatus.Pending j || is_status JobStatus.Running j.

Definition some_rule (p : image_sync_rule -> bool) (d : Db) : bool := existsb p (snd <$> map_to_list (rules d)).
Definition some_job (p : image_job -> bool) (d : Db) : bool := existsb p (snd <$> map_to_list (jobs d)).

Definition credential_in_use (i : Uuid) (d : Db) : bool :=
  some_rule (rule_uses i) d || some_job (fun j => active j && job_uses i j) d.

Definition with_input (j : image_job) (x : JobInput) : image_job :=
  {| job_input := x; job_status := job_status j; resolved_digest := resolved_digest j; index_digest := index_digest j;
     stage := stage j; progress_bytes := progress_bytes j; total_bytes := total_bytes j; artifact_path := artifact_path j;
     artifact_name := artifact_name j; error := error j; idempotency_key := idempotency_key j;
     cancel_requested := cancel_requested j; lease_until := lease_until j; created_at := created_at j;
     updated_at := updated_at j; started_at := started_at j; finished_at := finished_at j |}.

Definition with_references (x : JobInput) (node source destination : option Uuid) : JobInput :=
  {| kind := kind x; source_ref := source_ref x; source_node_id := node; source_credential_id := source;
     destination_ref := destination_ref x; destination_credential_id := destination; platform_os := platform_os x;
     platform_arch := platform_arch x; output_format := output_format x |}.

(** [UPDATE image_jobs SET column = NULL WHERE column = i]. *)
Definition forget (o : option Uuid) (i : Uuid) : option Uuid := if bool_decide (o = Some i) then None else o.
Definition forget_source (i : Uuid) (j : image_job) : image_job :=
  let x := job_input j in
  with_input j (with_references x (source_node_id x) (forget (source_credential_id x) i) (destination_credential_id x)).
Definition forget_destination (i : Uuid) (j : image_job) : image_job :=
  let x := job_input j in
  with_input j (with_references x (source_node_id x) (source_credential_id x) (forget (destination_credential_id x) i)).
Definition forget_node (i : Uuid) (j : image_job) : image_job :=
  let x := job_input j in
  with_input j (with_references x (forget (source_node_id x) i) (source_credential_id x) (destination_credential_id x)).

(** An update of the rows [p], each of which has to pass the update trigger. *)
Definition rewrite_jobs (p : image_job -> bool) (f : image_job -> image_job) (d : Db) : result Db DbErr :=
  if forallb (fun r => negb (p r.2) || row_valid d (f r.2)) (map_to_list (jobs d))
  then Ok (with_jobs d ((fun j => if p j then f j else j) <$> jobs d))
  else Err invalid_job.

Definition credential_referenced : DbErr := raise "credential is referenced by an active job or sync rule".

(** [DELETE FROM registry_credentials WHERE id = i] with its triggers. *)
Definition delete_credential_row (i : Uuid) (w : World) : result World DbErr :=
  match creds w !! i with
  | None => Ok w
  | Some _ =>
      if credential_in_use i (tables w) then Err credential_referenced
      else
        let w := with_creds w (delete i (creds w)) in
        let? d := rewrite_jobs (fun j => bool_decide (source_credential_id (job_input j) = Some i)) (forget_source i) (tables w) in
        let? d := rewrite_jobs (fun j => bool_decide (destination_credential_id (job_input j) = Some i)) (forget_destination i) d in
        Ok (with_tables w d)
  end.

(** What deleting a node does to the jobs: [trg_nodes_delete_image_references] and
    [trg_nodes_delete_terminal_job_references]. *)
Definition node_in_use (i : Uuid) (d : Db) : bool :=
  some_rule (fun r => bool_decide (rule_source_node_id r = Some i)) d ||
  some_job (fun j => active j && bool_decide (source_node_id (job_input j) = Some i)) d.

Definition with_nodes (d : Db) (s : gset Uuid) : Db :=
  {| jobs := jobs d; owners := owners d; lineage := lineage d; rules := rules d; nodes := s; credentials := credentials d |}.

Definition delete_node_row (i : Uuid) (d : Db) : result Db DbErr :=
  if node_in_use i d then Err (raise "node is referenced by an active job or sync rule")
  else rewrite_jobs (fun j => bool_decide (source_node_id (job_input j) = Some i)) (forget_node i) (with_nodes d (nodes d ∖ {[i]})).

(** ** Validation *)

Section Handlers.
Context {Url : Type} (api : UrlApi Url) (url_port : Url -> option Z).
Context {Key : Type} (prims : Crypto.Primitives Key) (cipher : option Key).
Context (fixed : Config.Fixed).
Context (reference_ok : string -> bool) (upcoming : string -> string -> Z -> ApiResult Z).

Definition trim_end_slashes (s : string) : string := trim_end_by (Ascii.eqb "/") s.

Definition normalize_registry (value : string) : ApiResult string :=
  let raw := trim_end_slashes (trim value) in
  let normalized_url := if contains "://" raw then raw else "https://" +:+ raw in
  let? url := ok_or (url_parse api normalized_url) (BadRequest "invalid Registry address") in
  if negb (url_scheme api url =?s "https") || is_none (url_host_str api url)
  then Err (BadRequest "Registry credentials require an HTTPS Registry")
  else
    let host := unwrap_or (url_host_str api url) "" in
    Ok (match url_port url with Some port => host +:+ ":" +:+ pretty port | None => host end).

Definition validate_credential (input : CredentialInput) (require_secret : bool) : ApiResult CredentialInput :=
  let name := trim (c_name input) in
  let input := {| c_name := name; c_registry := c_registry input; c_auth_mode := c_auth_mode input;
                  c_username := c_username input; c_secret := c_secret input |} in
  if is_empty name || (80 <? slen name) then Err (BadRequest "credential name must be 1-80 characters")
  else if negb ((c_auth_mode input =?s "basic") || (c_auth_mode input =?s "bearer"))
  then Err (BadRequest "credential mode must be basic or bearer")
  else if (c_auth_mode input =?s "basic") && is_none_or (c_username input) is_empty
  then Err (BadRequest "Basic credential requires a username")
  else if (require_secret && is_empty (c_secret input)) || (16 * 1024 <? slen (c_secret input))
  then Err (BadRequest "credential secret is empty or too long")
  else Ok input.

Definition ensure_secret_transport : ApiResult unit :=
  if negb (Config.admin_secret_transport_is_secure fixed)
  then Err (BadRequest "Registry credentials require HTTPS or a loopback admin listener")
  else if negb (Crypto.is_configured cipher)
  then Err (BadRequest "DONKEY_CREDENTIAL_KEY is required for Registry credentials")
  else Ok tt.

(** ** Handlers *)

Abbreviation prog := (program World).

Definition now : prog Z := read (fun w => clock (queue w)).
Definition failing {A} (e : AppError) : prog (ApiResult A) := Ret (Err e).

(** One statement on the tables. *)
Definition statement {A} (f : World -> result (A * World) DbErr) : prog (ApiResult A) :=
  Act (fun w => match f w with Ok (a, w') => (Ok a, w') | Err e => (Err (Database e), w) end) Ret.

Definition list_credentials : prog (ApiResult (list CredentialView)) :=
  read (fun w => Ok ((fun '(i, c) => credential_view i c) <$>
    sort_by (fun a b : Uuid * Credential.Model => String.compare (Credential.name a.2) (Credential.name b.2)) (map_to_list (creds w)))).

Definition create_credential (new_id : Uuid) (nonce : string) (input : CredentialInput) : prog (ApiResult CredentialView) :=
  match (let? _ := ensure_secret_transport in validate_credential input true) with
  | Err e => failing e
  | Ok input =>
      let- now := now in
      match (let? registry := normalize_registry (c_registry input) in
             let? sealed := Crypto.encrypt prims cipher nonce (c_secret input) in Ok (registry, sealed)) with
      | Err e => failing e
      | Ok (registry, sealed) =>
          let c := {| Credential.name := c_name input; Credential.registry := registry; Credential.auth_mode := c_auth_mode input;
                      Credential.username := c_username input; Credential.secret_enc := sealed; Credential.generation := 1;
                      Credential.created_at := now; Credential.updated_at := now |} in
          let! _ := statement (fun w => let? w := insert_credential new_id c w in Ok (tt, w)) in
          Ret (Ok (credential_view new_id c))
      end
  end.

(** The update statement on the row as it is when it runs: unset columns stay, and
    [generation] is the one read before, plus one. *)
Definition update_columns (read_row : Credential.Model) (input : CredentialInput) (registry : string) (sealed : option string) (now : Z)
    (stored : Credential.Model) : Credential.Model :=
  {| Credential.name := c_name input; Credential.registry := registry; Credential.auth_mode := c_auth_mode input;
     Credential.username := c_username input; Credential.secret_enc := unwrap_or sealed (Credential.secret_enc stored);
     Credential.generation := if is_some sealed then Credential.generation read_row + 1 else Credential.generation stored;
     Credential.created_at := Credential.created_at stored; Credential.updated_at := now |}.

Definition update_credential (i : Uuid) (nonce : string) (input : CredentialInput) : prog (ApiResult CredentialView) :=
  match (let? _ := ensure_secret_transport in validate_credential input false) with
  | Err e => failing e
  | Ok input =>
      let- found := read (fun w => creds w !! i) in
      match found with
      | None => failing (NotFound "Registry credential")
      | Some model =>
          match (let? registry := normalize_registry (c_registry input) in
                 let? sealed := (if is_empty (c_secret input) then Ok None
                                 else let? s := Crypto.encrypt prims cipher nonce (c_secret input) in Ok (Some s)) in
                 Ok (registry, sealed)) with
          | Err e => failing e
          | Ok (registry, sealed) =>
              let- now := now in
              let! row := statement (fun w =>
                match creds w !! i with
                | None => Err not_updated
                | Some stored =>
                    let c := update_columns model input registry sealed now stored in
                    let? w := save_credential i c w in Ok (c, w)
                end) in
              Ret (Ok (credential_view i row))
          end
      end
  end.

Definition delete_credential (i : Uuid) : prog (ApiResult Z) :=
  let- rule_used := read (fun w => some_rule (rule_uses i) (tables w)) in
  let- job_used := read (fun w => some_job (fun j => active j && job_uses i j) (tables w)) in
  if (rule_used || job_used : bool) then failing (BadRequest "credential is used by an active job or sync rule")
  else
    let! _ := statement (fun w => let? w := delete_credential_row i w in Ok (tt, w)) in
    Ret (Ok NO_CONTENT).

(** What a job sends to a registry for a credential. *)
Definition credential_auth (i : Uuid) (expected_registry : string) : prog (ApiResult RegistryAuth) :=
  let- found := read (fun w => creds w !! i) in
  Ret match found with
      | None => Err (NotFound "Registry credential")
      | Some c =>
          let? stored := normalize_registry (Credential.registry c) in
          let? expected := normalize_registry expected_registry in
          if negb (stored =?s expected) then Err (BadRequest "Registry credential does not match the requested Registry")
          else
            let? secret := Crypto.decrypt prims cipher (Credential.secret_enc c) in
            if Credential.auth_mode c =?s "basic" then
              let? user := ok_or (Credential.username c) (BadRequest "Basic credential has no username") in
              Ok (Basic user secret)
            else if Credential.auth_mode c =?s "bearer" then Ok (Bearer secret)
            else Err (BadRequest "unsupported Registry credential mode")
      end.

(** ** Rules *)

Definition rule_input (s : SyncRuleInput) : JobInput :=
  {| kind := "copy"; source_ref := s_source_ref s; source_node_id := s_source_node_id s;
     source_credential_id := s_source_credential_id s; destination_ref := Some (s_destination_ref s);
     destination_credential_id := Some (s_destination_credential_id s); platform_os := s_platform_os s;
     platform_arch := s_platform_arch s; output_format := None |}.

Definition validate_rule (s : SyncRuleInput) (now : Z) : ApiResult unit :=
  if is_empty (trim (s_name s)) || (80 <? slen (s_name s)) then Err (BadRequest "sync rule name must be 1-80 characters")
  else
    let? _ := validate_job reference_ok (rule_input s) in
    let? _ := upcoming (s_cron s) (s_timezone s) now in
    Ok tt.

Definition rule_row (s : SyncRuleInput) (next now created : Z) (digest : option string) (ran : option Z) : image_sync_rule :=
  {| rule_name := s_name s; enabled := s_enabled s; rule_source_ref := s_source_ref s; rule_source_node_id := s_source_node_id s;
     rule_source_credential_id := s_source_credential_id s; rule_destination_ref := s_destination_ref s;
     rule_destination_credential_id := s_destination_credential_id s; rule_platform_os := s_platform_os s;
     rule_platform_arch := s_platform_arch s; cron := s_cron s; timezone := s_timezone s; last_digest := digest;
     last_run_at := ran; next_run_at := Some next; rule_created_at := created; rule_updated_at := now |}.

Definition list_rules : prog (ApiResult (list (Uuid * image_sync_rule))) :=
  read (fun w => Ok (sort_by (fun a b : Uuid * image_sync_rule => String.compare (rule_name a.2) (rule_name b.2)) (map_to_list (rules (tables w))))).

Definition create_rule (new_id : Uuid) (s : SyncRuleInput) : prog (ApiResult (Uuid * image_sync_rule)) :=
  let- checked_at := now in
  match validate_rule s checked_at with
  | Err e => failing e
  | Ok _ =>
      let- created := now in
      let- next_at := now in
      match upcoming (s_cron s) (s_timezone s) next_at with
      | Err e => failing e
      | Ok next =>
          let r := rule_row s next created created None None in
          let! _ := statement (fun w =>
            if negb (rule_valid (tables w) r) then Err invalid_rule
            else if is_some (rules (tables w) !! new_id) then Err (DbUniqueConstraint "UNIQUE constraint failed")
            else Ok (tt, with_tables w (with_rules (tables w) (<[new_id := r]> (rules (tables w)))))) in
          Ret (Ok (new_id, r))
      end
  end.

Definition update_rule (i : Uuid) (s : SyncRuleInput) : prog (ApiResult (Uuid * image_sync_rule)) :=
  let- checked_at := now in
  match validate_rule s checked_at with
  | Err e => failing e
  | Ok _ =>
      let- found := read (fun w => rules (tables w) !! i) in
      match found with
      | None => failing (NotFound "sync rule")
      | Some _ =>
          let- next_at := now in
          match upcoming (s_cron s) (s_timezone s) next_at with
          | Err e => failing e
          | Ok next =>
              let- updated := now in
              let! r := statement (fun w =>
                match rules (tables w) !! i with
                | None => Err not_updated
                | Some stored =>
                    let r := rule_row s next updated (rule_created_at stored) (last_digest stored) (last_run_at stored) in
                    if rule_valid (tables w) r
                    then Ok (r, with_tables w (with_rules (tables w) (<[i := r]> (rules (tables w)))))
                    else Err invalid_rule
                end) in
              Ret (Ok (i, r))
          end
      end
  end.

Definition delete_rule_request (i : Uuid) : prog (ApiResult Z) :=
  let! _ := statement (fun w => Ok (tt, with_tables w (delete_rule i (tables w)))) in
  Ret (Ok NO_CONTENT).
End Handlers.
End Tools.
