(* ===== verification/ToolsProps.v ===== *)
(** * Credentials and rules: properties

    References between the tables stay intact in every interleaving of the handlers of
    Tools.v with those of Jobs.v, and a stored credential is sent only to its own
    registry and comes back as it was given. *)

From stdpp Require Import base gmap sets list strings relations.
From Stdlib Require Import ZArith Lia Ascii.
From S2P Require Import Prelude Text Errors Prog Config Security Crypto Tables Nodes Jobs Settings Tools.

#[local] Set Default Proof Using "Type*".

Module ToolsProps.
Import Tools.

(** ** References of the job tables *)

Definition refs_ok (d : Db) : Prop :=
  (forall i j, jobs d !! i = Some j -> row_valid d j = true) /\
  (forall i r, rules d !! i = Some r -> rule_valid d r = true).

(** A change of rows to ones that pass the triggers. *)
Record valid_from (d d' : Db) : Prop := {
  vf_nodes : nodes d' = nodes d;
  vf_credentials : credentials d' = credentials d;
  vf_jobs : forall i j, jobs d' !! i = Some j -> jobs d !! i = Some j \/ row_valid d j = true;
  vf_rules : forall i r, rules d' !! i = Some r -> rules d !! i = Some r \/ rule_valid d r = true
}.

Lemma row_valid_refs d d' j : nodes d' = nodes d -> credentials d' = credentials d -> row_valid d' j = row_valid d j.
Proof. intros E1 E2. unfold row_valid. by rewrite E1, E2. Qed.

Lemma rule_valid_same d d' r : nodes d' = nodes d -> credentials d' = credentials d -> rule_valid d' r = rule_valid d r.
Proof. intros E1 E2. unfold rule_valid. by rewrite E1, E2. Qed.

Lemma valid_from_refs d d' : valid_from d d' -> refs_ok d -> refs_ok d'.
Proof.
  intros [N C J R] [HJ HR]. split.
  - intros i j Hj. rewrite (row_valid_refs d) by done. destruct (J i j Hj); eauto.
  - intros i r Hr. rewrite (rule_valid_same d) by done. destruct (R i r Hr); eauto.
Qed.

Lemma valid_from_refl d : valid_from d d.
Proof. split; auto. Qed.

Lemma valid_from_trans d1 d2 d3 : valid_from d1 d2 -> valid_from d2 d3 -> valid_from d1 d3.
Proof.
  intros [N C J R] [N' C' J' R']. split; [congruence|congruence| |].
  - intros i j H. destruct (J' i j H) as [H'|H']; [auto|]. right. by rewrite (row_valid_refs d1) in H'.
  - intros i r H. destruct (R' i r H) as [H'|H']; [auto|]. right. by rewrite (rule_valid_same d1) in H'.
Qed.

Lemma valid_from_owners d m : valid_from d (with_owners d m).
Proof. split; auto. Qed.

Lemma valid_from_jobs d m : (forall i j, m !! i = Some j -> jobs d !! i = Some j \/ row_valid d j = true) -> valid_from d (with_jobs d m).
Proof. intros H. split; auto. Qed.

Lemma valid_from_rules d m : (forall i r, m !! i = Some r -> rules d !! i = Some r \/ rule_valid d r = true) -> valid_from d (with_rules d m).
Proof. intros H. split; auto. Qed.

Lemma valid_insert {A} (p : A -> bool) (m : gmap Uuid A) i x k y : p x = true -> <[i := x]> m !! k = Some y -> m !! k = Some y \/ p y = true.
Proof. intros Hx [[_ <-]|[_ ?]]%lookup_insert_Some; auto. Qed.

Lemma update_by_id_valid i p c d r d' : update_by_id i p c d = Ok (r, d') -> valid_from d d'.
Proof.
  intros [(_ & j & _ & _ & V & ->)|(_ & -> & _)]%update_by_id_Ok; [|apply valid_from_refl].
  apply valid_from_jobs. intros k y. by apply valid_insert.
Qed.

Lemma update_where_refs p c d r d' : update_where p c d = Ok (r, d') -> valid_from d d'.
Proof.
  intros (-> & _ & V)%update_where_Ok. apply valid_from_jobs. intros i y. rewrite lookup_fmap. intros (j & Hj & ->)%fmap_Some.
  destruct (p j) eqn:P; [right; by eapply V|by left].
Qed.

Lemma record_rule_run_valid i now d d' : record_rule_run i now d = Ok d' -> valid_from d d'.
Proof.
  unfold record_rule_run. intros H. repeat case_match; simplify_eq; try apply valid_from_refl.
  apply valid_from_rules. intros k y. by apply valid_insert.
Qed.

Lemma claim_valid i worker now lease d r d' : claim_image_job i worker now lease d = Ok (r, d') -> valid_from d d'.
Proof.
  unfold claim_image_job. destruct (update_by_id _ _ _ _) as [[n d1]|] eqn:E; [|done]. apply update_by_id_valid in E. simpl.
  destruct (negb _); intros [= <- <-]; [done|]. eapply valid_from_trans; [exact E|apply valid_from_owners].
Qed.

Lemma finish_valid i f d r d' : finish_image_job_owned i f d = Ok (r, d') -> valid_from d d'.
Proof.
  unfold finish_image_job_owned. destruct (update_by_id _ _ _ _) as [[n d1]|] eqn:E; [|done]. apply update_by_id_valid in E. simpl.
  destruct (n =? 1); [|by intros [= <- <-]]. intros H.
  destruct (if _ : bool then _ else Ok d1) as [d2|] eqn:E2; [|done]. injection H as <- <-.
  assert (valid_from d1 d2) as H2 by (destruct (_ =?s _); [by eapply record_rule_run_valid|injection E2 as ->; apply valid_from_refl]).
  eapply valid_from_trans; [exact E|]. eapply valid_from_trans; [exact H2|apply valid_from_owners].
Qed.

Lemma update_owned_valid i worker a c d b d' : update_owned i worker a c d = Ok (b, d') -> valid_from d d'.
Proof.
  unfold update_owned. destruct (update_by_id _ _ _ _) as [[n d1]|] eqn:E; [|done]. intros [= <- <-]. by eapply update_by_id_valid.
Qed.

Lemma delete_job_valid i d : valid_from d (delete_by_id i d).
Proof. split; [done|done| |auto]. intros k j H. simpl in H. apply lookup_delete_Some in H as [_ ?]. auto. Qed.

Lemma delete_rule_valid i d : valid_from d (delete_rule i d).
Proof. split; [done|done|auto|]. intros k j H. simpl in H. apply lookup_delete_Some in H as [_ ?]. auto. Qed.

Lemma insert_job_valid i j d d' : insert_job i j d = Ok d' -> valid_from d d'.
Proof. intros (_ & V & -> & _)%insert_job_Ok. apply valid_from_jobs. intros k y. by apply valid_insert. Qed.

Lemma create_rule_job_valid reference_ok upcoming new_id i slot trigger now d r d' :
  create_rule_job reference_ok upcoming new_id i slot trigger now d = Ok (r, d') -> valid_from d d'.
Proof.
  unfold create_rule_job. destruct (rules d !! i) as [rule|]; [|done]. cbn [ok_or].
  destruct (_ && _); [intros [= <- <-]; apply valid_from_refl|]. destruct (validate_job _ _) as [[]|]; [|done].
  assert (forall x (job : Uuid * image_job) d1, match x with Some existing => Ok (existing, d)
    | None => let? d2 := map_err Database (insert_job new_id (pending_job (rule_job_input rule) JobKind.Copy (if trigger =?s "schedule" then Some (slot_key i (unwrap_or slot now)) else None) now) d) in
        Ok ((new_id, pending_job (rule_job_input rule) JobKind.Copy (if trigger =?s "schedule" then Some (slot_key i (unwrap_or slot now)) else None) now),
            with_lineage d2 (<[new_id := {| sync_rule_id := i; scheduled_for := slot; trigger := trigger |}]> (lineage d2))) end
    = Ok (job, d1) -> valid_from d d1) as H.
  { intros [existing|] job d1; [intros [= _ <-]; apply valid_from_refl|].
    destruct (insert_job _ _ _) as [d2|] eqn:E; [|done]. simpl. intros [= _ <-]. apply insert_job_valid in E as [N C J R]. by split. }
  destruct (match _ ≫= _ with Some _ => _ | None => _ end) as [[job d1]|] eqn:E; [|done]. apply H in E.
  destruct (trigger =?s _); [|by intros [= <- <-]]. destruct (upcoming _ _ _) as [next|]; [|done].
  destruct (rule_valid d1 _) eqn:V; [|done]. intros [= <- <-]. eapply valid_from_trans; [exact E|].
  apply valid_from_rules. intros k y. by apply valid_insert.
Qed.

Lemma db_step_valid d d' : db_step d d' -> valid_from d d'.
Proof.
  destruct 1; eauto using claim_valid, finish_valid, update_owned_valid, update_by_id_valid, update_where_refs, delete_job_valid,
    insert_job_valid, create_rule_job_valid, delete_rule_valid.
  apply valid_from_rules. intros k y. by apply valid_insert.
Qed.

(** ** The world *)

Record tools_inv (w : World) : Prop := {
  ti_creds : credentials (tables w) = dom (creds w);
  ti_refs : refs_ok (tables w);
  ti_jobs : table_inv (tables w);
  ti_valid : map_Forall (fun _ c => credential_valid c = true) (creds w)
}.

(** What the handlers of the image tools, and of the nodes, do to the tables: a
    statement of Jobs.v, or one on the credentials or nodes. *)
Inductive tools_step : World -> World -> Prop :=
| ts_quiet w w' : tables w' = tables w -> creds w' = creds w -> tools_step w w'
| ts_jobs w w' : db_step (tables w) (tables w') -> creds w' = creds w -> tools_step w w'
| ts_insert i c w w' : insert_credential i c w = Ok w' -> tools_step w w'
| ts_save i c w w' : save_credential i c w = Ok w' -> tools_step w w'
| ts_delete i w w' : delete_credential_row i w = Ok w' -> tools_step w w'
| ts_node i w : tools_step w (with_tables w (with_nodes (tables w) ({[i]} ∪ nodes (tables w))))
| ts_delete_node i d w : delete_node_row i (tables w) = Ok d -> tools_step w (with_tables w d).

Lemma exists_in_mono o (s t : gset Uuid) : (forall i, o = Some i -> i ∈ s -> i ∈ t) -> exists_in o s = true -> exists_in o t = true.
Proof. destruct o as [i|]; [|done]. unfold exists_in. simpl. rewrite !bool_decide_eq_true. eauto. Qed.

(** A row stays valid when nothing it names is lost. *)
Lemma row_valid_mono d d' j :
  (forall i, source_node_id (job_input j) = Some i -> i ∈ nodes d -> i ∈ nodes d') ->
  (forall i, job_uses i j = true -> i ∈ credentials d -> i ∈ credentials d') -> row_valid d j = true -> row_valid d' j = true.
Proof.
  intros Hn Hc. unfold row_valid. rewrite !andb_true_iff. intros [[[Hb H1] H2] H3]. split_and!; [done| | |].
  - by eapply exists_in_mono.
  - eapply exists_in_mono; [|done]. intros i E. apply Hc. unfold job_uses, uses_credential. rewrite E. by rewrite bool_decide_eq_true_2.
  - eapply exists_in_mono; [|done]. intros i E. apply Hc. unfold job_uses, uses_credential. rewrite E, orb_true_iff, (bool_decide_eq_true_2 (Some i = _)) by done. by right.
Qed.

Lemma rule_valid_mono d d' r :
  (forall i, rule_source_node_id r = Some i -> i ∈ nodes d -> i ∈ nodes d') ->
  (forall i, rule_uses i r = true -> i ∈ credentials d -> i ∈ credentials d') -> rule_valid d r = true -> rule_valid d' r = true.
Proof.
  intros Hn Hc. unfold rule_valid. rewrite !andb_true_iff. intros [[[[[H0 H1] H2] H3] H4] H5]. split_and!; try done.
  - by eapply exists_in_mono.
  - eapply exists_in_mono; [|done]. intros i E. apply Hc. unfold rule_uses, uses_credential. rewrite E. by rewrite bool_decide_eq_true_2.
  - rewrite bool_decide_eq_true in *. apply Hc; [|done]. unfold rule_uses, uses_credential.
    rewrite orb_true_iff, (bool_decide_eq_true_2 (Some _ = _)) by done. by right.
Qed.

Lemma refs_mono d d' : jobs d' = jobs d -> rules d' = rules d ->
  (forall i, i ∈ nodes d -> i ∈ nodes d') -> (forall i, i ∈ credentials d -> i ∈ credentials d') -> refs_ok d -> refs_ok d'.
Proof.
  intros Ej Er Hn Hc [HJ HR]. split.
  - intros i j. rewrite Ej. intros H. apply (row_valid_mono d); eauto.
  - intros i r. rewrite Er. intros H. apply (rule_valid_mono d); eauto.
Qed.

(** Rows of the jobs that differ in their references only. *)
Definition same_state (j j' : image_job) : Prop :=
  job_status j' = job_status j /\ lease_until j' = lease_until j /\ cancel_requested j' = cancel_requested j /\
  started_at j' = started_at j /\ finished_at j' = finished_at j /\ idempotency_key j' = idempotency_key j.

Lemma table_inv_rewritten d d' : owners d' = owners d ->
  (forall i j', jobs d' !! i = Some j' <-> exists j, jobs d !! i = Some j /\ same_state j j' /\ jobs d' !! i = Some j') ->
  (forall i, is_Some (jobs d !! i) -> is_Some (jobs d' !! i)) -> table_inv d -> table_inv d'.
Proof.
  intros Eo Hj Hs (L & R & O & U). unfold table_inv, running_at, unique_keys. rewrite Eo. split_and!.
  - intros i j' (j & H & (E1 & E2 & E3 & E4 & E5 & _) & _)%Hj. specialize (L i j H). unfold lifecycle in *. by rewrite E1, E2, E3, E4, E5.
  - intros i (j' & (j & H & (E1 & _) & _)%Hj & S). apply R. exists j. split; [done|]. unfold is_status in *. by rewrite <- E1.
  - intros i o Ho. destruct (O i o Ho) as [H1 H2]. split; [by apply Hs|done].
  - intros i1 i2 j1 j2 key (x1 & H1 & S1 & _)%Hj (x2 & H2 & S2 & _)%Hj K1 K2.
    apply (U i1 i2 x1 x2 key); [done|done|by destruct S1 as (_ & _ & _ & _ & _ & <-)|by destruct S2 as (_ & _ & _ & _ & _ & <-)].
Qed.

Lemma rewrite_jobs_Ok p f d d' : rewrite_jobs p f d = Ok d' ->
  d' = with_jobs d ((fun j => if p j then f j else j) <$> jobs d) /\
  forall i j, jobs d !! i = Some j -> p j = true -> row_valid d (f j) = true.
Proof.
  unfold rewrite_jobs. destruct (forallb _ _) eqn:V; [|done]. intros [= <-]. split; [done|]. intros i j Hj P.
  rewrite forallb_forall in V. specialize (V (i, j)). simpl in V. rewrite P in V. apply V, list_elem_of_In, elem_of_map_to_list, Hj.
Qed.

Lemma rewritten_inv p f d d' : (forall j, same_state j (f j)) -> rewrite_jobs p f d = Ok d' -> table_inv d -> table_inv d'.
Proof.
  intros Hf [-> _]%rewrite_jobs_Ok. apply table_inv_rewritten; [done| |].
  - intros i j'. simpl. rewrite lookup_fmap. split; [|naive_solver]. intros H. pose proof H as (j & Hj & ->)%fmap_Some.
    exists j. split; [done|]. split; [|done]. destruct (p j); [apply Hf|by repeat split].
  - intros i [j Hj]. simpl. rewrite lookup_fmap, Hj. by eexists.
Qed.

Lemma some_rule_false p d : some_rule p d = false -> forall i r, rules d !! i = Some r -> p r = false.
Proof.
  unfold some_rule. intros H%Tables.existsb_false i r Hr. rewrite Forall_forall in H. apply H.
  apply list_elem_of_fmap. exists (i, r). split; [done|]. by apply elem_of_map_to_list.
Qed.

Lemma some_job_false p d : some_job p d = false -> forall i j, jobs d !! i = Some j -> p j = false.
Proof.
  unfold some_job. intros H%Tables.existsb_false i j Hj. rewrite Forall_forall in H. apply H.
  apply list_elem_of_fmap. exists (i, j). split; [done|]. by apply elem_of_map_to_list.
Qed.

Lemma forget_source_same i j : same_state j (forget_source i j).
Proof. by repeat split. Qed.
Lemma forget_destination_same i j : same_state j (forget_destination i j).
Proof. by repeat split. Qed.
Lemma forget_node_same i j : same_state j (forget_node i j).
Proof. by repeat split. Qed.

(** After the deletion of a credential that no rule and no active job uses. *)
Lemma delete_credential_row_inv i w w' : delete_credential_row i w = Ok w' -> tools_inv w -> tools_inv w'.
Proof.
  unfold delete_credential_row. destruct (creds w !! i) as [c|] eqn:Ec; [|by intros [= <-]].
  destruct (credential_in_use i (tables w)) eqn:Eu; [done|]. apply orb_false_iff in Eu as [Eur Euj].
  set (w0 := with_creds w _). destruct (rewrite_jobs _ (forget_source i) _) as [d1|] eqn:E1; [|done].
  destruct (rewrite_jobs _ (forget_destination i) d1) as [d2|] eqn:E2; [|done]. intros [= <-] [Hc [HJ HR] Hj Hv].
  pose proof (rewritten_inv _ _ _ _ (forget_source_same i) E1) as T1.
  pose proof (rewritten_inv _ _ _ _ (forget_destination_same i) E2) as T2.
  apply rewrite_jobs_Ok in E1 as [-> V1]. apply rewrite_jobs_Ok in E2 as [-> V2].
  assert (credentials (tables w0) = credentials (tables w) ∖ {[i]}) as Ecr by (simpl; rewrite Hc; set_solver).
  constructor; simpl.
  - done.
  - split; simpl.
    + intros k j2. rewrite lookup_fmap. intros (j1 & H1 & ->)%fmap_Some. pose proof H1 as H1'. rewrite lookup_fmap in H1.
      apply fmap_Some in H1 as (j & H0 & ->).
      set (j1 := if _ : bool then forget_source i j else j) in *.
      assert (row_valid (tables w0) j1 = true \/ destination_credential_id (job_input j1) = Some i) as Hj1.
      { subst j1. case_bool_decide as Es; [left; eapply V1; [exact H0|by apply bool_decide_eq_true_2]|].
        destruct (decide (destination_credential_id (job_input j) = Some i)) as [|Hne]; [by right|left].
        apply (row_valid_mono (tables w)); [done| |by eapply HJ]. intros k' Hk' Hin. simpl. rewrite dom_delete_L, <- Hc.
        apply elem_of_difference. split; [done|]. apply not_elem_of_singleton. intros ->.
        unfold job_uses, uses_credential in Hk'. rewrite orb_true_iff, !bool_decide_eq_true in Hk'. by destruct Hk'. }
      change (row_valid (tables w0) (if bool_decide (destination_credential_id (job_input j1) = Some i) then forget_destination i j1 else j1) = true).
      case_bool_decide as Ed; [|by destruct Hj1]. eapply (V2 k); [exact H1'|by apply bool_decide_eq_true_2].
    + intros k r Hr. apply (rule_valid_mono (tables w)); [done| |by eapply HR]. intros k' Hk' Hin. simpl. rewrite dom_delete_L, <- Hc.
      apply elem_of_difference. split; [done|]. apply not_elem_of_singleton. intros ->.
      by rewrite (some_rule_false _ _ Eur k r Hr) in Hk'.
  - apply T2, T1. exact Hj.
  - by apply map_Forall_delete.
Qed.

Lemma delete_node_row_inv i d w : delete_node_row i (tables w) = Ok d -> tools_inv w -> tools_inv (with_tables w d).
Proof.
  unfold delete_node_row. destruct (node_in_use i (tables w)) eqn:Eu; [done|]. apply orb_false_iff in Eu as [Eur Euj].
  intros E [Hc [HJ HR] Hj Hv]. pose proof (rewritten_inv _ _ _ _ (forget_node_same i) E) as T.
  apply rewrite_jobs_Ok in E as [-> V]. constructor; simpl; [done| |by apply T|done]. split; simpl.
  - intros k j2. rewrite lookup_fmap. intros (j & H & ->)%fmap_Some. case_bool_decide as En.
    + rewrite (row_valid_refs (with_nodes (tables w) (nodes (tables w) ∖ {[i]}))) by done. eapply V; [exact H|by apply bool_decide_eq_true_2].
    + apply (row_valid_mono (tables w)); [|done|by eapply HJ]. intros k' Hk' Hin. simpl. apply elem_of_difference.
      split; [done|]. apply not_elem_of_singleton. congruence.
  - intros k r Hr. apply (rule_valid_mono (tables w)); [|done|by eapply HR]. intros k' Hk' Hin. simpl. apply elem_of_difference.
    split; [done|]. apply not_elem_of_singleton. intros ->. pose proof (some_rule_false _ _ Eur k r Hr) as H. simpl in H.
    by rewrite bool_decide_eq_true_2 in H.
Qed.

Lemma with_creds_inv w m : (forall i, is_Some (creds w !! i) -> is_Some (m !! i)) -> map_Forall (fun _ c => credential_valid c = true) m ->
  tools_inv w -> tools_inv (with_creds w m).
Proof.
  intros Hm Hv [Hc Hr Hj _]. constructor; simpl; [done| |exact Hj|done].
  eapply refs_mono; [| | | |exact Hr]; try done. intros i. rewrite Hc. simpl. rewrite !elem_of_dom. apply Hm.
Qed.

Lemma tools_step_inv w w' : tools_step w w' -> tools_inv w -> tools_inv w'.
Proof.
  destruct 1 as [w w' E1 E2|w w' H E|i c w w' E|i c w w' E|i w w' E|i w|i d w E]; intros Hw.
  - destruct Hw as [Hc Hr Hj Hv]. constructor; by rewrite ?E1, ?E2.
  - destruct Hw as [Hc Hr Hj Hv]. pose proof (db_step_valid _ _ H) as V. constructor; rewrite ?E; [|by eapply valid_from_refs|by eapply step_inv|done].
    by rewrite (vf_credentials _ _ V).
  - unfold insert_credential in E. destruct (credential_valid c) eqn:V; [|done]. simpl in E. destruct (creds w !! i) eqn:Ei; [done|].
    injection E as <-. apply with_creds_inv; [|by apply map_Forall_insert_2; [|apply Hw]|done].
    intros k Hk. destruct (decide (k = i)) as [->|]; [rewrite lookup_insert_eq; by eexists|by rewrite lookup_insert_ne].
  - unfold save_credential in E. destruct (creds w !! i) eqn:Ei; [|done]. destruct (credential_valid c) eqn:V; [|done]. injection E as <-.
    apply with_creds_inv; [|by apply map_Forall_insert_2; [|apply Hw]|done].
    intros k Hk. destruct (decide (k = i)) as [->|]; [rewrite lookup_insert_eq; by eexists|by rewrite lookup_insert_ne].
  - by eapply delete_credential_row_inv.
  - destruct Hw as [Hc Hr Hj Hv]. constructor; simpl; try done. eapply refs_mono; [| | | |exact Hr]; try done. set_solver.
  - by apply delete_node_row_inv with i.
Qed.

(** ** Handlers *)

Section Handlers.
Context {Url : Type} (api : UrlApi Url) (url_port : Url -> option Z).
Context {Key : Type} (prims : Crypto.Primitives Key) (cipher : option Key).
Context (fixed : Config.Fixed).
Context (reference_ok : string -> bool) (upcoming : string -> string -> Z -> ApiResult Z).

Inductive tools_handler : forall {A}, program World A -> Prop :=
| th_jobs {A} (p : program JobsWorld A) : handler p -> tools_handler (zoom queue with_queue p)
| th_list : tools_handler list_credentials
| th_create i nonce input : tools_handler (create_credential api url_port prims cipher fixed i nonce input)
| th_update i nonce input : tools_handler (update_credential api url_port prims cipher fixed i nonce input)
| th_delete i : tools_handler (delete_credential i)
| th_auth i r : tools_handler (credential_auth api url_port prims cipher i r)
| th_list_rules : tools_handler list_rules
| th_create_rule i s : tools_handler (create_rule reference_ok upcoming i s)
| th_update_rule i s : tools_handler (update_rule reference_ok upcoming i s)
| th_delete_rule i : tools_handler (delete_rule_request i).

Lemma quiet_step w : tools_step w w.
Proof using Type. by apply ts_quiet. Qed.

Lemma statement_obeys {A B} (f : World -> result (A * World) DbErr) (k : ApiResult A -> program World B) :
  (forall w a w', f w = Ok (a, w') -> tools_step w w') -> (forall r, obeys tools_step (k r)) -> obeys tools_step (bind (statement f) k).
Proof using Type.
  intros Hf Hk. split; [|intros r; apply Hk]. intros w. destruct (f w) as [[a w']|e] eqn:E; [by eapply Hf|apply quiet_step].
Qed.

Lemma zoomed_step w q : atom (queue w) q -> tools_step w (with_queue w q).
Proof using Type. intros [E|S]; [by apply ts_quiet|by apply ts_jobs]. Qed.

Ltac walk := repeat match goal with
  | |- obeys _ (bind (statement _) _) => apply statement_obeys; [intros ? ? ?|intros ?]
  | |- obeys _ (bind _ _) => apply obeys_bind; [|intros ?]
  | |- obeys _ now => unfold now
  | |- obeys _ (read _) => split; [intros ?; apply quiet_step|intros ?; exact I]
  | |- obeys _ (Act _ _) => split; [intros ?; apply quiet_step|intros ?]
  | |- obeys _ (Ret _) => exact I
  | |- obeys _ (failing _) => exact I
  | |- obeys _ (match ?x with _ => _ end) => destruct x
  | |- obeys _ (let '(_, _) := ?x in _) => destruct x
  end.

Lemma tools_handler_obeys {A} (p : program World A) : tools_handler p -> obeys tools_step p.
Proof using Type.
  destruct 1 as [A p Hp| |i nonce input|i nonce input|i|i r| |i s|i s|i].
  - eapply obeys_zoom; [|by apply handler_within]. intros v w Hw. by apply zoomed_step.
  - unfold list_credentials. walk.
  - unfold create_credential. walk.
    intros H. destruct (insert_credential _ _ _) as [w2|] eqn:E; [|done]. injection H as <- <-. by eapply ts_insert.
  - unfold update_credential. walk. intros H. destruct (creds _ !! i) eqn:Ei; [|done].
    destruct (save_credential _ _ _) as [w2|] eqn:E; [|done]. injection H as <- <-. by eapply ts_save.
  - unfold delete_credential. walk. intros H. destruct (delete_credential_row _ _) as [w2|] eqn:E; [|done]. injection H as <- <-. by eapply ts_delete.
  - unfold credential_auth. walk.
  - unfold list_rules. walk.
  - unfold create_rule. walk. intros H. destruct (rule_valid _ _) eqn:V; [|done]. simpl in H. destruct (is_some _); [done|].
    injection H as <- <-. apply ts_jobs; [|done]. by apply step_upsert_rule.
  - unfold update_rule. walk. intros H. destruct (rules _ !! i) eqn:Ei; [|done]. destruct (rule_valid _ _) eqn:V; [|done].
    injection H as <- <-. apply ts_jobs; [|done]. by apply step_upsert_rule.
  - unfold delete_rule_request. walk. intros [= <- <-]. apply ts_jobs; [|done]. apply step_delete_rule.
Qed.

(** C28: References never dangle.  However the handlers for credentials and rules, the
    workers and job handlers, and the creation and deletion of nodes interleave: every
    job and every rule names existing nodes and credentials, the stored credentials
    are well formed, and the job tables keep their own invariant. *)
Theorem references_invariant {A} (env : World -> World -> Prop) (p : program World A) w a w' :
  (forall x y, env x y -> tools_step x y) -> tools_handler p -> tools_inv w -> runs env p w a w' -> tools_inv w'.
Proof using Type.
  intros He Hp Hw Hr. apply (runs_steps env tools_step He) in Hr; [|by apply tools_handler_obeys].
  clear -Hw Hr. induction Hr; eauto using tools_step_inv.
Qed.

(** ** A credential and its registry *)

Lemma validate_credential_Ok input b v : validate_credential input b = Ok v ->
  v = {| c_name := trim (c_name input); c_registry := c_registry input; c_auth_mode := c_auth_mode input;
         c_username := c_username input; c_secret := c_secret input |} /\
  (c_auth_mode input = "basic" \/ c_auth_mode input = "bearer") /\
  (c_auth_mode input = "basic" -> is_Some (c_username input)).
Proof using Type.
  unfold validate_credential. cbn [c_name c_registry c_auth_mode c_username c_secret].
  destruct (is_empty (trim _) || _); [done|]. destruct (negb _) eqn:Em; [done|]. destruct ((_ =?s "basic") && _) eqn:Eu; [done|].
  match goal with |- (if ?c then _ else _) = _ -> _ => destruct c; [done|] end. intros [= <-]. split; [done|].
  apply negb_false_iff, orb_true_iff in Em. split; [destruct Em as [H|H]; apply str_eqb_eq in H; auto|].
  intros E. rewrite E in Eu. simpl in Eu. destruct (c_username input); [by eexists|done].
Qed.

(** What a credential gives for a registry. *)
Definition auth_of (input : CredentialInput) : RegistryAuth :=
  if c_auth_mode input =?s "basic" then Basic (unwrap_or (c_username input) "") (c_secret input) else Bearer (c_secret input).

(** C29: A stored credential is exact and confined.  After a credential was created, a job
    that asks with its identifier, at any later time while the row is as stored, gets
    the user name and the secret that were given if it asks for the registry the
    credential was given for, and an error for any other registry. *)
Theorem credential_exact i nonce input w view w1 w2 r :
  Crypto.documented prims -> String.length nonce = 12%nat -> Crypto.utf8 prims (c_secret input) = true ->
  run (create_credential api url_port prims cipher fixed i nonce input) w = (Ok view, w1) -> creds w2 !! i = creds w1 !! i ->
  (forall s, normalize_registry api url_port (c_registry input) = Ok s -> normalize_registry api url_port s = Ok s) ->
  let answer := (run (credential_auth api url_port prims cipher i r) w2).1 in
  (normalize_registry api url_port r = normalize_registry api url_port (c_registry input) -> answer = Ok (auth_of input)) /\
  (forall auth, answer = Ok auth -> auth = auth_of input /\ normalize_registry api url_port r = normalize_registry api url_port (c_registry input)).
Proof using Type.
  intros Hdoc Hn Hu Hc E2 Hidem answer. unfold create_credential in Hc.
  destruct (ensure_secret_transport cipher fixed) as [[]|]; [|done]. simpl in Hc.
  destruct (validate_credential input true) as [v|] eqn:Ev; [|done]. apply validate_credential_Ok in Ev as (-> & Hmode & Huser).
  cbn [c_registry c_secret c_name c_auth_mode c_username] in Hc. cbn [bind run now read] in Hc.
  destruct (normalize_registry api url_port (c_registry input)) as [reg|] eqn:Er; [|done].
  destruct (Crypto.encrypt prims cipher nonce (c_secret input)) as [sealed|] eqn:Es; [|done].
  cbn [bind run statement] in Hc. set (row := Credential.Build_Model _ _ _ _ _ _ _ _) in Hc.
  destruct (insert_credential i row w) as [w'|] eqn:Ei; [|done]. injection Hc as _ <-.
  assert (creds w' !! i = Some row) as Hrow.
  { unfold insert_credential in Ei. destruct (negb _); [done|]. destruct (is_some _); [done|]. injection Ei as <-. simpl. by rewrite lookup_insert_eq. }
  subst answer. unfold credential_auth. cbn [bind run read fst]. rewrite E2, Hrow. subst row. cbn [Credential.registry].
  rewrite (Hidem _ eq_refl). cbn [Credential.secret_enc Credential.auth_mode Credential.username].
  rewrite (Crypto.decrypt_encrypt prims cipher nonce (c_secret input) sealed Hdoc Hn Hu Es).
  assert ((if c_auth_mode input =?s "basic"
           then let? user := ok_or (c_username input) (BadRequest "Basic credential has no username") in Ok (Basic user (c_secret input))
           else if c_auth_mode input =?s "bearer" then Ok (Bearer (c_secret input))
           else Err (BadRequest "unsupported Registry credential mode")) = Ok (auth_of input)) as Ha.
  { unfold auth_of. destruct Hmode as [Em|Em]; rewrite Em; simpl; [|done]. destruct (Huser Em) as [u ->]. done. }
  split.
  - intros ->. rewrite str_eqb_refl. exact Ha.
  - intros auth. destruct (normalize_registry api url_port r) as [e|]; [|done]. destruct (str_eqb reg e) eqn:Eq; simpl; [|done].
    apply str_eqb_eq in Eq as ->. rewrite Ha. intros [= <-]. done.
Qed.
End Handlers.
End ToolsProps.

(** ** Instances *)

Module ToolsWitness.
Import Tools ToolsProps.

(** A URL is its host. *)
Definition host_url : UrlApi string :=
  {| url_parse := strip_prefix "https://"; url_username := fun _ => ""; url_password := fun _ => None;
     url_scheme := fun _ => "https"; url_host_str := Some; url_path := fun _ => "/"; url_port_or_known_default := fun _ => Some 443;
     url_clear_fragment := id; url_clear_query := id; url_set_path := fun _ u => u |}.

Abbreviation toy_prims := NodesWitness.toy_prims.

Definition empty_world : World :=
  {| queue := JobsWitness.world {| jobs := ∅; owners := ∅; lineage := ∅; rules := ∅; nodes := ∅; credentials := ∅ |}; creds := ∅ |}.

Definition login : CredentialInput :=
  {| c_name := " mirror "; c_registry := "registry.example/"; c_auth_mode := "basic"; c_username := Some "user"; c_secret := "s3cret" |}.

Abbreviation create_here := (create_credential host_url (fun _ => None) toy_prims (Some tt) (Config.fixed SettingsWitness.env) 4 "abcdefghijkl" login).
Definition stored : World := (run create_here empty_world).2.

Lemma references_invariant_witness : tools_inv stored /\ dom (creds stored) = {[4%N]}.
Proof.
  split; [|vm_compute; reflexivity].
  refine (references_invariant host_url (fun _ => None) toy_prims (Some tt) (Config.fixed SettingsWitness.env) (fun _ => true) JobsWitness.daily
    (fun _ _ => False) create_here empty_world (run create_here empty_world).1 stored _ _ _ _).
  - done.
  - apply th_create.
  - constructor; [done|split; intros i x H; simpl in H; by rewrite lookup_empty in H|by apply empty_inv|apply map_Forall_empty].
  - apply run_runs. unfold stored. by destruct (run create_here empty_world).
Defined.

Lemma credential_exact_witness :
  (run (credential_auth host_url (fun _ => None) toy_prims (Some tt) 4 "https://registry.example") stored).1 = Ok (Basic "user" "s3cret") /\
  is_ok (run (credential_auth host_url (fun _ => None) toy_prims (Some tt) 4 "other.example") stored).1 = false.
Proof.
  assert (forall r, let answer := (run (credential_auth host_url (fun _ => None) toy_prims (Some tt) 4 r) stored).1 in
    (normalize_registry host_url (fun _ => None) r = normalize_registry host_url (fun _ => None) (c_registry login) -> answer = Ok (auth_of login)) /\
    (forall auth, answer = Ok auth -> auth = auth_of login /\
       normalize_registry host_url (fun _ => None) r = normalize_registry host_url (fun _ => None) (c_registry login))) as H.
  { intros r. eapply (credential_exact host_url (fun _ => None) toy_prims (Some tt) (Config.fixed SettingsWitness.env) 4 "abcdefghijkl" login empty_world).
    - exact NodesWitness.toy_documented.
    - reflexivity.
    - reflexivity.
    - unfold stored. vm_compute. reflexivity.
    - vm_compute. reflexivity.
    - intros s [= <-]. vm_compute. reflexivity. }
  split; [apply (H "https://registry.example"); vm_compute; reflexivity|].
  destruct (run _ stored).1 as [auth|] eqn:E; [|reflexivity]. destruct (H "other.example") as [_ H2]. rewrite E in H2.
  destruct (H2 auth eq_refl) as [_ Hr]. vm_compute in Hr. discriminate Hr.
Defined.

(** A finished job that used one credential on both sides: the trigger that clears the
    first column meets the second, which names the deleted row, and the deletion
    fails. *)
Definition copy_input : JobInput :=
  {| kind := "copy"; source_ref := "a"; source_node_id := None; source_credential_id := Some 4%N; destination_ref := Some "b";
     destination_credential_id := Some 4%N; platform_os := "linux"; platform_arch := "amd64"; output_format := None |}.
Definition copied : image_job := assign_all [SetStatus "completed"; SetFinishedAt (Some 1)] (pending_job copy_input JobKind.Copy None 0).
Definition after_copy : World := with_tables stored (with_jobs (tables stored) {[1%N := copied]}).

Lemma credential_stuck : (run (delete_credential 4) after_copy).1 = Err (Database invalid_job).
Proof. vm_compute. reflexivity. Qed.
End ToolsWitness.
