(* ===== verification/Images.v ===== *)
(** * The pipelines of the image tools

    src/src/image_tools.rs and src/src/image_tools/registry.rs: resolving an image at a
    node or directly at its registry, preparing its blobs in the artifact store,
    exporting, extracting and copying it, the quota of the store, and one turn of the
    worker ([tick]).

    A pipeline is a program on the world below: the tables of Tools.v, the store of
    Artifacts.v, the node service of Nodes.v and the log of what was sent to
    destination registries.  What other crates do is a parameter: the answers of nodes
    ([send]) and of the OCI client ([oci_manifest], [oci_blob], [oci_dest]) to the
    [n]-th call, the parsing of references and manifests, archives and root file
    systems. *)

From stdpp Require Import base gmap sets list strings relations.
From Stdlib Require Import ZArith Lia Ascii Strings.Byte.
From S2P Require Import Prelude F64 Text Errors Model Prog Threads Files Http.
From S2P Require Import Scheduling Security Tables Routes Crypto Nodes Jobs Settings Tools Artifacts.

#[local] Set Default Proof Using "Type*".

(** What the code reads of the types of the oci-client crate. *)
Module Oci.
Record Descriptor := { media_type : string; digest : string; size : Z }.

(** [rest] is what the code only passes on. *)
Record ImageManifest := { m_media_type : option string; config : Descriptor; layers : list Descriptor; rest : string }.

Record IndexEntry := { e_digest : string; platform : option (string * string) }.
Inductive Manifest := Image (m : ImageManifest) | ImageIndex (entries : list IndexEntry).

Record Reference := {
  resolve_registry : string;
  repository : string;
  tag : option string;
  ref_digest : option string
}.
End Oci.

Module Images.
Import Oci.
Abbreviation Uuid := N.

Record PulledManifest := {
  manifest : ImageManifest;
  pulled_digest : string;
  config_json : bytes;
  pulled_index_digest : option string
}.

(** [SourceRegistryAdapter]: a client for a platform, a reference and its
    authentication. *)
Record Direct := { d_reference : Reference; d_auth : Tools.RegistryAuth; d_os : string; d_arch : string }.

Inductive ImageSource := FromRegistry (s : Direct) | FromNode (v : NodeView).

Record ResolvedImage := { pulled : PulledManifest; source : ImageSource }.

Record PreparedImage := {
  p_manifest : ImageManifest;
  p_config_json : bytes;
  p_layout : Artifacts.Path;
  layer_paths : list Artifacts.Path
}.

(** What is sent to a destination registry. *)
Inductive DestOp :=
| Authenticate (auth : Tools.RegistryAuth)
| BlobExists (digest : string)
| PushBlob (digest : string) (content : bytes)
| PushManifest (m : ImageManifest).

(** An operation at a destination, with the job that made it and its answer. *)
Record Event := { ev_job : Uuid; ev_ref : Reference; ev_op : DestOp; ev_answer : result bool string }.

Record World := {
  base : Tools.World;
  files : Artifacts.Store;
  service : Nodes.NodeService;
  runtime : Settings.ImageToolsRuntimeConfig;
  last_cleanup : Z;
  calls : nat;
  sent : list Event
}.

Definition with_base (w : World) (b : Tools.World) : World :=
  {| base := b; files := files w; service := service w; runtime := runtime w; last_cleanup := last_cleanup w; calls := calls w; sent := sent w |}.
Definition with_files (w : World) (s : Artifacts.Store) : World :=
  {| base := base w; files := s; service := service w; runtime := runtime w; last_cleanup := last_cleanup w; calls := calls w; sent := sent w |}.
Definition with_service (w : World) (s : Nodes.NodeService) : World :=
  {| base := base w; files := files w; service := s; runtime := runtime w; last_cleanup := last_cleanup w; calls := calls w; sent := sent w |}.
Definition with_cleanup (w : World) (t : Z) : World :=
  {| base := base w; files := files w; service := service w; runtime := runtime w; last_cleanup := t; calls := calls w; sent := sent w |}.
Definition called (w : World) : World :=
  {| base := base w; files := files w; service := service w; runtime := runtime w; last_cleanup := last_cleanup w; calls := S (calls w); sent := sent w |}.
Definition with_sent (w : World) (e : Event) : World :=
  {| base := base w; files := files w; service := service w; runtime := runtime w; last_cleanup := last_cleanup w; calls := calls w; sent := sent w ++ [e] |}.

Definition queue (w : World) : JobsWorld := Tools.queue (base w).
Definition with_queue (w : World) (q : JobsWorld) : World := with_base w (Tools.with_queue (base w) q).
Definition instant (w : World) : Z := clock (queue w).

Abbreviation prog A := (program World (option (ApiResult A))).

Definition on_jobs {A} (p : program JobsWorld (ApiResult A)) : prog A := lifted (zoom queue with_queue p).
Definition on_tools {A} (p : program Tools.World (ApiResult A)) : prog A := lifted (zoom base with_base p).
Definition on_files {A} (p : program Artifacts.Store A) : program World A := zoom files with_files p.

Definition image_size (m : ImageManifest) : Z :=
  foldl (fun total layer => saturating_add total (Z.max 0 (size layer))) (Z.max 0 (size (config m))) (layers m).

Definition manifest_accept : string :=
  "application/vnd.oci.image.index.v1+json, application/vnd.oci.image.manifest.v1+json, application/vnd.docker.distribution.manifest.list.v2+json, application/vnd.docker.distribution.manifest.v2+json".

Definition digest_header (h : HeaderMap) : option string := header_str h "docker-content-digest".

Definition safe_byte (c : ascii) : ascii :=
  if is_ascii_alphanumeric c || char_in c ".-_" then c else "_"%char.

(** [chars()]: a character that is not ASCII becomes one underscore. *)
Fixpoint safe_stem (s : string) : string :=
  match s with
  | EmptyString => EmptyString
  | String c r => if between 128 191 c then safe_stem r else String (safe_byte c) (safe_stem r)
  end.

Definition safe_artifact_name (reference format : string) : string := safe_stem reference +:+ "." +:+ format +:+ ".tar".

Section Pipelines.
Variable worker : Uuid.
Variable io : nat -> option string.
Variable patience : nat.
Variable sha256_hex : bytes -> string.
Variable utf8 : bytes -> bool.
Variable parse_reference : string -> option Reference.
Variable parse_manifest : bytes -> result Manifest string.
Variable manifest_json : ImageManifest -> bytes.
Variable index_json : string -> string -> Z -> bytes.
Variable status_text : Z -> string.
(** The nodes: a lease or the error instead of one, and the answer to a request. *)
Variable node_lease : nat -> ApiResult unit.
Variable send : nat -> NodeView -> Method -> string -> HeaderMap -> RangeMode -> ApiResult Response.
Variable ln_1p : f64 -> f64.
Variable policy : Scheduling.SchedulerPolicy.
Variable parse_authority : string -> option (string * option Z).
(** The OCI client. *)
Variable oci_manifest : nat -> Direct -> result (ImageManifest * string * option string) string.
Variable oci_blob : nat -> Direct -> Descriptor -> result (list frame) string.
Variable oci_dest : nat -> Reference -> DestOp -> result bool string.
(** Credentials. *)
Context {Url : Type} (api : UrlApi Url) (url_port : Url -> option Z).
Context {Key : Type} (prims : Crypto.Primitives Key) (cipher : option Key).
(** Archives and root file systems. *)
Variable docker_tar : bytes -> string -> list (bytes * string) -> ApiResult bytes.
Variable oci_tar : list (Artifacts.Path * Artifacts.entry) -> ApiResult bytes.
Variable render : list (Artifacts.Path * Artifacts.entry) -> ApiResult (list (Artifacts.Path * Artifacts.entry)).

Definition oci_error (message : string) : AppError := Upstream (take_chars 500 message).

Definition verified_digest (b : bytes) (header expected : option string) : ApiResult string :=
  let computed := "sha256:" +:+ sha256_hex b in
  if is_some_and header (fun d => negb (d =?s computed)) || is_some_and expected (fun d => negb (d =?s computed))
  then Err Integrity else Ok computed.

(** A call to the outside: its answer is given by its number. *)
Definition call {A} (f : nat -> A) : program World A := Act (fun w => (f (calls w), called w)) Ret.

(** ** Reading from a node *)

(** The receive loop of [node_bytes_once]. *)
Fixpoint read_limited (frames : list frame) (limit : Z) (body : bytes) : ApiResult bytes :=
  match frames with
  | [] => Ok body
  | Fault message :: _ => Err (Upstream message)
  | Data b :: rest =>
      if limit <? saturating_add (blen body) (blen b)
      then Err (Upstream "source Registry response exceeds the allowed size")
      else read_limited rest limit (body ++ b)
  end.

Definition node_bytes_once (v : NodeView) (path accept : string) (limit : Z) : prog (HeaderMap * bytes) :=
  do! _ := lifted (call node_lease) in
  do! response := lifted (call (fun n => send n v GET path [("accept", accept)] Suppress)) in
  checked
    (if negb (is_success (r_status response))
     then Err (Upstream ("source Registry returned " +:+ status_text (r_status response) +:+ " for " +:+ path))
     else if is_some_and (r_content_length response) (fun n => limit <? n)
     then Err (Upstream "source Registry response exceeds the allowed size")
     else let? body := read_limited (r_body response) limit [] in Ok (r_headers response, body)).

(** Up to [attempts] tries, the last error at the end. *)
Fixpoint retrying {A} (attempts : nat) (p : prog A) : prog A :=
  match attempts with
  | O | 1%nat => p
  | S n => let- r := p in match r with Some (Err _) => retrying n p | r => Ret r end
  end.

Definition node_bytes (v : NodeView) (path accept : string) (limit : Z) : prog (HeaderMap * bytes) :=
  retrying 3 (node_bytes_once v path accept limit).

(** The receive loop of [download_node_blob_once] and of [read_blob]: each chunk is
    written as it comes. *)
Fixpoint write_frames (fault : string -> AppError) (frames : list frame) (expected size : Z) (path : Artifacts.Path) (content : bytes)
    : prog (Z * bytes) :=
  match frames with
  | [] => ok (size, content)
  | Fault message :: _ => failed (fault message)
  | Data b :: rest =>
      let size := saturating_add size (blen b) in
      if expected <? size then failed Integrity
      else
        do! _ := on_files (Artifacts.append io path b) in
        write_frames fault rest expected size path (content ++ b)
  end.

Definition record_transfer (v : NodeView) (bytes started : Z) : program World unit :=
  Act (fun w => (tt, with_service w (unwrap_or
    (Nodes.record_transfer (service w) (node_id v) (instant w) bytes (Z.max 0 (instant w - started)) true) (service w)))) Ret.

Definition download_node_blob_once (v : NodeView) (repository : string) (d : Descriptor) (path : Artifacts.Path) : prog unit :=
  do! _ := lifted (call node_lease) in
  let url := "/v2/" +:+ repository +:+ "/blobs/" +:+ digest d in
  do! response := lifted (call (fun n => send n v GET url [] Suppress)) in
  if negb (is_success (r_status response))
  then failed (Upstream ("source Registry returned " +:+ status_text (r_status response) +:+ " for Blob " +:+ digest d))
  else
    let- started := read instant in
    do! _ := on_files (Artifacts.write_file io path []) in
    do! (total, content) := write_frames Upstream (r_body response) (Z.max 0 (size d)) 0 path [] in
    if negb (total =? Z.max 0 (size d)) || negb (("sha256:" +:+ sha256_hex content) =?s digest d) then failed Integrity
    else
      let- _ := record_transfer v total started in
      ok tt.

Definition download_node_blob (v : NodeView) (repository : string) (d : Descriptor) (path : Artifacts.Path) : prog unit :=
  retrying 3 (download_node_blob_once v repository d path).

(** ** Resolving an image *)

Definition platform_entry (os arch : string) (e : IndexEntry) : bool :=
  is_some_and (platform e) (fun '(o, a) => (o =?s os) && (a =?s arch)).

Definition source_mismatch : AppError := BadRequest "selected image source does not match its Registry route".

Definition parsed_manifest (what : string) (b : bytes) : ApiResult Manifest :=
  match parse_manifest b with Ok m => Ok m | Err e => Err (Upstream (what +:+ e)) end.

(** The manifest for the platform: the one at the reference, or the one its index
    names. *)
Definition platform_manifest (v : NodeView) (job : JobInput) (repository : string) (top : Manifest) (top_digest : string)
    : prog (ImageManifest * string * option string) :=
  match top with
  | Image m => ok (m, top_digest, None)
  | ImageIndex entries =>
      match List.find (platform_entry (platform_os job) (platform_arch job)) entries with
      | None => failed (BadRequest "requested platform is absent from image index")
      | Some e =>
          do! (headers, b) := node_bytes v ("/v2/" +:+ repository +:+ "/manifests/" +:+ e_digest e) manifest_accept (16 * 1024 * 1024) in
          match (let? d := verified_digest b (digest_header headers) (Some (e_digest e)) in
                 let? m := parsed_manifest "invalid platform manifest: " b in Ok (d, m)) with
          | Err e => failed e
          | Ok (_, ImageIndex _) => failed (Upstream "nested image indexes are not supported")
          | Ok (d, Image m) => ok (m, d, Some top_digest)
          end
      end
  end.

Definition config_limit (m : ImageManifest) : Z := Z.min (saturating_add (Z.max 0 (size (config m))) 1) (64 * 1024 * 1024).

Definition node_config (v : NodeView) (repository : string) (m : ImageManifest) : prog bytes :=
  do! (_, b) := node_bytes v ("/v2/" +:+ repository +:+ "/blobs/" +:+ digest (config m)) "application/octet-stream" (config_limit m) in
  checked (let? _ := verified_digest b None (Some (digest (config m))) in
           if negb (blen b =? size (config m)) then Err Integrity
           else if utf8 b then Ok b else Err (Upstream "image config is not UTF-8 JSON")).

Definition registry_node (i : Uuid) : prog NodeView :=
  Act (fun w => let (r, s) := Nodes.registry_node ln_1p policy (service w) i (instant w) in (Some r, with_service w s)) Ret.

Definition resolve_image_via_node (job : JobInput) (logical : Reference) (node_id : Uuid) : prog ResolvedImage :=
  do! v := registry_node node_id in
  match (let? a := Routes.normalize_registry_authority parse_authority (resolve_registry logical) in
         let? b := Routes.normalize_registry_authority parse_authority (RouteSummary.canonical_registry (route v)) in
         if negb (a =?s b) then Err source_mismatch else Ok tt) with
  | Err e => failed e
  | Ok _ =>
      let reference := unwrap_or (match ref_digest logical with Some d => Some d | None => tag logical end) "latest" in
      do! (headers, b) := node_bytes v ("/v2/" +:+ repository logical +:+ "/manifests/" +:+ reference) manifest_accept (16 * 1024 * 1024) in
      match (let? d := verified_digest b (digest_header headers) (ref_digest logical) in
             let? m := parsed_manifest "invalid image manifest: " b in Ok (d, m)) with
      | Err e => failed e
      | Ok (top_digest, top) =>
          do! (m, d, index) := platform_manifest v job (repository logical) top top_digest in
          do! c := node_config v (repository logical) m in
          ok {| pulled := {| manifest := m; pulled_digest := d; config_json := c; pulled_index_digest := index |}; source := FromNode v |}
      end
  end.

(** [SourceRegistryAdapter::read_blob] into memory. *)
Fixpoint read_frames (frames : list frame) (expected size : Z) (content : bytes) : ApiResult bytes :=
  match frames with
  | [] => if negb (size =? expected) then Err Integrity else Ok content
  | Fault message :: _ => Err (oci_error message)
  | Data b :: rest =>
      let size := saturating_add size (blen b) in
      if expected <? size then Err Integrity else read_frames rest expected size (content ++ b)
  end.

Definition blob_stream (s : Direct) (d : Descriptor) : prog (list frame) :=
  if size d <? 0 then failed Integrity
  else
    let- r := call (fun n => oci_blob n s d) in
    checked (match r with Ok l => Ok l | Err e => Err (oci_error e) end).

Definition pull_manifest (s : Direct) : prog PulledManifest :=
  let- r := call (fun n => oci_manifest n s) in
  match r with
  | Err e => failed (oci_error e)
  | Ok (m, d, index) =>
      if (size (config m) <? 0) || (64 * 1024 * 1024 <? size (config m)) then failed (Upstream "image config exceeds 64 MiB")
      else
        do! frames := blob_stream s (config m) in
        checked (let? c := read_frames frames (size (config m)) 0 [] in
                 if utf8 c then Ok {| manifest := m; pulled_digest := d; config_json := c; pulled_index_digest := index |}
                 else Err (Upstream "image config is not UTF-8 JSON"))
  end.

Definition credential_auth (i : Uuid) (registry : string) : prog Tools.RegistryAuth :=
  on_tools (Tools.credential_auth api url_port prims cipher i registry).

Definition source_transport (logical : Reference) (job : JobInput) : prog Tools.RegistryAuth :=
  match source_credential_id job with
  | Some i => credential_auth i (resolve_registry logical)
  | None => ok Tools.Anonymous
  end.

Definition resolve_image (job : JobInput) : prog ResolvedImage :=
  match parse_reference (source_ref job) with
  | None => failed (BadRequest "invalid source image reference")
  | Some logical =>
      match source_node_id job with
      | Some i => resolve_image_via_node job logical i
      | None =>
          do! auth := source_transport logical job in
          let s := {| d_reference := logical; d_auth := auth; d_os := platform_os job; d_arch := platform_arch job |} in
          do! p := pull_manifest s in
          ok {| pulled := p; source := FromRegistry s |}
      end
  end.

(** ** Blobs in the store *)

(** [SourceRegistryAdapter::pull_blob]. *)
Definition pull_blob (s : Direct) (d : Descriptor) (path : Artifacts.Path) : prog unit :=
  do! frames := blob_stream s d in
  do! (total, _) := write_frames oci_error frames (size d) 0 path [] in
  if negb (total =? size d) then failed Integrity else ok tt.

Definition pull_source_blob (src : ImageSource) (job : JobInput) (d : Descriptor) (path : Artifacts.Path) : prog unit :=
  match src with
  | FromRegistry s =>
      do! _ := on_files (Artifacts.write_file io path []) in
      pull_blob s d path
  | FromNode v =>
      match parse_reference (source_ref job) with
      | None => failed (BadRequest "invalid source image reference")
      | Some logical => download_node_blob v (repository logical) d path
      end
  end.

Definition begin_blob_write (i : Uuid) (digest : string) : prog Artifacts.Guard :=
  on_files (Artifacts.begin_blob_write io patience worker i digest).
Definition drop_guard (g : Artifacts.Guard) : program World unit := on_files (Artifacts.drop_guard io g).
Definition commit (g : Artifacts.Guard) : prog Artifacts.Path := on_files (Artifacts.commit io g).

(** The rest of a function that holds a guard: an error drops it. *)
Definition holding {A B} (g : Artifacts.Guard) (p : prog A) (k : A -> prog B) : prog B :=
  let- r := p in
  match r with
  | Some (Ok a) => k a
  | Some (Err e) => let- _ := drop_guard g in failed e
  | None => Ret None
  end.

Definition set_progress (i : Uuid) (stage : string) (current total : Z) : prog unit := on_jobs (update_progress worker i stage current total).
Definition set_stage (i : Uuid) (stage : string) : prog unit := on_jobs (update_stage worker i stage).
Definition check_cancelled (i : Uuid) : prog unit := on_jobs (Jobs.check_cancelled worker i).
Definition max_export_bytes : program World Z := read (fun w => Settings.ir_max_export_bytes (runtime w)).

(** One layer of [prepare_resolved_image]. *)
Definition prepare_layer (i : Uuid) (job : JobInput) (src : ImageSource) (d : Descriptor) : prog Artifacts.Path :=
  do! _ := check_cancelled i in
  match (let? p := Artifacts.blob_path i (digest d) in let? s := Artifacts.shared_blob_path (digest d) in Ok (p, s)) with
  | Err e => failed e
  | Ok (path, shared) =>
      do! present := on_files (Artifacts.attempt (Artifacts.stat io shared)) in
      do! _ := (if present : bool then ok tt
                else
                  do! g := begin_blob_write i (digest d) in
                  holding g (pull_source_blob src job d (Artifacts.temporary g)) (fun _ =>
                    do! _ := commit g in ok tt)) in
      do! _ := on_files (Artifacts.link_or_copy io shared path) in
      ok path
  end.

Fixpoint prepare_layers (i : Uuid) (job : JobInput) (src : ImageSource) (l : list Descriptor) (downloaded total : Z) : prog (list Artifacts.Path) :=
  match l with
  | [] => ok []
  | d :: l =>
      do! path := prepare_layer i job src d in
      let downloaded := saturating_add downloaded (Z.max 0 (size d)) in
      do! _ := set_progress i "downloading" downloaded total in
      do! paths := prepare_layers i job src l downloaded total in
      ok (path :: paths)
  end.

Definition quoted (s : string) : string := chr 34 +:+ s +:+ chr 34.
Definition oci_layout_json : bytes :=
  String.list_byte_of_string ("{" +:+ quoted "imageLayoutVersion" +:+ ":" +:+ quoted "1.0.0" +:+ "}").

Definition write_layout (i : Uuid) (m : ImageManifest) : prog unit :=
  let b := manifest_json m in
  let d := "sha256:" +:+ sha256_hex b in
  match Artifacts.sha256_value d with
  | Err e => failed e
  | Ok v =>
      do! _ := on_files (Artifacts.atomic_write io (Artifacts.layout i ++ ["blobs"; "sha256"]) v b) in
      do! _ := on_files (Artifacts.atomic_write io (Artifacts.layout i) "index.json"
                 (index_json (unwrap_or (m_media_type m) "application/vnd.oci.image.manifest.v1+json") d (blen b))) in
      on_files (Artifacts.atomic_write io (Artifacts.layout i) "oci-layout" oci_layout_json)
  end.

Definition prepare_resolved_image (i : Uuid) (job : JobInput) (r : ResolvedImage) : prog PreparedImage :=
  let m := manifest (pulled r) in
  let c := config_json (pulled r) in
  let total := image_size m in
  let- limit := max_export_bytes in
  if limit <? total then failed (BadRequest "image exceeds DONKEY_MAX_EXPORT_BYTES")
  else
    match (let? p := Artifacts.blob_path i (digest (config m)) in let? s := Artifacts.shared_blob_path (digest (config m)) in Ok (p, s)) with
    | Err e => failed e
    | Ok (config_path, shared_config) =>
        do! present := on_files (Artifacts.attempt (Artifacts.stat io shared_config)) in
        do! _ := (if present : bool then ok tt
                  else do! _ := on_files (Artifacts.write_blob_bytes io patience worker i (digest (config m)) c) in ok tt) in
        do! _ := on_files (Artifacts.link_or_copy io shared_config config_path) in
        do! _ := set_progress i "downloading" 0 total in
        do! paths := prepare_layers i job (source r) (layers m) (Z.max 0 (size (config m))) total in
        do! _ := write_layout i m in
        ok {| p_manifest := m; p_config_json := c; p_layout := Artifacts.layout i; layer_paths := paths |}
    end.

(** ** Export and extraction *)

Definition file_bytes (d : Artifacts.Disk) (p : Artifacts.Path) : bytes :=
  match d !! p with Some (Artifacts.Regular b) => b | _ => [] end.
Definition tree (d : Artifacts.Disk) (dir : Artifacts.Path) : list (Artifacts.Path * Artifacts.entry) :=
  List.filter (fun f : Artifacts.Path * Artifacts.entry => Artifacts.below dir f.1) (map_to_list d).

(** [build_archive]: the archive is made of the files as they are and written at
    once. *)
Definition build_archive (format reference : string) (image : PreparedImage) (output : Artifacts.Path) : prog unit :=
  on_files (Artifacts.on_disk io (fun d =>
    let content :=
      if format =?s "docker"
      then docker_tar (p_config_json image) reference
             (zip (file_bytes d <$> layer_paths image) (media_type <$> layers (p_manifest image)))
      else oci_tar (tree d (p_layout image)) in
    match content with Ok b => (Ok tt, <[output := Artifacts.Regular b]> d) | Err e => (Err e, d) end)).

(** A step under the job's lock, which is released at its end. *)
Definition under_lock {A} (i : Uuid) (p : prog A) : prog A :=
  do! _ := on_files (Artifacts.lock_job io patience worker i) in
  let- r := p in
  match r with
  | Some r => let- _ := on_files (Artifacts.unlock_job worker i) in Ret (Some r)
  | None => Ret None
  end.

(** The path of an artifact as the table stores it. *)
Definition path_string (p : Artifacts.Path) : string := "image-tools/" +:+ String.concat "/" p.

Definition export_image (i : Uuid) (job : JobInput) (image : PreparedImage) : prog unit :=
  do! _ := set_stage i "archiving" in
  let format := unwrap_or (output_format job) "docker" in
  if negb ((format =?s "docker") || (format =?s "oci")) then failed (BadRequest "output format must be docker or oci")
  else
    let name := safe_artifact_name (source_ref job) format in
    let output := Artifacts.job_root i ++ [name] in
    do! _ := under_lock i (build_archive format (source_ref job) image output) in
    on_jobs (update_artifact worker i (path_string output) name).

(** The root file system replaces an older one. *)
Definition rootfs (i : Uuid) : Artifacts.Path := Artifacts.job_root i ++ ["rootfs"].

Definition convert_dir (i : Uuid) (image : PreparedImage) : prog unit :=
  do! _ := on_files (Artifacts.on_disk io (fun d => (Ok tt, Artifacts.remove_dir_all (rootfs i) d))) in
  on_files (Artifacts.on_disk io (fun d =>
    match render (tree d (p_layout image)) with
    | Ok l => (Ok tt, foldl (fun d (f : Artifacts.Path * Artifacts.entry) => <[rootfs i ++ f.1 := f.2]> d) d l)
    | Err e => (Err e, d)
    end)).

Definition extract_image (i : Uuid) (image : PreparedImage) : prog unit :=
  do! _ := set_stage i "extracting" in
  under_lock i (
    do! _ := convert_dir i image in
    on_jobs (update_artifact worker i (path_string (rootfs i)) (uuid_string i +:+ "-rootfs"))).

(** ** Copying to a registry *)

(** One operation at the destination, logged with its outcome. *)
Definition dest (i : Uuid) (r : Reference) (op : DestOp) : prog bool :=
  let- answer := Act (fun w =>
    let answer := oci_dest (calls w) r op in
    (answer, called (with_sent w {| ev_job := i; ev_ref := r; ev_op := op; ev_answer := answer |}))) Ret in
  checked (match answer with Ok b => Ok b | Err e => Err (oci_error e) end).

(** [push_file]: the content of the file when it is opened. *)
Definition push_file (i : Uuid) (r : Reference) (p : Artifacts.Path) (digest : string) : prog unit :=
  do! content := on_files (Artifacts.on_disk io (fun d =>
    (match d !! p with Some (Artifacts.Regular b) => Ok b | _ => Err not_found end, d))) in
  do! _ := dest i r (PushBlob digest content) in
  ok tt.

Definition copy_layer (i : Uuid) (job : JobInput) (src : ImageSource) (r : Reference) (d : Descriptor) : prog unit :=
  do! _ := check_cancelled i in
  do! present := dest i r (BlobExists (digest d)) in
  if present : bool then ok tt
  else
    do! g := begin_blob_write i (digest d) in
    holding g (checked (Artifacts.shared_blob_path (digest d))) (fun shared =>
    holding g (on_files (Artifacts.attempt (Artifacts.stat io shared))) (fun here =>
    holding g (if here : bool then push_file i r shared (digest d)
               else
                 let- limit := max_export_bytes in
                 if limit <? Z.max 0 (size d) then failed (BadRequest "layer exceeds DONKEY_MAX_EXPORT_BYTES")
                 else
                   do! _ := pull_source_blob src job d (Artifacts.temporary g) in
                   do! _ := check_cancelled i in
                   push_file i r (Artifacts.temporary g) (digest d)) (fun _ =>
    let- _ := drop_guard g in ok tt))).

Fixpoint copy_layers (i : Uuid) (job : JobInput) (src : ImageSource) (r : Reference) (l : list Descriptor) (progress total : Z) : prog unit :=
  match l with
  | [] => ok tt
  | d :: l =>
      do! _ := copy_layer i job src r d in
      let progress := saturating_add progress (Z.max 0 (size d)) in
      do! _ := set_progress i "copying" progress total in
      copy_layers i job src r l progress total
  end.

Definition copy_to_registry (i : Uuid) (job : JobInput) (image : ResolvedImage) (r : Reference) (auth : Tools.RegistryAuth) : prog unit :=
  do! _ := dest i r (Authenticate auth) in
  let m := manifest (pulled image) in
  let total := image_size m in
  do! _ := set_progress i "copying" 0 total in
  do! _ := copy_layers i job (source image) r (layers m) 0 total in
  do! _ := check_cancelled i in
  do! present := dest i r (BlobExists (digest (config m))) in
  do! _ := (if present : bool then ok tt
            else do! _ := dest i r (PushBlob (digest (config m)) (config_json (pulled image))) in ok tt) in
  do! _ := check_cancelled i in
  do! _ := dest i r (PushManifest m) in
  set_progress i "copying" total total.

Definition copy_image (i : Uuid) (job : JobInput) (image : ResolvedImage) : prog unit :=
  do! _ := set_stage i "copying" in
  match (let? raw := ok_or (destination_ref job) (BadRequest "copy job has no destination reference") in
         let? r := ok_or (parse_reference raw) (BadRequest "invalid destination image reference") in
         let? c := ok_or (destination_credential_id job) (BadRequest "copy job has no destination credential") in Ok (r, c)) with
  | Err e => failed e
  | Ok (r, c) =>
      do! auth := credential_auth c (resolve_registry r) in
      copy_to_registry i job image r auth
  end.

Definition same_copy (i : Uuid) (job : JobInput) (d : string) (row : Uuid * image_job) : bool :=
  negb (row.1 =? i)%N && (kind (job_input row.2) =?s "copy") && (job_status row.2 =?s "completed") &&
  (source_ref (job_input row.2) =?s source_ref job) &&
  is_some_and (destination_ref job) (fun x => bool_decide (destination_ref (job_input row.2) = Some x)) &&
  bool_decide (resolved_digest row.2 = Some d).

Definition copy_already_completed (i : Uuid) (job : JobInput) (d : string) : prog bool :=
  on_jobs (query (fun db => existsb (same_copy i job d) (map_to_list (jobs db)))).

(** ** The quota of the store *)

Definition remove_job_storage (i : Uuid) : prog unit :=
  do! _ := on_files (Artifacts.remove_job io i) in
  do! _ := on_jobs (exec (update_by_id i (fun _ => true) released_columns)) in
  ok tt.

Definition terminal (j : image_job) : bool :=
  is_status JobStatus.Completed j || is_status JobStatus.Failed j || is_status JobStatus.Cancelled j || is_status JobStatus.Skipped j.

(** [ORDER BY finished_at]: NULL first. *)
Definition finished_order (a b : Uuid * image_job) : comparison :=
  match finished_at a.2, finished_at b.2 with
  | None, None => Eq
  | None, Some _ => Lt
  | Some _, None => Gt
  | Some x, Some y => Z.compare x y
  end.

Definition terminal_jobs (p : image_job -> bool) (d : Db) : list Uuid :=
  fst <$> sort_by finished_order (List.filter (fun r : Uuid * image_job => terminal r.2 && p r.2) (map_to_list (jobs d))).

Definition gc_shared_blobs : prog unit := on_files (Artifacts.gc_shared_blobs io patience worker).
Definition usage : prog Z := on_files (Artifacts.usage io).

Fixpoint remove_expired (protected : option Uuid) (l : list Uuid) : prog unit :=
  match l with
  | [] => ok tt
  | i :: l =>
      do! _ := (if bool_decide (Some i = protected) then ok tt else remove_job_storage i) in
      remove_expired protected l
  end.

(** Oldest first, until the store fits. *)
Fixpoint remove_until (protected : option Uuid) (limit : Z) (l : list Uuid) : prog unit :=
  match l with
  | [] => ok tt
  | i :: l =>
      if bool_decide (Some i = protected) then remove_until protected limit l
      else
        do! _ := remove_job_storage i in
        do! _ := gc_shared_blobs in
        do! used := usage in
        if used <=? limit then ok tt else remove_until protected limit l
  end.

Definition clean (protected : option Uuid) : prog unit :=
  let- r := read runtime in
  let limit := Settings.ir_max_export_bytes r in
  let- now := read instant in
  let cutoff := now - Settings.ir_export_ttl r in
  do! expired := on_jobs (query (terminal_jobs (fun j => is_some_and (finished_at j) (fun t => t <? cutoff)))) in
  do! _ := remove_expired protected expired in
  do! _ := gc_shared_blobs in
  do! used := usage in
  if used <=? limit then ok tt
  else
    do! candidates := on_jobs (query (terminal_jobs (fun _ => true))) in
    remove_until protected limit candidates.

Definition cleanup_storage (protected : option Uuid) : prog unit :=
  if is_some protected then clean protected
  else
    let- due := Act (fun w => if instant w - last_cleanup w <? 60 * 1000000000 then (false, w) else (true, with_cleanup w (instant w))) Ret in
    if due : bool then clean protected else ok tt.

Definition enforce_storage_quota (i : Uuid) : prog unit :=
  do! _ := cleanup_storage (Some i) in
  let- limit := max_export_bytes in
  do! used := usage in
  if used <=? limit then ok tt
  else
    do! _ := remove_job_storage i in
    do! _ := gc_shared_blobs in
    failed (BadRequest "image tools storage exceeds DONKEY_MAX_EXPORT_BYTES").

(** ** The worker *)

Definition process_job (i : Uuid) (job : JobInput) : prog JobOutcome :=
  do! resolved := resolve_image job in
  let p := pulled resolved in
  do! _ := on_jobs (update_manifest worker i (pulled_digest p) (pulled_index_digest p) (image_size (manifest p))) in
  do! _ := check_cancelled i in
  match JobKind.parse (kind job) with
  | Some JobKind.Copy =>
      do! before := copy_already_completed i job (pulled_digest p) in
      if before : bool then ok OutcomeSkipped
      else
        do! _ := copy_image i job resolved in
        do! _ := enforce_storage_quota i in
        ok OutcomeCompleted
  | k =>
      do! prepared := prepare_resolved_image i job resolved in
      do! _ := match k with
               | Some JobKind.Export => export_image i job prepared
               | Some JobKind.Extract => extract_image i prepared
               | _ => failed (BadRequest "unsupported image job kind")
               end in
      do! _ := enforce_storage_quota i in
      ok OutcomeCompleted
  end.

(** How the wait for a job ends: it finishes, the heartbeat loses the lease, or the
    server stops; the last two after some of its actions. *)
Inductive ending := Finishes | LeaseLost (actions : nat) | Stopped (actions : nat).

(** A collection that runs in its blocking task comes to its end. *)
Definition busy (w : World) : bool := bool_decide (Artifacts.collecting (files w) = Some worker).

(** A dropped future drops its guard and its job lock. *)
Definition drop_job (i : Uuid) : program World unit :=
  let- guards := read (fun w => List.filter (fun g => (Artifacts.g_worker g =? worker)%N) (Artifacts.writers (files w))) in
  let- _ := foldr (fun g p => let- _ := drop_guard g in p) (Ret tt) guards in
  on_files (Artifacts.unlock_job worker i).

Definition lost : AppError := Conflict "image job lease was lost".

(** [tokio::select!] around [process_job]: the result to record, if any. *)
Definition supervised (e : ending) (i : Uuid) (job : JobInput) : program World (option (option (ApiResult JobOutcome))) :=
  match e with
  | Finishes => let- r := process_job i job in Ret (Some <$> r)
  | LeaseLost n =>
      let- r := cut busy n (process_job i job) in
      match r with
      | Some r => Ret (Some <$> r)
      | None => let- _ := drop_job i in Ret (Some (Some (Err lost)))
      end
  | Stopped n =>
      let- r := cut busy n (process_job i job) in
      match r with
      | Some r => Ret (Some <$> r)
      | None => let- _ := drop_job i in Ret (Some None)
      end
  end.

Context (reference_ok : string -> bool) (upcoming : string -> string -> Z -> ApiResult Z).

Definition tick (ids : nat -> Uuid) (e : ending) : prog unit :=
  do! _ := cleanup_storage None in
  do! _ := on_jobs (enqueue_due_rules reference_ok upcoming ids) in
  let- now := read instant in
  do! _ := on_jobs (recover_abandoned_jobs now) in
  do! claimed := on_jobs (claim_next worker) in
  match claimed with
  | None => ok tt
  | Some (i, job, attempt) =>
      let- r := supervised e i (job_input job) in
      match r with
      | None => Ret None
      | Some r =>
          let- finished := match r with
                           | Some outcome => on_jobs (finish_job worker i attempt outcome)
                           | None => ok tt
                           end in
          let- _ := zoom queue with_queue (deactivate worker i) in
          Ret finished
      end
  end.

(** ** Inspection *)

Record ImageInspection := {
  i_source_ref : string;
  i_digest : string;
  i_index_digest : option string;
  i_total_bytes : Z;
  i_manifest : ImageManifest;
  i_config : bytes
}.

(** [serde_json]: whether the text is an object, and whether a field of it, if
    present, is a string. *)
Context (json_object : bytes -> option bool) (json_string_field : bytes -> string -> option bool).

Definition parse_inspection_config (raw : bytes) : ApiResult bytes :=
  let? object := ok_or (json_object raw) (Upstream "invalid image config JSON") in
  if negb object || is_some_and (json_string_field raw "os") negb || is_some_and (json_string_field raw "architecture") negb
  then Err (Upstream "invalid image config platform fields") else Ok raw.

Definition inspect_image (ref : string) (node credential : option Uuid) (os arch : string) : prog ImageInspection :=
  let job := {| kind := "extract"; source_ref := ref; source_node_id := node; source_credential_id := credential;
                destination_ref := None; destination_credential_id := None; platform_os := os; platform_arch := arch;
                output_format := None |} in
  match validate_job reference_ok job with
  | Err e => failed e
  | Ok _ =>
      do! resolved := resolve_image job in
      let p := pulled resolved in
      checked (let? c := parse_inspection_config (config_json p) in
               Ok {| i_source_ref := ref; i_digest := pulled_digest p; i_index_digest := pulled_index_digest p;
                     i_total_bytes := image_size (manifest p); i_manifest := manifest p; i_config := c |})
  end.
End Pipelines.
End Images.
