(* ===== verification/ImagesProps.v ===== *)
(** * The pipelines: properties

    Thread [n] is the worker [workers n] on its job [ids n].  Beside any number of other
    threads, a pipeline keeps the invariant of the store (StoreProps.v), so that shared
    blobs always have the content their names promise; a resolved image is verified
    from its digest down to its configuration; a copy delivers every blob before its
    manifest. *)

From stdpp Require Import base gmap sets list strings relations.
From Stdlib Require Import ZArith Lia Ascii Strings.Byte.
From S2P Require Import Prelude F64 Text Errors Model Prog Threads Files Http.
From S2P Require Import Scheduling Security Tables Routes Crypto Nodes Jobs Settings Tools Artifacts StoreProps Images.

#[local] Set Default Proof Using "Type*".

Module ImagesProps.
Import Oci Images StoreProps.

(** ** Programs that leave the store and the log alone *)

Definition still_step (x y : World) : Prop := files y = files x /\ sent y = sent x.
Abbreviation still := (obeys still_step).

Lemma still_read {A} (f : World -> A) : still (read f).
Proof. done. Qed.
Lemma still_call {A} (f : nat -> A) : still (call f).
Proof. done. Qed.
Lemma still_zoom_queue {A} (p : program JobsWorld A) : still (zoom queue with_queue p).
Proof. eapply obeys_zoom; [|apply obeys_any]. by intros v w _. Qed.
Lemma still_on_jobs {A} (p : program JobsWorld (ApiResult A)) : still (on_jobs p).
Proof. apply obeys_bind; [apply still_zoom_queue|done]. Qed.
Lemma still_on_tools {A} (p : program Tools.World (ApiResult A)) : still (on_tools p).
Proof. apply obeys_bind; [|done]. eapply obeys_zoom; [|apply obeys_any]. by intros v w _. Qed.
Lemma still_do {A B} (p : program World (option (ApiResult A))) (k : A -> program World (option (ApiResult B))) :
  still p -> (forall a, still (k a)) -> still (do! a := p in k a).
Proof. intros Hp Hk. apply obeys_bind; [done|]. by intros [[a|e]|]. Qed.
Lemma still_bind {A B} (p : program World A) (k : A -> program World B) : still p -> (forall a, still (k a)) -> still (bind p k).
Proof. apply obeys_bind. Qed.

Create HintDb still.
#[local] Hint Resolve still_read still_call still_on_jobs still_on_tools still_zoom_queue still_do still_bind : still.
#[local] Hint Extern 1 (obeys _ (Ret _)) => exact I : still.
#[local] Hint Extern 1 (obeys _ (checked _)) => exact I : still.
#[local] Hint Extern 1 (obeys _ (ok _)) => exact I : still.
#[local] Hint Extern 1 (obeys _ (failed _)) => exact I : still.

(** What [Ok] results of a program satisfy. *)
Abbreviation returns φ := (yields (fun o => match o with Some (Ok a) => φ a | _ => True end)).

Lemma returns_do {W A B} (p : program W (option (ApiResult A))) (k : A -> program W (option (ApiResult B))) (φ : A -> Prop) (ψ : B -> Prop) :
  returns φ p -> (forall a, φ a -> returns ψ (k a)) -> returns ψ (do! a := p in k a).
Proof. intros Hp Hk. eapply yields_bind; [exact Hp|]. intros [[a|e]|]; simpl; auto. Qed.

Lemma returns_any {W A} (p : program W (option (ApiResult A))) : returns (fun _ => True) p.
Proof. eapply yields_mono; [|apply yields_any]. by intros [[]|]. Qed.

Section Pipelines.
Variable sha256_hex : bytes -> string.
Variable utf8 : bytes -> bool.
Variable parse_reference : string -> option Reference.
Variable parse_manifest : bytes -> result Manifest string.
Variable manifest_json : ImageManifest -> bytes.
Variable index_json : string -> string -> Z -> bytes.
Variable status_text : Z -> string.
Variable node_lease : nat -> ApiResult unit.
Variable send : nat -> NodeView -> Method -> string -> HeaderMap -> RangeMode -> ApiResult Response.
Variable ln_1p : f64 -> f64.
Variable policy : Scheduling.SchedulerPolicy.
Variable parse_authority : string -> option (string * option Z).
Variable oci_manifest : nat -> Direct -> result (ImageManifest * string * option string) string.
Variable oci_blob : nat -> Direct -> Descriptor -> result (list Http.frame) string.
Variable oci_dest : nat -> Reference -> DestOp -> result bool string.
Context {Url : Type} (api : UrlApi Url) (url_port : Url -> option Z).
Context {Key : Type} (prims : Crypto.Primitives Key) (cipher : option Key).

(** The OCI client verifies the blobs it streams: a stream that ends without an error
    has the digest asked for. *)
Definition sdk_verifies : Prop := forall n s d l v,
  oci_blob n s d = Ok l -> Artifacts.sha256_value (digest d) = Ok v -> body_faults l = false -> sha256_hex (body_data l) = v.

(** ** Resolving an image *)

Lemma sha256_value_eq x v : Artifacts.sha256_value ("sha256:" +:+ x) = Ok v -> x = v.
Proof using Type.
  unfold Artifacts.sha256_value. rewrite (proj2 (strip_prefix_Some _ _ x) eq_refl). cbn [ok_or]. destruct (_ && _); [|done]. by intros [= ->].
Qed.

Lemma verified_digest_Ok b header expected d : verified_digest sha256_hex b header expected = Ok d ->
  d = "sha256:" +:+ sha256_hex b /\ (forall h, header = Some h -> h = d) /\ (forall e, expected = Some e -> e = d).
Proof using Type.
  unfold verified_digest. destruct (_ || _) eqn:E; [done|]. intros [= <-]. apply orb_false_iff in E as [E1 E2]. split; [done|].
  split; [intros h ->|intros e ->]; simpl in *; by apply negb_false_iff, str_eqb_eq in E1 || by apply negb_false_iff, str_eqb_eq in E2.
Qed.

Lemma read_frames_Ok l expected : forall size content b, read_frames l expected size content = Ok b ->
  b = content ++ body_data l /\ body_faults l = false.
Proof using Type.
  induction l as [|[x|message] l IH]; intros size content b; simpl.
  - destruct (negb _); [done|]. intros [= <-]. by rewrite app_nil_r.
  - destruct (_ <? _); [done|]. intros H. destruct (IH _ _ _ H) as [-> ->]. by rewrite app_assoc.
  - done.
Qed.

(** Content that has the digest it goes by. *)
Definition verified (dg : string) (b : bytes) : Prop := forall v, Artifacts.sha256_value dg = Ok v -> sha256_hex b = v.

(** The image the bytes of a manifest describe: the manifest itself, or an index whose
    entry for the platform names it. *)
Definition node_verified (job : JobInput) (logical : Reference) (r : ResolvedImage) : Prop :=
  exists top, (forall d, ref_digest logical = Some d -> d = "sha256:" +:+ sha256_hex top) /\
  match pulled_index_digest (pulled r) with
  | None => parse_manifest top = Ok (Image (manifest (pulled r))) /\ pulled_digest (pulled r) = "sha256:" +:+ sha256_hex top
  | Some index => index = "sha256:" +:+ sha256_hex top /\
      exists entries e b, parse_manifest top = Ok (ImageIndex entries) /\ e ∈ entries /\
        platform_entry (platform_os job) (platform_arch job) e = true /\ e_digest e = pulled_digest (pulled r) /\
        pulled_digest (pulled r) = "sha256:" +:+ sha256_hex b /\ parse_manifest b = Ok (Image (manifest (pulled r)))
  end.

Abbreviation resolve := (resolve_image sha256_hex utf8 parse_reference parse_manifest status_text node_lease send ln_1p policy parse_authority
  oci_manifest oci_blob api url_port prims cipher).

Lemma node_config_returns v repository m :
  returns (fun c => digest (config m) = "sha256:" +:+ sha256_hex c /\ blen c = size (config m) /\ utf8 c = true)
    (node_config sha256_hex utf8 status_text node_lease send v repository m).
Proof using Type.
  eapply returns_do; [apply returns_any|]. intros [h b] _. simpl. destruct (verified_digest _ b None _) as [d|] eqn:E; [|done]. simpl.
  destruct (blen b =? _) eqn:Es; [|done]. simpl. destruct (utf8 b) eqn:Eu; [|done].
  apply verified_digest_Ok in E as (-> & _ & E). split; [by apply E|]. split; [by apply Z.eqb_eq|done].
Qed.

Lemma platform_manifest_returns v job repository top top_bytes :
  parse_manifest top_bytes = Ok top ->
  returns (fun '(m, d, index) => match index with
    | None => parse_manifest top_bytes = Ok (Image m) /\ d = "sha256:" +:+ sha256_hex top_bytes
    | Some i => i = "sha256:" +:+ sha256_hex top_bytes /\
        exists entries e b, parse_manifest top_bytes = Ok (ImageIndex entries) /\ e ∈ entries /\
          platform_entry (platform_os job) (platform_arch job) e = true /\ e_digest e = d /\
          d = "sha256:" +:+ sha256_hex b /\ parse_manifest b = Ok (Image m)
    end)
    (platform_manifest sha256_hex parse_manifest status_text node_lease send v job repository top ("sha256:" +:+ sha256_hex top_bytes)).
Proof using Type.
  intros Ht. unfold platform_manifest. destruct top as [m|entries]; [done|].
  destruct (List.find _ entries) as [e|] eqn:Ef; [|done]. apply find_some in Ef as [Hin Hp].
  eapply returns_do; [apply returns_any|]. intros [h b] _.
  destruct (verified_digest _ b _ (Some (e_digest e))) as [d|] eqn:E; [|done]. apply verified_digest_Ok in E as (-> & _ & Ed).
  simpl. unfold parsed_manifest. destruct (parse_manifest b) as [[m|l]|] eqn:Eb; simpl; [|done|done].
  split; [done|]. exists entries, e, b. split; [done|]. split; [by apply list_elem_of_In|]. split; [done|]. split; [by apply Ed|done].
Qed.

Lemma resolve_via_node_returns job logical node :
  returns (fun r => node_verified job logical r /\
      digest (config (manifest (pulled r))) = "sha256:" +:+ sha256_hex (config_json (pulled r)) /\
      blen (config_json (pulled r)) = size (config (manifest (pulled r))))
    (resolve_image_via_node sha256_hex utf8 parse_manifest status_text node_lease send ln_1p policy parse_authority job logical node).
Proof using Type.
  eapply returns_do; [apply returns_any|]. intros v _.
  match goal with |- context [match ?x with Ok _ => _ | Err _ => _ end] => destruct x as [[]|]; [|done] end.
  eapply returns_do; [apply returns_any|]. intros [h top] _.
  destruct (verified_digest _ top _ (ref_digest logical)) as [d|] eqn:E; [|done]. apply verified_digest_Ok in E as (-> & _ & Ed).
  unfold parsed_manifest. destruct (parse_manifest top) as [t|] eqn:Et; [|done]. cbv beta iota.
  eapply returns_do; [by apply platform_manifest_returns|]. intros [[m d] index] Hm.
  eapply returns_do; [apply node_config_returns|]. intros c (Hc & Hs & _). simpl. split; [|done].
  exists top. split; [done|]. exact Hm.
Qed.

Lemma blob_stream_returns s d : returns (fun l => exists n, oci_blob n s d = Ok l) (blob_stream oci_blob s d).
Proof using Type. unfold blob_stream. destruct (_ <? _); [done|]. intros w. simpl. destruct (oci_blob _ _ _) eqn:E; [|done]. eauto. Qed.

Lemma resolve_returns job : sdk_verifies -> returns (fun r => verified (digest (config (manifest (pulled r)))) (config_json (pulled r))) (resolve job).
Proof using Type.
  intros Hsdk. unfold resolve_image. destruct (parse_reference _) as [logical|]; [|done]. destruct (source_node_id job) as [node|].
  - eapply yields_mono; [|apply (resolve_via_node_returns job logical node)]. intros [[r|]|]; [|done|done].
    intros (_ & Hd & _) v. rewrite Hd. apply sha256_value_eq.
  - eapply returns_do; [apply returns_any|]. intros auth _. eapply (returns_do _ _ (fun p => verified (digest (config (manifest p))) (config_json p))); [|done].
    intros w. simpl. destruct (oci_manifest _ _) as [[[m d] index]|]; [|done]. destruct (_ || _); [done|].
    eapply returns_do; [apply blob_stream_returns|]. intros l (n & E). simpl.
    destruct (read_frames l _ 0 []) as [c|] eqn:Er; [|done]. simpl. destruct (utf8 c); [|done].
    apply read_frames_Ok in Er as [-> Hf]. intros v Hv. by eapply Hsdk.
Qed.

(** Resolving leaves the store and the log alone. *)
Lemma still_retrying {A} (p : prog A) : still p -> forall k, still (retrying k p).
Proof using Type. intros Hp k. induction k as [|[|k] IH]; [exact Hp|exact Hp|]. apply obeys_bind; [exact Hp|]. by intros [[]|]. Qed.

Lemma still_lifted_call {A} (f : nat -> ApiResult A) : still (lifted (call f)).
Proof using Type. done. Qed.

Lemma still_node_bytes v path accept limit : still (node_bytes status_text node_lease send v path accept limit).
Proof using Type. apply still_retrying. repeat (apply still_do; [apply still_lifted_call|intros ?]). done. Qed.

Lemma still_platform_manifest v job repository top d : still (platform_manifest sha256_hex parse_manifest status_text node_lease send v job repository top d).
Proof using Type.
  unfold platform_manifest. destruct top as [m|entries]; [done|]. destruct (List.find _ _) as [e|]; [|done].
  apply still_do; [apply still_node_bytes|]. intros [h b]. by destruct (let? d := _ in _) as [[? []]|].
Qed.

Lemma still_via_node job logical node :
  still (resolve_image_via_node sha256_hex utf8 parse_manifest status_text node_lease send ln_1p policy parse_authority job logical node).
Proof using Type.
  apply still_do; [split; [intros w; unfold still_step; by destruct (Nodes.registry_node _ _ _ _ _)|done]|]. intros v.
  match goal with |- context [match ?x with Ok _ => _ | Err _ => _ end] => destruct x as [u|]; [|done] end.
  apply still_do; [apply still_node_bytes|]. intros [h b].
  match goal with |- context [match ?x with Ok _ => _ | Err _ => _ end] => destruct x as [[d top]|]; [|done] end.
  apply still_do; [apply still_platform_manifest|]. intros [[m d'] index].
  apply still_do; [|done]. apply still_do; [apply still_node_bytes|]. by intros [].
Qed.

Lemma still_resolve job : still (resolve job).
Proof using Type.
  unfold resolve_image. destruct (parse_reference _) as [logical|]; [|done]. destruct (source_node_id job) as [node|]; [apply still_via_node|].
  apply still_do; [unfold source_transport; destruct (source_credential_id job); [apply still_on_tools|done]|]. intros auth.
  apply still_do; [|done]. apply obeys_bind; [done|]. intros [[[m d] index]|]; [|done]. destruct (_ || _); [done|].
  apply still_do; [|done]. unfold blob_stream. by destruct (_ <? _).
Qed.

(** C25: A resolved image is verified.  Whatever a node sends, an image that resolves is the
    one its digests say: the bytes of the manifest have the digest that is recorded and,
    if the reference names a digest, the chain from it to the manifest is unbroken, if
    need be through the index's entry for the wanted platform; the configuration has the
    digest and the size the manifest gives. *)
Theorem resolved_image_verified env job logical node w r w' :
  parse_reference (source_ref job) = Some logical -> source_node_id job = Some node ->
  runs env (resolve job) w (Some (Ok r)) w' ->
  node_verified job logical r /\ digest (config (manifest (pulled r))) = "sha256:" +:+ sha256_hex (config_json (pulled r)) /\
  blen (config_json (pulled r)) = size (config (manifest (pulled r))).
Proof using Type.
  intros Hp Hn Hr. unfold resolve_image in Hr. rewrite Hp, Hn in Hr.
  exact (yields_runs env _ _ (resolve_via_node_returns job logical node) w _ w' Hr).
Qed.

(** ** Threads *)

Section Workers.
Variable io : nat -> option string.
Variable patience : nat.
Variable docker_tar : bytes -> string -> list (bytes * string) -> ApiResult bytes.
Variable oci_tar : list (Artifacts.Path * Artifacts.entry) -> ApiResult bytes.
Variable render : list (Artifacts.Path * Artifacts.entry) -> ApiResult (list (Artifacts.Path * Artifacts.entry)).
Context {Thread : Type} (workers ids : Thread -> Uuid).
Context (Hworkers : Inj eq eq workers) (Hids : forall m n, uuid_string (ids m) = uuid_string (ids n) -> m = n).

Abbreviation frame := (StoreProps.frame sha256_hex workers ids).
Abbreviation guarantee := (StoreProps.guarantee sha256_hex workers ids).
Abbreviation stable := (StoreProps.stable sha256_hex workers ids).
Abbreviation idle := (StoreProps.idle sha256_hex workers ids).
Abbreviation held := (StoreProps.held sha256_hex workers ids).
Abbreviation filled := (StoreProps.filled sha256_hex workers ids).
Abbreviation triple := (StoreProps.triple sha256_hex workers ids True).

(** What a thread's job sent. *)
Definition own_log (n : Thread) (w : World) : list Event := List.filter (fun e => (ev_job e =? ids n)%N) (sent w).

Definition wframe (n : Thread) (x y : World) : Prop := frame n (files x) (files y) /\ own_log n y = own_log n x.

(** A blob is at a registry: it was there, or was pushed. *)
Definition delivered (r : Reference) (dg : string) (l : list Event) : Prop :=
  exists e, e ∈ l /\ ev_ref e = r /\
    (ev_op e = BlobExists dg /\ ev_answer e = Ok true \/ exists b, ev_op e = PushBlob dg b /\ is_ok (ev_answer e) = true).

(** What may be sent after a log: verified blobs, and manifests whose blobs are there. *)
Definition event_ok (l : list Event) (e : Event) : Prop :=
  match ev_op e with
  | PushBlob dg b => verified dg b
  | PushManifest m => forall d, d ∈ config m :: layers m -> delivered (ev_ref e) (digest d) l
  | _ => True
  end.

Definition sound (l : list Event) : Prop := forall l1 e l2, l = l1 ++ e :: l2 -> event_ok l1 e.

Lemma sound_snoc l e : sound l -> event_ok l e -> sound (l ++ [e]).
Proof using Type.
  intros Hl He l1 e' l2 E. destruct l2 as [|x l2] using rev_ind.
  - apply app_inj_tail in E as [-> ->]. done.
  - rewrite app_comm_cons, app_assoc in E. apply app_inj_tail in E as [-> _]. by eapply Hl.
Qed.

Lemma delivered_snoc r dg l e : delivered r dg l -> delivered r dg (l ++ [e]).
Proof using Type. intros (x & Hx & H). exists x. split; [|done]. apply elem_of_app. by left. Qed.

Definition wguarantee (n : Thread) (x y : World) : Prop :=
  guarantee n (files x) (files y) /\ (forall m, m <> n -> own_log m y = own_log m x) /\ (sound (own_log n x) -> sound (own_log n y)).

(** The thread's part of the world. *)
Definition stands (n : Thread) (S : Artifacts.Store -> Prop) (L : list Event -> Prop) (w : World) : Prop :=
  S (files w) /\ sound (own_log n w) /\ L (own_log n w).

Definition wtriple {A} (n : Thread) (P : World -> Prop) (p : prog A) (Q : ApiResult A -> World -> Prop) : Prop :=
  forall w, P w -> secured (wframe n) (wguarantee n) p (fun o w => match o with Some r => Q r w | None => sound (own_log n w) end) w.

Definition wstable (n : Thread) (P : World -> Prop) : Prop := forall x y, wframe n x y -> P x -> P y.

Lemma stands_stable n S L : stable n S -> wstable n (stands n S L).
Proof using Type. intros HS x y [H1 H2] (H & Hs & HL). split; [by eapply HS|]. by rewrite H2. Qed.

Lemma sound_stable n : wstable n (fun w => sound (own_log n w)).
Proof using Type. intros x y [_ H]. by rewrite H. Qed.

Lemma wt_ret {A} n P (r : ApiResult A) (Q : ApiResult A -> World -> Prop) : wstable n (Q r) -> (forall w, P w -> Q r w) -> wtriple n P (Ret (Some r)) Q.
Proof using Type. intros HQ H w Hw. apply secured_ret; [done|]. by apply H. Qed.

Lemma wt_bind {A B} n P (p : prog A) Q (k : option (ApiResult A) -> prog B) Q' :
  wtriple n P p Q -> (forall r, wtriple n (Q r) (k (Some r)) Q') -> k None = Ret None -> wtriple n P (bind p k) Q'.
Proof using Type.
  intros Hp Hk Hn w Hw. eapply secured_seq; [by apply Hp|]. intros [r|] w' Hw'; [by apply Hk|]. rewrite Hn.
  apply secured_ret; [apply sound_stable|done].
Qed.

Lemma wt_do {A B} n P (p : prog A) Q (k : A -> prog B) Q' :
  wtriple n P p Q -> (forall a, wtriple n (Q (Ok a)) (k a) Q') -> (forall e, wstable n (Q' (Err e))) ->
  (forall e w, Q (Err e) w -> Q' (Err e) w) -> wtriple n P (do! a := p in k a) Q'.
Proof using Type.
  intros Hp Hk Hs He. eapply wt_bind; [exact Hp| |done]. intros [a|e]; [apply Hk|]. apply wt_ret; [done|apply He].
Qed.

Lemma wt_mono {A} n (P P' : World -> Prop) (p : prog A) Q Q' :
  (forall w, P' w -> P w) -> (forall r w, Q r w -> Q' r w) -> wtriple n P p Q -> wtriple n P' p Q'.
Proof using Type. intros HP HQ H w Hw. eapply secured_mono; [|apply H, HP, Hw]. intros [r|] w'; [apply HQ|done]. Qed.

(** A fact the state of the store carries. *)
Lemma wt_pure {A} n (S S' : Artifacts.Store -> Prop) (φ : Prop) L (p : prog A) Q : (forall s, S' s -> S s /\ φ) ->
  (φ -> wtriple n (stands n S L) p Q) -> wtriple n (stands n S' L) p Q.
Proof using Type. intros HS Hp w (Hw & HL). destruct (HS _ Hw) as [H1 H2]. by apply (Hp H2). Qed.

(** A part of the program that works on the store. *)
Lemma wt_files {A} n S (p : program Artifacts.Store (option (ApiResult A))) Q L :
  triple n S p Q -> wtriple n (stands n S L) (on_files p) (fun r => stands n (Q r) L).
Proof using Type.
  intros Hp w (HS & HL). eapply secured_mono; [|eapply (secured_zoom (frame n) (guarantee n) _ _ files with_files (fun w => sound (own_log n w) /\ L (own_log n w)) p
      (fun o s => match o with Some r => Q r s | None => True end))].
  - intros [r|] w' [Hq [H1 H2]]; [by split|done].
  - done.
  - intros x y [H _]. by apply rtc_once.
  - intros v s Hg. by split.
  - intros x y [_ H]. by rewrite H.
  - done.
  - done.
  - by apply Hp.
Qed.

(** A part that leaves the store and the log alone. *)
Lemma wt_still {A} n S (p : prog A) φ L : stable n S -> still p -> returns φ p ->
  wtriple n (stands n S L) p (fun r w => stands n S L w /\ match r with Ok a => φ a | Err _ => True end).
Proof using Type.
  intros HS Hp Hr w Hw. eapply secured_mono; [|eapply (obeys_yields_secured _ (wguarantee n) (stands n S L) still_step p
      (fun o => match o with Some (Ok a) => φ a | _ => True end))].
  - intros [[a|e]|] w' [Hy Hw']; [by split|by split|apply Hw'].
  - by apply stands_stable.
  - intros x y [H1 H2] Hx. unfold stands, wguarantee, own_log. rewrite H1, H2. split; [exact Hx|]. split; [apply guarantee_refl|done].
  - exact Hp.
  - exact Hr.
  - exact Hw.
Qed.

(** Programs that keep a thread's state of the store and the log. *)
Definition keeps {A} (n : Thread) (S : Artifacts.Store -> Prop) (φ : A -> Prop) (p : prog A) : Prop :=
  forall L, wtriple n (stands n S L) p (fun r w => stands n S L w /\ match r with Ok a => φ a | Err _ => True end).
Abbreviation settled n := (keeps n (idle n) (fun _ => True)).

Lemma keeps_stable n S L (φ : Prop) : stable n S -> wstable n (fun w => stands n S L w /\ φ).
Proof using Type. intros HS x y H [Hx ?]. split; [|done]. by eapply stands_stable. Qed.

Lemma keeps_ret {A} n S φ (r : ApiResult A) : stable n S -> (forall a, r = Ok a -> φ a) -> keeps n S φ (Ret (Some r)).
Proof using Type. intros HS Hr L. apply wt_ret; [by apply keeps_stable|]. intros w Hw. split; [done|]. destruct r; auto. Qed.

Lemma keeps_do {A B} n S φ ψ (p : prog A) (k : A -> prog B) : stable n S -> keeps n S φ p -> (forall a, φ a -> keeps n S ψ (k a)) ->
  keeps n S ψ (do! a := p in k a).
Proof using Type.
  intros HS Hp Hk L. eapply wt_do; [apply Hp| |by intros e; apply keeps_stable|by intros e w []].
  intros a w [Hw Ha]. by apply (Hk a Ha L).
Qed.

Lemma wt_step {A B} n S (p : program World A) (k : A -> prog B) L Q : stable n S -> still p -> (forall a, wtriple n (stands n S L) (k a) Q) ->
  wtriple n (stands n S L) (bind p k) Q.
Proof using Type.
  intros HS Hp Hk w Hw. eapply secured_seq; [eapply (obeys_yields_secured _ (wguarantee n) (stands n S L) still_step p (fun _ => True))|].
  - by apply stands_stable.
  - intros x y [H1 H2] Hx. unfold stands, wguarantee, own_log. rewrite H1, H2. split; [exact Hx|]. split; [apply guarantee_refl|done].
  - exact Hp.
  - apply yields_any.
  - exact Hw.
  - intros a w' [_ Hw']. by apply Hk.
Qed.

Lemma keeps_bind {A B} n S (p : program World A) (k : A -> prog B) φ : stable n S -> still p -> (forall a, keeps n S φ (k a)) ->
  keeps n S φ (bind p k).
Proof using Type. intros HS Hp Hk L. apply wt_step; [done|done|]. intros a. apply Hk. Qed.

Lemma keeps_still {A} n S φ (p : prog A) : stable n S -> still p -> returns φ p -> keeps n S φ p.
Proof using Type. intros HS Hp Hr L. by apply wt_still. Qed.

Lemma keeps_any {A} n S (p : prog A) : stable n S -> still p -> keeps n S (fun _ => True) p.
Proof using Type. intros HS Hp. apply keeps_still; [done|done|]. eapply yields_mono; [|apply yields_any]. by intros [[]|]. Qed.

Lemma keeps_files {A} n S (p : program Artifacts.Store (option (ApiResult A))) : triple n S p (fun _ => S) -> keeps n S (fun _ => True) (on_files p).
Proof using Type. intros Hp L. eapply wt_mono; [done| |by apply wt_files]. intros r w Hw. split; [exact Hw|by destruct r]. Qed.

Lemma keeps_weaken {A} n S φ (p : prog A) : keeps n S φ p -> keeps n S (fun _ => True) p.
Proof using Type. intros Hp L. eapply wt_mono; [done| |apply Hp]. intros r w [Hw _]. split; [exact Hw|by destruct r]. Qed.

(** ** Blobs in partial files *)

(** The partial file of a guard holds the blob. *)
Definition good (n : Thread) (g : Artifacts.Guard) (s : Artifacts.Store) : Prop := exists b, filled n g b s /\ sha256_hex b = Artifacts.g_value g.

Lemma good_stable n g : stable n (good n g).
Proof using Type. intros x y H (b & Hb & E). exists b. split; [|done]. by eapply filled_stable. Qed.

Definition fetched {A} (n : Thread) (g : Artifacts.Guard) (r : ApiResult A) : Artifacts.Store -> Prop :=
  match r with Ok _ => good n g | Err _ => held n g end.

Lemma fetched_stable {A} n g (r : ApiResult A) : stable n (fetched n g r).
Proof using Type. destruct r; [apply good_stable|apply held_stable]. Qed.

Lemma wt_write_frames fault l expected n g L : forall size content,
  wtriple n (stands n (filled n g content) L) (write_frames io fault l expected size (Artifacts.temporary g) content)
    (fun r => stands n (match r with Ok (_, c) => fun s => filled n g c s /\ c = content ++ body_data l /\ body_faults l = false | Err _ => held n g end) L).
Proof using Hworkers Hids.
  induction l as [|[b|message] l IH]; intros size content; cbn [write_frames body_data body_faults].
  - apply wt_ret; [|intros w (H & HL)].
    + apply stands_stable. intros x y H [? ?]. split; [by eapply filled_stable|done].
    + split; [|done]. by rewrite app_nil_r.
  - destruct (_ <? _).
    + apply wt_ret; [apply stands_stable, held_stable|]. by intros w ([H _] & HL).
    + eapply wt_do; [apply wt_files; by apply triple_append| |intros e; apply stands_stable, held_stable|done].
      intros u. eapply wt_mono; [done| |apply IH]. intros [[z c]|e] w H; [|done]. by rewrite app_assoc.
  - apply wt_ret; [apply stands_stable, held_stable|]. by intros w ([H _] & HL).
Qed.

Lemma wt_keeps {A B} n S φ (p : prog A) (k : A -> prog B) L Q : keeps n S φ p -> (forall a, φ a -> wtriple n (stands n S L) (k a) Q) ->
  (forall e, wstable n (Q (Err e))) -> (forall e w, stands n S L w -> Q (Err e) w) -> wtriple n (stands n S L) (do! a := p in k a) Q.
Proof using Type.
  intros Hp Hk Hs He. eapply wt_do; [apply Hp| |exact Hs|intros e w [Hw _]; by apply He]. intros a w [Hw Ha]. by apply (Hk a Ha).
Qed.

Lemma fetched_failed {A} n g L e : wtriple n (stands n (held n g) L) (failed e) (fun r : ApiResult A => stands n (fetched n g r) L).
Proof using Type. apply wt_ret; [apply stands_stable, fetched_stable|done]. Qed.

#[local] Hint Resolve idle_stable held_stable filled_stable good_stable fetched_stable stands_stable : core.

Lemma wt_download_once n g v repository d L : Artifacts.sha256_value (digest d) = Ok (Artifacts.g_value g) ->
  wtriple n (stands n (held n g) L) (download_node_blob_once io sha256_hex status_text node_lease send v repository d (Artifacts.temporary g))
    (fun r => stands n (fetched n g r) L).
Proof using Hworkers Hids.
  intros Hd. assert (forall e, wstable n ((fun r : ApiResult unit => stands n (fetched n g r) L) (Err e))) as Hst by (intros e; auto).
  eapply wt_keeps; [apply keeps_any; eauto with still| |exact Hst|done]. intros ? _.
  eapply wt_keeps; [apply keeps_any; eauto with still| |exact Hst|done]. intros response _.
  destruct (negb _); [apply fetched_failed|]. apply wt_step; [by auto|by eauto with still|]. intros started.
  eapply wt_do; [apply wt_files; by apply triple_write_temporary| |exact Hst|done]. intros ?.
  eapply wt_do; [by apply wt_write_frames| |exact Hst|done]. intros [total content].
  destruct (_ || _) eqn:E.
  - apply wt_ret; [by auto|]. by intros w ([[H _] _] & HL).
  - apply orb_false_iff in E as [_ E]. apply negb_false_iff, str_eqb_eq in E. rewrite <- E in Hd. apply sha256_value_eq in Hd.
    eapply (wt_mono _ (stands n (good n g) L) _ _ (fun r => stands n (fetched n g r) L)); [|done|].
    + intros w ([Hf _] & HL). split; [by exists content|exact HL].
    + apply wt_step; [by auto|done|]. intros u. apply wt_ret; auto.
Qed.

Lemma wt_retrying {A} n P (p : prog A) Q : wtriple n P p Q -> (forall r, wstable n (Q r)) -> (forall e w, Q (Err e) w -> P w) ->
  forall k, wtriple n P (retrying k p) Q.
Proof using Type.
  intros Hp HQ He k. induction k as [|[|k] IH]; [exact Hp|exact Hp|]. eapply wt_bind; [exact Hp| |done].
  intros [a|e]; [by apply wt_ret|]. eapply wt_mono; [|done|exact IH]. intros w. apply He.
Qed.

Context (Hsdk : sdk_verifies).

Lemma wt_pull_source n g src job d L : Artifacts.sha256_value (digest d) = Ok (Artifacts.g_value g) ->
  wtriple n (stands n (held n g) L)
    (pull_source_blob io sha256_hex parse_reference status_text node_lease send oci_blob src job d (Artifacts.temporary g))
    (fun r => stands n (fetched n g r) L).
Proof using Hworkers Hids Hsdk.
  intros Hd. assert (forall e, wstable n ((fun r : ApiResult unit => stands n (fetched n g r) L) (Err e))) as Hst by (intros e; auto).
  destruct src as [s|v]; cbn [pull_source_blob].
  - eapply wt_do; [apply wt_files; by apply triple_write_temporary| |exact Hst|done]. intros ?.
    eapply (wt_keeps n (filled n g [])); [apply keeps_still; [by auto| |apply blob_stream_returns]| |exact Hst|].
    + unfold blob_stream. destruct (_ <? _); eauto with still.
    + intros l (k & E). eapply wt_do; [by apply wt_write_frames| |exact Hst|done]. intros [total content].
      destruct (negb _).
      * apply wt_ret; [by auto|]. by intros w ([[H _] _] & HL).
      * apply wt_ret; [by auto|]. intros w ((Hf & -> & Hb) & HL). split; [|exact HL]. exists (body_data l). split; [exact Hf|]. by eapply Hsdk.
    + intros e w ([H _] & HL). by split.
  - destruct (parse_reference _); [|apply fetched_failed]. apply wt_retrying; [by apply wt_download_once|by auto|done].
Qed.

(** ** Preparing an image *)

(** A result given after a last step on the store. *)
Lemma wt_after {A} n (S S' : Artifacts.Store -> Prop) (q : program Artifacts.Store unit) (r : ApiResult A) L : stable n S' ->
  (forall s, S s -> secured (frame n) (guarantee n) q (fun _ => S') s) ->
  wtriple n (stands n S L) (let- _ := on_files q in Ret (Some r)) (fun r' w => r' = r /\ stands n S' L w).
Proof using Type.
  intros HS Hq w (Hw & HL). eapply secured_seq.
  - eapply (secured_zoom (frame n) (guarantee n) _ _ files with_files (fun w => sound (own_log n w) /\ L (own_log n w)) q (fun _ => S')).
    + done.
    + intros x y [H _]. by apply rtc_once.
    + intros v s Hg. by split.
    + intros x y [_ H]. by rewrite H.
    + done.
    + exact HL.
    + by apply Hq.
  - intros u w' H. apply secured_ret; [|by split]. intros x y Hf [_ Hx].
    split; [done|]. eapply (stands_stable n S' L); [exact HS|exact Hf|exact Hx].
Qed.

Lemma wt_drop {A} n g (r : ApiResult A) L :
  wtriple n (stands n (held n g) L) (let- _ := Images.drop_guard io g in Ret (Some r)) (fun r' w => r' = r /\ stands n (idle n) L w).
Proof using Hworkers Hids. apply wt_after; [by auto|]. intros s Hs. by apply drop_guard_secured. Qed.

(** The rest of a function that holds a guard. *)
Lemma wt_holding {A B} n g P (p : prog A) Q (k : A -> prog B) L Q' :
  wtriple n P p (fun r w => match r with Ok a => Q a w | Err _ => stands n (held n g) L w end) ->
  (forall a, wtriple n (Q a) (k a) Q') -> (forall e w, stands n (idle n) L w -> Q' (Err e) w) ->
  wtriple n P (Images.holding io g p k) Q'.
Proof using Hworkers Hids.
  intros Hp Hk He. eapply wt_bind; [exact Hp| |done]. intros [a|e]; [apply Hk|].
  eapply wt_mono; [done| |by apply wt_drop]. intros r w [-> Hw]. by apply He.
Qed.

Lemma triple_commit_good n g : triple n (good n g) (Artifacts.commit io g) (fun _ => idle n).
Proof using Hworkers Hids. intros s (b & Hf & E). by apply (triple_commit sha256_hex io workers ids Hworkers Hids n g b E s). Qed.

Lemma keeps_jobs {A} n S (p : program JobsWorld (ApiResult A)) : stable n S -> keeps n S (fun _ => True) (on_jobs p).
Proof using Type. intros HS. apply keeps_any; [done|]. apply still_on_jobs. Qed.

Lemma keeps_if {A} n S φ (b : bool) (p q : prog A) : keeps n S φ p -> keeps n S φ q -> keeps n S φ (if b then p else q).
Proof using Type. by destruct b. Qed.

Lemma settled_files {A} n (p : program Artifacts.Store (option (ApiResult A))) : triple n (idle n) p (fun _ => idle n) -> settled n (on_files p).
Proof using Type. apply keeps_files. Qed.

Lemma settled_do {A B} n (p : prog A) (k : A -> prog B) : settled n p -> (forall a, settled n (k a)) -> settled n (do! a := p in k a).
Proof using Type. intros Hp Hk. eapply keeps_do; [by auto|exact Hp|auto]. Qed.

Lemma settled_ret {A} n (r : ApiResult A) : settled n (Ret (Some r)).
Proof using Type. by apply keeps_ret. Qed.

Lemma settled_fetch n src job d :
  settled n (do! g := Images.begin_blob_write (workers n) io patience (ids n) (digest d) in
             Images.holding io g (pull_source_blob io sha256_hex parse_reference status_text node_lease send oci_blob src job d (Artifacts.temporary g))
               (fun _ => do! _ := Images.commit io g in ok tt)).
Proof using Hworkers Hids Hsdk.
  intros L. eapply wt_do; [apply wt_files; by apply triple_begin| |by intros e; apply keeps_stable|by intros e w H].
  intros g. eapply (wt_pure n (held n g)); [by intros s []|]. intros Hv.
  apply (wt_holding n g (stands n (held n g) L) _ (fun _ => stands n (good n g) L) _ L _).
  - eapply wt_mono; [done| |by apply wt_pull_source]. by intros [].
  - intros u. eapply wt_do; [apply wt_files, triple_commit_good| |by intros e; apply keeps_stable|done].
    intros p. apply wt_ret; [by apply keeps_stable|done].
  - by intros e w'.
Qed.

Lemma settled_stat n p : settled n (on_files (Artifacts.attempt (Artifacts.stat io p))).
Proof using Type.
  apply settled_files. eapply triple_mono; [done| |apply triple_attempt; [apply idle_stable|apply triple_stat; [apply idle_stable|apply idle_own]]]. by intros r s [].
Qed.

Lemma settled_link n source target : in_job target -> settled n (on_files (Artifacts.link_or_copy io source target)).
Proof using Type. intros Ht. apply settled_files, triple_link_or_copy; [by auto|apply idle_own|done]. Qed.

Lemma settled_atomic n dir name b : in_job (dir ++ [name]) -> in_job (dir ++ [Artifacts.with_partial name]) ->
  settled n (on_files (Artifacts.atomic_write io dir name b)).
Proof using Type. intros H1 H2. apply settled_files, triple_atomic_write; [by auto|apply idle_own|done|done]. Qed.

Lemma blob_path_in_job i dg p : Artifacts.blob_path i dg = Ok p -> in_job p.
Proof using Type. unfold Artifacts.blob_path. destruct (Artifacts.sha256_value dg); [|done]. intros [= <-]. by eexists. Qed.

Lemma settled_prepare_layer n job src d :
  settled n (prepare_layer (workers n) io patience sha256_hex parse_reference status_text node_lease send oci_blob (ids n) job src d).
Proof using Hworkers Hids Hsdk.
  apply settled_do; [apply keeps_jobs; auto|]. intros u. destruct (Artifacts.blob_path _ _) as [path|] eqn:Ep; [|apply settled_ret].
  destruct (Artifacts.shared_blob_path _) as [shared|]; [|apply settled_ret]. cbv beta iota.
  apply settled_do; [apply settled_stat|]. intros present.
  apply settled_do; [apply keeps_if; [apply settled_ret|apply settled_fetch]|]. intros v.
  apply settled_do; [by eapply settled_link, blob_path_in_job|]. intros v'. apply settled_ret.
Qed.

Lemma settled_prepare_layers n job src l : forall downloaded total,
  settled n (prepare_layers (workers n) io patience sha256_hex parse_reference status_text node_lease send oci_blob (ids n) job src l downloaded total).
Proof using Hworkers Hids Hsdk.
  induction l as [|d l IH]; intros downloaded total; [apply settled_ret|].
  apply settled_do; [apply settled_prepare_layer|]. intros path. apply settled_do; [apply keeps_jobs; auto|]. intros u.
  apply settled_do; [apply IH|]. intros paths. apply settled_ret.
Qed.

Lemma settled_write_layout n m : settled n (write_layout io sha256_hex manifest_json index_json (ids n) m).
Proof using Type.
  unfold write_layout. destruct (Artifacts.sha256_value _) as [v|]; [|apply settled_ret].
  apply settled_do; [apply settled_atomic; by eexists|]. intros u. apply settled_do; [apply settled_atomic; by eexists|]. intros u'.
  apply settled_atomic; by eexists.
Qed.

Lemma settled_prepare n job r : verified (digest (config (manifest (pulled r)))) (config_json (pulled r)) ->
  settled n (prepare_resolved_image (workers n) io patience sha256_hex parse_reference manifest_json index_json status_text node_lease send oci_blob (ids n) job r).
Proof using Hworkers Hids Hsdk.
  intros Hv. apply keeps_bind; [by auto|by eauto with still|]. intros limit. destruct (_ <? _); [apply settled_ret|].
  destruct (Artifacts.blob_path _ _) as [path|] eqn:Ep; [|apply settled_ret].
  destruct (Artifacts.shared_blob_path _) as [shared|]; [|apply settled_ret]. cbv beta iota.
  apply settled_do; [apply settled_stat|]. intros present.
  apply settled_do; [apply keeps_if; [apply settled_ret|apply settled_do; [apply settled_files; by apply triple_write_blob_bytes|intros ?; apply settled_ret]]|].
  intros u. apply settled_do; [by eapply settled_link, blob_path_in_job|]. intros u'.
  apply settled_do; [apply keeps_jobs; auto|]. intros u2. apply settled_do; [apply settled_prepare_layers|]. intros paths.
  apply settled_do; [apply settled_write_layout|]. intros u3. apply settled_ret.
Qed.

(** ** Export, extraction and the quota *)

Lemma settled_under_lock {A} n (p : prog A) : settled n p -> settled n (under_lock (workers n) io patience (ids n) p).
Proof using Type.
  intros Hp. apply settled_do; [apply settled_files, triple_lock_job; [by auto|apply idle_own]|]. intros u L.
  eapply wt_bind; [apply Hp| |done]. intros r.
  eapply wt_mono; [| |apply (wt_after n (idle n) (idle n) _ r L); [by auto|]].
  - by intros w [Hw _].
  - intros r' w [_ Hw]. by destruct r'.
  - intros s Hs. apply unlock_job_secured; [by auto|apply idle_own|done].
Qed.

Lemma settled_build n format reference image name :
  settled n (build_archive io docker_tar oci_tar format reference image (Artifacts.job_root (ids n) ++ [name])).
Proof using Type.
  apply settled_files. apply triple_quiet; [by auto|apply idle_own|]. apply quiet_insert. intros d.
  destruct (if _ : bool then _ else _) as [b|e]; [|by left]. right. eexists _, _. split; [|done]. by eexists.
Qed.

Lemma settled_export n job image : settled n (export_image (workers n) io patience docker_tar oci_tar (ids n) job image).
Proof using Type.
  apply settled_do; [apply keeps_jobs; auto|]. intros u. destruct (negb _); [apply settled_ret|].
  apply settled_do; [apply settled_under_lock, settled_build|]. intros u'. apply keeps_jobs; auto.
Qed.

Lemma rendered_quiet i (l : list (Artifacts.Path * Artifacts.entry)) : forall (d : Artifacts.Disk),
  let d' := foldl (fun (d : Artifacts.Disk) (f : Artifacts.Path * Artifacts.entry) => <[rootfs i ++ f.1 := f.2]> d) d l in
  (forall v, d' !! Artifacts.shared_path v = d !! Artifacts.shared_path v) /\ (forall g, d' !! Artifacts.temporary g = d !! Artifacts.temporary g).
Proof using Type.
  induction l as [|f l IH]; intros d; [done|]. destruct (IH (<[rootfs i ++ f.1 := f.2]> d)) as [H1 H2]. split.
  - intros v. etrans; [apply H1|]. apply lookup_insert_ne. by apply first_differs.
  - intros g. etrans; [apply H2|]. apply lookup_insert_ne. by apply first_differs.
Qed.

Lemma settled_convert n image : settled n (convert_dir io render (ids n) image).
Proof using Type.
  apply settled_do.
  { apply settled_files. exact (triple_remove_dir sha256_hex io workers ids True n (idle n) (idle_stable _ _ _ n) (idle_own _ _ _ n) (ids n) ["rootfs"]). }
  intros u.
  apply settled_files. apply triple_quiet; [by auto|apply idle_own|]. intros d. destruct (render _) as [l|e]; [|done].
  apply rendered_quiet.
Qed.

Lemma settled_extract n image : settled n (extract_image (workers n) io patience render (ids n) image).
Proof using Type.
  apply settled_do; [apply keeps_jobs; auto|]. intros u. apply settled_under_lock.
  apply settled_do; [apply settled_convert|]. intros u'. apply keeps_jobs; auto.
Qed.

Lemma settled_remove n i : settled n (remove_job_storage io i).
Proof using Type.
  apply settled_do; [apply settled_files, triple_remove_job; [by auto|apply idle_own]|]. intros u.
  apply settled_do; [apply keeps_jobs; auto|]. intros u'. apply settled_ret.
Qed.

Lemma settled_gc n : settled n (Images.gc_shared_blobs (workers n) io patience).
Proof using Hworkers. by apply settled_files, triple_gc. Qed.

Lemma settled_usage n : settled n (Images.usage io).
Proof using Type. apply settled_files, triple_usage; [by auto|apply idle_own]. Qed.

Lemma settled_remove_expired n protected l : settled n (remove_expired io protected l).
Proof using Type.
  induction l as [|i l IH]; [apply settled_ret|]. apply settled_do; [apply keeps_if; [apply settled_ret|apply settled_remove]|]. by intros u.
Qed.

Lemma settled_remove_until n protected limit l : settled n (remove_until (workers n) io patience protected limit l).
Proof using Hworkers.
  induction l as [|i l IH]; [apply settled_ret|]. apply keeps_if; [exact IH|].
  apply settled_do; [apply settled_remove|]. intros u. apply settled_do; [apply settled_gc|]. intros u'.
  apply settled_do; [apply settled_usage|]. intros used. apply keeps_if; [apply settled_ret|exact IH].
Qed.

Lemma settled_clean n protected : settled n (clean (workers n) io patience protected).
Proof using Hworkers.
  apply keeps_bind; [by auto|by eauto with still|]. intros r. apply keeps_bind; [by auto|by eauto with still|]. intros now.
  apply settled_do; [apply keeps_jobs; auto|]. intros expired. apply settled_do; [apply settled_remove_expired|]. intros u.
  apply settled_do; [apply settled_gc|]. intros u'. apply settled_do; [apply settled_usage|]. intros used.
  apply keeps_if; [apply settled_ret|]. apply settled_do; [apply keeps_jobs; auto|]. intros candidates. apply settled_remove_until.
Qed.

Lemma settled_cleanup n protected : settled n (cleanup_storage (workers n) io patience protected).
Proof using Hworkers.
  apply keeps_if; [apply settled_clean|]. apply keeps_bind; [by auto| |].
  - split; [|done]. intros w. by destruct (_ <? _).
  - intros due. apply keeps_if; [apply settled_clean|apply settled_ret].
Qed.

Lemma settled_enforce n : settled n (enforce_storage_quota (workers n) io patience (ids n)).
Proof using Hworkers.
  apply settled_do; [apply settled_cleanup|]. intros u. apply keeps_bind; [by auto|by eauto with still|]. intros limit.
  apply settled_do; [apply settled_usage|]. intros used. apply keeps_if; [apply settled_ret|].
  apply settled_do; [apply settled_remove|]. intros u'. apply settled_do; [apply settled_gc|]. intros u2. apply settled_ret.
Qed.

(** ** Copying *)

(** The last thing sent. *)
Definition ends_with (r : Reference) (op : DestOp) (φ : result bool string -> Prop) (l : list Event) : Prop :=
  exists l0 e, l = l0 ++ [e] /\ ev_ref e = r /\ ev_op e = op /\ φ (ev_answer e).

Definition grows (L : list Event -> Prop) : Prop := forall l e, L l -> L (l ++ [e]).

Lemma wt_dest n S (r : Reference) op L : stable n S -> grows L ->
  (forall l answer, L l -> event_ok l {| ev_job := ids n; ev_ref := r; ev_op := op; ev_answer := answer |}) ->
  wtriple n (stands n S L) (dest oci_dest (ids n) r op)
    (fun res => stands n S (fun l => L l /\ ends_with r op (fun answer => match res with Ok b => answer = Ok b | Err _ => True end) l)).
Proof using Hids.
  intros HS HL Hok w Hw. eapply (secured_act _ _ _ _ (stands n S L)); [by apply stands_stable|exact Hw|]. intros x (Hx & Hs & HLx).
  set (answer := oci_dest (calls x) r op). set (e := {| ev_job := ids n; ev_ref := r; ev_op := op; ev_answer := answer |}).
  assert (forall m, m <> n -> own_log m (called (with_sent x e)) = own_log m x) as Hother.
  { intros m Hne. unfold own_log. simpl. rewrite List.filter_app. simpl. destruct (N.eqb_spec (ids n) (ids m)) as [E|]; [|by rewrite app_nil_r].
    destruct Hne. apply Hids. by rewrite E. }
  assert (own_log n (called (with_sent x e)) = own_log n x ++ [e]) as Hmine.
  { unfold own_log. simpl. rewrite List.filter_app. simpl. by rewrite N.eqb_refl. }
  assert (sound (own_log n x ++ [e])) as Hsound by (by apply sound_snoc; [|apply Hok]).
  split; [split; [apply guarantee_refl|split; [exact Hother|intros _; exact (eq_ind_r sound Hsound Hmine)]]|]. cbn [fst snd bind checked].
  assert (forall res : ApiResult bool, match res with Ok b => answer = Ok b | Err _ => True end ->
    stands n S (fun l => L l /\ ends_with r op (fun answer => match res with Ok b => answer = Ok b | Err _ => True end) l) (called (with_sent x e))) as Hend.
  { intros res Hres. split; [exact Hx|]. rewrite Hmine. split; [exact Hsound|]. split; [by apply HL|]. by eexists _, e. }
  apply secured_ret; [by apply stands_stable|]. apply Hend. fold answer. by destruct answer.
Qed.

Lemma ends_delivered r dg b l : ends_with r (BlobExists dg) (fun answer => answer = Ok true) l \/
  ends_with r (PushBlob dg b) (fun answer => is_ok answer = true) l -> delivered r dg l.
Proof using Type.
  intros [(l0 & e & -> & Hr & Ho & Ha)|(l0 & e & -> & Hr & Ho & Ha)]; exists e; (split; [apply elem_of_app; right; left|]); (split; [done|]);
    [by left|right; by exists b].
Qed.

Lemma wt_push n S r p dg L : stable n S -> grows L ->
  triple n S (Artifacts.on_disk io (fun d => (match d !! p with Some (Artifacts.Regular b) => Ok b | _ => Err not_found end, d)))
    (fun res s => S s /\ match res with Ok b => verified dg b | Err _ => True end) ->
  wtriple n (stands n S L) (push_file io oci_dest (ids n) r p dg)
    (fun res => stands n S (fun l => L l /\ match res with Ok _ => delivered r dg l | Err _ => True end)).
Proof using Hids.
  intros HS HL Hp. eapply wt_do; [by apply wt_files| |intros e; by apply stands_stable|].
  - intros content. eapply (wt_pure n S); [by intros s []|]. intros Hv.
    eapply wt_do; [apply wt_dest; [done|done|by intros l answer _]| |intros e; by apply stands_stable|].
    + intros b. apply wt_ret; [by apply stands_stable|]. intros w (HSw & Hs & HLw & Hd). split; [done|]. split; [done|]. split; [done|].
      eapply (ends_delivered r dg content). right. destruct Hd as (l0 & e & H1 & H2 & H3 & H4). exists l0, e. by rewrite H4.
    + intros e w (HSw & Hs & HLw & _). done.
  - intros e w ([HSw _] & Hs & HLw). done.
Qed.

Lemma good_own n g : StoreProps.own sha256_hex workers ids n (good n g).
Proof using Type.
  split; [by intros s (b & [[]] & _)|]. split.
  - intros s l (b & Hb & E). exists b. split; [by apply filled_own|done].
  - intros s d (b & Hb & E) Hd Ht. exists b. split; [by apply filled_own|done].
Qed.

(** The blob in the store, under its final name or in the guard's partial file. *)
Lemma shared_content n dg s p b : held n (p : Artifacts.Guard) s -> Artifacts.sha256_value dg = Ok (Artifacts.g_value p) ->
  Artifacts.disk s !! Artifacts.shared_path (Artifacts.g_value p) = Some (Artifacts.Regular b) -> verified dg b.
Proof using Type.
  intros (Hi & _) Hd Hb v Hv. rewrite Hd in Hv. injection Hv as <-. destruct (inv_blobs _ _ _ _ Hi _ _ Hb) as (b' & E & Hsha). by injection E as ->.
Qed.

Lemma good_content n g dg s b : good n g s -> Artifacts.sha256_value dg = Ok (Artifacts.g_value g) ->
  Artifacts.disk s !! Artifacts.temporary g = Some (Artifacts.Regular b) -> verified dg b.
Proof using Type. intros (b' & [_ Hf] & E) Hd Hb v Hv. rewrite Hd in Hv. injection Hv as <-. rewrite Hf in Hb. by injection Hb as <-. Qed.

Definition delivers (r : Reference) (dg : string) (D : list Event -> Prop) {A} (res : ApiResult A) (l : list Event) : Prop :=
  D l /\ match res with Ok _ => delivered r dg l | Err _ => True end.

Lemma wt_push_held n g r dg D : grows D -> Artifacts.sha256_value dg = Ok (Artifacts.g_value g) ->
  wtriple n (stands n (held n g) D) (push_file io oci_dest (ids n) r (Artifacts.shared_path (Artifacts.g_value g)) dg)
    (fun res => stands n (held n g) (delivers r dg D res)).
Proof using Hids.
  intros HD Hd. apply wt_push; [by auto|done|]. apply triple_read; [by auto|apply held_own|].
  intros s b Hs. destruct (_ !! _) as [[b'|]|] eqn:E; [|done|done]. intros [= <-]. by eapply shared_content.
Qed.

Lemma wt_push_good n g r dg D : grows D -> Artifacts.sha256_value dg = Ok (Artifacts.g_value g) ->
  wtriple n (stands n (good n g) D) (push_file io oci_dest (ids n) r (Artifacts.temporary g) dg)
    (fun res => stands n (good n g) (delivers r dg D res)).
Proof using Hids.
  intros HD Hd. apply wt_push; [by auto|done|]. apply triple_read; [by auto|apply good_own|].
  intros s b Hs. destruct (_ !! _) as [[b'|]|] eqn:E; [|done|done]. intros [= <-]. by eapply good_content.
Qed.

Lemma stands_mono n (S S' : Artifacts.Store -> Prop) (L L' : list Event -> Prop) w : (forall s, S s -> S' s) -> (forall l, L l -> L' l) ->
  stands n S L w -> stands n S' L' w.
Proof using Type. intros HS HL (H1 & H2 & H3). split; [by apply HS|]. split; [done|by apply HL]. Qed.

Lemma good_held n g s : good n g s -> held n g s.
Proof using Type. by intros (b & [H _] & _). Qed.

(** The transfer of a layer whose guard is held. *)
Lemma wt_transfer n g job src r d D (here : bool) : grows D -> Artifacts.sha256_value (digest d) = Ok (Artifacts.g_value g) ->
  wtriple n (stands n (held n g) D)
    (if here : bool then push_file io oci_dest (ids n) r (Artifacts.shared_path (Artifacts.g_value g)) (digest d)
     else
       let- limit := max_export_bytes in
       if limit <? Z.max 0 (size d) then failed (BadRequest "layer exceeds DONKEY_MAX_EXPORT_BYTES")
       else
         do! _ := pull_source_blob io sha256_hex parse_reference status_text node_lease send oci_blob src job d (Artifacts.temporary g) in
         do! _ := Images.check_cancelled (workers n) (ids n) in
         push_file io oci_dest (ids n) r (Artifacts.temporary g) (digest d))
    (fun res => stands n (held n g) (delivers r (digest d) D res)).
Proof using Hworkers Hids Hsdk.
  intros HD Hd. assert (forall e, wstable n ((fun res : ApiResult unit => stands n (held n g) (delivers r (digest d) D res)) (Err e))) as Hst by (intros e; auto).
  destruct here; [by apply wt_push_held|]. apply wt_step; [by auto|by eauto with still|]. intros limit. destruct (_ <? _).
  - apply wt_ret; [by auto|]. intros w. by apply stands_mono.
  - eapply wt_do; [by apply wt_pull_source| |exact Hst|]. 2: { intros e w. by apply stands_mono. }
    intros u. eapply wt_keeps; [apply keeps_jobs; auto| |exact Hst|]. 2: { intros e w. apply stands_mono; [apply good_held|done]. }
    intros u' _. eapply wt_mono; [done| |by apply wt_push_good]. intros res w. apply stands_mono; [apply good_held|done].
Qed.

Lemma wt_failed {A} n S (L : list Event -> Prop) (Q : ApiResult A -> World -> Prop) e : wstable n (Q (Err e)) -> (forall w, stands n S L w -> Q (Err e) w) ->
  wtriple n (stands n S L) (failed e) Q.
Proof using Type. intros HQ H. by apply wt_ret. Qed.

Lemma wt_copy_layer n job src r d D : grows D ->
  wtriple n (stands n (idle n) D)
    (copy_layer (workers n) io patience sha256_hex parse_reference status_text node_lease send oci_blob oci_dest (ids n) job src r d)
    (fun res => stands n (idle n) (delivers r (digest d) D res)).
Proof using Hworkers Hids Hsdk.
  intros HD. assert (forall e, wstable n ((fun res : ApiResult unit => stands n (idle n) (delivers r (digest d) D res)) (Err e))) as Hst by (intros e; auto).
  assert (forall e w, stands n (idle n) D w -> stands n (idle n) (delivers r (digest d) D (@Err unit _ e)) w) as He by (intros e w; by apply stands_mono).
  eapply wt_keeps; [apply keeps_jobs; auto| |exact Hst|exact He]. intros u _.
  eapply wt_do; [apply wt_dest; [by auto|done|done]| |exact Hst|]. 2: { intros e w. apply stands_mono; [done|]. by intros l []. }
  intros [|].
  { apply wt_ret; [by auto|]. intros w. apply stands_mono; [done|]. intros l [HDl Hend]. split; [done|].
    apply (ends_delivered r (digest d) []). by left. }
  eapply (wt_mono _ (stands n (idle n) D) _ _ (fun res => stands n (idle n) (delivers r (digest d) D res)));
    [intros w; apply stands_mono; [done|by intros l []]|done|].
  eapply wt_do; [apply wt_files; by apply triple_begin| |exact Hst|exact He]. intros g.
  eapply (wt_pure n (held n g)); [by intros s []|]. intros Hd. unfold Artifacts.shared_blob_path. rewrite Hd.
  unfold Images.holding at 1, checked at 1. cbn [bind].
  eapply (wt_holding n g _ _ (fun _ => stands n (held n g) D) _ D); [| |exact He].
  { eapply wt_mono; [done| |apply wt_files, triple_attempt; [apply held_stable|apply triple_stat; [apply held_stable|apply held_own]]].
    intros res w. destruct res; by apply stands_mono; [intros s []|]. }
  intros here.
  eapply (wt_holding n g _ _ (fun _ => stands n (held n g) (delivers r (digest d) D (Ok tt))) _ (delivers r (digest d) D (@Err unit AppError Integrity))).
  - eapply wt_mono; [done| |by apply wt_transfer]. by intros [].
  - intros v. eapply wt_mono; [done| |by apply wt_drop]. intros r' w [-> Hw]. done.
  - done.
Qed.


Definition all_delivered (r : Reference) (ds : list Descriptor) (l : list Event) : Prop := forall d, d ∈ ds -> delivered r (digest d) l.

Lemma all_delivered_grows r ds : grows (all_delivered r ds).
Proof using Type. intros l e H d Hd. by apply delivered_snoc, H. Qed.

Lemma wt_copy_layers n job src r l : forall before progress total,
  wtriple n (stands n (idle n) (all_delivered r before))
    (copy_layers (workers n) io patience sha256_hex parse_reference status_text node_lease send oci_blob oci_dest (ids n) job src r l progress total)
    (fun res => stands n (idle n) (match res with Ok _ => all_delivered r (before ++ l) | Err _ => fun _ => True end)).
Proof using Hworkers Hids Hsdk.
  induction l as [|d l IH]; intros before progress total.
  { apply wt_ret; [by auto|]. by rewrite app_nil_r. }
  eapply wt_do; [apply wt_copy_layer, all_delivered_grows| |by auto|]. 2: { intros e w. by apply stands_mono. }
  intros u. eapply (wt_mono _ (stands n (idle n) (all_delivered r (before ++ [d])))); [| |].
  { intros w. apply stands_mono; [done|]. intros x [H1 H2] d' [Hd'|Hd']%elem_of_app; [by apply H1|]. apply list_elem_of_singleton in Hd' as ->. done. }
  { intros res w H. exact H. }
  eapply wt_keeps; [apply keeps_jobs; auto| |by auto|]. 2: { intros e w. by apply stands_mono. }
  intros u' _. eapply wt_mono; [done| |apply IH]. intros res w. by rewrite <- app_assoc.
Qed.

Definition manifest_sent (r : Reference) (m : ImageManifest) : list Event -> Prop :=
  ends_with r (PushManifest m) (fun answer => is_ok answer = true).

Lemma wt_copy n job image r auth : verified (digest (config (manifest (pulled image)))) (config_json (pulled image)) ->
  wtriple n (stands n (idle n) (fun _ => True))
    (copy_to_registry (workers n) io patience sha256_hex parse_reference status_text node_lease send oci_blob oci_dest (ids n) job image r auth)
    (fun res => stands n (idle n) (match res with Ok _ => manifest_sent r (manifest (pulled image)) | Err _ => fun _ => True end)).
Proof using Hworkers Hids Hsdk.
  intros Hc. set (m := manifest (pulled image)) in *.
  assert (forall (P : list Event -> Prop) w, stands n (idle n) P w -> stands n (idle n) (fun _ => True) w) as He by (intros P w; by apply stands_mono).
  unfold copy_to_registry. eapply wt_do; [apply wt_dest; [by auto|done|done]| |by auto|intros e w; apply He]. intros b0.
  eapply (wt_mono _ (stands n (idle n) (all_delivered r []))); [|intros res w H; exact H|].
  { intros w. apply stands_mono; [done|]. intros l _ d Hd. by apply not_elem_of_nil in Hd. }
  eapply wt_keeps; [apply keeps_jobs; auto| |by auto|intros e w; apply He]. intros u1 _.
  eapply wt_do; [apply wt_copy_layers| |by auto|done]. intros u2. cbn [app].
  eapply wt_keeps; [apply keeps_jobs; auto| |by auto|intros e w; apply He]. intros u3 _.
  eapply wt_do; [apply wt_dest; [by auto|apply all_delivered_grows|done]| |by auto|intros e w; apply He]. intros present.
  eapply (wt_do _ _ _ (fun res => stands n (idle n) (match res with Ok _ => all_delivered r (config m :: layers m) | Err _ => fun _ => True end))); [| |by auto|done].
  { destruct present.
    - apply wt_ret; [by auto|]. intros w. apply stands_mono; [done|]. intros l [H1 H2] d [->|Hd]%elem_of_cons; [|by apply H1].
      apply (ends_delivered r _ []). by left.
    - eapply (wt_mono _ (stands n (idle n) (all_delivered r (layers m)))); [intros w; apply stands_mono; [done|by intros l []]|intros res w H; exact H|].
      eapply wt_do; [apply wt_dest; [by auto|apply all_delivered_grows|by intros l answer _]| |by auto|intros e w; apply He].
      intros b. apply wt_ret; [by auto|]. intros w. apply stands_mono; [done|]. intros l [H1 H2] d [->|Hd]%elem_of_cons; [|by apply H1].
      apply (ends_delivered r _ (config_json (pulled image))). right. destruct H2 as (l0 & e & ? & ? & ? & Ha). exists l0, e. by rewrite Ha. }
  intros u4. eapply wt_keeps; [apply keeps_jobs; auto| |by auto|intros e w; apply He]. intros u5 _.
  eapply wt_do; [apply wt_dest; [by auto|apply all_delivered_grows|by intros l answer H]| |by auto|intros e w; apply He]. intros b.
  eapply (wt_mono _ (stands n (idle n) (manifest_sent r m)) _ _ _); [|intros res w H; exact H|].
  { intros w. apply stands_mono; [done|]. intros l [_ (l0 & e & ? & ? & ? & Ha)]. exists l0, e. by rewrite Ha. }
  eapply wt_mono; [done| |apply keeps_jobs; auto]. intros [x|e] w [Hw _]; [exact Hw|by eapply He].
Qed.

(** ** A job *)

Abbreviation process n job := (process_job (workers n) io patience sha256_hex utf8 parse_reference parse_manifest manifest_json index_json
  status_text node_lease send ln_1p policy parse_authority oci_manifest oci_blob oci_dest api url_port prims cipher docker_tar oci_tar render
  (ids n) job).

(** What a completed copy leaves: its last message is the manifest, which was accepted. *)
Definition copy_done (job : JobInput) (l : list Event) : Prop :=
  exists raw r m, destination_ref job = Some raw /\ parse_reference raw = Some r /\ manifest_sent r m l.

Definition completes (job : JobInput) (res : ApiResult JobOutcome) (l : list Event) : Prop :=
  res = Ok OutcomeCompleted -> JobKind.parse (kind job) = Some JobKind.Copy -> copy_done job l.

Lemma wt_copy_image n job image : verified (digest (config (manifest (pulled image)))) (config_json (pulled image)) ->
  wtriple n (stands n (idle n) (fun _ => True))
    (copy_image (workers n) io patience sha256_hex parse_reference status_text node_lease send oci_blob oci_dest api url_port prims cipher (ids n) job image)
    (fun res => stands n (idle n) (match res with Ok _ => copy_done job | Err _ => fun _ => True end)).
Proof using Hworkers Hids Hsdk.
  intros Hc. unfold copy_image. eapply wt_keeps; [apply keeps_jobs; auto| |by auto|done]. intros u _.
  destruct (destination_ref job) as [raw|] eqn:Er; [|apply wt_failed; by auto]. cbn [ok_or].
  destruct (parse_reference raw) as [r|] eqn:Ep; [|apply wt_failed; by auto]. cbn [ok_or].
  destruct (destination_credential_id job) as [c|]; [|apply wt_failed; by auto]. cbn [ok_or].
  eapply wt_keeps; [apply keeps_any; [by auto|apply still_on_tools]| |by auto|done]. intros auth _.
  eapply wt_mono; [done| |by apply wt_copy]. intros [x|e] w; [|done]. apply stands_mono; [done|].
  intros l Hl. by exists raw, r, (manifest (pulled image)).
Qed.

Lemma wt_process n job : wtriple n (stands n (idle n) (fun _ => True)) (process n job) (fun res => stands n (idle n) (completes job res)).
Proof using Hworkers Hids Hsdk.
  assert (forall e w, stands n (idle n) (fun _ => True) w -> stands n (idle n) (completes job (Err e)) w) as He by (intros e w; by apply stands_mono).
  assert (forall e, wstable n (stands n (idle n) (completes job (Err e)))) as Hst by (intros e; auto).
  eapply wt_keeps; [apply keeps_still; [by auto|apply still_resolve|by apply resolve_returns]| |exact Hst|exact He]. intros resolved Hc.
  eapply wt_keeps; [apply keeps_jobs; auto| |exact Hst|exact He]. intros u _.
  eapply wt_keeps; [apply keeps_jobs; auto| |exact Hst|exact He]. intros u' _.
  assert (JobKind.parse (kind job) <> Some JobKind.Copy -> forall q : PreparedImage -> prog unit, (forall x, settled n (q x)) ->
    wtriple n (stands n (idle n) (fun _ => True))
      (do! prepared := prepare_resolved_image (workers n) io patience sha256_hex parse_reference manifest_json index_json status_text node_lease send oci_blob (ids n) job resolved in
       do! _ := q prepared in
       do! _ := enforce_storage_quota (workers n) io patience (ids n) in
       ok OutcomeCompleted) (fun res => stands n (idle n) (completes job res))) as Hother.
  { intros Hk q Hq. eapply wt_keeps; [by apply settled_prepare| |exact Hst|exact He]. intros prepared _.
    eapply wt_keeps; [apply Hq| |exact Hst|exact He]. intros v _. eapply wt_keeps; [apply settled_enforce| |exact Hst|exact He]. intros v' _.
    apply wt_ret; [by auto|]. intros w. apply stands_mono; [done|]. by intros l _ _ H. }
  destruct (JobKind.parse (kind job)) as [[]|] eqn:Ek; try (apply Hother; [done|intros x]; solve [apply settled_export|apply settled_extract|apply settled_ret]).
  eapply wt_keeps; [apply keeps_jobs; auto| |exact Hst|exact He]. intros [|] _.
  { apply wt_ret; [by auto|]. intros w. by apply stands_mono; [|intros l _ [=]]. }
  eapply wt_do; [by apply wt_copy_image| |exact Hst|exact He]. intros v.
  eapply wt_keeps; [apply settled_enforce| |exact Hst|]. 2: { intros e w. by apply stands_mono. }
  intros v' _. apply wt_ret; [by auto|]. intros w. by apply stands_mono; [|intros l Hl _ _].
Qed.

(** ** Any number of workers *)

(** A step on the store that leaves the log alone. *)
Lemma secured_files {A} n (p : program Artifacts.Store A) Q w : secured (frame n) (guarantee n) p Q (files w) ->
  secured (wframe n) (wguarantee n) (on_files p) (fun a w => Q a (files w)) w.
Proof using Type.
  intros H. eapply secured_mono; [|eapply (secured_zoom (frame n) (guarantee n) _ _ files with_files (fun _ => True) p Q)].
  - by intros a w' [].
  - done.
  - intros x y [Hf _]. by apply rtc_once.
  - intros v s Hg. split; [exact Hg|done].
  - done.
  - done.
  - done.
  - exact H.
Qed.

Lemma drop_job_secured n w : StoreProps.inv sha256_hex workers ids (files w) ->
  secured (wframe n) (wguarantee n) (drop_job (workers n) io (ids n)) (fun _ _ => True) w.
Proof using Hworkers Hids.
  intros Hi w1 S. assert (StoreProps.inv sha256_hex workers ids (files w1)) as Hi1.
  { clear -Hi S. induction S as [|x y z H _ IH]; [done|]. apply IH. destruct H as [H _]. by apply H. }
  split; [split; [apply guarantee_refl|done]|]. cbn [bind read fst snd].
  fold (mine workers n (files w1)). apply (secured_seq _ _ _ _ (fun _ _ => True)).
  - assert (holds sha256_hex workers ids n (mine workers n (files w1)) (files w1)) as Hh by done. revert Hh. clear -Hworkers Hids.
    generalize (mine workers n (files w1)) as gs. intros gs. revert w1.
    induction gs as [|g gs IH]; intros w Hh; [done|]. cbn [foldr]. eapply secured_seq; [apply secured_files; by eapply drop_listed|].
    intros u w' [Hw' _]. by apply IH.
  - intros u w' _. apply (secured_files n _ (fun _ _ => True)). apply unlock_job_any.
Qed.

Context (jobs : Thread -> JobInput) (endings : Thread -> ending).

(** Each worker at its job. *)
Definition job_thread (n : Thread) : program World unit :=
  let- _ := supervised (workers n) io patience sha256_hex utf8 parse_reference parse_manifest manifest_json index_json
    status_text node_lease send ln_1p policy parse_authority oci_manifest oci_blob oci_dest api url_port prims cipher docker_tar oci_tar render
    (endings n) (ids n) (jobs n) in
  Ret tt.

Lemma job_thread_secured n w : stands n (idle n) (fun _ => True) w -> secured (wframe n) (wguarantee n) (job_thread n) (fun _ _ => True) w.
Proof using Hworkers Hids Hsdk.
  intros Hw. pose proof (wt_process n (jobs n) w Hw) as Hp. apply (secured_seq _ _ _ _ (fun _ _ => True)); [|done].
  set (J := fun w => StoreProps.inv sha256_hex workers ids (files w)).
  assert (forall k, secured (wframe n) (wguarantee n) (cut (busy (workers n)) k (process n (jobs n)))
    (fun o w => match o with Some _ => True | None => J w end) w) as Hcut.
  { intros k. eapply secured_mono; [|apply (secured_cut _ _ J); [..|exact Hp]].
    - by intros [] w'.
    - intros x y [H _]. apply H.
    - intros x y [H _]. apply H.
    - intros x. split; [apply guarantee_refl|done].
    - apply Hw. }
  assert (forall (r : option (option (ApiResult JobOutcome))) k, secured (wframe n) (wguarantee n)
    (let- r' := cut (busy (workers n)) k (process n (jobs n)) in
     match r' with Some r' => Ret (Some <$> r') | None => let- _ := drop_job (workers n) io (ids n) in Ret r end) (fun _ _ => True) w) as Hend.
  { intros r k. eapply secured_seq; [apply Hcut|]. intros [r'|] w' Hw'; [done|].
    eapply secured_seq; [by apply drop_job_secured|done]. }
  unfold supervised. destruct (endings n) as [|k|k]; [|apply Hend|apply Hend].
  eapply secured_seq; [exact Hp|done].
Qed.

(** ** What holds at any time *)

Context `{EqDecision Thread}.
Context (env : World -> World -> Prop) (Henv : forall n x y, env x y -> wframe n x y).

Lemma pool_safe w ts w' : pool_run env w job_thread w' ts -> (forall n, idle n (files w) /\ sound (own_log n w)) ->
  forall n, StoreProps.inv sha256_hex workers ids (files w') /\ sound (own_log n w').
Proof using Hworkers Hids Hsdk Henv.
  intros Hr Hw n. assert (rtc (pool_effect env wguarantee) w w') as S.
  { apply (pool_steps env wframe wguarantee Henv) with (ts := job_thread) (ts' := ts).
    - intros i j x y Hne (H1 & H2 & _). split; [by eapply guarantee_frame|by apply H2; congruence].
    - exact Hr.
    - intros i. apply job_thread_secured. split; [apply Hw|]. split; [apply Hw|done]. }
  assert (StoreProps.inv sha256_hex workers ids (files w) /\ sound (own_log n w)) as H0 by (destruct (Hw n) as [[] ?]; done).
  clear -H0 S Henv EqDecision0. induction S as [|x y z H _ IH]; [exact H0|]. apply IH. destruct H0 as [Hi Hs]. destruct H as [H|(i & H1 & H2 & H3)].
  - destruct (Henv n _ _ H) as [Hf ->]. by split; [apply Hf|].
  - split; [by apply H1|]. destruct (decide (i = n)) as [->|Hne]; [by apply H3|]. rewrite H2; [done|congruence].
Qed.


(** C23: Shared blobs are what their names say, at any time, while each job has one
    worker.  Any number of workers, each with a job of its own, process their jobs
    beside each other, in any interleaving, among steps of other parts that leave the
    workers' files alone; jobs end by themselves, lose their lease or are stopped in the
    middle.  When the OCI client verifies what it streams, every file under
    [blobs/sha256] has the digest it is named after, and the collector runs only while
    nobody writes a blob.  A worker that still runs after its lease went to a successor
    for the same job is not covered: the two write the same partial file, and
    [ImagesWitness.stale_worker_publishes] shows what they can do. *)
Theorem shared_blobs_verified w ts w' :
  pool_run env w job_thread w' ts -> (forall n, idle n (files w) /\ sound (own_log n w)) -> forall n : Thread,
  blobs_ok sha256_hex (Artifacts.disk (files w')) /\
  (is_Some (Artifacts.collecting (files w')) -> Artifacts.writers (files w') = []) /\ sound (own_log n w').
Proof using Hworkers Hids Hsdk Henv.
  intros Hr Hw n. destruct (pool_safe w ts w' Hr Hw n) as [Hi Hs]. split; [by apply Hi|]. split; [apply Hi|done].
Qed.

End Workers.
End Pipelines.
End ImagesProps.
