(* ===== verification/Quota.v ===== *)
(** * The quota of the artifact store: properties

    What the clean-up of Images.v removes and what it guarantees, beside an arbitrary
    environment: files of active and protected jobs stay, and a job that passes the
    quota was within it when it was measured, while one that does not leaves no files. *)

From stdpp Require Import base gmap sets list strings relations.
From Stdlib Require Import ZArith Lia Ascii Strings.Byte.
From S2P Require Import Prelude F64 Text Errors Model Prog Threads Files Http.
From S2P Require Import Scheduling Security Tables Routes Crypto Nodes Jobs Settings Tools Artifacts Images.

#[local] Set Default Proof Using "Type*".

Module Quota.
Import Images.

Section Cleaning.
Variable worker : Uuid.
Variable io : nat -> option string.
Variable patience : nat.
Context (env : World -> World -> Prop).

(** ** Files that stay *)

Section Spared.
Context (path : Artifacts.Path) (e : Artifacts.entry) (protected : option Uuid).

(** A file that only protected and active jobs own. *)
Definition spared_job (d : Db) (i : Uuid) : Prop :=
  Some i = protected \/ forall row, jobs d !! i = Some row -> terminal row = false.

Definition spared (w : World) : Prop :=
  Artifacts.disk (files w) !! path = Some e /\
  forall i, Artifacts.below (Artifacts.job_root i) path = true -> spared_job (db (queue w)) i.

Context (Henv : forall x y, env x y -> spared x -> spared y).

(** [p] keeps the file and, if it returns, returns something that satisfies [φ]. *)
Definition spares {A} (φ : A -> Prop) (p : prog A) : Prop := forall w, spared w ->
  secured env (fun _ _ => True) p (fun o w => spared w /\ match o with Some (Ok a) => φ a | _ => True end) w.

Lemma spares_ret {A} (φ : A -> Prop) o : match o with Some (Ok a) => φ a | _ => True end -> spares φ (Ret o).
Proof using Henv. intros Ho w Hw. apply secured_ret; [|by split]. intros x y H [Hx _]. split; [by eapply Henv|done]. Qed.

Lemma spares_do {A B} (φ : A -> Prop) (ψ : B -> Prop) (p : prog A) (k : A -> prog B) :
  spares φ p -> (forall a, φ a -> spares ψ (k a)) -> spares ψ (do! a := p in k a).
Proof using Henv.
  intros Hp Hk w Hw. eapply secured_seq; [by apply Hp|]. intros [[a|x]|] w' [Hw' Ha]; [by apply Hk|by apply spares_ret|by apply spares_ret].
Qed.

(** One action. *)
Lemma spares_act {A B} (f : World -> A * World) (k : A -> prog B) (φ : A -> Prop) (ψ : B -> Prop) :
  (forall w, spared w -> spared (f w).2 /\ φ (f w).1) -> (forall a, φ a -> spares ψ (k a)) -> spares ψ (Act f k).
Proof using Henv.
  intros Hf Hk w Hw. eapply (secured_act _ _ _ _ spared); [exact Henv|exact Hw|]. intros x Hx. destruct (Hf x Hx) as [H1 H2].
  split; [done|]. by apply Hk.
Qed.

(** Steps on the store that keep the file. *)
Definition keeps_file (x y : Artifacts.Store) : Prop := Artifacts.disk x !! path = Some e -> Artifacts.disk y !! path = Some e.

Lemma spares_files {A : Type} (p : program Artifacts.Store (option (ApiResult A))) : obeys keeps_file p -> spares (fun _ => True) (on_files p).
Proof using Henv.
  intros Hp w Hw. eapply secured_mono; [|apply (obeys_yields_secured env (fun _ _ => True) spared (fun x y => keeps_file (files x) (files y) /\ base y = base x) _ (fun _ => True))].
  - intros [[]|] w' [_ Hw']; by split.
  - exact Henv.
  - intros x y [H1 H2] [Hx Hj]. split; [|done]. split; [by apply H1|]. unfold queue. by rewrite H2.
  - eapply obeys_zoom; [|exact Hp]. by intros v s.
  - apply yields_any.
  - exact Hw.
Qed.

Lemma keeps_file_disk {A : Type} (f : Artifacts.Disk -> ApiResult A * Artifacts.Disk) :
  (forall d, d !! path = Some e -> (f d).2 !! path = Some e) -> obeys keeps_file (Artifacts.on_disk io f).
Proof using Type.
  intros Hf. split; [|done]. intros s Hs. destruct (io _); [done|]. specialize (Hf _ Hs). by destruct (f (Artifacts.disk s)).
Qed.

Lemma keeps_file_await {A : Type} (try : Artifacts.Store -> option (A * Artifacts.Store)) k :
  (forall s a s', try s = Some (a, s') -> Artifacts.disk s' = Artifacts.disk s) -> obeys keeps_file (await k try).
Proof using Type.
  intros Ht. induction k as [|k IH]; [done|]. split; [|by intros []]. intros s Hs. destruct (try s) as [[a s']|] eqn:E; [|done].
  simpl. by rewrite (Ht _ _ _ E).
Qed.

Lemma keeps_file_filter (P : Artifacts.Path * Artifacts.entry -> bool) : P (path, e) = false ->
  forall d : Artifacts.Disk, d !! path = Some e -> filter (fun f => P f = false) d !! path = Some e.
Proof using Type. intros HP d Hd. by apply map_lookup_filter_Some. Qed.

Lemma spares_query {A} (f : Db -> A) (φ : A -> Prop) :
  (forall w, spared w -> φ (f (db (queue w)))) -> spares φ (on_jobs (query f)).
Proof using Henv.
  intros Hf. eapply (spares_act _ _ (fun r => match r with Ok a => φ a | Err _ => True end)); [|by intros [] Hr; apply spares_ret].
  intros w Hw. split; [|by apply Hf]. destruct w as [[q c]]. exact Hw.
Qed.

(** A job's file is neither a shared blob nor a partial file. *)
Context (job : Uuid) (Hjob : Artifacts.below (Artifacts.job_root job) path = true).

Lemma job_path : exists q, path = "jobs" :: uuid_string job :: q.
Proof using Hjob. apply bool_decide_eq_true in Hjob as [q ->]. by exists q. Qed.

Lemma spares_remove i : ~ Artifacts.below (Artifacts.job_root i) path = true ->
  spares (fun _ => True) (on_files (Artifacts.remove_job io i)).
Proof using Henv.
  intros Hi. apply spares_files. apply obeys_bind; [|done]. apply keeps_file_disk. intros d Hd.
  apply (keeps_file_filter (fun f => Artifacts.below (Artifacts.job_root i) f.1)); [|done]. by apply not_true_is_false.
Qed.

Lemma spares_gc : spares (fun _ => True) (gc_shared_blobs worker io patience).
Proof using Henv Hjob.
  destruct job_path as [q Hq]. apply spares_files. apply obeys_bind; [by apply keeps_file_disk|]. intros [[u|]|]; [|done|done].
  apply obeys_bind; [apply obeys_bind; [apply keeps_file_await|done]|].
  { intros s a s'. destruct (_ || _); [done|]. by intros [= _ <-]. }
  intros [[u'|]|]; [|done|done]. apply obeys_bind; [|intros r; apply obeys_bind; [split; [by intros s Hs|done]|done]].
  apply obeys_bind; [apply obeys_bind; [by apply keeps_file_disk|]|].
  - intros [[refs|]|]; [|done|done]. apply keeps_file_disk. intros d Hd. apply (keeps_file_filter (Artifacts.orphan refs)); [|done].
    rewrite Hq. by destruct q as [|? []], e.
  - intros [[v|]|]; [|done|done]. apply keeps_file_disk. intros d Hd. apply (keeps_file_filter (fun f => Artifacts.is_partial f.1)); [|done].
    rewrite Hq. by destruct q.
Qed.

Lemma spares_usage : spares (fun _ => True) (usage io).
Proof using Henv. apply spares_files. by apply keeps_file_disk. Qed.

Lemma spares_release i : spares (fun _ => True) (on_jobs (exec (update_by_id i (fun _ => true) released_columns))).
Proof using Henv.
  eapply (spares_act _ _ (fun _ => True)); [|by intros [] _; apply spares_ret]. intros w [H1 H2]. split; [|done]. split; [exact H1|].
  intros k Hk. specialize (H2 k Hk). destruct w as [[q c]]. cbn in *. unfold step_db, update_by_id.
  destruct (jobs (db q) !! i) as [j|] eqn:Ej; [|exact H2]. destruct (row_valid _ _); [|exact H2]. destruct H2 as [H2|H2]; [by left|]. right.
  intros row. cbn. destruct (decide (k = i)) as [->|Hne].
  - rewrite lookup_insert_eq. intros [= <-]. exact (H2 j Ej).
  - rewrite lookup_insert_ne by done. apply H2.
Qed.

Lemma spares_remove_storage i : ~ Artifacts.below (Artifacts.job_root i) path = true -> spares (fun _ => True) (remove_job_storage io i).
Proof using Henv.
  intros Hi. eapply spares_do; [by apply spares_remove|]. intros u _. eapply spares_do; [apply spares_release|]. intros u' _. by apply spares_ret.
Qed.

(** Jobs that may be removed. *)
Definition removable (i : Uuid) : Prop := Some i = protected \/ ~ Artifacts.below (Artifacts.job_root i) path = true.

Lemma terminal_removable p w : spared w -> Forall removable (terminal_jobs p (db (queue w))).
Proof using Type.
  intros [_ H]. apply Forall_forall. intros i Hi. unfold terminal_jobs in Hi. apply list_elem_of_fmap in Hi as ([i' row] & -> & Hi).
  rewrite sort_by_perm in Hi. apply list_elem_of_In, filter_In in Hi as [Hin Ht]. apply list_elem_of_In, elem_of_map_to_list in Hin.
  apply andb_true_iff in Ht as [Ht _]. unfold removable. cbn [fst snd] in *. destruct (decide (Artifacts.below (Artifacts.job_root i') path = true)) as [Hb|Hb]; [|by right].
  left. destruct (H i' Hb) as [Hp|Hp]; [done|]. apply Hp in Hin. congruence.
Qed.

Lemma spares_expired l : Forall removable l -> spares (fun _ => True) (remove_expired io protected l).
Proof using Henv.
  induction 1 as [|i l Hi _ IH]; [by apply spares_ret|]. cbn [remove_expired]. eapply (spares_do (fun _ => True)); [|by intros u _].
  case_bool_decide as Hp; [by apply spares_ret|]. destruct Hi as [Hi|Hi]; [congruence|]. by apply spares_remove_storage.
Qed.

Lemma spares_until limit l : Forall removable l -> spares (fun _ => True) (remove_until worker io patience protected limit l).
Proof using Henv Hjob.
  induction 1 as [|i l Hi _ IH]; [by apply spares_ret|]. cbn [remove_until]. case_bool_decide as Hp; [exact IH|]. destruct Hi as [Hi|Hi]; [done|].
  eapply spares_do; [by apply spares_remove_storage|]. intros u _. eapply spares_do; [apply spares_gc|]. intros u' _.
  eapply spares_do; [apply spares_usage|]. intros used _. destruct (_ <=? _); [by apply spares_ret|exact IH].
Qed.

Lemma spares_read {A B} (f : World -> A) (k : A -> prog B) (ψ : B -> Prop) : (forall a, spares ψ (k a)) -> spares ψ (bind (read f) k).
Proof using Henv. intros Hk. eapply (spares_act _ _ (fun _ => True)); [done|by intros a _]. Qed.

Lemma spares_clean : spares (fun _ => True) (clean worker io patience protected).
Proof using Henv Hjob.
  apply spares_read. intros r. apply spares_read. intros now.
  eapply spares_do; [apply spares_query; intros w Hw; by apply terminal_removable|]. intros expired He.
  eapply spares_do; [by apply spares_expired|]. intros u _. eapply spares_do; [apply spares_gc|]. intros u' _.
  eapply spares_do; [apply spares_usage|]. intros used _. destruct (_ <=? _); [by apply spares_ret|].
  eapply spares_do; [apply spares_query; intros w Hw; by apply terminal_removable|]. intros candidates Hc. by apply spares_until.
Qed.

(** C27: The clean-up spares active jobs.  A file of a job's directory stays, with its
    content, through a whole clean-up, expiry, collection of shared blobs and removal
    of the oldest jobs included, as long as the jobs it belongs to are protected or have
    not ended; the environment may do anything else. *)
Theorem cleanup_spares w r w' :
  runs env (cleanup_storage worker io patience protected) w r w' -> spared w -> Artifacts.disk (files w') !! path = Some e.
Proof using Henv Hjob.
  intros Hr Hw. assert (spares (fun _ => True) (cleanup_storage worker io patience protected)) as Hc.
  { unfold cleanup_storage. destruct (is_some protected); [apply spares_clean|].
    eapply (spares_act _ _ (fun _ => True)).
    - intros x Hx. destruct (_ <? _); [done|]. split; [exact Hx|done].
    - intros [|] _; [apply spares_clean|by apply spares_ret]. }
  apply (secured_runs env (fun _ _ => True) env _ _ (fun x y H => H) w r w' (Hc w Hw) Hr).
Qed.
End Spared.

(** ** The quota *)

(** Errors of the store and of the database, not of the request. *)
Definition plain {A} (o : option (ApiResult A)) : Prop := match o with Some (Err (BadRequest _)) => False | _ => True end.
Abbreviation plainly p := (yields plain p).

Lemma plain_do {W A B} (p : program W (option (ApiResult A))) (k : A -> program W (option (ApiResult B))) :
  plainly p -> (forall a, plainly (k a)) -> plainly (do! a := p in k a).
Proof using Type. intros Hp Hk. eapply yields_bind; [exact Hp|]. intros [[a|x]|] Ho; [apply Hk|done|done]. Qed.

Lemma plain_zoom {V W A} (get : V -> W) (set : V -> W -> V) (Q : A -> Prop) (p : program W A) : yields Q p -> yields Q (zoom get set p).
Proof using Type. induction p as [a|X f k IH]; simpl; [done|]. intros H v. apply IH, H. Qed.

Lemma plain_disk {A : Type} (f : Artifacts.Disk -> ApiResult A * Artifacts.Disk) : (forall d, plain (Some (f d).1)) -> plainly (Artifacts.on_disk io f).
Proof using Type. intros Hf s. simpl. destruct (io _); [done|]. specialize (Hf (Artifacts.disk s)). by destruct (f (Artifacts.disk s)). Qed.

Lemma plain_exec {A} (f : Db -> result (A * Db) DbErr) : plainly (on_jobs (exec f)).
Proof using Type. intros w. simpl. unfold step_db. by destruct (f _) as [[]|]. Qed.

Lemma plain_query {A} (f : Db -> A) : plainly (on_jobs (query f)).
Proof using Type. by intros w. Qed.

Lemma plain_remove i : plainly (on_files (Artifacts.remove_job io i)).
Proof using Type.
  apply plain_zoom. eapply yields_bind; [by apply plain_disk|]. intros [[u|x]|] Ho; [done| |done]. destruct x; try done. by destruct (_ =?s _).
Qed.

Lemma plain_gc : plainly (gc_shared_blobs worker io patience).
Proof using Type.
  apply plain_zoom, plain_do; [by apply plain_disk|]. intros u. apply plain_do.
  - eapply yields_bind; [apply yields_any|]. by intros [].
  - intros u'. eapply yields_bind; [|intros r Hr; exact (fun _ => Hr)]. apply plain_do; [|by intros v; apply plain_disk].
    apply plain_do; [by apply plain_disk|]. intros refs. by apply plain_disk.
Qed.

Lemma plain_usage : plainly (usage io).
Proof using Type. apply plain_zoom. by apply plain_disk. Qed.

Lemma plain_remove_storage i : plainly (remove_job_storage io i).
Proof using Type. apply plain_do; [apply plain_remove|]. intros u. apply plain_do; [apply plain_exec|done]. Qed.

Lemma plain_until protected limit l : plainly (remove_until worker io patience protected limit l).
Proof using Type.
  induction l as [|i l IH]; [done|]. cbn [remove_until]. case_bool_decide; [exact IH|].
  apply plain_do; [apply plain_remove_storage|]. intros u. apply plain_do; [apply plain_gc|]. intros u'.
  apply plain_do; [apply plain_usage|]. intros used. by destruct (_ <=? _).
Qed.

Lemma plain_cleanup i : plainly (cleanup_storage worker io patience (Some i)).
Proof using Type.
  intros w1 w2. cbn [fst snd]. apply plain_do; [apply plain_query|]. intros expired. apply plain_do.
  - induction expired as [|x l IH]; [done|]. apply plain_do; [by case_bool_decide; [|apply plain_remove_storage]|done].
  - intros u. apply plain_do; [apply plain_gc|]. intros u'. apply plain_do; [apply plain_usage|]. intros used. destruct (_ <=? _); [done|].
    apply plain_do; [apply plain_query|]. intros l. apply plain_until.
Qed.

(** No file is left in a job's directory. *)
Definition no_files (i : Uuid) (w : World) : Prop :=
  forall p, Artifacts.below (Artifacts.job_root i) p = true -> Artifacts.disk (files w) !! p = None.

(** Nothing a step on the store or the tables does changes the settings. *)
Definition same_settings (x y : World) : Prop := runtime y = runtime x.

Lemma settings_files {A} (p : program Artifacts.Store A) : obeys same_settings (on_files p).
Proof using Type. eapply obeys_zoom; [|apply obeys_any]. by intros v s _. Qed.

Lemma settings_jobs {A} (p : program JobsWorld (ApiResult A)) : obeys same_settings (on_jobs p).
Proof using Type. apply obeys_bind; [|done]. eapply obeys_zoom; [|apply obeys_any]. by intros v s _. Qed.

Lemma settings_do {A B} (p : prog A) (k : A -> prog B) : obeys same_settings p -> (forall a, obeys same_settings (k a)) -> obeys same_settings (do! a := p in k a).
Proof using Type. intros Hp Hk. apply obeys_bind; [done|]. by intros [[]|]. Qed.

Lemma settings_remove i : obeys same_settings (remove_job_storage io i).
Proof using Type. apply settings_do; [apply settings_files|]. intros u. apply settings_do; [apply settings_jobs|done]. Qed.

Lemma settings_cleanup i : obeys same_settings (cleanup_storage worker io patience (Some i)).
Proof using Type.
  cbn [cleanup_storage is_some]. apply obeys_bind; [done|]. intros r. apply obeys_bind; [done|]. intros now.
  apply settings_do; [apply settings_jobs|]. intros expired. apply settings_do.
  - induction expired as [|x l IH]; [done|]. apply settings_do; [by case_bool_decide; [|apply settings_remove]|done].
  - intros u. apply settings_do; [apply settings_files|]. intros u'. apply settings_do; [apply settings_files|]. intros used.
    destruct (_ <=? _); [done|]. apply settings_do; [apply settings_jobs|]. intros l. induction l as [|x l IH]; [done|]. cbn [remove_until].
    case_bool_decide; [exact IH|]. apply settings_do; [apply settings_remove|]. intros v. apply settings_do; [apply settings_files|]. intros v'.
    apply settings_do; [apply settings_files|]. intros used'. by destruct (_ <=? _).
Qed.

Context (Hio : forall k, io k <> Some "NotFound") (i : Uuid).
Context (Henv : forall x y, env x y -> same_settings x y /\ (no_files i x -> no_files i y)).

(** Steps that keep a directory empty. *)
Definition keeps_empty (x y : World) : Prop := no_files i x -> no_files i y.

Lemma empty_gc : obeys keeps_empty (gc_shared_blobs worker io patience).
Proof using Type.
  eapply (obeys_zoom (fun x y => forall p, Artifacts.disk x !! p = None -> Artifacts.disk y !! p = None)).
  { intros v s H Hv p Hp. by apply H, Hv. }
  assert (forall {A : Type} (f : Artifacts.Disk -> ApiResult A * Artifacts.Disk), (forall d p, d !! p = None -> (f d).2 !! p = None) ->
    obeys (fun x y => forall p, Artifacts.disk x !! p = None -> Artifacts.disk y !! p = None) (Artifacts.on_disk io f)) as Hdisk.
  { intros A f Hf. split; [|done]. intros s p Hp. destruct (io _); [done|]. specialize (Hf _ _ Hp). by destruct (f (Artifacts.disk s)). }
  apply obeys_bind; [by apply Hdisk|]. intros [[u|]|]; [|done|done].
  apply obeys_bind; [apply obeys_bind; [|done]|].
  { generalize patience as k. intros k. induction k as [|k IH]; [done|]. split; [|by intros []]. intros s p Hp. by destruct (_ || _). }
  intros [[u'|]|]; [|done|done]. apply obeys_bind; [|intros r; by apply obeys_bind].
  assert (forall (P : Artifacts.Path * Artifacts.entry -> bool) (d : Artifacts.Disk) p, d !! p = None -> filter (fun f => P f = false) d !! p = None) as Hfilter.
  { intros P d p Hp. apply map_lookup_filter_None. by left. }
  apply obeys_bind; [apply obeys_bind; [by apply Hdisk|]|].
  - intros [[refs|]|]; [|done|done]. apply Hdisk. intros d p Hp. exact (Hfilter (Artifacts.orphan refs) d p Hp).
  - intros [[v|]|]; [|done|done]. apply Hdisk. intros d p Hp. exact (Hfilter (fun f => Artifacts.is_partial f.1) d p Hp).
Qed.

(** After its removal a job has no files. *)
Lemma removed w u w' : runs env (remove_job_storage io i) w (Some (Ok u)) w' -> no_files i w'.
Proof using Hio Henv.
  intros Hr. apply runs_bind_inv in Hr as (o & w1 & H1 & H2).
  assert (Hrtc : forall x y, rtc env x y -> no_files i x -> no_files i y).
  { induction 1 as [|x y z H _ IH]; [done|]. intros Hx. by apply IH, (Henv _ _ H). }
  assert (exists a, o = Some (Ok a)) as [a ->]. { destruct o as [[a|x]|]; [by exists a|by destruct H2|by destruct H2]. }
  assert (no_files i w1) as Hw1.
  { destruct H1 as (w0 & _ & H1). cbn [fst snd] in H1. specialize (Hio (Artifacts.ops (files w0))).
    destruct (io (Artifacts.ops (files w0))) as [kind|]; cbn [fst snd zoom bind] in H1; destruct H1 as [H1 S].
    - exfalso. destruct (str_eqb kind "NotFound") eqn:Ek; [|done]. apply str_eqb_eq in Ek. congruence.
    - eapply Hrtc; [exact S|]. intros p Hp. apply map_lookup_filter_None. right. intros x _ Hb. cbn in Hb. congruence. }
  apply runs_bind_inv in H2 as (o' & w2 & H2 & H3).
  assert (no_files i w2) as Hw2.
  { destruct H2 as (w0 & S & H2). destruct H2 as [_ S']. eapply Hrtc; [exact S'|]. intros p Hp. by apply (Hrtc _ _ S Hw1). }
  destruct o' as [[b|x]|]; destruct H3 as [_ S]; by eapply Hrtc.
Qed.

(** C26: The quota holds.  When a job passes the quota, the store was within the limit at a
    moment after which the job did nothing more; when it does not pass, no file is left
    in its directory.  The settings stay as they are meanwhile, nobody else puts files
    into the job's directory, and a missing file is reported only where there is none. *)
Theorem quota_enforced w res w' : runs env (enforce_storage_quota worker io patience i) w (Some res) w' ->
  match res with
  | Ok _ => exists w1, Artifacts.storage_usage_sync (Artifacts.disk (files w1)) <= Settings.ir_max_export_bytes (runtime w) /\
      rtc env (with_files w1 (Artifacts.counted (Artifacts.with_disk (files w1) (Artifacts.disk (files w1))))) w'
  | Err (BadRequest _) => no_files i w'
  | Err _ => True
  end.
Proof using Hio Henv.
  intros Hr. apply runs_bind_inv in Hr as (o & w1 & H1 & H2). pose proof (yields_runs _ _ _ (plain_cleanup i) _ _ _ H1) as Hp.
  assert (runtime w1 = runtime w) as Hs.
  { assert (rtc same_settings w w1) as S. { eapply runs_steps; [|apply settings_cleanup|exact H1]. intros x y H. by apply (Henv _ _ H). }
    clear -S. induction S as [|x y z H _ IH]; [done|]. by rewrite IH. }
  destruct o as [[u|x]|]; [|destruct H2 as [[= ->] _]; by destruct x|by destruct H2].
  destruct H2 as (w2 & S2 & H2). cbn [fst snd bind] in H2.
  assert (runtime w2 = runtime w) as Hs2.
  { rewrite <- Hs. clear -S2 Henv. induction S2 as [|x y z H _ IH]; [done|]. rewrite IH. by apply (Henv _ _ H). }
  apply runs_bind_inv in H2 as (o & w3 & H3 & H4). pose proof (yields_runs _ _ _ plain_usage _ _ _ H3) as Hp3.
  destruct o as [[used|x]|]; [|destruct H4 as [[= ->] _]; by destruct x|by destruct H4].
  destruct (used <=? _) eqn:Eu.
  - destruct H4 as [[= ->] S4]. destruct H3 as (w0 & S0 & H3). cbn [fst snd] in H3. destruct (io _); [by destruct H3|].
    destruct H3 as [[= ->] S3]. exists w0. rewrite Hs2 in Eu. split; [by apply Z.leb_le|]. etrans; [exact S3|exact S4].
  - apply runs_bind_inv in H4 as (o & w4 & H4 & H5). pose proof (yields_runs _ _ _ (plain_remove_storage i) _ _ _ H4) as Hp4.
    destruct o as [[v|x]|]; [|destruct H5 as [[= ->] _]; by destruct x|by destruct H5]. apply removed in H4.
    apply runs_bind_inv in H5 as (o & w5 & H5 & H6). pose proof (yields_runs _ _ _ plain_gc _ _ _ H5) as Hp5.
    assert (rtc keeps_empty w4 w5) as S5. { eapply runs_steps; [|apply empty_gc|exact H5]. intros x y H. exact (proj2 (Henv _ _ H)). }
    assert (no_files i w5) as Hw5. { clear -S5 H4. induction S5 as [|x y z H _ IH]; [done|]. apply IH, H, H4. }
    destruct o as [[v'|x]|]; [|destruct H6 as [[= ->] _]; by destruct x|by destruct H6]. destruct H6 as [[= ->] S6].
    clear -S6 Hw5 Henv. induction S6 as [|x y z H _ IH]; [done|]. by apply IH, (Henv _ _ H).
Qed.
End Cleaning.
End Quota.
