(* ===== verification/ImagesWitness.v ===== *)
(** * The pipelines at work

    Concrete runs of the pipelines of Images.v: two workers, one copying and one
    exporting the same image in turns; an image resolved through a node's index; a
    store within and over its quota. *)

From stdpp Require Import base gmap sets list strings relations.
From Stdlib Require Import ZArith Lia Ascii Strings.Byte.
From S2P Require Import Prelude F64 Text Errors Model Prog Threads Files Http.
From S2P Require Import Scheduling Security Tables Routes Crypto Nodes Jobs Settings Tools ToolsProps Artifacts StoreProps Images ImagesProps Quota.

Module ImagesWitness.
Import Oci Images StoreProps ImagesProps.

(** A hash with three values. *)
Fixpoint repeated (n : nat) (c : ascii) : string := match n with O => EmptyString | S n => String c (repeated n c) end.
Definition config_bytes : bytes := String.list_byte_of_string "{config}".
Definition layer_bytes : bytes := String.list_byte_of_string "layer".
Definition manifest_bytes : bytes := String.list_byte_of_string "manifest".
Definition index_bytes : bytes := String.list_byte_of_string "index".
Definition same (x y : bytes) : bool := String.string_of_list_byte x =?s String.string_of_list_byte y.
Definition hash (b : bytes) : string :=
  repeated 64 (if same b config_bytes then "a" else if same b layer_bytes then "b"
               else if same b manifest_bytes then "c" else "d")%char.
Definition sha (b : bytes) : string := "sha256:" +:+ hash b.

Definition image : ImageManifest :=
  {| m_media_type := None; config := {| media_type := "config"; digest := sha config_bytes; size := blen config_bytes |};
     layers := [{| media_type := "layer"; digest := sha layer_bytes; size := blen layer_bytes |}]; rest := "" |}.
Definition entries : list IndexEntry :=
  [{| e_digest := sha index_bytes; platform := Some ("windows", "amd64") |}; {| e_digest := sha manifest_bytes; platform := Some ("linux", "amd64") |}].

Definition parse_manifest (b : bytes) : result Manifest string :=
  if same b manifest_bytes then Ok (Image image)
  else if same b index_bytes then Ok (ImageIndex entries) else Err "not a manifest".
Definition parse_reference (s : string) : option Reference :=
  Some {| resolve_registry := if s =?s "mirror" then "https://registry.example" else "quay.io"; repository := s; tag := None; ref_digest := None |}.

(** What is asked for by its digest. *)
Definition content (dg : string) : option bytes :=
  List.find (fun b => sha b =?s dg) [config_bytes; layer_bytes; manifest_bytes].
Definition oci_manifest (_ : nat) (_ : Direct) : result (ImageManifest * string * option string) string := Ok (image, sha manifest_bytes, None).
Definition oci_blob (_ : nat) (_ : Direct) (d : Descriptor) : result (list Http.frame) string :=
  match content (digest d) with Some b => Ok [Data b] | None => Err "unknown blob" end.
(** A destination that has the layer already. *)
Definition oci_dest (_ : nat) (_ : Reference) (op : DestOp) : result bool string :=
  Ok (match op with BlobExists dg => dg =?s sha layer_bytes | _ => true end).

Definition answer (b : bytes) : Response :=
  {| r_status := 200; r_headers := []; r_content_length := None; r_body := [Data b] |}.
Definition send (_ : nat) (_ : NodeView) (_ : Method) (path : string) (_ : HeaderMap) (_ : RangeMode) : ApiResult Response :=
  if path =?s "/v2/app/manifests/latest" then Ok (answer index_bytes)
  else if path =?s ("/v2/app/manifests/" +:+ sha manifest_bytes) then Ok (answer manifest_bytes)
  else if path =?s ("/v2/app/blobs/" +:+ sha config_bytes) then Ok (answer config_bytes)
  else Err (Upstream "not found").

Definition input (k : string) (node : option Uuid) : JobInput :=
  {| kind := k; source_ref := "app"; source_node_id := node; source_credential_id := None;
     destination_ref := Some "mirror"; destination_credential_id := Some 4%N; platform_os := "linux"; platform_arch := "amd64";
     output_format := None |}.

Definition start : World :=
  {| base := ToolsWitness.stored; files := {| Artifacts.disk := ∅; Artifacts.writers := []; Artifacts.collecting := None; Artifacts.locked := ∅; Artifacts.ops := 0 |};
     service := NodesWitness.staffed; runtime := {| Settings.ir_max_export_bytes := 1000; Settings.ir_export_ttl := 3600 |};
     last_cleanup := 0; calls := 0; sent := [] |}.

Definition lease (_ : nat) : ApiResult unit := Ok tt.
Definition no_fault (_ : nat) : option string := None.

Abbreviation workers := (fun copies : bool => if copies then 20%N else 10%N).
Abbreviation ids := (fun copies : bool => if copies then 2%N else 1%N).
Abbreviation threads endings := (job_thread hash (fun _ => true) parse_reference parse_manifest (fun _ => manifest_bytes) (fun _ _ _ => index_bytes)
  (fun _ => "") lease send (fun x => x) Scheduling.Balanced SecurityWitness.authority oci_manifest oci_blob oci_dest
  ToolsWitness.host_url (fun _ => None) NodesWitness.toy_prims (Some tt) no_fault 5 (fun _ _ _ => Ok []) (fun _ => Ok []) (fun _ => Ok [])
  workers ids (fun copies : bool => input (if copies then "copy" else "export") None) endings).

Fixpoint turns (n : nat) : list bool := match n with O => [] | S n => true :: false :: turns n end.
Definition finish : World := (pool_exec (turns 120) start (threads (fun _ => Finishes))).1.

#[local] Instance workers_inj : Inj eq eq workers.
Proof. by intros [] []. Qed.

Lemma ids_distinct m n : uuid_string (ids m) = uuid_string (ids n) -> m = n.
Proof. destruct m, n; try done; intros E; vm_compute in E; discriminate E. Qed.

Lemma client_verifies : sdk_verifies hash oci_blob.
Proof.
  intros n s d l v. unfold oci_blob, content. destruct (List.find _ _) as [b|] eqn:E; [|done]. apply find_some in E as [_ E].
  apply str_eqb_eq in E. rewrite <- E. intros [= <-] Hv _. cbn [body_data]. rewrite app_nil_r. by apply sha256_value_eq.
Qed.

Lemma start_idle n : idle hash workers ids n (files start).
Proof.
  split; [|by destruct n]. constructor; [|by intros []|intros g Hg; by apply not_elem_of_nil in Hg].
  intros v e. cbn. by rewrite lookup_empty.
Qed.

Lemma start_sound n : sound hash (own_log ids n start).
Proof. intros l1 e l2 E. destruct n, l1; discriminate E. Qed.

(** Two workers in turns: the exporting one leaves verified blobs, while the copying one
    sends its manifest. *)
Lemma shared_blobs_verified_witness :
  Artifacts.disk (files finish) !! Artifacts.shared_path (hash layer_bytes) = Some (Artifacts.Regular layer_bytes) /\
  blobs_ok hash (Artifacts.disk (files finish)) /\ length (own_log ids true finish) = 5%nat /\ sound hash (own_log ids true finish).
Proof.
  split; [vm_compute; reflexivity|].
  refine ((fun H => conj (proj1 H) (conj _ (proj2 (proj2 H)))) (shared_blobs_verified hash (fun _ => true) parse_reference parse_manifest
    (fun _ => manifest_bytes) (fun _ _ _ => index_bytes) (fun _ => "") lease send (fun x => x) Scheduling.Balanced SecurityWitness.authority
    oci_manifest oci_blob oci_dest ToolsWitness.host_url (fun _ => None) NodesWitness.toy_prims (Some tt) no_fault 5 (fun _ _ _ => Ok []) (fun _ => Ok [])
    (fun _ => Ok []) workers ids workers_inj ids_distinct client_verifies (fun copies : bool => input (if copies then "copy" else "export") None)
    (fun _ => Finishes) (fun _ _ => False) (fun n x y H => match H with end) start _ finish _ _ true)).
  - vm_compute. reflexivity.
  - apply pool_exec_run.
  - intros n. split; [apply start_idle|apply start_sound].
Defined.

Abbreviation copies := (process_job 20 no_fault 5 hash (fun _ => true) parse_reference parse_manifest (fun _ => manifest_bytes) (fun _ _ _ => index_bytes)
  (fun _ => "") lease send (fun x => x) Scheduling.Balanced SecurityWitness.authority oci_manifest oci_blob oci_dest
  ToolsWitness.host_url (fun _ => None) NodesWitness.toy_prims (Some tt) (fun _ _ _ => Ok []) (fun _ => Ok []) (fun _ => Ok []) 2 (input "copy" None)).



Abbreviation resolve job := (resolve_image hash (fun _ => true) parse_reference parse_manifest (fun _ => "") lease send (fun x => x) Scheduling.Balanced
  SecurityWitness.authority oci_manifest oci_blob ToolsWitness.host_url (fun _ => None) NodesWitness.toy_prims (Some tt) job).

(** Through the index of a node. *)
Lemma resolved_image_verified_witness :
  match (run (resolve (input "export" (Some 9%N))) start).1 with
  | Some (Ok r) => pulled_index_digest (pulled r) = Some (sha index_bytes) /\ sha (config_json (pulled r)) = digest (config (manifest (pulled r)))
  | _ => False
  end.
Proof.
  destruct (run (resolve (input "export" (Some 9%N))) start) as [o w'] eqn:E. cbn [fst].
  assert (exists r, o = Some (Ok r) /\ pulled_index_digest (pulled r) = Some (sha index_bytes)) as (r & -> & Hi).
  { assert (o = (run (resolve (input "export" (Some 9%N))) start).1) as -> by (rewrite E; reflexivity). eexists. split; vm_compute; reflexivity. }
  split; [exact Hi|].
  destruct (resolved_image_verified hash (fun _ => true) parse_reference parse_manifest (fun _ => "") lease send (fun x => x) Scheduling.Balanced
    SecurityWitness.authority oci_manifest oci_blob ToolsWitness.host_url (fun _ => None) NodesWitness.toy_prims (Some tt)
    (fun _ _ => False) (input "export" (Some 9%N)) _ 9%N start r w' eq_refl eq_refl) as (_ & Hc & _).
  - apply run_runs. exact E.
  - symmetry. exact Hc.
Defined.

(** ** What the invariant needs *)

(** Two workers on one job, a stale one and its successor, share the partial file: the
    successor empties it after the stale one has verified it and before it commits it, and
    an empty blob gets the layer's name. *)
Abbreviation one_job := (job_thread hash (fun _ => true) parse_reference parse_manifest (fun _ => manifest_bytes) (fun _ _ _ => index_bytes)
  (fun _ => "") lease send (fun x => x) Scheduling.Balanced SecurityWitness.authority oci_manifest oci_blob oci_dest
  ToolsWitness.host_url (fun _ => None) NodesWitness.toy_prims (Some tt) no_fault 5 (fun _ _ _ => Ok []) (fun _ => Ok []) (fun _ => Ok [])
  workers (fun _ => 1%N) (fun _ : bool => input "export" None) (fun _ => Finishes)).

Lemma stale_worker_publishes :
  Artifacts.disk (files (pool_exec (replicate 28 true ++ replicate 18 false ++ replicate 4 true) start one_job).1) !!
    Artifacts.shared_path (hash layer_bytes) = Some (Artifacts.Regular []).
Proof. vm_compute. reflexivity. Qed.

Abbreviation exports := (process_job 10 no_fault 5 hash (fun _ => true) parse_reference parse_manifest (fun _ => manifest_bytes) (fun _ _ _ => index_bytes)
  (fun _ => "") lease send (fun x => x) Scheduling.Balanced SecurityWitness.authority oci_manifest oci_blob oci_dest
  ToolsWitness.host_url (fun _ => None) NodesWitness.toy_prims (Some tt) (fun _ _ _ => Ok []) (fun _ => Ok []) (fun _ => Ok []) 1 (input "export" None)).

(** A collection by another worker between the commit of a blob and its link from the
    job's layout removes the blob, and the job fails. *)
Definition collect_at (k n : nat) (w : World) : World :=
  if (n =? k)%nat then (run (gc_shared_blobs 20 no_fault 5) w).2 else w.

Lemma collected_too_early :
  (run exports start).1 = Some (Ok OutcomeCompleted) /\ (run_with (collect_at 33) 0 exports start).1 = Some (Err (Io "NotFound")).
Proof. split; vm_compute; reflexivity. Qed.

(** ** The quota *)

Import Quota.

(** A running job and one that has ended, each with a file, and room for [limit] bytes. *)
Definition running : image_job := assign_all [SetStatus "running"] (pending_job (input "export" None) JobKind.Export None 0).
Definition ended : image_job := assign_all [SetStatus "completed"; SetFinishedAt (Some 1)] (pending_job (input "export" None) JobKind.Export None 0).
Definition file_of (i : Uuid) : Artifacts.Path := Artifacts.job_root i ++ ["app.docker.tar"].
Definition crowded (limit : Z) : World :=
  {| base := Tools.with_tables (base start) (with_jobs (Tools.tables (base start)) {[1%N := running; 3%N := ended]});
     files := {| Artifacts.disk := {[file_of 1 := Artifacts.Regular manifest_bytes; file_of 3 := Artifacts.Regular layer_bytes]};
                 Artifacts.writers := []; Artifacts.collecting := None; Artifacts.locked := ∅; Artifacts.ops := 0 |};
     service := service start; runtime := {| Settings.ir_max_export_bytes := limit; Settings.ir_export_ttl := 3600 |};
     last_cleanup := -100000000000; calls := 0; sent := [] |}.

(** The ended job goes, the running one stays. *)
Lemma cleanup_spares_witness :
  let w' := (run (cleanup_storage 20 no_fault 5 None) (crowded 10)).2 in
  Artifacts.disk (files w') !! file_of 3 = None /\ Artifacts.disk (files w') !! file_of 1 = Some (Artifacts.Regular manifest_bytes).
Proof.
  split; [vm_compute; reflexivity|].
  refine (cleanup_spares 20 no_fault 5 (fun _ _ => False) (file_of 1) (Artifacts.Regular manifest_bytes) None (fun x y H => match H with end) 1 _
    (crowded 10) (run (cleanup_storage 20 no_fault 5 None) (crowded 10)).1 _ _ _).
  - vm_compute. reflexivity.
  - apply run_runs. apply surjective_pairing.
  - split; [vm_compute; reflexivity|]. intros i Hi. right. intros row Hr. cbn in Hr. apply lookup_insert_Some in Hr as [[<- <-]|[_ Hr]]; [reflexivity|].
    apply lookup_singleton_Some in Hr as [<- _]. vm_compute in Hi. discriminate Hi.
Defined.

Abbreviation enforced limit := (run (enforce_storage_quota 10 no_fault 5 1) (crowded limit)).

Lemma enforced_within : (enforced 10).1 = Some (Ok tt).
Proof. vm_compute. reflexivity. Qed.
Lemma enforced_over : (enforced 5).1 = Some (Err (BadRequest "image tools storage exceeds DONKEY_MAX_EXPORT_BYTES")).
Proof. vm_compute. reflexivity. Qed.

Lemma quota_enforced_witness :
  Artifacts.storage_usage_sync (Artifacts.disk (files (enforced 10).2)) = 8 /\ no_files 1 (enforced 5).2.
Proof.
  split; [vm_compute; reflexivity|].
  refine (quota_enforced 10 no_fault 5 (fun _ _ => False) _ 1 (fun x y H => match H with end) (crowded 5)
    (Err (BadRequest "image tools storage exceeds DONKEY_MAX_EXPORT_BYTES")) (enforced 5).2 _).
  - discriminate.
  - apply run_runs. rewrite <- enforced_over. apply surjective_pairing.
Defined.
End ImagesWitness.
