(* ===== verification/Browser.v ===== *)
(** * Browsing the files of an extracted image

    src/src/image_tools/files.rs and the handlers of src/src/image_tools.rs that list
    and serve artifacts.  A file system is a map from absolute paths, as lists of
    names, to directories, files and symbolic links; [resolve] is the resolution of a
    path by the operating system, which follows at most [links] links. *)

From stdpp Require Import base gmap sets list strings.
From Stdlib Require Import ZArith Lia Ascii Strings.Byte.
From S2P Require Import Prelude Text Errors Files Jobs.

Module Browser.
#[local] Open Scope Z_scope.

(** ** Paths *)

Record PathBuf := { absolute : bool; parts : list string; trailing : bool }.

(** [Path::components]: empty parts and single dots are dropped. *)
Definition is_part (c : string) : bool := negb (is_empty c || (c =?s ".")).

Definition path_of (s : string) : PathBuf :=
  let l := split_char "/"%char s in
  {| absolute := starts_with "/" s; parts := List.filter is_part l; trailing := negb (is_part (List.last l "")) |}.

(** [Path::join]. *)
Definition join (a b : PathBuf) : PathBuf :=
  if absolute b then b else {| absolute := absolute a; parts := parts a ++ parts b; trailing := trailing b |}.

Inductive node := Directory | Plain (b : bytes) | Link (target : string).
Record FileSystem := { working : list string; nodes : gmap (list string) node }.

Fixpoint strip (prefix p : list string) : option (list string) :=
  match prefix, p with
  | [], p => Some p
  | a :: prefix, b :: p => if a =?s b then strip prefix p else None
  | _ :: _, [] => None
  end.

Section Fs.
Variable fs : FileSystem.

Definition node_at (p : list string) : option node := match p with [] => Some Directory | _ => nodes fs !! p end.

Fixpoint resolve (links : nat) : list string -> list string -> ApiResult (list string) :=
  fix walk (here rest : list string) {struct rest} : ApiResult (list string) :=
    match rest with
    | [] => Ok here
    | c :: rest =>
        if c =?s ".." then walk (removelast here) rest
        else
          match node_at (here ++ [c]) with
          | None => Err not_found
          | Some Directory => walk (here ++ [c]) rest
          | Some (Plain _) => match rest with [] => Ok (here ++ [c]) | _ => Err (Io "NotADirectory") end
          | Some (Link target) =>
              match links with
              | O => Err (Io "FilesystemLoop")
              | S links => let t := path_of target in resolve links (if absolute t then [] else here) (parts t ++ rest)
              end
          end
    end.

Definition is_directory (p : list string) : bool := match node_at p with Some Directory => true | _ => false end.

Definition canonicalize (p : PathBuf) : ApiResult (list string) :=
  let? c := resolve 40 (if absolute p then [] else working fs) (parts p) in
  if trailing p && negb (is_directory c) then Err (Io "NotADirectory") else Ok c.

(** ** The browser *)

Definition safe_join (root : PathBuf) (relative : string) : ApiResult (list string) :=
  let r := path_of relative in
  if absolute r || existsb (fun c => c =?s "..") (parts r) then Err (BadRequest "invalid image file path")
  else
    let? canonical_root := canonicalize root in
    let? canonical := canonicalize (join root r) in
    if is_none (strip canonical_root canonical) then Err Forbidden else Ok canonical.

Record FileEntry := { f_path : string; f_name : string; f_kind : string; f_size : Z }.

(** [symlink_metadata]: the kind, and the length, which for a directory the file system
    chooses. *)
Context (directory_size : list string -> Z).
Definition kind_of (n : node) : string := match n with Directory => "directory" | Link _ => "symlink" | Plain _ => "file" end.
Definition size_of (p : list string) (n : node) : Z :=
  match n with Directory => directory_size p | Plain b => blen b | Link t => slen t end.

Definition forward (c : ascii) : ascii := if Ascii.eqb c "\"%char then "/"%char else c.

Definition relative_path (root : PathBuf) (p : list string) : ApiResult string :=
  if absolute root
  then let? r := ok_or (strip (parts root) p) (Internal "prefix not found") in Ok (smap forward (String.concat "/" r))
  else Err (Internal "prefix not found").

Definition entry_of (root : PathBuf) (dir : list string) (name : string) (n : node) : ApiResult FileEntry :=
  let? relative := relative_path root (dir ++ [name]) in
  Ok {| f_path := relative; f_name := name; f_kind := kind_of n; f_size := size_of (dir ++ [name]) n |}.

(** [read_dir]. *)
Definition children (dir : list string) : list (string * node) :=
  omap (fun f : list string * node => match strip dir f.1 with Some [name] => Some (name, f.2) | _ => None end) (map_to_list (nodes fs)).

Fixpoint entries_of (root : PathBuf) (dir : list string) (l : list (string * node)) : ApiResult (list FileEntry) :=
  match l with
  | [] => Ok []
  | (name, n) :: l =>
      let? e := entry_of root dir name n in
      let? es := entries_of root dir l in
      Ok (e :: es)
  end.

Definition entry_order (a b : FileEntry) : comparison := then_cmp (String.compare (f_kind a) (f_kind b)) (String.compare (f_name a) (f_name b)).

Definition list_dir (root : PathBuf) (relative : string) : ApiResult (list FileEntry) :=
  let? directory := safe_join root relative in
  if negb (is_directory directory) then Err (Io "NotADirectory")
  else let? entries := entries_of root directory (children directory) in Ok (sort_by entry_order entries).

Definition regular_only : AppError := BadRequest "only regular files can be downloaded".

(** What [ServeFile] is given: the path, and the content of the file there. *)
Definition serve_file (root : PathBuf) (relative : string) : ApiResult (list string * bytes) :=
  let? p := safe_join root relative in
  match node_at p with
  | None => Err not_found
  | Some (Plain b) => Ok (p, b)
  | Some _ => Err regular_only
  end.

(** ** The handlers *)

Definition completed_job (d : Db) (i : Uuid) : ApiResult image_job :=
  let? job := ok_or (jobs d !! i) (NotFound "image job") in
  if negb (job_status job =?s "completed") then Err (BadRequest "image job is not completed") else Ok job.

(** [Path::is_dir], [Path::is_file]. *)
Definition is_dir (p : PathBuf) : bool := match canonicalize p with Ok c => is_directory c | Err _ => false end.
Definition file_at (p : PathBuf) : option bytes :=
  match canonicalize p with
  | Ok c => match node_at c with Some (Plain b) => Some b | _ => None end
  | Err _ => None
  end.

Definition extracted_root (d : Db) (i : Uuid) : ApiResult PathBuf :=
  let? job := completed_job d i in
  ok_or (let* path := artifact_path job in if is_dir (path_of path) then Some (path_of path) else None) (NotFound "extracted image").

Definition list_files (d : Db) (i : Uuid) (path : string) : ApiResult (list FileEntry) :=
  let? root := extracted_root d i in
  list_dir root path.

Definition download_file (d : Db) (i : Uuid) (path : string) : ApiResult (list string * bytes) :=
  let? root := extracted_root d i in
  serve_file root path.

(** [HeaderValue::from_str]. *)
Definition value_byte (c : ascii) : bool := Ascii.eqb c (ascii_of_nat 9) || (between 32 255 c && negb (Ascii.eqb c (ascii_of_nat 127))).
Definition quote_safe (c : ascii) : ascii :=
  if Ascii.eqb c (ascii_of_nat 34) || Ascii.eqb c (ascii_of_nat 13) || Ascii.eqb c (ascii_of_nat 10) then "_"%char else c.
Definition attachment (name : string) : string := "attachment; filename=" +:+ chr 34 +:+ smap quote_safe name +:+ chr 34.

Definition serve_artifact (content : bytes) (name : option string) : ApiResult (bytes * option string) :=
  match name with
  | None => Ok (content, None)
  | Some name => if all_bytes value_byte (attachment name) then Ok (content, Some (attachment name)) else Err (Internal "failed to parse header value")
  end.

Definition download_artifact (d : Db) (i : Uuid) : ApiResult (bytes * option string) :=
  let? job := completed_job d i in
  let? content := ok_or (let* path := artifact_path job in file_at (path_of path)) (NotFound "image artifact") in
  serve_artifact content (artifact_name job).

(** ** Real paths *)

(** A path without links: directories on the way, and no link at its end. *)
Definition on_the_way (p : list string) : Prop := forall q r, p = q ++ r -> r <> [] -> node_at q = Some Directory.
Definition real (p : list string) : Prop :=
  on_the_way p /\ match node_at p with Some Directory | Some (Plain _) => True | _ => False end.
Definition real_dir (p : list string) : Prop := on_the_way p /\ node_at p = Some Directory.

Lemma real_dir_real p : real_dir p -> real p.
Proof using Type. intros [H1 H2]. split; [done|]. by rewrite H2. Qed.

Lemma way_snoc p c : real_dir p -> on_the_way (p ++ [c]).
Proof using Type.
  intros [H1 H2] q r E Hr. destruct r as [|x r _] using rev_ind; [done|]. rewrite app_assoc in E. apply app_inj_tail in E as [-> _].
  destruct r as [|y r]; [by rewrite app_nil_r in H2|]. by eapply H1.
Qed.

Lemma root_real : real_dir [].
Proof using Type. split; [|done]. intros [|] [|]; done. Qed.

Lemma parent_real p : real_dir p -> real_dir (removelast p).
Proof using Type.
  intros [H1 H2]. destruct p as [|c p _] using rev_ind; [done|]. rewrite removelast_last. split; [|by eapply H1].
  intros q r -> Hr. apply (H1 q (r ++ [c])); [by rewrite app_assoc|by destruct r].
Qed.

Lemma resolve_real links : forall here rest p, real_dir here -> resolve links here rest = Ok p -> real p.
Proof using Type.
  induction links as [|links IHl]; intros here rest; revert here; induction rest as [|c rest IH]; intros here p Hh; cbn [resolve].
  1,3: intros [= <-]; by apply real_dir_real.
  all: destruct (_ =?s _); [by apply IH, parent_real|]; destruct (node_at (here ++ [c])) as [[|b|t]|] eqn:E; [| | |done].
  1,4: apply IH; by split; [apply way_snoc|].
  1,3: destruct rest; [|done]; intros [= <-]; split; [by apply way_snoc|by rewrite E].
  - done.
  - apply IHl. destruct (absolute _); [apply root_real|done].
Qed.

Context (Hworking : real_dir (working fs)).

Lemma canonicalize_real p c : canonicalize p = Ok c -> real c.
Proof using Hworking.
  unfold canonicalize. destruct (resolve 40 _ _) as [c'|] eqn:E; [|done]. destruct (_ && _); [done|]. intros [= <-].
  eapply resolve_real; [|exact E]. destruct (absolute p); [apply root_real|done].
Qed.

Lemma strip_Some prefix p r : strip prefix p = Some r <-> p = prefix ++ r.
Proof using Type.
  revert p. induction prefix as [|a prefix IH]; intros p; simpl; [split; [by intros [= ->]|by intros ->]|].
  destruct p as [|b p]; [done|]. destruct (a =?s b) eqn:E.
  - apply str_eqb_eq in E as ->. rewrite IH. split; [by intros ->|by intros [= ->]].
  - split; [done|]. intros [= -> _]. by rewrite str_eqb_refl in E.
Qed.

Lemma safe_join_Ok root relative p : safe_join root relative = Ok p ->
  exists base r, canonicalize root = Ok base /\ p = base ++ r /\ real base /\ real p.
Proof using Hworking.
  unfold safe_join. destruct (_ || _); [done|]. destruct (canonicalize root) as [base|] eqn:E1; [|done].
  destruct (canonicalize (join root _)) as [c|] eqn:E2; [|done]. destruct (strip base c) as [r|] eqn:Es; [|done]. intros [= <-].
  apply strip_Some in Es. exists base, r. split; [done|]. split; [done|]. split; by eapply canonicalize_real.
Qed.

Lemma children_elem dir name n : (name, n) ∈ children dir -> nodes fs !! (dir ++ [name]) = Some n.
Proof using Type.
  unfold children. rewrite list_elem_of_omap. intros ([p n'] & Hin & E). apply elem_of_map_to_list in Hin. cbn [fst snd] in *.
  destruct (strip dir p) as [[|x []]|] eqn:Es; try done. injection E as -> ->. apply strip_Some in Es as ->. done.
Qed.

Lemma entries_elem root dir l es e : entries_of root dir l = Ok es -> e ∈ es -> exists name n, (name, n) ∈ l /\ entry_of root dir name n = Ok e.
Proof using Type.
  revert es. induction l as [|[name n] l IH]; intros es; simpl; [intros [= <-] H; by apply not_elem_of_nil in H|].
  destruct (entry_of root dir name n) as [e'|] eqn:E; [|done]. destruct (entries_of root dir l) as [es'|]; [|done]. intros [= <-].
  intros [->|He]%elem_of_cons; [exists name, n; split; [left|done]|]. destruct (IH _ eq_refl He) as (x & m & Hin & H). exists x, m. split; [by right|done].
Qed.

Lemma list_dir_elem root relative es e : list_dir root relative = Ok es -> e ∈ es ->
  exists dir name n, safe_join root relative = Ok dir /\ node_at dir = Some Directory /\ nodes fs !! (dir ++ [name]) = Some n /\ entry_of root dir name n = Ok e.
Proof using Type.
  unfold list_dir. destruct (safe_join root relative) as [dir|]; [|done]. unfold is_directory. destruct (node_at dir) as [[| |]|] eqn:Ed; try done.
  simpl. destruct (entries_of root dir (children dir)) as [l|] eqn:E; [|done]. intros [= <-]. rewrite sort_by_perm. intros He.
  destruct (entries_elem _ _ _ _ _ E He) as (name & n & Hin & H). exists dir, name, n. split; [done|]. split; [done|]. split; [by apply children_elem|done].
Qed.

(** C30: Browsing stays inside the image.  A file that is served belongs to a completed
    job: it lies below the directory of the job's artifact, with real directories, never
    links, on the whole way from the root of the file system, and what is served is its
    content.  A listing shows entries of such a directory, each with its kind. *)
Theorem browser_confined d i path :
  (forall p b, download_file d i path = Ok (p, b) -> exists job artifact base r,
     jobs d !! i = Some job /\ job_status job = "completed" /\ artifact_path job = Some artifact /\
     canonicalize (path_of artifact) = Ok base /\ p = base ++ r /\ real base /\ real p /\ node_at p = Some (Plain b)) /\
  (forall es e, list_files d i path = Ok es -> e ∈ es -> exists job artifact base r name n,
     jobs d !! i = Some job /\ job_status job = "completed" /\ artifact_path job = Some artifact /\
     canonicalize (path_of artifact) = Ok base /\ real base /\ real_dir (base ++ r) /\
     nodes fs !! (base ++ r ++ [name]) = Some n /\ f_name e = name /\ f_kind e = kind_of n).
Proof using Hworking.
  assert (forall root, extracted_root d i = Ok root -> exists job artifact, jobs d !! i = Some job /\ job_status job = "completed" /\
    artifact_path job = Some artifact /\ root = path_of artifact) as Hroot.
  { intros root. unfold extracted_root, completed_job. destruct (jobs d !! i) as [job|]; [|done]. cbn [ok_or].
    destruct (negb _) eqn:Es; [done|]. apply negb_false_iff, str_eqb_eq in Es. destruct (artifact_path job) as [a|] eqn:Ea; [|done].
    destruct (is_dir (path_of a)); [|done]. intros [= <-]. by exists job, a. }
  split.
  - intros p b. unfold download_file. destruct (extracted_root d i) as [root|]; [|done]. destruct (Hroot _ eq_refl) as (job & a & H1 & H2 & H3 & ->).
    unfold serve_file. destruct (safe_join _ path) as [p'|] eqn:E; [|done]. destruct (safe_join_Ok _ _ _ E) as (base & r & H4 & -> & H5 & H6).
    destruct (node_at (base ++ r)) as [[|b'|]|] eqn:En; try done. intros [= <- <-]. by exists job, a, base, r.
  - intros es e. unfold list_files. destruct (extracted_root d i) as [root|]; [|done]. destruct (Hroot _ eq_refl) as (job & a & H1 & H2 & H3 & ->).
    intros Hl He. destruct (list_dir_elem _ _ _ _ Hl He) as (dir & name & n & Ej & Ed & En & Ee). destruct (safe_join_Ok _ _ _ Ej) as (base & r & H4 & -> & H5 & [H6 _]).
    exists job, a, base, r, name, n. rewrite <- app_assoc in En. unfold entry_of in Ee. destruct (relative_path _ _); [|done]. injection Ee as <-.
    repeat (split; [done|]). done.
Qed.

(** C32: Only an absolute root can be listed.  With a relative root, as the default data
    directory gives, every listing that succeeds is empty, since the entries' absolute
    paths never start with it. *)
Theorem relative_root_unlistable root relative es : absolute root = false -> list_dir root relative = Ok es -> es = [].
Proof using Type.
  intros Ha Hl. destruct es as [|e es]; [done|]. destruct (list_dir_elem _ _ _ e Hl ltac:(left)) as (dir & name & n & _ & _ & _ & Ee).
  unfold entry_of, relative_path in Ee. by rewrite Ha in Ee.
Qed.

(** ** From a listing to its files *)

Definition name_ok (c : string) : Prop := is_part c = true /\ (c =?s "..") = false /\ absent "/"%char c = true /\ absent "\"%char c = true.

Context (Hnames : forall p n, nodes fs !! p = Some n -> Forall name_ok p).

Lemma node_names p n : node_at p = Some n -> Forall name_ok p.
Proof using Hnames. destruct p; [done|]. apply Hnames. Qed.

Lemma resolve_id links : forall rest here, Forall name_ok rest -> real_dir here -> real (here ++ rest) -> resolve links here rest = Ok (here ++ rest).
Proof using Type.
  induction rest as [|c rest IH]; intros here Hr Hh Hp.
  - rewrite app_nil_r. by destruct links.
  - inversion Hr as [|? ? (_ & Hc & _) Hr']; subst. assert (here ++ c :: rest = (here ++ [c]) ++ rest) as E by (by rewrite <- app_assoc).
    rewrite E in *. assert (resolve links here (c :: rest) = match node_at (here ++ [c]) with
      | None => Err not_found
      | Some Directory => resolve links (here ++ [c]) rest
      | Some (Plain _) => match rest with [] => Ok (here ++ [c]) | _ => Err (Io "NotADirectory") end
      | Some (Link t) => match links with O => Err (Io "FilesystemLoop") | S links => resolve links (if absolute (path_of t) then [] else here) (parts (path_of t) ++ rest) end
      end) as -> by (destruct links; cbn [resolve]; by rewrite Hc).
    destruct Hp as [Hw Hn]. destruct rest as [|x rest].
    + rewrite app_nil_r in *. destruct (node_at (here ++ [c])) as [[| |]|]; try done. by destruct links.
    + pose proof (Hw (here ++ [c]) (x :: rest) eq_refl ltac:(done)) as Hd. rewrite Hd. apply IH; [done| |by split]. split; [by apply way_snoc|done].
Qed.

Lemma split_char_app c a b : absent c a = true -> split_char c (a +:+ String c b) = a :: split_char c b.
Proof using Type.
  induction a as [|x a IH]; intros Ha.
  - change ("" +:+ String c b) with (String c b). cbn [split_char]. by rewrite Ascii.eqb_refl.
  - change (String x a +:+ String c b) with (String x (a +:+ String c b)). unfold absent in *. cbn [all_bytes] in Ha. apply andb_true_iff in Ha as [Hx Ha].
    cbn [split_char]. apply negb_true_iff in Hx. by rewrite Hx, (IH Ha).
Qed.

Lemma concat_cons c x r : String.concat "/" (c :: x :: r) = c +:+ String "/"%char (String.concat "/" (x :: r)).
Proof using Type. done. Qed.

Lemma split_joined r : r <> [] -> Forall name_ok r -> split_char "/"%char (String.concat "/" r) = r.
Proof using Type.
  intros Hne. induction 1 as [|c r (_ & _ & Hc & _) Hr IH]; [done|]. destruct r as [|x r]; [by apply split_char_absent|].
  rewrite concat_cons, split_char_app by done. by rewrite IH.
Qed.

Lemma forward_absent s : absent "\"%char s = true -> smap forward s = s.
Proof using Type.
  induction s as [|c s IH]; [done|]. unfold absent. cbn [all_bytes smap]. intros [Hc Hs]%andb_true_iff. apply negb_true_iff in Hc.
  unfold forward at 1. rewrite Hc. by rewrite (IH Hs).
Qed.

Lemma forward_joined r : Forall name_ok r -> smap forward (String.concat "/" r) = String.concat "/" r.
Proof using Type.
  intros Hr. apply forward_absent. induction Hr as [|c r (_ & _ & _ & Hc) _ IH]; [done|]. destruct r as [|x r]; [done|].
  rewrite concat_cons. unfold absent in *. rewrite all_bytes_app. cbn [all_bytes]. by rewrite IH, Hc.
Qed.

(** A relative path made of names is read back as those names. *)
Lemma path_joined r : r <> [] -> Forall name_ok r -> path_of (String.concat "/" r) = {| absolute := false; parts := r; trailing := false |}.
Proof using Type.
  intros Hne Hr. unfold path_of. rewrite split_joined by done. f_equal.
  - destruct Hr as [|c r (Hc & _ & Hs & _) Hr]; [done|]. destruct c as [|x c]; [done|]. unfold absent in Hs. cbn [all_bytes] in Hs.
    apply andb_true_iff in Hs as [Hx _]. apply negb_true_iff in Hx.
    assert (exists y, String.concat "/" (String x c :: r) = String x y) as [y ->] by (destruct r; by eexists).
    unfold starts_with. cbn [strip_prefix]. rewrite Ascii.eqb_sym in Hx. by rewrite Hx.
  - clear Hne. induction Hr as [|c r (Hc & _) _ IH]; [done|]. cbn [List.filter]. by rewrite Hc, IH.
  - destruct r as [|c r _] using rev_ind; [done|]. rewrite List.last_last. apply Forall_app in Hr as [_ Hr].
    inversion Hr as [|? ? (Hc & _)]; subst. by rewrite Hc.
Qed.

(** What is listed as a file can be downloaded.  When the root is a canonical path and
    names have no backslash, the path a listing gives for a file leads back to that file,
    and the size it gives is the length of what is served. *)
Theorem listed_files_served root relative es e : absolute root = true -> canonicalize root = Ok (parts root) ->
  list_dir root relative = Ok es -> e ∈ es -> f_kind e = "file" ->
  exists p b, serve_file root (f_path e) = Ok (p, b) /\ f_size e = blen b /\ List.last p "" = f_name e.
Proof using Hworking Hnames.
  intros Ha Hc Hl He Hk. destruct (list_dir_elem _ _ _ _ Hl He) as (dir & name & n & Ej & Ed & En & Ee).
  destruct (safe_join_Ok _ _ _ Ej) as (base & r & H4 & -> & H5 & [H6 _]). rewrite Hc in H4. injection H4 as <-.
  unfold entry_of, relative_path in Ee. rewrite Ha, <- app_assoc in Ee. rewrite (proj2 (strip_Some _ _ (r ++ [name])) eq_refl) in Ee. cbn [ok_or] in Ee.
  pose proof (Hnames _ _ En) as Hp. rewrite <- app_assoc in Hp, En. apply Forall_app in Hp as [Hroot Hr].
  injection Ee as <-. cbn [f_path f_kind f_size f_name] in *. destruct n as [|b|t]; try done.
  assert (node_at (parts root ++ r ++ [name]) = Some (Plain b)) as Hn by (destruct (parts root); [by destruct r|done]).
  assert (real (parts root ++ r ++ [name])) as Hreal.
  { split; [|by rewrite Hn]. rewrite app_assoc. apply way_snoc. by split. }
  exists (parts root ++ r ++ [name]), b. split; [|split; [done|by rewrite app_assoc, List.last_last]].
  unfold serve_file, safe_join. rewrite forward_joined, path_joined by (done || by destruct r). cbn [absolute parts orb].
  assert (existsb (fun c => c =?s "..") (r ++ [name]) = false) as ->.
  { clear -Hr. induction Hr as [|c l (_ & Hc & _) _ IH]; [done|]. cbn [existsb]. by rewrite Hc. }
  rewrite Hc. unfold canonicalize, join. cbn [absolute parts trailing]. rewrite Ha, (resolve_id 40 _ []); [|by apply Forall_app|apply root_real|exact Hreal].
  cbn [app andb]. rewrite (proj2 (strip_Some _ _ (r ++ [name])) eq_refl). cbn.
  by rewrite Hn.
Qed.
End Fs.
End Browser.

Module BrowserWitness.
Import Browser.

Definition passwd : bytes := String.list_byte_of_string "root".
Definition base : list string := ["data"; "rootfs"].

(** An image with a file, a directory and a link out of the image. *)
Definition host : FileSystem :=
  {| working := ["data"];
     nodes := {[ ["data"] := Directory; base := Directory; base ++ ["etc"] := Directory; base ++ ["etc"; "passwd"] := Plain passwd;
                 base ++ ["empty"] := Directory; base ++ ["out"] := Link "/secret"; ["secret"] := Plain [] ]} |}.

Definition finished (path : string) : Db :=
  with_jobs JobsWitness.tables {[1%N := assign_all [SetStatus "completed"; SetArtifactPath (Some path)] JobsWitness.job0]}.

Lemma working_real : real_dir host (working host).
Proof. split; [|vm_compute; reflexivity]. intros [|a [|]] r E Hr; [done|injection E as _ <-; done|discriminate E]. Qed.

Lemma browser_confined_witness :
  download_file host (finished "/data/rootfs") 1 "etc/passwd" = Ok (base ++ ["etc"; "passwd"], passwd) /\
  real host (base ++ ["etc"; "passwd"]) /\ download_file host (finished "/data/rootfs") 1 "out" = Err Forbidden.
Proof.
  assert (download_file host (finished "/data/rootfs") 1 "etc/passwd" = Ok (base ++ ["etc"; "passwd"], passwd)) as E by (vm_compute; reflexivity).
  split; [exact E|]. split; [|vm_compute; reflexivity].
  destruct (proj1 (browser_confined host (fun _ => 0%Z) working_real (finished "/data/rootfs") 1 "etc/passwd") _ _ E)
    as (job & a & b & r & _ & _ & _ & _ & _ & _ & H & _). exact H.
Defined.

(** Below a relative root an empty directory can be listed and no other. *)
Lemma relative_root_unlistable_witness :
  list_dir host (fun _ => 0%Z) (path_of "./rootfs") "empty" = Ok [] /\
  list_dir host (fun _ => 0%Z) (path_of "./rootfs") "etc" = Err (Internal "prefix not found").
Proof.
  split; [|vm_compute; reflexivity].
  destruct (list_dir host (fun _ => 0%Z) (path_of "./rootfs") "empty") as [es|] eqn:E; [|vm_compute in E; discriminate E].
  rewrite (relative_root_unlistable host (fun _ => 0%Z) (path_of "./rootfs") "empty" es eq_refl E). reflexivity.
Defined.

Definition plain_name (c : string) : bool := is_part c && negb (c =?s "..") && absent "/"%char c && absent "\"%char c.

Lemma host_names p n : nodes host !! p = Some n -> Forall name_ok p.
Proof.
  intros H. apply elem_of_map_to_list, list_elem_of_In in H.
  assert (forallb (fun f : list string * node => forallb plain_name f.1) (map_to_list (nodes host)) = true) as Hall by (vm_compute; reflexivity).
  rewrite List.forallb_forall in Hall. specialize (Hall _ H). cbn [fst] in Hall. rewrite List.forallb_forall in Hall.
  apply Forall_forall. intros c Hc. apply list_elem_of_In in Hc. specialize (Hall c Hc). unfold plain_name in Hall.
  apply andb_true_iff in Hall as [[[H1 H2%negb_true_iff]%andb_true_iff H3]%andb_true_iff H4]. exact (conj H1 (conj H2 (conj H3 H4))).
Qed.

Lemma etc_listed : list_dir host (fun _ => 0%Z) (path_of "/data/rootfs") "etc" =
  Ok [{| f_path := "etc/passwd"; f_name := "passwd"; f_kind := "file"; f_size := 4 |}].
Proof. vm_compute. reflexivity. Qed.

Lemma listed_files_served_witness : exists p b, serve_file host (path_of "/data/rootfs") "etc/passwd" = Ok (p, b) /\ blen b = 4%Z.
Proof.
  destruct (listed_files_served host (fun _ => 0%Z) working_real host_names (path_of "/data/rootfs") "etc" _
    {| f_path := "etc/passwd"; f_name := "passwd"; f_kind := "file"; f_size := 4 |} eq_refl eq_refl etc_listed) as (p & b & H & Hs & _).
  - left.
  - reflexivity.
  - exists p, b. split; [exact H|exact (eq_sym Hs)].
Defined.
End BrowserWitness.
