(* ===== verification/Server.v ===== *)
(** * The edges of the server

    The gate in front of the registry (src/src/server.rs, [registry_auth]) and the
    embedded frontend (src/src/static_files.rs).  What the gate lets through goes to
    [next], the handler of Registry.v in the program.  The embedded files, which the
    build of the frontend makes, are a parameter. *)

From stdpp Require Import base gmap sets list strings.
From Stdlib Require Import ZArith Lia Ascii Strings.Byte.
From S2P Require Import Prelude Text Errors Files Http Paths Helpers.

Module Server.
Import Paths.
#[local] Open Scope Z_scope.

(** ** The gate of the registry *)

(** [HeaderMap::remove]. *)
Definition without (h : HeaderMap) (name : string) : HeaderMap := List.filter (fun p : string * string => negb (p.1 =?s name)) h.

Definition challenge : Response :=
  {| r_status := 401; r_headers := [("www-authenticate", "Basic realm=" +:+ chr 34 +:+ "Donkey Registry" +:+ chr 34 +:+ ", charset=" +:+ chr 34 +:+ "UTF-8" +:+ chr 34)];
     r_content_length := None; r_body := [] |}.

Section Gate.
Variable base64_decode : string -> option string.
(** [config.registry_auth_value()]. *)
Variable registry_auth_value : option string.
Context {A : Type} (next : Request -> A -> Response * A).

Definition presented (h : HeaderMap) : option string :=
  let* value := header_str h "authorization" in
  let* encoded := strip_prefix "Basic " value in
  base64_decode encoded.

Definition registry_auth (q : Request) (a : A) : Response * A :=
  if Helpers.is_helper_path (u_path (q_uri q)) then next q a
  else
    match registry_auth_value with
    | None => next q a
    | Some expected =>
        if is_some_and (presented (q_headers q)) (fun decoded => (slen decoded =? slen expected) && (decoded =?s expected))
        then next {| q_method := q_method q; q_uri := q_uri q; q_headers := without (q_headers q) "authorization" |} a
        else (challenge, a)
    end.

Lemma without_gone h name : header_all (without h name) name = [].
Proof.
  unfold header_all, without. induction h as [|[k v] h IH]; [done|]. cbn [List.filter fst]. destruct (k =?s name) eqn:E; cbn [negb]; [done|].
  cbn [List.filter fst]. by rewrite E.
Qed.

Lemma without_other h name other : other <> name -> header_all (without h name) other = header_all h other.
Proof.
  intros Hne. unfold header_all, without. f_equal. induction h as [|[k v] h IH]; [done|]. cbn [List.filter fst].
  destruct (k =?s name) eqn:E; cbn [negb].
  - apply str_eqb_eq in E as ->. rewrite (proj2 (str_eqb_neq name other)) by congruence. done.
  - cbn [List.filter fst]. by destruct (k =?s other); rewrite IH.
Qed.

(** The registry asks for its credential.  When one is configured, a request other than
    for a helper script reaches the handler exactly if its authorization is Basic with
    that credential, and reaches it without the authorization and with all its other
    headers; every other request is answered with a challenge and changes nothing. *)
Theorem registry_gate expected q a : registry_auth_value = Some expected -> Helpers.is_helper_path (u_path (q_uri q)) = false ->
  (presented (q_headers q) = Some expected /\ exists h,
     registry_auth q a = next {| q_method := q_method q; q_uri := q_uri q; q_headers := h |} a /\
     header_all h "authorization" = [] /\ (forall name, name <> "authorization" -> header_all h name = header_all (q_headers q) name)) \/
  (presented (q_headers q) <> Some expected /\ registry_auth q a = (challenge, a)).
Proof.
  intros He Hh. unfold registry_auth. rewrite Hh, He. destruct (presented (q_headers q)) as [decoded|]; [|right; done]. cbn [is_some_and].
  destruct (decoded =?s expected) eqn:E.
  - apply str_eqb_eq in E as ->. rewrite Z.eqb_refl. left. split; [done|]. exists (without (q_headers q) "authorization").
    split; [done|]. split; [apply without_gone|]. intros name Hn. by apply without_other.
  - rewrite andb_false_r. right. split; [|done]. intros [= ->]. by rewrite str_eqb_refl in E.
Qed.
End Gate.

(** ** The frontend *)

Section Static.
Variable asset : string -> option bytes.

Definition extension (path : string) : string := match rsplit_once "." path with Some (_, e) => e | None => path end.

Definition mime_for (path : string) : string :=
  let e := extension path in
  if e =?s "js" then "text/javascript; charset=utf-8"
  else if e =?s "css" then "text/css; charset=utf-8"
  else if e =?s "svg" then "image/svg+xml"
  else if e =?s "png" then "image/png"
  else if e =?s "webp" then "image/webp"
  else if e =?s "json" then "application/json"
  else if e =?s "woff2" then "font/woff2"
  else "text/html; charset=utf-8".

Definition not_cached : string := "no-store, no-cache, max-age=0, must-revalidate".
Definition immutable : string := "public, max-age=31536000, immutable".

Definition requested_file (path : string) : string :=
  let requested := trim_start_by (fun c => Ascii.eqb c "/"%char) path in
  if is_empty requested then "index.html" else requested.

(** The file that answers, and whether it is the index. *)
Definition selected (path : string) : option (bytes * bool) :=
  match asset path with
  | Some b => Some (b, path =?s "index.html")
  | None => if contains "." path then None else let* b := asset "index.html" in Some (b, true)
  end.

Definition serve_static (q : Request) : Response :=
  match read_method (q_method q) with
  | None => text_response 405 [] ""
  | Some m =>
      let path := requested_file (u_path (q_uri q)) in
      match selected path with
      | None => text_response 404 [] ""
      | Some (b, served_index) =>
          {| r_status := 200;
             r_headers := [("content-type", mime_for path); ("cache-control", if served_index : bool then not_cached else immutable)];
             r_content_length := None;
             r_body := match m with HEAD => [] | GET => [Data b] end |}
      end
  end.

(** The index is never cached, and what is cached for good was asked for by its name. *)
Lemma static_caching q : r_status (serve_static q) = 200 ->
  let path := requested_file (u_path (q_uri q)) in
  (header_get (r_headers (serve_static q)) "cache-control" = Some not_cached /\ is_Some (asset "index.html") /\ (path = "index.html" \/ asset path = None)) \/
  (header_get (r_headers (serve_static q)) "cache-control" = Some immutable /\ is_Some (asset path) /\ path <> "index.html").
Proof.
  unfold serve_static, selected. destruct (read_method (q_method q)) as [m|]; [|done]. set (path := requested_file _).
  destruct (asset path) as [b|] eqn:E; intros Hs.
  - destruct (path =?s "index.html") eqn:Ei; [left|right]; (split; [reflexivity|]).
    + apply str_eqb_eq in Ei. rewrite <- Ei, E. split; [by eexists|by left].
    + apply str_eqb_neq in Ei. split; [by eexists|done].
  - destruct (contains "." path); [done|]. destruct (asset "index.html"); [|done]. left. split; [reflexivity|]. split; [by eexists|by right].
Qed.
End Static.
End Server.

Module ServerWitness.
Import Paths Server.

Definition pull (h : HeaderMap) : Request := {| q_method := "GET"; q_uri := {| u_path := "/v2/"; u_query := None |}; q_headers := h |}.
(** A handler that counts its requests and answers with their number of headers. *)
Definition counting (q : Request) (n : nat) : Response * nat := (text_response (Z.of_nat (length (q_headers q))) [] "", S n).
Definition login : HeaderMap := [("authorization", "Basic user:pass"); ("accept", "*/*")].

Lemma registry_gate_witness :
  (exists h, registry_auth Some (Some "user:pass") counting (pull login) 0%nat = counting {| q_method := "GET"; q_uri := q_uri (pull login); q_headers := h |} 0%nat /\
     header_all h "authorization" = []) /\
  registry_auth Some (Some "user:pass") counting (pull [("authorization", "Basic user:word")]) 0%nat = (challenge, 0%nat).
Proof.
  split.
  - destruct (registry_gate Some (Some "user:pass") counting "user:pass" (pull login) 0%nat eq_refl eq_refl) as [(_ & h & H1 & H2 & _)|[H _]].
    + exists h. exact (conj H1 H2).
    + destruct H. reflexivity.
  - destruct (registry_gate Some (Some "user:pass") counting "user:pass" (pull [("authorization", "Basic user:word")]) 0%nat eq_refl eq_refl) as [[H _]|[_ H]];
      [discriminate H|exact H].
Defined.

(** A page of the frontend whose path is the name of an extension is sent with the type
    of that extension. *)
Lemma page_mistyped : header_get (r_headers (serve_static (fun p => if p =?s "index.html" then Some [] else None)
  {| q_method := "GET"; q_uri := {| u_path := "/js"; u_query := None |}; q_headers := [] |})) "content-type" = Some "text/javascript; charset=utf-8".
Proof. vm_compute. reflexivity. Qed.
End ServerWitness.
