(* ===== verification/Migrations.v ===== *)
(** * Schema migrations

    The runner of src/src/db.rs: [run_migrations], [apply_migrations] and what they call.
    The database is its ledger of applied migrations and the rest, [schema], on which
    SQLite executes statements ([execute], a parameter, as is the text of the
    statements). *)

From stdpp Require Import base list strings pretty.
From Stdlib Require Import ZArith Lia Ascii.
From S2P Require Import Prelude Text Errors.

#[local] Set Default Proof Using "Type*".

Module Migrations.
#[local] Open Scope Z_scope.

Record Migration := { version : Z; name : string; statements : list string }.

(** A row of [donkey_schema_migrations]; the table had no checksum column at first. *)
Record Row := { r_version : Z; r_name : string; r_checksum : string }.
Record Ledger := { has_checksum : bool; rows : list Row }.

Section Runner.
Context {S : Type}.
Record Database := { ledger : option Ledger; schema : S }.

Variable execute : string -> S -> result S DbErr.
(** [PRAGMA table_info(nodes)] lists the column [connect_ip_type]. *)
Variable has_connect_ip_type : S -> bool.
Variable sha256_hex : string -> string.

Definition migration_checksum (m : Migration) : string :=
  sha256_hex (foldl (fun text statement => text +:+ chr 0 +:+ statement) (name m) (statements m)).

Fixpoint execute_all (l : list string) (s : S) : result S DbErr :=
  match l with
  | [] => Ok s
  | statement :: l => let? s := execute statement s in execute_all l s
  end.

Definition apply_migration (m : Migration) (s : S) : result S DbErr :=
  if (version m =? 11) && has_connect_ip_type s then Ok s else execute_all (statements m) s.

(** [CREATE TABLE IF NOT EXISTS] and the added column, empty by default. *)
Definition prepared (l : option Ledger) : list Row :=
  match l with
  | None => []
  | Some l => if has_checksum l then rows l else (fun r => {| r_version := r_version r; r_name := r_name r; r_checksum := "" |}) <$> rows l
  end.

Definition latest_known (ms : list Migration) : Z :=
  match ms with [] => 0 | m :: ms => foldr (fun m v => Z.max (version m) v) (version m) ms end.

Definition find_row (v : Z) (l : list Row) : option Row := List.find (fun r => r_version r =? v) l.

Definition newer (v : Z) : DbErr := DbOther ("database schema version " +:+ pretty v +:+ " is newer than this binary supports").
Definition mismatch (v : Z) : DbErr := DbOther ("migration " +:+ pretty v +:+ " checksum mismatch").

(** [INSERT INTO donkey_schema_migrations]: the version is the primary key, in whose
    order the table is. *)
Fixpoint place (r : Row) (l : list Row) : list Row :=
  match l with
  | [] => [r]
  | x :: l => if r_version r <? r_version x then r :: x :: l else x :: place r l
  end.

Definition insert_row (r : Row) (l : list Row) : result (list Row) DbErr :=
  if is_some (find_row (r_version r) l) then Err (DbUniqueConstraint "UNIQUE constraint failed: donkey_schema_migrations.version")
  else Ok (place r l).

Fixpoint apply_each (applied : list Row) (ms : list Migration) (l : list Row) (s : S) : result (list Row * S) DbErr :=
  match ms with
  | [] => Ok (l, s)
  | m :: ms =>
      match find_row (version m) applied with
      | Some r =>
          if negb (is_empty (r_checksum r)) && negb (r_checksum r =?s migration_checksum m) then Err (mismatch (version m))
          else apply_each applied ms l s
      | None =>
          let? s := apply_migration m s in
          let? l := insert_row {| r_version := version m; r_name := name m; r_checksum := migration_checksum m |} l in
          apply_each applied ms l s
      end
  end.

Definition apply_pending_migrations (ms : list Migration) (d : Database) : result Database DbErr :=
  let applied := prepared (ledger d) in
  match List.find (fun r => latest_known ms <? r_version r) applied with
  | Some r => Err (newer (r_version r))
  | None =>
      let? x := apply_each applied ms applied (schema d) in
      Ok {| ledger := Some {| has_checksum := true; rows := x.1 |}; schema := x.2 |}
  end.

(** One transaction. *)
Definition apply_migrations (ms : list Migration) (d : Database) : result unit DbErr * Database :=
  match apply_pending_migrations ms d with
  | Ok d => (Ok tt, d)
  | Err e => (Err e, d)
  end.

(** ** Properties *)

Lemma place_elem r l x : x ∈ place r l -> x = r \/ x ∈ l.
Proof.
  induction l as [|y l IH]; cbn [place]; [by intros ->%list_elem_of_singleton; left|]. destruct (_ <? _).
  - intros [->|H]%elem_of_cons; [by left|by right].
  - intros [->|H]%elem_of_cons; [right; left|]. destruct (IH H) as [->|H']; [by left|right; by right].
Qed.

Lemma place_find r l v : find_row (r_version r) l = None ->
  find_row v (place r l) = if r_version r =? v then Some r else find_row v l.
Proof.
  unfold find_row. induction l as [|y l IH]; cbn [place List.find]; [done|]. destruct (Z.eqb_spec (r_version y) (r_version r)) as [|Hy]; [done|].
  intros Hl. destruct (_ <? _); cbn [List.find]; [done|]. rewrite (IH Hl). destruct (Z.eqb_spec (r_version y) v) as [<-|]; [|done].
  destruct (Z.eqb_spec (r_version r) (r_version y)); [congruence|done].
Qed.

Lemma find_row_version v l r : find_row v l = Some r -> r ∈ l /\ r_version r = v.
Proof. intros H. apply List.find_some in H as [H E]. split; [by apply list_elem_of_In|by apply Z.eqb_eq]. Qed.

(** A row that a migration accepts as its own. *)
Definition accepted (m : Migration) (r : Row) : Prop := r_checksum r = "" \/ r_checksum r = migration_checksum m.

Lemma accepted_spec m r : negb (is_empty (r_checksum r)) && negb (r_checksum r =?s migration_checksum m) = false <-> accepted m r.
Proof.
  unfold accepted. rewrite andb_false_iff, !negb_false_iff, str_eqb_eq. destruct (r_checksum r); cbn [is_empty]; split; (intros [H|H]; [by left|by right]).
Qed.

Lemma apply_each_app applied ms ms' : forall l s, apply_each applied (ms ++ ms') l s =
  match apply_each applied ms l s with Ok (l, s) => apply_each applied ms' l s | Err e => Err e end.
Proof.
  induction ms as [|m ms IH]; intros l s; cbn [apply_each app]; [done|]. destruct (find_row _ _).
  - by destruct (_ && _).
  - destruct (apply_migration m s) as [s'|]; [|done]. by destruct (insert_row _ l).
Qed.

(** The ledger after a run: its own migrations are there and accepted, the rest is as
    before. *)
Lemma apply_each_ledger applied ms : forall l s l' s', apply_each applied ms l s = Ok (l', s') -> NoDup (version <$> ms) ->
  (forall m, m ∈ ms -> find_row (version m) l = find_row (version m) applied) ->
  (forall m, m ∈ ms -> exists r, find_row (version m) l' = Some r /\ accepted m r) /\
  (forall v, v ∉ version <$> ms -> find_row v l' = find_row v l) /\
  (forall r, r ∈ l' -> r ∈ l \/ r_version r ∈ version <$> ms).
Proof.
  induction ms as [|m ms IH]; intros l s l' s'; cbn [apply_each fmap list_fmap].
  { intros [= <- <-] _ _. split; [intros m Hm; by apply not_elem_of_nil in Hm|]. split; [done|auto]. }
  intros Hr [Hm Hn]%NoDup_cons Hl. destruct (find_row (version m) applied) as [r|] eqn:Ef.
  - destruct (_ && _) eqn:Ec; [done|]. apply accepted_spec in Ec. destruct (IH _ _ _ _ Hr Hn) as (H1 & H2 & H3).
    { intros m' H'. apply Hl. by right. }
    split; [|split].
    + intros m' [->|H']%elem_of_cons; [|by apply H1]. exists r. rewrite H2 by done. by rewrite (Hl m ltac:(left)).
    + intros v Hv. apply H2. intros H. apply Hv. by right.
    + intros x Hx. destruct (H3 x Hx) as [H|H]; [by left|right; by right].
  - destruct (apply_migration m s) as [s1|]; [|done]. unfold insert_row in Hr. cbn [r_version] in Hr.
    set (row := {| r_version := version m; r_name := name m; r_checksum := migration_checksum m |}) in *.
    destruct (find_row (version m) l) eqn:El; [done|]. cbn [is_some] in Hr.
    assert (forall v, find_row v (place row l) = if version m =? v then Some row else find_row v l) as Hp by (intros v; by apply place_find).
    destruct (IH _ _ _ _ Hr Hn) as (H1 & H2 & H3).
    { intros m' H'. rewrite Hp. destruct (Z.eqb_spec (version m) (version m')) as [E|]; [|apply Hl; by right].
      exfalso. apply Hm. rewrite E. by apply list_elem_of_fmap_2. }
    split; [|split].
    + intros m' [->|H']%elem_of_cons; [|by apply H1]. exists row. rewrite H2 by done. rewrite Hp, Z.eqb_refl. split; [done|by right].
    + intros v Hv. rewrite H2 by (intros H; apply Hv; by right). rewrite Hp. destruct (Z.eqb_spec (version m) v) as [E|]; [|done]. destruct Hv. rewrite <- E. left.
    + intros x Hx. destruct (H3 x Hx) as [H|H]; [|right; by right]. apply place_elem in H as [->|H]; [right; left|by left].
Qed.

(** Migrations that are all there change nothing. *)
Lemma apply_each_done applied ms l s : (forall m, m ∈ ms -> exists r, find_row (version m) applied = Some r /\ accepted m r) ->
  apply_each applied ms l s = Ok (l, s).
Proof.
  induction ms as [|m ms IH]; intros H; [done|]. cbn [apply_each]. destruct (H m ltac:(left)) as (r & -> & Hr).
  apply accepted_spec in Hr. rewrite Hr. apply IH. intros m' H'. apply H. by right.
Qed.

Lemma apply_each_same applied applied' ms : (forall m, m ∈ ms -> find_row (version m) applied' = find_row (version m) applied) ->
  forall l s, apply_each applied' ms l s = apply_each applied ms l s.
Proof.
  induction ms as [|m ms IH]; intros H l s; [done|]. cbn [apply_each]. rewrite (H m ltac:(left)).
  assert (forall l s, apply_each applied' ms l s = apply_each applied ms l s) as IH' by (apply IH; intros m' H'; apply H; by right).
  destruct (find_row _ applied); [by destruct (_ && _)|]. destruct (apply_migration m s); [|done]. by destruct (insert_row _ l).
Qed.

Lemma max_version v ms m : foldr (fun m v => Z.max (version m) v) v ms >= v /\ (m ∈ ms -> version m <= foldr (fun m v => Z.max (version m) v) v ms).
Proof.
  induction ms as [|x ms [IH1 IH2]]; cbn [foldr]; (split; [lia|]); [intros H; by apply not_elem_of_nil in H|].
  intros [->|H]%elem_of_cons; [lia|]. specialize (IH2 H). lia.
Qed.

Lemma latest_upper m ms : m ∈ ms -> version m <= latest_known ms.
Proof.
  destruct ms as [|x ms]; intros H; [by apply not_elem_of_nil in H|]. cbn [latest_known].
  destruct (max_version (version x) ms m) as [H1 H2]. apply elem_of_cons in H as [->|H]; [lia|auto].
Qed.

Lemma latest_app ms ms' : ms <> [] -> latest_known ms <= latest_known (ms ++ ms').
Proof.
  destruct ms as [|x ms]; [done|intros _]. cbn [latest_known app]. induction ms as [|y ms IH]; cbn [foldr app]; [|lia].
  pose proof (proj1 (max_version (version x) ms' x)). lia.
Qed.

Lemma none_newer ms l : List.find (fun r => latest_known ms <? r_version r) l = None <-> forall r, r ∈ l -> r_version r <= latest_known ms.
Proof.
  split.
  - intros H r Hr. apply list_elem_of_In in Hr. pose proof (List.find_none _ _ H r Hr) as Hn. cbn beta in Hn. lia.
  - intros H. induction l as [|r l IH]; [done|]. cbn [List.find]. pose proof (H r ltac:(left)).
    destruct (Z.ltb_spec (latest_known ms) (r_version r)); [lia|]. apply IH. intros x Hx. apply H. by right.
Qed.

(** C31: Upgrading in steps is upgrading at once.  A database that an older program, with the
    first migrations of the list, has migrated is taken by a newer one to the same
    result, ledger and schema or the same error, as if the newer program had migrated it
    from the start; in particular a second start changes nothing. *)
Theorem upgrade_equivalence old new d d1 : NoDup (version <$> old ++ new) -> apply_pending_migrations old d = Ok d1 ->
  apply_pending_migrations (old ++ new) d1 = apply_pending_migrations (old ++ new) d.
Proof.
  unfold apply_pending_migrations. set (applied := prepared (ledger d)). intros Hn.
  rewrite fmap_app in Hn. apply NoDup_app in Hn as (Hold & Hdis & _).
  destruct (List.find _ applied) eqn:Ef; [done|]. rewrite none_newer in Ef.
  destruct (apply_each applied old applied (schema d)) as [[l1 s1]|] eqn:E1; [|done]. intros [= <-]. cbn [ledger schema prepared has_checksum rows fst snd].
  destruct (apply_each_ledger _ _ _ _ _ _ E1 Hold ltac:(done)) as (H1 & H2 & H3).
  destruct (decide (old = [])) as [->|Hne]; [by injection E1 as <- <-|].
  assert (forall l, (forall r, r ∈ l -> r_version r <= latest_known old) -> List.find (fun r => latest_known (old ++ new) <? r_version r) l = None) as Hfit.
  { intros l Hl. apply none_newer. intros r Hr. pose proof (Hl r Hr). pose proof (latest_app old new Hne). lia. }
  rewrite !Hfit; [|exact Ef|].
  - rewrite !apply_each_app, E1, (apply_each_done l1 old) by done. rewrite (apply_each_same applied l1 new); [done|].
    intros m Hm. apply H2. intros H. eapply Hdis; [exact H|]. by apply list_elem_of_fmap_2.
  - intros r Hr. destruct (H3 r Hr) as [H|H]; [by apply Ef|]. apply list_elem_of_fmap in H as (m & -> & Hm). by apply latest_upper.
Qed.
End Runner.
End Migrations.

Module MigrationsWitness.
Import Migrations.

(** A schema is the statements executed; the column is there once it was added. *)
Definition execute (statement : string) (s : list string) : result (list string) DbErr :=
  if statement =?s "bad" then Err (DbOther "syntax error") else Ok (s ++ [statement]).
Definition column (s : list string) : bool := existsb (fun x => x =?s "add column") s.
Definition first : Migration := {| version := 1; name := "base"; statements := ["create"] |}.
Definition second : Migration := {| version := 2; name := "limits"; statements := ["add column"; "index"] |}.
Definition third : Migration := {| version := 11; name := "target"; statements := ["add column"] |}.
Definition fresh : Database (S := list string) := {| ledger := None; schema := [] |}.

Abbreviation run := (apply_pending_migrations execute column (fun s => s)).

(** A database migrated by the first program, and then by one with two more migrations, of
    which the last finds its column and executes nothing. *)
Lemma upgrade_equivalence_witness :
  match run [first] fresh with
  | Ok d1 => run [first; second; third] d1 = run [first; second; third] fresh
  | Err _ => False
  end /\
  match run [first; second; third] fresh with Ok d => schema d = ["create"; "add column"; "index"] | Err _ => False end.
Proof.
  split; [|vm_compute; reflexivity]. destruct (run [first] fresh) as [d1|] eqn:E; [|vm_compute in E; discriminate E].
  refine (upgrade_equivalence execute column (fun s => s) [first] [second; third] fresh d1 _ E).
  apply (bool_decide_unpack _). vm_compute. exact I.
Defined.

(** An edited migration and a database of a newer program are refused. *)
Lemma migrations_refused :
  match run [first; second] fresh with
  | Ok d => run [first; {| version := 2; name := "limits"; statements := ["other"] |}] d = Err (DbOther "migration 2 checksum mismatch") /\
            run [first] d = Err (DbOther "database schema version 2 is newer than this binary supports")
  | Err _ => False
  end.
Proof. vm_compute. split; reflexivity. Qed.
End MigrationsWitness.
