(* ===== verification/Admin.v ===== *)
(** * The administration API

    The handlers of src/src/api.rs for nodes, routes, the cache, the pull log, domain
    mappings and the dashboard, and the maintenance turn of src/src/server.rs, on the
    state of the whole program ([Registry.App]).  Each handler calls the services
    modelled in the other files; [between] and [meanwhile] are what other requests do
    between the statements of one.  The settings handlers are in Settings.v and
    Snapshot.v. *)

From stdpp Require Import base gmap sets list strings sorting relations.
From Stdlib Require Import ZArith Lia Ascii SpecFloat Strings.Byte.
From S2P Require Import Prelude F64 Text Errors Budget Planner Chunks Model Scheduling Selection Metrics Files Cache Http.
From S2P Require Import Download Relay Security Tables Routes Crypto Nodes Paths Upstream Helpers Domainfold Traffic Registry.

#[local] Set Default Proof Using "Type".

Module Admin.
Import Tables Paths Upstream Nodes Registry.

(** ** Metrics as shown *)

Record HistogramView := {
  bounds_ms : list Z; buckets : list Z; samples : Z; p50_ms : option Z; p95_ms : option Z; p99_ms : option Z
}.

Definition histogram_view (h : TransferMetrics.Histogram) : HistogramView :=
  let n := TransferMetrics.samples_of h in
  {| bounds_ms := TransferMetrics.HISTOGRAM_BOUNDS_MS; buckets := h; samples := n;
     p50_ms := TransferMetrics.percentile h n (f64_ratio 50 100); p95_ms := TransferMetrics.percentile h n (f64_ratio 95 100);
     p99_ms := TransferMetrics.percentile h n (f64_ratio 99 100) |}.

(** The counters and histograms by the names of their fields. *)
Record MetricsView := {
  counted : TransferMetrics.Counters;
  hit_ratio : option f64;
  timed : TransferMetrics.HistogramName -> HistogramView
}.

Definition view_from (c : TransferMetrics.Counters) (h : TransferMetrics.Histograms) : MetricsView :=
  {| counted := c; hit_ratio := TransferMetrics.cache_hit_ratio c; timed := fun k => histogram_view (h k) |}.

(** Without [started_at], which never changes. *)
Record TransferMetricsSnapshot := { window_seconds : Z; lifetime_view : MetricsView; window_view : MetricsView }.

Definition metrics_snapshot (m : TransferMetrics.t) (generation : Z) : TransferMetricsSnapshot :=
  let (c, h) := TransferMetrics.snapshot_window m generation in
  {| window_seconds := TransferMetrics.WINDOW_SECONDS;
     lifetime_view := view_from (TransferMetrics.lifetime m) (TransferMetrics.lifetime_histograms m);
     window_view := view_from c h |}.

(** ** Nodes as shown

    The serialisation of a [NodeView]: its fields, those of the node without its secret. *)

Record NodeSafeView := {
  w_id : Uuid; w_name : string; w_url : string; w_registry_route_id : Uuid; w_enabled : bool; w_priority : Z;
  w_cf_preferred : bool; w_connect_ip_type : string; w_connect_ip : option string; w_auth_mode : string;
  w_auth_username : option string; w_auth_header : option string; w_created_at : Z; w_updated_at : Z
}.

Definition safe_view (n : Node.Model) : NodeSafeView :=
  {| w_id := Node.id n; w_name := Node.name n; w_url := Node.url n; w_registry_route_id := Node.registry_route_id n;
     w_enabled := Node.enabled n; w_priority := Node.priority n; w_cf_preferred := Node.cf_preferred n;
     w_connect_ip_type := Node.connect_ip_type n; w_connect_ip := Node.connect_ip n; w_auth_mode := Node.auth_mode n;
     w_auth_username := Node.auth_username n; w_auth_header := Node.auth_header n; w_created_at := Node.created_at n;
     w_updated_at := Node.updated_at n |}.

Record NodeViewWire := {
  w_node : NodeSafeView; w_metric : Metric.Model; w_score : f64; w_auth_configured : bool; w_max_concurrency : Z; w_live_bps : Z;
  w_route : RouteSummary.t
}.

Definition wire (v : NodeView) : NodeViewWire :=
  {| w_node := safe_view (node v); w_metric := metric v; w_score := Model.score v; w_auth_configured := auth_configured v;
     w_max_concurrency := max_concurrency v; w_live_bps := live_bps v; w_route := route v |}.

(** The body of an answer with nodes. *)
Definition sent_nodes (r : ApiResult (Z * list NodeView)) : ApiResult (Z * list NodeViewWire) :=
  let? x := r in Ok (x.1, wire <$> x.2).

(** ** The pull log *)

Record PullEventPage := { items : list PullEvent; total : Z; page : Z; page_size : Z }.

Definition default_page : Z := 1.
Definition default_page_size : Z := 50.
Definition default_limit : Z := 100.

(** ** The state *)

Section Api.
Context {Backoff Up : Type}.
Context {Key : Type} (prims : Crypto.Primitives Key) (cipher : option Key).
Context (net_contains : string -> IpAddr -> bool) (lookup_host : string -> Z -> option (list IpAddr)).
Context {Url : Type} (url : UrlApi Url) (ops : UrlOps Url) (url_query : Url -> option string).
Variable parse_header_name : string -> option string.
Variable ln_1p : f64 -> f64.
Variable config : SecurityConfig.
Variable registry_auth : bool.
Variable policy : Scheduling.SchedulerPolicy.
Variable parse_authority : string -> option (string * option Z).
Variable data_dir : string.
Variable rows : gmap string Cache.CacheRecord -> list Cache.CacheRecord.

Abbreviation App := (Registry.App (Sel := Selection.NodeSelector (Backoff := Backoff)) (Up := Up)).
Abbreviation cache a := (Download.cache (world a)).

Definition on_cache (a : App) (c : Cache.CacheStore) : App := with_world a (Download.with_cache (world a) c).
Definition on_db (a : App) (d : RegistryDb) : App := with_service a (with_db (service a) d).
Definition with_mappings (a : App) (l : list Mapping.Model) : App :=
  {| world := world a; service := service a; upstream := upstream a; mappings := l; traffic := traffic a |}.

(** A handler's answer with its status. *)
Definition answer {A B} (status : Z) (f : A -> B) (r : ApiResult A) : ApiResult (Z * B) := let? x := r in Ok (status, f x).

(** ** Nodes *)

Abbreviation node_views := (Nodes.list_views ln_1p policy).

Definition list_nodes (a : App) (now : Z) : ApiResult (Z * list NodeView) * App :=
  let (r, s) := node_views (service a) now in (answer 200 id r, with_service a s).

Section Interleaved.
Variable between : nat -> RegistryDb -> RegistryDb.
Variable meanwhile : list Mapping.Model -> list Mapping.Model.

Definition create_node (a : App) (input : NodeInput) (i : Uuid) (nonce : string) (now : Z) : ApiResult (Z * NodeView) * App :=
  let (r, s) := Nodes.create prims cipher net_contains lookup_host url (url_text ops) parse_header_name ln_1p config registry_auth
                  policy between (service a) input i nonce now in
  (answer 201 id r, with_service a s).

Definition update_node (a : App) (i : Uuid) (input : NodeInput) (nonce : string) (now : Z) : ApiResult (Z * NodeView) * App :=
  let (r, s) := Nodes.update prims cipher net_contains lookup_host url (url_text ops) parse_header_name ln_1p config registry_auth
                  policy between (service a) i input nonce now in
  (answer 200 id r, with_service a s).

Definition delete_node (a : App) (i : Uuid) : ApiResult (Z * unit) * App :=
  let (r, s) := Nodes.delete (service a) i in (answer 204 id r, with_service a s).

Definition probe_node (a : App) (i : Uuid) (metric : Node.Model -> Metric.Model) (now : Z) : ApiResult (Z * NodeView) * App :=
  let (r, s) := Nodes.probe ln_1p policy between (service a) i metric now in (answer 200 id r, with_service a s).

(** ** Routes *)

Definition list_registry_routes (a : App) : ApiResult (Z * list Route.Model) := Ok (200, Routes.list_routes (db (service a))).

Definition create_registry_route (a : App) (input : Routes.RegistryRouteInput) (i : Uuid) (now : Z) : ApiResult (Z * Route.Model) * App :=
  let (r, d) := Routes.create parse_authority (between 0) (db (service a)) input i now in (answer 201 id r, on_db a d).

Definition update_registry_route (a : App) (i : Uuid) (input : Routes.RegistryRouteInput) (now : Z) : ApiResult (Z * Route.Model) * App :=
  let (r, d) := Routes.update parse_authority (between 0) (db (service a)) i input now in (answer 200 id r, on_db a d).

Definition delete_registry_route (a : App) (i : Uuid) : ApiResult (Z * unit) * App :=
  let (r, d) := Routes.delete_route_request (between 0) (db (service a)) i in (answer 204 id r, on_db a d).

(** ** Mappings *)

Definition list_mappings (a : App) : ApiResult (Z * list Mapping.Model) := Ok (200, Domainfold.list_mappings (mappings a)).

Definition create_mapping (a : App) (input : Domainfold.MappingInput) (i : Uuid) (now : Z) : ApiResult (Z * Mapping.Model) * App :=
  let (r, l) := Domainfold.create url ops (mappings a) input i now in (answer 201 id r, with_mappings a l).

Definition update_mapping (a : App) (i : Uuid) (input : Domainfold.MappingInput) (now : Z) : ApiResult (Z * Mapping.Model) * App :=
  let (r, l) := Domainfold.update url ops meanwhile (mappings a) i input now in (answer 200 id r, with_mappings a l).

Definition delete_mapping (a : App) (i : Uuid) : ApiResult (Z * unit) * App :=
  let (r, l) := Domainfold.delete (mappings a) i in (answer 204 id r, with_mappings a l).

Definition convert_url (a : App) (raw : string) : ApiResult (Z * Domainfold.ConvertOutput) :=
  answer 200 id (Domainfold.convert url ops url_query (mappings a) raw).
End Interleaved.

(** ** The cache *)

(** [CacheEntryView]. *)
Record CacheEntryView := {
  v_key : string; v_media_type : string; v_size_bytes : Z; v_digest : option string; v_hit_count : Z; v_created_at : Z;
  v_last_accessed_at : Z
}.

Definition entry_view (r : Cache.CacheRecord) : CacheEntryView :=
  {| v_key := Cache.e_key r; v_media_type := Cache.e_media_type r; v_size_bytes := Cache.e_size_bytes r;
     v_digest := Cache.e_digest r; v_hit_count := Cache.e_hit_count r; v_created_at := Cache.e_created_at r;
     v_last_accessed_at := Cache.e_last_accessed_at r |}.

Definition list_cache (a : App) (limit now : Z) : ApiResult (Z * list CacheEntryView) * App :=
  let (l, c) := Cache.list_entries rows (cache a) limit now in (Ok (200, entry_view <$> l), on_cache a c).

(** [None] while the object is in use. *)
Definition delete_cache (a : App) (key : string) : option (ApiResult (Z * unit) * App) :=
  let* x := Cache.remove data_dir (cache a) key in
  let (r, c) := x in Some (answer 204 id r, on_cache a c).

Definition clear_cache (a : App) (other_writer : bool) (modified : string -> Z) (now : Z) : ApiResult (Z * Z) * App :=
  let (freed, c) := Cache.clear_all data_dir rows (cache a) other_writer modified now in (Ok (200, freed), on_cache a c).

(** ** The pull log *)

Definition list_pull_events (a : App) (query_page query_size : Z) : ApiResult (Z * PullEventPage) :=
  let p := Z.max query_page 1 in
  let n := clamp query_size 1 100 in
  let (l, total) := paginate_pull_events (db (service a)) p n in
  Ok (200, {| items := l; total := total; page := p; page_size := n |}).

Definition clear_pull_events (a : App) : ApiResult (Z * Z) * App :=
  let (n, d) := Tables.clear_pull_events (db (service a)) in (Ok (200, n), on_db a d).

(** ** The dashboard *)

Record Dashboard := {
  shown_nodes : list NodeView;
  cache_entries : Z;
  cache_bytes : Z;
  cache_hits : Z;
  healthy_nodes : nat;
  registry_requests : Z;
  registry_bytes : Z;
  registry_current_bps : Z;
  scheduler : Download.Counters;
  cooling_nodes : nat;
  transfer_metrics : TransferMetricsSnapshot
}.

Definition is_healthy (v : NodeView) : bool := Metric.healthy (metric v) && Node.enabled (node v).

Definition dashboard (a : App) (now : Z) : ApiResult (Z * Dashboard) * App :=
  match node_views (service a) now with
  | (Err e, s) => (Err e, with_service a s)
  | (Ok l, s) =>
      let a := with_service a s in
      match Cache.stats (cache a) now with
      | (Err e, c) => (Err e, on_cache a c)
      | (Ok stats, c) =>
          let a := on_cache a c in
          let (t, m) := Traffic.snapshot (traffic a) now in
          let live := foldl saturating_add 0 (live_bps <$> l) in
          (Ok (200, {| shown_nodes := l; cache_entries := Z.min (Cache.agg_entries stats) u64_max;
                       cache_bytes := Cache.agg_bytes stats; cache_hits := Cache.agg_hits stats;
                       healthy_nodes := length (List.filter is_healthy l);
                       registry_requests := Traffic.s_requests t; registry_bytes := Traffic.s_response_bytes t;
                       registry_current_bps := Z.max (Traffic.s_current_bps t) live;
                       scheduler := Download.stats (world a);
                       cooling_nodes := Selection.cooling_count (Download.sel (world a)) now;
                       transfer_metrics := metrics_snapshot (Cache.metrics (cache a)) (now / (5 * second)) |}),
           with_traffic a m)
      end
  end.

(** ** Maintenance

    One turn of the worker of src/src/server.rs: every enabled node is probed ([completed] are
    the results in the order of arrival), then expired objects leave the cache; an error
    is logged.  The sessions it also cleans are [cleanup_expired] of Auth.v. *)
Definition health_turn (a : App) (completed : list Metric.Model) (now : Z) : option App :=
  let a := with_service a (probe_all (service a) completed) in
  let* x := Cache.cleanup_expired data_dir rows (cache a) now in
  Some (on_cache a x.2).

(** ** Properties *)

Abbreviation registry_inv := (Nodes.registry_inv prims cipher).
Definition mappings_ok (l : list Mapping.Model) : Prop :=
  apart Domainfold.mapping_clash l /\ Forall (fun m => Domainfold.mapping_ok m = true) l.

(** The tables of routes, nodes and mappings and the cache are well formed. *)
Record system_ok (a : App) : Prop := {
  s_registry : registry_inv (db (service a));
  s_cache : Cache.wf data_dir (cache a);
  s_mappings : mappings_ok (mappings a)
}.

(** A call of the API, a maintenance turn, or a request of another kind on the node
    service. *)
Inductive api_step (a : App) : App -> Prop :=
| api_list_nodes now : api_step a (list_nodes a now).2
| api_create_node between input i nonce now : (forall k d, registry_inv d -> registry_inv (between k d)) ->
    api_step a (create_node between a input i nonce now).2
| api_update_node between i input nonce now : (forall k d, registry_inv d -> registry_inv (between k d)) ->
    api_step a (update_node between a i input nonce now).2
| api_delete_node i : api_step a (delete_node a i).2
| api_probe_node between i metric now : (forall k d, registry_inv d -> registry_inv (between k d)) ->
    api_step a (probe_node between a i metric now).2
| api_create_route between input i now : (forall k d, registry_inv d -> registry_inv (between k d)) ->
    api_step a (create_registry_route between a input i now).2
| api_update_route between i input now : (forall k d, registry_inv d -> registry_inv (between k d)) ->
    api_step a (update_registry_route between a i input now).2
| api_delete_route between i : (forall k d, registry_inv d -> registry_inv (between k d)) ->
    api_step a (delete_registry_route between a i).2
| api_create_mapping input i now : api_step a (create_mapping a input i now).2
| api_update_mapping meanwhile i input now : (forall l, mappings_ok l -> mappings_ok (meanwhile l)) ->
    api_step a (update_mapping meanwhile a i input now).2
| api_delete_mapping i : api_step a (delete_mapping a i).2
| api_list_cache limit now : api_step a (list_cache a limit now).2
| api_delete_cache key r a' : delete_cache a key = Some (r, a') -> api_step a a'
| api_clear_cache other_writer modified now : api_step a (clear_cache a other_writer modified now).2
| api_clear_pull_events : api_step a (clear_pull_events a).2
| api_dashboard now : api_step a (dashboard a now).2
| api_health completed now a' : health_turn a completed now = Some a' -> api_step a a'
| api_request s : Nodes.request_step prims cipher net_contains lookup_host url (url_text ops) parse_header_name ln_1p config
    registry_auth policy parse_authority (service a) s -> api_step a (with_service a s).

(** *** What each part keeps *)

Lemma clear_loop_subset l x : Cache.entries (foldl Cache.clear_one x l).2 ⊆ Cache.entries x.2.
Proof.
  revert x. induction l as [|e l IH]; intros [f s]; [done|]. cbn [foldl]. etransitivity; [apply IH|].
  cbn [Cache.clear_one]. destruct (bool_decide _); [done|]. apply delete_subseteq.
Qed.

Lemma cache_clear_subset s w modified now : Cache.entries (Cache.clear_all data_dir rows s w modified now).2 ⊆ Cache.entries s.
Proof.
  unfold Cache.clear_all. destruct (_ || _); [done|]. pose proof (clear_loop_subset (Cache.all_entries rows s) (0, s)) as H.
  by destruct (foldl Cache.clear_one (0, s) _).
Qed.

Lemma cache_flush_wf s now : Cache.wf data_dir s -> Cache.wf data_dir (Cache.flush_hits s now).
Proof. eapply Cache.same_rows_wf, Cache.flush_hits_same. Qed.

Lemma stats_state s now : (Cache.stats s now).2 = Cache.flush_hits s now.
Proof. unfold Cache.stats, Cache.aggregate. by destruct (_ && _). Qed.

Lemma mapping_create_kept l input i now : mappings_ok l -> mappings_ok (Domainfold.create url ops l input i now).2.
Proof.
  intros [Ha Hok]. unfold Domainfold.create. destruct (Domainfold.validate url ops input) as [v|] eqn:Ev; [|done].
  unfold Domainfold.insert_mapping. destruct (existsb _ l) eqn:Ex; [done|]. split; cbn [snd].
  - by apply (apart_snoc Domainfold.mapping_clash Domainfold.mapping_clash_sym).
  - apply Forall_app. split; [done|]. apply Forall_singleton. by eapply Domainfold.validate_Ok.
Qed.

Lemma clear_pulls_kept d : registry_inv d -> registry_inv (Tables.clear_pull_events d).2.
Proof.
  intros Hd. apply (inv_nodes prims cipher d); try done; [|apply Hd]. destruct (Routes.ri_wf _ (gi_routes _ _ _ Hd)).
  by split.
Qed.

Lemma service_ok a s : system_ok a -> registry_inv (db s) -> system_ok (with_service a s).
Proof. intros [] ?. by split. Qed.
Lemma cache_ok a c : system_ok a -> Cache.wf data_dir c -> system_ok (on_cache a c).
Proof. intros [] ?. by split. Qed.
Lemma mappings_kept a l : system_ok a -> mappings_ok l -> system_ok (with_mappings a l).
Proof. intros [] ?. by split. Qed.

Lemma views_db s l now : db (Nodes.views ln_1p policy s l now).2 = db s.
Proof.
  revert s. induction l as [|n l IH]; intros s; [done|]. cbn [Nodes.views]. unfold Nodes.view.
  destruct (by_id _ _ _) as [r|]; [|done]. pose proof (view_with_db ln_1p policy s n (unwrap_or (metric_for (db s) (Node.id n)) (empty_metric (Node.id n))) r now) as H.
  destruct (Nodes.view_with ln_1p policy s n _ r now) as [v s1]. cbn [snd] in H. specialize (IH s1).
  destruct (Nodes.views ln_1p policy s1 l now) as [x s2]. cbn [snd] in *. congruence.
Qed.

Lemma node_views_db s now : db (node_views s now).2 = db s.
Proof.
  unfold Nodes.list_views. pose proof (views_db s (Tables.list_nodes (db s)) now). by destruct (Nodes.views _ _ _ _ _).
Qed.

Lemma expire_batch_subset l : forall freed removed s r s',
  Cache.expire_batch data_dir l freed removed s = Some (r, s') -> Cache.entries s' ⊆ Cache.entries s.
Proof.
  induction l as [|e l IH]; intros freed removed s r s'; cbn [Cache.expire_batch]; [by intros [= _ <-]|].
  destruct (bool_decide _); [apply IH|]. destruct (Cache.remove data_dir s (Cache.e_key e)) as [[[x|x] s1]|] eqn:Er; [|..|done];
    cbn [mbind option_bind]; apply Cache.remove_subset in Er.
  - intros H%IH. by etransitivity.
  - by intros [= _ <-].
Qed.

Lemma expire_loop_subset cutoff fuel : forall freed s r s',
  Cache.expire_loop data_dir rows fuel cutoff freed s = Some (r, s') -> Cache.entries s' ⊆ Cache.entries s.
Proof.
  induction fuel as [|fuel IH]; intros freed s r s'; cbn [Cache.expire_loop];
    (destruct (Cache.expired_candidates rows s cutoff 512) as [|e l]; [by intros [= _ <-]|]); [done|].
  destruct (Cache.expire_batch data_dir (e :: l) freed false s) as [[[[f rm]|x] s1]|] eqn:Eb; [|..|done];
    cbn [mbind option_bind]; apply expire_batch_subset in Eb.
  - destruct rm; [intros H%IH; by etransitivity|by intros [= _ <-]].
  - by intros [= _ <-].
Qed.

Lemma cleanup_wf s now r s' : Cache.cleanup_expired data_dir rows s now = Some (r, s') -> Cache.wf data_dir s -> Cache.wf data_dir s'.
Proof.
  unfold Cache.cleanup_expired. destruct (Cache.cache_ttl _); [|by intros [= _ <-]]. intros H%expire_loop_subset Hw.
  eapply Cache.subset_wf; [exact H|]. by apply cache_flush_wf.
Qed.

Abbreviation request_step := (Nodes.request_step prims cipher net_contains lookup_host url (url_text ops) parse_header_name
  ln_1p config registry_auth policy parse_authority).

(** The answers of requests on the node service and on its tables. *)
Lemma request_ok a s : system_ok a -> request_step (service a) s -> system_ok (with_service a s).
Proof. intros Ha H. apply service_ok; [done|]. eapply request_step_kept; [exact H|apply Ha]. Qed.

Lemma answer_ok {A B : Type} (p : ApiResult A * NodeService) st (f : A -> B) a : system_ok a -> request_step (service a) p.2 ->
  system_ok (let (r, s) := p in (answer st f r, with_service a s)).2.
Proof. destruct p. apply request_ok. Qed.

Lemma db_answer_ok {A B : Type} (p : ApiResult A * RegistryDb) st (f : A -> B) a : system_ok a ->
  request_step (service a) (with_db (service a) p.2) -> system_ok (let (r, d) := p in (answer st f r, on_db a d)).2.
Proof. destruct p. apply request_ok. Qed.

Lemma mappings_answer_ok {A B : Type} (p : ApiResult A * list Mapping.Model) st (f : A -> B) a : system_ok a ->
  mappings_ok p.2 -> system_ok (let (r, l) := p in (answer st f r, with_mappings a l)).2.
Proof. destruct p. apply mappings_kept. Qed.

Lemma dashboard_state a now : exists s c t, (dashboard a now).2 = with_traffic (on_cache (with_service a s) c) t /\ db s = db (service a) /\
  (c = cache a \/ c = Cache.flush_hits (cache a) now).
Proof.
  unfold dashboard. pose proof (node_views_db (service a) now) as Hs. destruct (node_views (service a) now) as [[l|e] s]; cbn [snd] in Hs.
  - pose proof (stats_state (cache a) now) as Hc. cbn [with_service world]. destruct (Cache.stats _ now) as [[x|e] c]; cbn [snd] in Hc |- *.
    + destruct (Traffic.snapshot _ now) as [t m]. cbn [snd]. exists s, c, m. auto.
    + exists s, c, (traffic a). destruct a. auto.
  - exists s, (cache a), (traffic a). destruct a as [[] ? ? ? ?]. auto.
Qed.

Lemma api_step_ok a a' : api_step a a' -> system_ok a -> system_ok a'.
Proof.
  intros H Ha. destruct H as
    [now|between input i nonce now Hb|between i input nonce now Hb|i|between i metric now Hb|between input i now Hb
    |between i input now Hb|between i Hb|input i now|meanwhile i input now Hm|i|limit now|key r a' H|w modified now| |now
    |completed now a' H|s H].
  - unfold list_nodes. pose proof (node_views_db (service a) now) as E. destruct (node_views _ now). apply service_ok; [done|].
    cbn [snd] in E. rewrite E. apply Ha.
  - apply answer_ok; [done|by constructor].
  - apply answer_ok; [done|by constructor].
  - apply answer_ok; [done|by constructor].
  - apply answer_ok; [done|by constructor].
  - apply db_answer_ok; [done|]. apply step_create_route. auto.
  - apply db_answer_ok; [done|]. apply step_update_route. auto.
  - apply db_answer_ok; [done|]. apply step_delete_route. auto.
  - apply mappings_answer_ok; [done|]. apply mapping_create_kept, Ha.
  - apply mappings_answer_ok; [done|]. destruct (Hm _ (s_mappings _ Ha)), (s_mappings _ Ha). by apply Domainfold.update_mapping_kept.
  - apply mappings_answer_ok; [done|]. destruct (s_mappings _ Ha). by apply Domainfold.delete_mapping_kept.
  - apply cache_ok; [done|]. apply cache_flush_wf, Ha.
  - unfold delete_cache in H. destruct (Cache.remove data_dir (cache a) key) as [[x c]|] eqn:E; [|done]. injection H as _ <-.
    apply cache_ok; [done|]. eapply Cache.subset_wf; [by eapply Cache.remove_subset|apply Ha].
  - unfold clear_cache. pose proof (cache_clear_subset (cache a) w modified now) as Hs.
    destruct (Cache.clear_all _ _ _ _ _ _) as [n c]. apply cache_ok; [done|]. eapply Cache.subset_wf; [exact Hs|apply Ha].
  - apply service_ok; [done|]. apply clear_pulls_kept, Ha.
  - destruct (dashboard_state a now) as (s & c & t & -> & Hs & Hc). destruct Ha as [Hr Hw Hm]. split; [by rewrite <- Hs in Hr| |done].
    destruct Hc as [->| ->]; [done|by apply cache_flush_wf].
  - unfold health_turn in H. destruct (Cache.cleanup_expired _ _ _ now) as [[x c]|] eqn:E; [|done]. injection H as <-.
    apply cache_ok; [|eapply cleanup_wf; [exact E|apply Ha]]. apply request_ok; [done|constructor].
  - by apply request_ok.
Qed.

(** *** The dashboard *)

(** The dashboard tells the truth and changes nothing.  It shows every node once, with the
    nodes that are enabled and healthy counted; the size of the cache is that of its rows
    and its hits include those not yet written; the node and mapping tables are as before,
    and the rows of the cache differ at most in hits that were waiting. *)
Theorem dashboard_truthful a now d a' : dashboard a now = (Ok (200, d), a') ->
  node <$> shown_nodes d ≡ₚ nodes (db (service a)) /\
  healthy_nodes d = length (List.filter is_healthy (shown_nodes d)) /\
  cache_entries d = Z.min (Z.of_nat (base.size (Cache.entries (cache a)))) u64_max /\
  cache_bytes d = Cache.total_bytes (cache a) /\
  cache_hits d = Cache.sum_of Cache.e_hit_count (Cache.entries (cache a')) /\
  db (service a') = db (service a) /\ mappings a' = mappings a /\ Cache.same_rows (cache a) (cache a').
Proof.
  unfold dashboard. pose proof (node_views_db (service a) now) as Hs. destruct (node_views (service a) now) as [[l|e] s] eqn:El; cbn [snd] in Hs; [|done].
  pose proof (stats_state (cache a) now) as Hc. cbn [with_service world]. destruct (Cache.stats _ now) as [[x|e] c] eqn:Ec; cbn [snd] in Hc; [|done].
  destruct (Traffic.snapshot _ now) as [t m]. intros [= <- <-]. cbn [shown_nodes healthy_nodes cache_entries cache_bytes cache_hits].
  pose proof (Cache.flush_hits_same (cache a) now) as Hsame. rewrite <- Hc in Hsame.
  unfold Cache.stats, Cache.aggregate in Ec. rewrite <- Hc in Ec. destruct (_ && _) in Ec; [|done]. injection Ec as <-.
  split; [|split; [done|split; [|split]]].
  - unfold Nodes.list_views in El. destruct (Nodes.views _ _ _ _ _) as [[vs|] s1] eqn:Ev; [|done]. injection El as <- _.
    rewrite sort_by_perm. apply views_Ok in Ev. rewrite Ev. apply sort_by_perm.
  - cbn [Cache.agg_entries]. by rewrite (Cache.same_rows_size _ _ Hsame).
  - cbn [Cache.agg_bytes]. apply (Cache.same_rows_total _ _ Hsame).
  - split; [done|]. split; [exact Hs|]. split; [done|]. exact Hsame.
Qed.

(** *** The pull log *)

Lemma pages_concat {A : Type} (l : list A) n k :
  List.concat ((fun j => take n (drop (j * n) l)) <$> seq 0 k) = take (k * n) l.
Proof.
  induction k as [|k IH]; [done|]. rewrite seq_S, fmap_app, List.concat_app, IH. cbn [fmap list_fmap List.concat Nat.add].
  rewrite app_nil_r, take_take_drop. f_equal. lia.
Qed.

Definition shown_page (a : App) (p n : Z) : list PullEvent :=
  match list_pull_events a p n with Ok (_, x) => items x | Err _ => [] end.

Lemma clamp_id x lo hi : lo <= x <= hi -> clamp x lo hi = x.
Proof. intros H. unfold clamp. destruct (Z.ltb_spec x lo), (Z.ltb_spec hi x); lia. Qed.

Lemma shown_page_is a k n : 1 <= n <= 100 -> Z.of_nat k * n <= u64_max ->
  shown_page a (Z.of_nat k + 1) n = take (Z.to_nat n) (drop (k * Z.to_nat n) (sort_by pull_order (pulls (db (service a))))).
Proof.
  intros Hn Hk. unfold shown_page, list_pull_events, paginate_pull_events, saturating_mul, saturating_sub. cbn.
  rewrite clamp_id by done. replace (Z.min (Z.max n 1) 100) with n by lia. do 2 f_equal. nia.
Qed.

(** Paging through the pull log shows all of it.  The pages of any size from 1 to 100,
    one after the other, are the whole log, newest first, with no entry twice or left out;
    every page tells the number of entries. *)
Theorem pull_log_pages a n k :
  let log := pulls (db (service a)) in
  1 <= n <= 100 -> Z.of_nat (length log) <= Z.of_nat k * n <= u64_max ->
  let shown := List.concat ((fun j => shown_page a (Z.of_nat j + 1) n) <$> seq 0 k) in
  shown ≡ₚ log /\ StronglySorted (fun x y => pull_order x y <> Gt) shown /\
  forall p, 1 <= p -> exists x, list_pull_events a p n = Ok (200, x) /\ total x = Z.of_nat (length log) /\ page x = p /\ page_size x = n.
Proof.
  intros log Hn Hk shown. assert (shown = sort_by pull_order log) as ->.
  { unfold shown. rewrite (list_fmap_ext _ (fun j => take (Z.to_nat n) (drop (j * Z.to_nat n) (sort_by pull_order log)))).
    - rewrite pages_concat, take_ge; [done|]. rewrite (Permutation_length (sort_by_perm _ _)). lia.
    - intros i j Hj. apply lookup_seq in Hj as [-> ?]. apply shown_page_is; [done|]. nia. }
  split; [apply sort_by_perm|]. split; [apply sort_by_sorted, pull_order_order|].
  intros p Hp. eexists. split; [reflexivity|]. cbn. rewrite clamp_id by done. split_and!; [done|lia|done].
Qed.

(** *** What is shown of credentials *)

Section Secrets.
(** Any other stored secrets for the same nodes. *)
Variable other : Uuid -> string -> string.

Definition reseal (n : Node.Model) : Node.Model :=
  {| Node.id := Node.id n; Node.name := Node.name n; Node.url := Node.url n; Node.registry_route_id := Node.registry_route_id n;
     Node.enabled := Node.enabled n; Node.priority := Node.priority n; Node.cf_preferred := Node.cf_preferred n;
     Node.connect_ip_type := Node.connect_ip_type n; Node.connect_ip := Node.connect_ip n; Node.auth_mode := Node.auth_mode n;
     Node.auth_username := Node.auth_username n; Node.auth_header := Node.auth_header n;
     Node.auth_secret_enc := other (Node.id n) <$> Node.auth_secret_enc n; Node.created_at := Node.created_at n;
     Node.updated_at := Node.updated_at n |}.

Definition reseal_service (s : NodeService) : NodeService := with_db s (with_nodes (db s) (reseal <$> nodes (db s))).
Definition resealed (a : App) : App := with_service a (reseal_service (service a)).

Definition reseal_view (v : NodeView) : NodeView :=
  {| node := reseal (node v); metric := metric v; Model.score := Model.score v; auth_configured := auth_configured v;
     route := route v; max_concurrency := max_concurrency v; live_bps := live_bps v |}.

Lemma wire_reseal v : wire (reseal_view v) = wire v.
Proof. reflexivity. Qed.

Lemma insert_by_fmap {A B : Type} (cmp : A -> A -> comparison) (cmp' : B -> B -> comparison) (f : A -> B) :
  (forall x y, cmp' (f x) (f y) = cmp x y) -> forall x l, insert_by cmp' (f x) (f <$> l) = f <$> insert_by cmp x l.
Proof. intros H x l. induction l as [|y l IH]; [done|]. csimpl. rewrite H. destruct (cmp x y); [done..|]. csimpl. by rewrite IH. Qed.

Lemma sort_by_fmap {A B : Type} (cmp : A -> A -> comparison) (cmp' : B -> B -> comparison) (f : A -> B) :
  (forall x y, cmp' (f x) (f y) = cmp x y) -> forall l, sort_by cmp' (f <$> l) = f <$> sort_by cmp l.
Proof. intros H l. induction l as [|x l IH]; [done|]. csimpl. rewrite IH. by apply insert_by_fmap. Qed.

Lemma view_reseal s n now :
  Nodes.view ln_1p policy (reseal_service s) (reseal n) now =
  let (r, s) := Nodes.view ln_1p policy s n now in (let? v := r in Ok (reseal_view v), reseal_service s).
Proof.
  unfold Nodes.view, Nodes.view_with, Nodes.live_rate, by_id, find_one. cbn.
  destruct (List.find _ _) as [r|]; [|done].
  assert (is_some (other (Node.id n) <$> Node.auth_secret_enc n) = is_some (Node.auth_secret_enc n)) as ->
    by (by destruct (Node.auth_secret_enc n)).
  destruct (live_rates s !! Node.id n) as [w|]; [destruct (RateWindow.rate w now) as [x w']|]; reflexivity.
Qed.

Lemma views_reseal l now : forall s, Nodes.views ln_1p policy (reseal_service s) (reseal <$> l) now =
  let (r, s) := Nodes.views ln_1p policy s l now in (let? vs := r in Ok (reseal_view <$> vs), reseal_service s).
Proof.
  induction l as [|n l IH]; intros s; [done|]. cbn [fmap list_fmap Nodes.views]. rewrite view_reseal.
  destruct (Nodes.view _ _ s n now) as [[v|e] s1]; [|done]. rewrite IH. by destruct (Nodes.views _ _ s1 l now) as [[vs|e] s2].
Qed.

Lemma node_views_reseal s now : node_views (reseal_service s) now =
  let (r, s) := node_views s now in (let? l := r in Ok (reseal_view <$> l), reseal_service s).
Proof.
  unfold Nodes.list_views. replace (Tables.list_nodes (db (reseal_service s))) with (reseal <$> Tables.list_nodes (db s)).
  - rewrite views_reseal. destruct (Nodes.views _ _ s _ now) as [[vs|e] s1]; [|done]. cbn. f_equal. f_equal.
    by apply (sort_by_fmap _ _ reseal_view).
  - symmetry. by apply (sort_by_fmap _ _ reseal).
Qed.

(** C34: What an administrator is shown of the nodes is independent of their secrets.  With
    any other secrets stored for the same nodes, the list of nodes and the dashboard are
    sent with the same content, and the same is left behind. *)
Theorem secrets_not_shown a now :
  sent_nodes (list_nodes (resealed a) now).1 = sent_nodes (list_nodes a now).1 /\
  (list_nodes (resealed a) now).2 = resealed (list_nodes a now).2 /\
  match dashboard a now, dashboard (resealed a) now with
  | (Ok (st, d), a'), (Ok (st', d'), a'') =>
      st' = st /\ wire <$> shown_nodes d' = wire <$> shown_nodes d /\ a'' = resealed a' /\ healthy_nodes d' = healthy_nodes d /\
      d' = {| shown_nodes := shown_nodes d'; cache_entries := cache_entries d; cache_bytes := cache_bytes d;
              cache_hits := cache_hits d; healthy_nodes := healthy_nodes d; registry_requests := registry_requests d;
              registry_bytes := registry_bytes d; registry_current_bps := registry_current_bps d; scheduler := scheduler d;
              cooling_nodes := cooling_nodes d; transfer_metrics := transfer_metrics d |}
  | (Err e, a'), (Err e', a'') => e' = e /\ a'' = resealed a'
  | _, _ => False
  end.
Proof.
  unfold list_nodes, dashboard. cbn [resealed service with_service]. rewrite node_views_reseal.
  destruct (node_views (service a) now) as [[l|e] s]; [|done]. cbn [world with_service].
  split; [cbn; rewrite <- list_fmap_compose; reflexivity|]. split; [done|].
  destruct (Cache.stats _ now) as [[x|e] c]; [|done]. cbn [on_cache with_world traffic].
  destruct (Traffic.snapshot _ now) as [t m]. cbn [shown_nodes healthy_nodes]. split; [done|].
  split; [rewrite <- list_fmap_compose; reflexivity|]. split; [done|].
  assert (length (List.filter is_healthy (reseal_view <$> l)) = length (List.filter is_healthy l)) as ->
    by (induction l as [|v l IH]; [done|]; csimpl; change (is_healthy (reseal_view v)) with (is_healthy v);
        destruct (is_healthy v); csimpl; congruence).
  split; [done|]. do 2 f_equal. by rewrite <- list_fmap_compose.
Qed.
End Secrets.
End Api.
End Admin.

(** ** A day of administration *)

Module AdminWitness.
Import Tables Nodes Registry Admin.

Abbreviation App := (Registry.App (Sel := Selection.NodeSelector (Backoff := nat)) (Up := unit)).
Abbreviation sample_rows := Cache.sample_rows.
Definition start : App :=
  {| world := RelayWitness.start_world; service := NodesWitness.start; upstream := tt; mappings := []; traffic := Traffic.new 0 |}.

Definition mirror : Domainfold.MappingInput :=
  {| Domainfold.m_source_host := "GitHub.example"; Domainfold.m_upstream_base := "https://github.example/";
     Domainfold.m_public_base := "https://mirror.example/"; Domainfold.m_enabled := true |}.

Definition routed : App := (create_registry_route SecurityWitness.authority (fun _ d => d) start NodesWitness.custom_route 7 1).2.
Definition staffed : App :=
  (create_node NodesWitness.toy_prims (Some tt) SecurityWitness.cidr_contains SecurityWitness.dns SecurityWitness.toy_url
     UpstreamWitness.toy_ops NodesWitness.toy_header (fun x => x) SecurityWitness.config true Scheduling.Balanced (fun _ d => d)
     routed NodesWitness.basic_node 9 NodesWitness.nonce 2).2.
Definition mapped : App := (create_mapping SecurityWitness.toy_url UpstreamWitness.toy_ops staffed mirror 3 5).2.
Lemma dashboard_truthful_witness :
  match dashboard (fun x => x) Scheduling.Balanced mapped 10 with
  | (Ok (200, d), _) => healthy_nodes d = 1%nat /\ cache_entries d = 1 /\ node <$> shown_nodes d ≡ₚ nodes (db (service mapped))
  | _ => False
  end.
Proof.
  destruct (dashboard (fun x => x) Scheduling.Balanced mapped 10) as [[[st d]|e] a'] eqn:E; [|vm_compute in E; discriminate E].
  assert (st = 200) as -> by (vm_compute in E; injection E as <- _; reflexivity).
  destruct (dashboard_truthful (fun x => x) Scheduling.Balanced mapped 10 d a' E) as (Hn & Hh & Hc & _).
  split; [vm_compute in E; injection E as <- _; reflexivity|]. split; [|exact Hn].
  refine (eq_trans Hc _). vm_compute. reflexivity.
Defined.

Definition event (i : Uuid) (at_ : Z) : PullEvent :=
  {| p_id := i; p_route := Routes.GHCR_ROUTE_ID; p_repository := "org/app"; p_reference := "latest"; p_digest := None;
     p_status := 200; p_created_at := at_ |}.
Definition logged : App := on_db start (with_pulls (db (service start)) [event 1 10; event 2 30; event 3 20]).

Lemma pull_log_pages_witness :
  p_id <$> shown_page logged 1 2 = [2%N; 3%N] /\ p_id <$> shown_page logged 2 2 = [1%N] /\
  List.concat ((fun j => shown_page logged (Z.of_nat j + 1) 2) <$> seq 0 2) ≡ₚ pulls (db (service logged)).
Proof.
  split; [vm_compute; reflexivity|]. split; [vm_compute; reflexivity|].
  refine (proj1 (pull_log_pages logged 2 2 _ _)); [lia|]. split; vm_compute; discriminate.
Defined.
End AdminWitness.
