(* ===== verification/System.v ===== *)
(** * The running program

    The administration API, the maintenance turn, the proxy of src/src/registry.rs and the
    relays of src/src/scheduler.rs on one state: the handlers modelled in the other
    files, composed as src/src/server.rs serves them, and what holds of the tables and of
    the cache however their requests follow each other. *)

From stdpp Require Import base gmap sets list strings sorting relations.
From Stdlib Require Import ZArith Lia Ascii SpecFloat Strings.Byte.
From S2P Require Import Prelude F64 Text Errors Budget Planner Chunks Model Scheduling Selection Metrics Files Cache Http.
From S2P Require Import Download Relay Security Tables Routes Crypto Nodes Paths Upstream Helpers Domainfold Traffic Registry Admin.

#[local] Set Default Proof Using "Type".

Module System.
Import Tables Paths Upstream Nodes Registry Admin.

(** What one request meets outside the program: the answers of the nodes, the clock, the
    client, the digests, the times and identifiers drawn. *)
Record Outside {Sel Url : Type} := {
  send : nat -> NodeView -> Method -> string -> HeaderMap -> RangeMode -> ApiResult Response;
  probe_lease : nat -> ApiResult unit;
  interfere : nat -> Sel -> Sel;
  clock : nat -> Z;
  sha256_hex : bytes -> string;
  sha256_prefix : bytes -> Z;
  parse_range : string -> option ContentRange;
  status_text : Z -> string;
  schedule : list Chunks.Chunk -> list Chunks.Chunk;
  arrivals : list NodeView -> list NodeView;
  deadline_passed : nat -> bool;
  memory_wait : nat -> ApiResult unit;
  lookup : nat -> string -> Z -> option (list IpAddr);
  transport : nat -> Sent (Url := Url) -> result Response string;
  serve_file : option bytes -> Method -> HeaderMap -> Response;
  in_time : Download.World (S := Sel) -> bool;
  abandoned : Download.World (S := Sel) -> Download.World (S := Sel);
  meanwhile : RegistryDb -> RegistryDb;
  wall : nat -> Z;
  fresh : nat -> Uuid;
  polls : nat;
  parse_rfc2822 : string -> option Z;
  rechunk : list frame -> list frame;
  client : nat -> Relay.Acceptance;
  closes : nat -> option nat;
  siblings : nat -> gset Uuid;
  next_backoff : nat -> nat -> option Z;
  range_dir : nat -> string
}.
Arguments Outside : clear implicits.

Section Running.
Context {Backoff : Type} `{!Selector (Selection.NodeSelector (Backoff := Backoff))}.
Context {Key : Type} (prims : Crypto.Primitives Key) (cipher : option Key).
Context (net_contains : string -> IpAddr -> bool) (lookup_host : string -> Z -> option (list IpAddr)).
Context {Url : Type} (url : UrlApi Url) (ops : UrlOps Url).
Variable parse_header_name : string -> option string.
Variable ln_1p : f64 -> f64.
Variable config : SecurityConfig.
Variable registry_auth : bool.
Variable policy : Scheduling.SchedulerPolicy.
Variable parse_authority : string -> option (string * option Z).
Variable data_dir : string.
Variable rows : gmap string Cache.CacheRecord -> list Cache.CacheRecord.
Variable key_hash : string -> string.
Variable uuid_text : Uuid -> string.
Variable SHELL_HELPER POWERSHELL_HELPER : string.

Abbreviation Sel := (Selection.NodeSelector (Backoff := Backoff)).
Abbreviation App := (Registry.App (Sel := Sel) (Up := UpstreamService (Url := Url))).
Abbreviation Outside := (Outside Sel Url).
Abbreviation RelayTask := (Relay.StreamRelay + Relay.UnknownBlobRelay)%type.

(** The proxy listener answers one request. *)
Definition proxied (e : Outside) (settings : Settings) (fuel : nat) (q : Request) (a : App)
    : option (Reply + ErrorResponse) * App :=
  serve (send e) (probe_lease e) (interfere e) (clock e) (sha256_hex e) (sha256_prefix e) (parse_range e) (status_text e)
    (schedule e) (arrivals e) (deadline_passed e) ln_1p data_dir rows key_hash uuid_text (memory_wait e) net_contains (lookup e)
    url ops parse_authority (transport e) (serve_file e) SHELL_HELPER POWERSHELL_HELPER settings fuel (polls e) (in_time e)
    (abandoned e) (meanwhile e) (wall e) (fresh e) q a.

(** A fetch as it runs inside of the handler. *)
Definition fetched (e : Outside) (settings : Settings) (fuel : nat) (path : string) (h : HeaderMap) (expected : option string)
    (nodes : list NodeView) (w : Download.World (S := Sel)) : option (ApiResult (Cache.CachedObject * bool) * Download.World (S := Sel)) :=
  Download.fetch_blob (send e) (probe_lease e) (interfere e) (clock e) (sha256_hex e) (sha256_prefix e) (parse_range e)
    (status_text e) (schedule e) (arrivals e) (deadline_passed e) ln_1p data_dir rows key_hash uuid_text fuel (runtime settings)
    path h expected nodes w.

(** [tokio::time::timeout] drops a fetch that is late at one of its awaits.  Every statement
    of SQL is done or not, so a row of the cache is then, up to its hits and times, one
    that was there or one that a fetch which ends would have written. *)
Definition stopped (e : Outside) (settings : Settings) (fuel : nat) (w w' : Download.World (S := Sel)) : Prop :=
  forall key r, Cache.entries (Download.cache w') !! key = Some r ->
  exists r0, Cache.e_key r = Cache.e_key r0 /\ Cache.e_path r = Cache.e_path r0 /\ Cache.e_size_bytes r = Cache.e_size_bytes r0 /\
    (Cache.entries (Download.cache w) !! key = Some r0 \/
     exists path h expected nodes x w1, fetched e settings fuel path h expected nodes w = Some (x, w1) /\
       Cache.entries (Download.cache w1) !! key = Some r0).

(** The task behind a streamed response runs to its end. *)
Definition relayed (e : Outside) (settings : Settings) (fuel waits : nat) (relay : RelayTask) (a : App) : option App :=
  let* x := Relay.run_relay (send e) (interfere e) (clock e) (sha256_hex e) (sha256_prefix e) (parse_range e) (status_text e)
              (parse_rfc2822 e) (rechunk e) (client e) (closes e) (memory_wait e) (siblings e) (next_backoff e)
              (Download.scheduler_policy (runtime settings)) ln_1p data_dir rows (range_dir e) fuel waits relay (world a) in
  Some (with_world a x.2).

(** The state of the services, and the relays whose responses are being read. *)
Record System := { app : App; streaming : list RelayTask }.

Definition opened (r : Reply + ErrorResponse) : list RelayTask :=
  match r with inl (Stream (Relay.Relayed _ _ relay)) => [relay] | _ => [] end.

(** One request of an administrator, a maintenance turn, a change of the cache's runtime
    settings, one request of a proxy client, or one relay. *)
Inductive system_step (s : System) : System -> Prop :=
| by_admin a : api_step prims cipher net_contains lookup_host url ops parse_header_name ln_1p config registry_auth policy
    parse_authority data_dir rows (app s) a -> system_step s {| app := a; streaming := streaming s |}
| by_settings r : system_step s {| app := on_cache (app s) (Cache.update_runtime (Download.cache (world (app s))) r); streaming := streaming s |}
| by_client (e : Outside) settings fuel q r a :
    (forall w, stopped e settings fuel w (abandoned e w)) ->
    proxied e settings fuel q (app s) = (Some r, a) ->
    system_step s {| app := a; streaming := opened r ++ streaming s |}
| by_relay (e : Outside) settings fuel waits relay rest a :
    streaming s ≡ₚ relay :: rest -> relayed e settings fuel waits relay (app s) = Some a ->
    system_step s {| app := a; streaming := rest |}.

(** ** Properties *)

Abbreviation app_ok := (Admin.system_ok (Backoff := Backoff) (Up := UpstreamService (Url := Url)) prims cipher data_dir).

Definition relay_key (relay : RelayTask) : string :=
  match relay with inl r => Relay.sr_key r | inr u => Relay.ub_key u end.

(** The tables and the cache are well formed, and every relay is for a key of the cache. *)
Record running_ok (s : System) : Prop := {
  r_app : app_ok (app s);
  r_keys : Forall (fun relay => Cache.valid_key (relay_key relay) = true) (streaming s)
}.

Lemma enabled_nodes_db p s route at_ : db (Nodes.enabled_registry_nodes ln_1p p s route at_).2 = db s.
Proof. apply views_db. Qed.

Lemma logged_kept d d' : logged d d' -> Nodes.registry_inv prims cipher d -> Nodes.registry_inv prims cipher d'.
Proof.
  intros [->|(e & d1 & cutoff & n & Hi & ->)] Hd; [done|].
  assert (Nodes.registry_inv prims cipher d1) as Hd1.
  { apply insert_pull_wf in Hi as (Hwf & Hr & Hn); [|apply Hd]. eapply inv_nodes; try done. rewrite Hn. apply Hd. }
  apply (inv_nodes prims cipher d1); try done; [apply prune_pull_wf, Hd1|apply Hd1].
Qed.

(** [key_hash] is the hexadecimal SHA-256: every key is a valid one. *)
Hypothesis hashes : forall s, Cache.valid_key (key_hash s) = true.

Lemma stopped_rows e settings fuel w w' : stopped e settings fuel w w' -> Download.rows_ok data_dir w -> Download.rows_ok data_dir w'.
Proof using hashes.
  intros Hs Hw key r (r0 & H1 & H2 & H3 & H)%Hs. unfold Cache.row_wf. rewrite H1, H2, H3.
  destruct H as [H|(path & h & expected & nodes & x & w1 & Hf & H)]; [exact (Hw key r0 H)|].
  apply Download.fetch_blob_rows with (data_dir := data_dir) in Hf; [exact (Hf key r0 H)|exact hashes|exact Hw].
Qed.

Lemma proxied_served (e : Outside) settings fuel q a r a' :
  (forall w, stopped e settings fuel w (abandoned e w)) ->
  proxied e settings fuel q a = (Some r, a') ->
  served data_dir a a' /\
  (Download.rows_ok data_dir (world a) -> Forall (fun relay => Cache.valid_key (relay_key relay) = true) (opened r)).
Proof using hashes.
  intros Ha H. unfold proxied, serve in H.
  eapply handle_served with (data_dir := data_dir) (relay_ok := fun relay => Cache.valid_key (relay_key relay) = true) in H
    as [H1 H2]; [|intros ? ? ? ? ? ? ?; by apply Download.fetch_blob_rows| |intros w; by eapply stopped_rows|intros ? ? ?; apply enabled_nodes_db].
  - split; [done|]. intros Hr%H2. destruct r as [[x|[o|up known relay]]|x]; simpl in *; by constructor.
  - intros path h x l w y w' Hs Hw. by apply (Relay.stream_blob_rows) with (data_dir := data_dir) in Hs.
Qed.

Lemma relayed_rows (e : Outside) settings fuel waits relay a a' : Cache.valid_key (relay_key relay) = true ->
  relayed e settings fuel waits relay a = Some a' ->
  exists w, a' = with_world a w /\ (Download.rows_ok data_dir (world a) -> Download.rows_ok data_dir w).
Proof.
  intros Hk. unfold relayed. destruct (Relay.run_relay _ _ _ _ _ _ _ _ _ _ _ _ _ _ _ _ _ _ _ _ _ _ _) as [[[res b] w]|] eqn:E; [|done].
  intros [= <-]. exists w. split; [done|]. intros Hw. by eapply Relay.run_relay_rows in E.
Qed.

Lemma system_step_ok s s' : system_step s s' -> running_ok s -> running_ok s'.
Proof using hashes.
  intros H [Ha Hk]. destruct H as [a H|r|e settings fuel q r a Hab H|e settings fuel waits relay rest a Hp H].
  - split; [|done]. by apply api_step_ok in H.
  - split; [|done]. apply cache_ok; [done|apply Ha].
  - destruct (proxied_served _ _ _ _ _ _ _ Hab H) as [[H1 H2 H3] H4]. destruct Ha as [Hr Hc Hm]. split; [split|]; simpl.
    + by eapply logged_kept.
    + by apply H1.
    + by rewrite H3.
    + apply Forall_app. split; [by apply H4|done].
  - rewrite Hp in Hk. apply Forall_cons in Hk as [Hk Hrest]. apply relayed_rows in H as (w & -> & Hw); [|done].
    destruct Ha as [Hr Hc Hm]. split; [split|]; [exact Hr|exact (Hw Hc)|exact Hm|exact Hrest].
Qed.

(** C33: No sequence of requests breaks the program's state.  Administrators work on nodes,
    routes, mappings, the cache and the pull log, maintenance turns run, the cache's
    settings change, and clients send any requests to the proxy: blobs that are
    fetched and admitted, streamed by relays that admit them at their end, served from
    the cache, manifests and mappings.  In whatever order these follow each other, and
    whatever the nodes answer, the tables of nodes and routes stay consistent, each
    host has at most one mapping, and every row of the cache is stored under its own
    valid key, names the object path of that key and has a size in range.  Requests
    follow one another; a fetch that its time limit stops leaves only rows that were
    there or that it would have written ([stopped]).  The import of a settings document
    is not among the requests: it can store a node the API would refuse. *)
Theorem system_invariant s s' : rtc system_step s s' -> running_ok s -> running_ok s'.
Proof using hashes. induction 1 as [|x y z H _ IH]; [done|]. intros Hx. by apply IH, (system_step_ok x y). Qed.
End Running.
End System.

(** ** A day of the server *)

Module SystemWitness.
Import Tables Nodes Registry Admin System.

#[local] Instance system_selector : Selector (Selection.NodeSelector (Backoff:=nat)) := DownloadWitness.sample_selector.

Abbreviation App := (Registry.App (Sel := Selection.NodeSelector (Backoff := nat)) (Up := Upstream.UpstreamService (Url := string))).

(** A node that breaks off after one byte and resumes, and a client that takes all. *)
Definition outside (quick : bool) : Outside (Selection.NodeSelector (Backoff := nat)) string :=
  {| send := RelayWitness.broken_send; probe_lease := fun _ => Ok tt; interfere := fun _ s => s; clock := RelayWitness.clock;
     sha256_hex := fun _ => DownloadWitness.digest_hex; sha256_prefix := fun _ => 3; parse_range := RelayWitness.parse;
     status_text := fun _ => ""; schedule := fun l => l; arrivals := fun l => l; deadline_passed := fun _ => false;
     memory_wait := fun _ => Ok tt; lookup := fun _ => SecurityWitness.dns; transport := fun _ _ => Err "unreachable";
     serve_file := fun _ _ _ => RegistryWitness.manifest; in_time := fun _ => quick; abandoned := fun w => w;
     meanwhile := fun d => d; wall := RegistryWitness.wall; fresh := fun _ => 77%N; polls := 3;
     parse_rfc2822 := fun _ => None; rechunk := fun l => l; client := fun _ => Relay.Accepted; closes := fun _ => None;
     siblings := fun _ => ∅; next_backoff := fun _ _ => Some 0; range_dir := fun _ => "/d/cache/tmp/donkey-range-1" |}.

Definition settings : Settings :=
  {| security := SecurityWitness.config; tls := false; runtime := DownloadWitness.runtime; client_timeout := 10 * second;
     flags := RegistryWitness.sample_flags |}.

Abbreviation answered := (proxied SecurityWitness.cidr_contains SecurityWitness.toy_url UpstreamWitness.toy_ops (fun x => x) SecurityWitness.authority
  "/d" Cache.sample_rows (fun _ => Cache.key_a) (fun _ => "r") "" "").
Abbreviation finished := (relayed (fun x => x) "/d" Cache.sample_rows).

Definition start : App :=
  {| world := RelayWitness.start_world; service := NodesWitness.start;
     upstream := {| Upstream.timeout := 0; Upstream.tokens := ∅; Upstream.transports := ∅; Upstream.trace := []; Upstream.time := 0 |};
     mappings := []; traffic := Traffic.new 0 |}.
Definition routed : App := (create_registry_route SecurityWitness.authority (fun _ d => d) start NodesWitness.custom_route 7 1).2.
Definition staffed : App :=
  (create_node NodesWitness.toy_prims (Some tt) SecurityWitness.cidr_contains SecurityWitness.dns SecurityWitness.toy_url
     UpstreamWitness.toy_ops NodesWitness.toy_header (fun x => x) SecurityWitness.config true Scheduling.Balanced (fun _ d => d)
     routed NodesWitness.basic_node 9 NodesWitness.nonce 2).2.

Definition blob_request : Paths.Request :=
  {| Paths.q_method := "GET"; Paths.q_uri := {| Paths.u_path := "/v2/quay/org/app/blobs/" +:+ RelayWitness.digest; Paths.u_query := None |};
     Paths.q_headers := [] |}.

(** The first client's blob is streamed, and its relay admits it; the second client is
    served from the cache. *)
Definition streamed : option (Reply + ErrorResponse) * App := answered (outside false) settings 3 blob_request staffed.
Definition relay_task : list (Relay.StreamRelay + Relay.UnknownBlobRelay) := from_option opened [] streamed.1.
Definition finish (relay : Relay.StreamRelay + Relay.UnknownBlobRelay) : option App :=
  finished (outside false) settings 16 4 relay streamed.2.
Definition cached : App := unwrap_or (let* relay := head relay_task in finish relay) start.
Definition hit : option (Reply + ErrorResponse) * App := answered (outside true) settings 3 blob_request cached.

Abbreviation ok := (running_ok (Backoff := nat) (Url := string) NodesWitness.toy_prims (Some tt) "/d").
Abbreviation step := (system_step (Backoff := nat) (Url := string) NodesWitness.toy_prims (Some tt) SecurityWitness.cidr_contains
  SecurityWitness.dns SecurityWitness.toy_url UpstreamWitness.toy_ops NodesWitness.toy_header (fun x => x) SecurityWitness.config true
  Scheduling.Balanced SecurityWitness.authority "/d" Cache.sample_rows (fun _ => Cache.key_a) (fun _ => "r") "" "").

Lemma start_ok : ok {| app := start; streaming := [] |}.
Proof.
  split; [|constructor]. split; [split; [apply RoutesWitness.seeded_routes|constructor]|exact Cache.sample_wf|by split].
Qed.

Lemma client_step quick a r a' : answered (outside quick) settings 3 blob_request a = (Some r, a') ->
  step {| app := a; streaming := [] |} {| app := a'; streaming := opened r ++ [] |}.
Proof.
  apply by_client with (s := {| app := a; streaming := [] |}) (e := outside quick) (settings := settings) (fuel := 3%nat) (q := blob_request).
  intros w key x Hx. exists x. by repeat (split; [done|]); left.
Qed.

Lemma streamed_step : step {| app := staffed; streaming := [] |} {| app := streamed.2; streaming := relay_task |}.
Proof.
  unfold relay_task. destruct streamed as [[r|] a] eqn:E; [|exfalso; assert (is_some streamed.1 = true) as H by (vm_compute; reflexivity);
    by rewrite E in H].
  cbn [fst snd from_option]. rewrite <- (app_nil_r (opened r)).
  exact (client_step false staffed r a E).
Qed.

Lemma unwrap_Some {A} (o : option A) d : is_some o = true -> o = Some (unwrap_or o d).
Proof. by destruct o. Qed.

Lemma relayed_step : step {| app := streamed.2; streaming := relay_task |} {| app := cached; streaming := [] |}.
Proof.
  assert (match relay_task with [relay] => is_some (finish relay) | _ => false end = true) as H by (vm_compute; reflexivity).
  unfold cached. revert H. generalize relay_task. intros [|relay [|? ?]]; [discriminate| |discriminate]. intros H.
  apply by_relay with (s := {| app := streamed.2; streaming := [relay] |}) (e := outside false) (settings := settings)
    (fuel := 16%nat) (waits := 4%nat) (relay := relay); [reflexivity|].
  exact (unwrap_Some (finish relay) start H).
Qed.

Lemma hit_step : step {| app := cached; streaming := [] |} {| app := hit.2; streaming := [] |}.
Proof.
  assert (match hit.1 with Some r => match opened r with [] => true | _ => false end | None => false end = true) as H by (vm_compute; reflexivity).
  destruct hit as [[r|] a] eqn:E; [|done]. simpl in H. destruct (opened r) as [|x l] eqn:Eo; [|done].
  replace {| app := (Some r, a).2; streaming := [] |} with {| app := a; streaming := opened r ++ [] |} by (by rewrite Eo).
  exact (client_step true cached r a E).
Qed.

(** A route and a node on it are made; a blob is streamed through the node, admitted by
    its relay and then served from the cache. *)
Lemma system_invariant_witness :
  is_some (Cache.entries (Download.cache (world start)) !! Cache.key_a) = false /\
  is_some (Cache.entries (Download.cache (world hit.2)) !! Cache.key_a) = true /\
  match hit.1 with Some (inl (Direct r)) => r_status r = 200 | _ => False end /\
  ok {| app := hit.2; streaming := [] |}.
Proof.
  split; [vm_compute; reflexivity|]. split; [vm_compute; reflexivity|]. split; [vm_compute; reflexivity|].
  refine (system_invariant NodesWitness.toy_prims (Some tt) SecurityWitness.cidr_contains SecurityWitness.dns SecurityWitness.toy_url
    UpstreamWitness.toy_ops NodesWitness.toy_header (fun x => x) SecurityWitness.config true Scheduling.Balanced
    SecurityWitness.authority "/d" Cache.sample_rows (fun _ => Cache.key_a) (fun _ => "r") "" "" _
    {| app := start; streaming := [] |} _ _ start_ok); [intros _; vm_compute; reflexivity|].
  apply rtc_l with {| app := routed; streaming := [] |}; [apply by_admin with (s := {| app := start; streaming := [] |}); by apply api_create_route|].
  apply rtc_l with {| app := staffed; streaming := [] |}; [apply by_admin with (s := {| app := routed; streaming := [] |}); by apply api_create_node|].
  eapply rtc_l; [exact streamed_step|]. eapply rtc_l; [exact relayed_step|]. apply rtc_once, hit_step.
Defined.
End SystemWitness.
