(* ===== verification/Heartbeat.v ===== *)
(** * The heartbeat of a worker

    [renew_job_lease] of src/src/image_tools.rs, the task that renews the lease of a job while a
    worker runs it, on the world of Jobs.v.  [fault k] is the error, if any, that the [k]-th
    renewal meets at the database, and [backoffs n] the delays the retry policy of turn [n]
    grants before it gives up; the task runs until it is aborted, here for [turns] turns.
    [sleep] lets time pass; whatever else happens between two actions is interference. *)

From stdpp Require Import base gmap sets list strings.
From Stdlib Require Import ZArith Lia.
From S2P Require Import Prelude Text Errors Prog Jobs.

(** ** Programs under paced interference

    [guarded E I p Q w]: when each action of [p] is preceded by interference within [E], the
    invariant [I] holds after every interference and [Q] at the end. *)

Fixpoint guarded {W A : Type} (E : W -> W -> Prop) (I : W -> Prop) (p : program W A) (Q : A -> W -> Prop) (w : W) : Prop :=
  match p with
  | Ret a => Q a w
  | Act f k => forall w1, E w w1 -> I w1 /\ guarded E I (k (f w1).1) Q (f w1).2
  end.

Lemma guarded_bind {W A B : Type} E I (p : program W A) (k : A -> program W B) Q : forall w,
  guarded E I p (fun a w => guarded E I (k a) Q w) w -> guarded E I (bind p k) Q w.
Proof.
  induction p as [a|X f k' IH]; intros w; cbn [guarded bind]; [done|]. intros H w1 Hw. destruct (H w1 Hw) as [HI Hk].
  split; [done|]. by apply IH.
Qed.

Lemma guarded_weaken {W A : Type} E I (p : program W A) (Q R : A -> W -> Prop) : (forall a w, Q a w -> R a w) ->
  forall w, guarded E I p Q w -> guarded E I p R w.
Proof.
  intros H. induction p as [a|X f k' IH]; intros w; cbn [guarded]; [apply H|]. intros Hp w1 Hw.
  destruct (Hp w1 Hw) as [HI Hk]. split; [done|]. by apply IH.
Qed.

(** An executable interleaving whose interference stays within [E] is one of them. *)
Lemma guarded_run_with {W A : Type} (E : W -> W -> Prop) I f (p : program W A) Q : (forall n w, E w (f n w)) ->
  forall n w, guarded E I p Q w -> Q (run_with f n p w).1 (run_with f n p w).2.
Proof.
  intros Hf. induction p as [a|X g k IH]; intros n w H; cbn [run_with]; [exact H|].
  destruct (H (f n w) (Hf n w)) as [_ Hk]. destruct (g (f n w)) as [b w'] eqn:E1. apply IH. exact Hk.
Qed.

Module Heartbeat.

Definition with_clock (w : JobsWorld) (t : Z) : JobsWorld :=
  {| db := db w; clock := t; active_attempts := active_attempts w; job_dirs := job_dirs w; remove_error := remove_error w |}.

Definition sleep (d : Z) : prog unit := Act (fun w => (tt, with_clock w (clock w + Z.max d 0))) Ret.

Section Task.
Context (worker i : Uuid) (attempt interval : Z).
Variable fault : nat -> option AppError.
Variable backoffs : nat -> list Z.

(** [jobs.renew], or the error of its [k]-th call. *)
Definition renewal (k : nat) : prog (ApiResult bool) :=
  match fault k with Some e => fail e | None => renew worker i attempt end.

(** The inner loop: whether the lease is lost, and the number of calls made. *)
Fixpoint retried (delays : list Z) (k : nat) : prog (bool * nat) :=
  let- r := renewal k in
  match r with
  | Ok renewed => Ret (negb renewed, S k)
  | Err _ =>
      match delays with
      | [] => Ret (true, S k)
      | d :: delays => let- _ := sleep d in retried delays (S k)
      end
  end.

(** [true] when the task has signalled that the lease is lost. *)
Fixpoint renew_job_lease (turns n k : nat) : prog bool :=
  match turns with
  | O => Ret false
  | S turns =>
      let- _ := sleep interval in
      let- (lost, k) := retried (backoffs n) k in
      if lost then Ret true else renew_job_lease turns (S n) k
  end.

(** ** Properties *)

(** The job runs under this worker's token with a lease until [l] or later, in a row the
    triggers accept. *)
Definition held (l : Z) (w : JobsWorld) : Prop :=
  exists j l', jobs (db w) !! i = Some j /\ is_status JobStatus.Running j = true /\ owned (db w) i worker attempt = true /\
    row_valid (db w) j = true /\ lease_until j = Some l' /\ l <= l'.

(** No recovery would take the job now. *)
Definition safe_now (w : JobsWorld) : Prop := forall j, jobs (db w) !! i = Some j -> is_abandoned (clock w) j = false.

(** What happens between two actions of the task takes at most [late] and leaves the job
    with the worker; it may renew the lease as well, as every progress report does. *)
Definition others_act (late : Z) (w w1 : JobsWorld) : Prop :=
  clock w <= clock w1 <= clock w + late /\ forall l, held l w -> held l w1.

Lemma held_safe l w : held l w -> clock w < l -> safe_now w.
Proof.
  intros (j & l' & Hj & _ & _ & _ & Hl & Hle) Hc j' Hj'. rewrite Hj in Hj'. injection Hj' as <-.
  unfold is_abandoned, abandoned_lease. rewrite Hl. cbn [is_none_or]. apply andb_false_iff. right. lia.
Qed.

Lemma held_clock l w t : held l w -> held l (with_clock w t).
Proof. done. Qed.

Lemma renew_held l w now : held l w -> exists d, renew_image_job i worker attempt now (lease_until_of now) (db w) = Ok (true, d) /\
  held (lease_until_of now) (with_db w d).
Proof.
  intros (j & l' & Hj & Hr & Ho & Hv & _). unfold renew_image_job, update_owned, update_by_id. rewrite Hj, Hr, Ho. cbn [andb].
  set (j' := assign_all _ j). assert (row_valid (db w) j' = true) as -> by exact Hv. eexists. split; [done|].
  exists j', (lease_until_of now). cbn [with_db db with_jobs jobs]. rewrite lookup_insert_eq. split_and!; try done.
Qed.

Section Paced.
Variable late : Z.
Hypothesis late_nonneg : 0 <= late.

Definition lease : Z := JOB_LEASE_MINUTES * 60 * 1000000000.

(** The most time the calls of one turn take. *)
Definition span (delays : list Z) : Z := foldr (fun d s => Z.max d 0 + late + s) (2 * late) delays.

Abbreviation guarded_here := (guarded (others_act late) safe_now).

(** After a renewal the lease is that of at most [late] ago. *)
Definition renewed (r : bool * nat) (w : JobsWorld) : Prop := r.1 = false /\ held (clock w + lease - late) w.

Lemma act_guarded {A B : Type} (f : JobsWorld -> B * JobsWorld) (k : B -> prog A) Q l w :
  held l w -> clock w + late < l ->
  (forall w1, held l w1 -> clock w <= clock w1 <= clock w + late -> guarded_here (k (f w1).1) Q (f w1).2) ->
  guarded_here (Act f k) Q w.
Proof.
  intros Hh Hl Hk w1 [Hc Hp]. split; [apply (held_safe l); [by apply Hp|lia]|]. apply Hk; [by apply Hp|lia].
Qed.

Lemma span_nonneg delays : 2 * late <= span delays.
Proof. unfold span. induction delays as [|d l IH]; cbn [foldr]; lia. Qed.

Lemma retried_renews delays : forall k w l, held l w -> clock w + span delays < l ->
  (exists j, (j <= length delays)%nat /\ fault (k + j)%nat = None) -> guarded_here (retried delays k) renewed w.
Proof.
  assert (forall delays k w l, held l w -> clock w + 2 * late < l -> fault k = None -> guarded_here (retried delays k) renewed w) as Hok.
  { intros ds k w l Hh Hl Hf. unfold retried, renewal. destruct ds; rewrite Hf; cbn [renew Utc_now bind exec fold_left];
      (apply (act_guarded _ _ _ l); [done|lia|]; intros w1 H1 C1; cbn [fst snd];
       apply (act_guarded _ _ _ l); [done|lia|]; intros w2 H2 C2; unfold step_db;
       destruct (renew_held l w2 (clock w1) H2) as (d & -> & Hd); cbn [fst snd]; split; [done|];
       destruct Hd as (j & l' & ? & ? & ? & ? & ? & ?); exists j, l'; unfold lease, lease_until_of in *; cbn [with_db clock]; split_and!; try done; lia). }
  induction delays as [|d ds IH]; intros k w l Hh Hl (j & Hj & Hf).
  - cbn [length] in Hj. assert (j = 0%nat) as -> by lia. rewrite Nat.add_0_r in Hf. by apply (Hok _ _ _ l).
  - destruct (fault k) as [e|] eqn:Ek; [|apply (Hok _ _ _ l); [done|pose proof (span_nonneg (d :: ds)); lia|done]].
    cbn [retried]. unfold renewal. rewrite Ek. cbn [fail bind sleep]. cbn [span foldr] in Hl. fold (span ds) in Hl.
    pose proof (span_nonneg ds). apply (act_guarded _ _ _ l); [done|lia|]. intros w1 H1 C1. cbn [fst snd bind].
    apply (IH (S k) _ l); [done|cbn [with_clock clock]; lia|]. destruct j as [|j]; [by rewrite Nat.add_0_r, Ek in Hf|].
    exists j. split; [cbn [length] in Hj; lia|]. by rewrite <- Nat.add_succ_comm in Hf.
Qed.

(** C35: A living worker keeps its job.  As long as the pauses between its actions are short and
    every failing renewal succeeds within the retries of its turn, the heartbeat never reports
    the lease lost, at no moment does a recovery find the job abandoned, and after every turn
    the lease is the full time from the last renewal, however long the worker runs. *)
Theorem heartbeat_keeps_job turns w :
  0 <= interval -> (forall n, interval + 2 * late + span (backoffs n) < lease) ->
  (forall n k, exists j, (j <= length (backoffs n))%nat /\ fault (k + j)%nat = None) ->
  held (clock w + lease - late) w ->
  guarded_here (renew_job_lease turns 0 0) (fun lost w' => lost = false /\ held (clock w' + lease - late) w') w.
Proof.
  intros Hi Hspan Hfault. generalize 0%nat at 1 as n. generalize 0%nat as k. revert w.
  induction turns as [|turns IH]; intros w k n Hw; cbn [renew_job_lease]; [done|]. pose proof (Hspan n). pose proof (span_nonneg (backoffs n)).
  cbn [sleep bind]. apply (act_guarded _ _ _ (clock w + lease - late)); [done|lia|]. intros w1 H1 C1. cbn [fst snd].
  apply guarded_bind. eapply guarded_weaken; [|apply (retried_renews _ _ _ (clock w + lease - late)); [done|cbn [with_clock clock]; lia|apply Hfault]].
  intros [lost k'] w2 [Hlost H2]. cbn [fst] in Hlost. subst lost. by apply IH.
Qed.
End Paced.

(** A superseded worker stops at its next renewal, which writes nothing. *)
Lemma superseded_stops turns n k w : fault k = None -> owned (db w) i worker attempt = false ->
  run (renew_job_lease (S turns) n k) w = (true, with_clock w (clock w + Z.max interval 0)).
Proof.
  intros Hf Ho. cbn [renew_job_lease]. rewrite run_bind. cbn [sleep run]. rewrite run_bind.
  assert (forall ds w, owned (db w) i worker attempt = false -> run (retried ds k) w = ((true, S k), w)) as ->; [|done|done].
  intros ds w' Ho'. unfold retried. destruct ds; rewrite run_bind; unfold renewal; rewrite Hf; cbn [renew Utc_now bind exec run];
    unfold step_db, renew_image_job, update_owned, update_by_id; rewrite Ho';
    (destruct (jobs (db w') !! i); [rewrite andb_false_r|]); by destruct w'.
Qed.
End Task.

(** The delay before the next try of a download that failed [attempt] times, by the policy of the
    backoff crate. *)
Definition retry_backoff {Backoff : Type} (new_backoff : Backoff) (next_backoff : Backoff -> option Z * Backoff) (attempt : nat) : Z :=
  unwrap_or (next_backoff (Nat.iter attempt (fun b => (next_backoff b).2) new_backoff)).1 (2 * 1000000000).

(** [tick]'s interval: a third of the lease. *)
Definition heartbeat_interval : Z := Z.max (JOB_LEASE_MINUTES * 60 / 3) 1 * 1000000000.
End Heartbeat.

(** A job claimed, five turns of the heartbeat with a second between actions; the first three
    renewals meet an error. *)
Module HeartbeatWitness.
Import Heartbeat.

Definition second : Z := 1000000000.
Definition claimed : JobsWorld :=
  JobsWitness.world (JobsWitness.after JobsWitness.queued
    (claim_image_job 1%N 7%N 100 (lease_until_of 100) JobsWitness.queued)).
Definition fault (k : nat) : option AppError := if (k <? 3)%nat then Some (Internal "busy") else None.
Definition delays (_ : nat) : list Z := replicate 12 (2 * second).
Definition pause (_ : nat) (w : JobsWorld) : JobsWorld := with_clock w (clock w + second).

Abbreviation task := (renew_job_lease 7%N 1%N 1 heartbeat_interval fault delays 5 0 0).

Lemma heartbeat_keeps_job_witness :
  let (lost, w) := run_with pause 0 task claimed in lost = false /\ held 7%N 1%N 1 (clock w + lease - second) w.
Proof.
  assert (guarded (others_act 7%N 1%N 1 second) (safe_now 1%N) task
            (fun lost w' => lost = false /\ held 7%N 1%N 1 (clock w' + lease - second) w') claimed) as H.
  { apply (heartbeat_keeps_job 7%N 1%N 1 heartbeat_interval fault delays second ltac:(done) 5 claimed).
    - done.
    - intros n. vm_compute. reflexivity.
    - intros n k. exists 3%nat. split; [unfold delays; rewrite length_replicate; lia|].
      unfold fault. destruct (Nat.ltb_spec (k + 3) 3); [lia|done].
    - eexists _, _. vm_compute. split_and!; try reflexivity. discriminate. }
  assert (forall n w, others_act 7%N 1%N 1 second w (pause n w)) as Hp
    by (intros n w; split; [unfold pause, second; cbn [with_clock clock]; lia|done]).
  pose proof (guarded_run_with _ _ pause task _ Hp 0 claimed H) as Hr.
  destruct (run_with pause 0 task claimed). exact Hr.
Defined.
End HeartbeatWitness.
