(* ===== verification/JobViews.v ===== *)
(** * Jobs as the API shows them

    The handlers of src/src/image_tools.rs that list, show and create jobs, and what they and
    the rule handlers show of a row.  [scan] is the order in which SQLite reads the table,
    which decides between jobs of the same instant. *)

From stdpp Require Import base gmap sets list strings sorting.
From Stdlib Require Import ZArith Lia Ascii.
From S2P Require Import Prelude Text Errors Prog Http Jobs.

Module JobViews.

Record ImageJobView := {
  jv_id : Uuid;
  jv_kind : string;
  jv_status : string;
  jv_source_ref : string;
  jv_source_node_id : option Uuid;
  jv_source_credential_id : option Uuid;
  jv_destination_ref : option string;
  jv_destination_credential_id : option Uuid;
  jv_platform_os : string;
  jv_platform_arch : string;
  jv_output_format : option string;
  jv_resolved_digest : option string;
  jv_index_digest : option string;
  jv_stage : string;
  jv_progress_bytes : Z;
  jv_total_bytes : Z;
  jv_artifact_name : option string;
  jv_error : option string;
  jv_cancel_requested : bool;
  jv_created_at : Z;
  jv_updated_at : Z
}.

Definition job_view (r : Uuid * image_job) : ImageJobView :=
  let (i, j) := r in
  let x := job_input j in
  {| jv_id := i; jv_kind := kind x; jv_status := job_status j; jv_source_ref := source_ref x;
     jv_source_node_id := source_node_id x; jv_source_credential_id := source_credential_id x;
     jv_destination_ref := destination_ref x; jv_destination_credential_id := destination_credential_id x;
     jv_platform_os := platform_os x; jv_platform_arch := platform_arch x; jv_output_format := output_format x;
     jv_resolved_digest := resolved_digest j; jv_index_digest := index_digest j; jv_stage := stage j;
     jv_progress_bytes := progress_bytes j; jv_total_bytes := total_bytes j; jv_artifact_name := artifact_name j;
     jv_error := error j; jv_cancel_requested := cancel_requested j; jv_created_at := created_at j; jv_updated_at := updated_at j |}.

Record ImageSyncRuleView := {
  rv_id : Uuid;
  rv_name : string;
  rv_enabled : bool;
  rv_source_ref : string;
  rv_source_node_id : option Uuid;
  rv_source_credential_id : option Uuid;
  rv_destination_ref : string;
  rv_destination_credential_id : Uuid;
  rv_platform_os : string;
  rv_platform_arch : string;
  rv_cron : string;
  rv_timezone : string;
  rv_last_digest : option string;
  rv_last_run_at : option Z;
  rv_next_run_at : option Z
}.

Definition rule_view (r : Uuid * image_sync_rule) : ImageSyncRuleView :=
  let (i, x) := r in
  {| rv_id := i; rv_name := rule_name x; rv_enabled := enabled x; rv_source_ref := rule_source_ref x;
     rv_source_node_id := rule_source_node_id x; rv_source_credential_id := rule_source_credential_id x;
     rv_destination_ref := rule_destination_ref x; rv_destination_credential_id := rule_destination_credential_id x;
     rv_platform_os := rule_platform_os x; rv_platform_arch := rule_platform_arch x; rv_cron := cron x; rv_timezone := timezone x;
     rv_last_digest := last_digest x; rv_last_run_at := last_run_at x; rv_next_run_at := next_run_at x |}.

Section Listing.
Variable scan : gmap Uuid image_job -> list (Uuid * image_job).

Definition newest_first (a b : Uuid * image_job) : comparison := Z.compare (created_at b.2) (created_at a.2).

Definition listed_rows (limit : Z) (d : Db) : list (Uuid * image_job) :=
  take (Z.to_nat (Z.min limit 500)) (sort_by newest_first (scan (jobs d))).

Definition list_jobs (limit : Z) : prog (ApiResult (list ImageJobView)) := query (fun d => job_view <$> listed_rows limit d).

Definition get_job (i : Uuid) : prog (ApiResult ImageJobView) :=
  let! found := find_by_id i in
  match found with Some j => Ret (Ok (job_view (i, j))) | None => fail job_not_found end.

(** The handler of a creation, with the client's idempotency key. *)
Definition create_job_request (reference_ok : string -> bool) (new_id : Uuid) (h : HeaderMap) (input : JobInput)
    : prog (ApiResult (Z * ImageJobView)) :=
  let! created := create_job reference_ok new_id input (header_str h "idempotency-key") in
  Ret (Ok (201, job_view created)).

(** ** Properties *)

(** The rows of the table, each once. *)
Hypothesis scans_jobs : forall m, scan m ≡ₚ map_to_list m.

#[local] Instance newest_first_order : CmpOrder newest_first.
Proof. apply (flip_order (fun x y : Uuid * image_job => Z.compare (created_at x.2) (created_at y.2))), cmp_on_order. Qed.

Lemma listed_row limit d i j : (i, j) ∈ listed_rows limit d -> jobs d !! i = Some j.
Proof.
  intros H. apply elem_of_map_to_list. rewrite <- scans_jobs, <- (sort_by_perm newest_first). by eapply elem_of_take in H as (? & ? & ?); eapply list_elem_of_lookup_2.
Qed.

(** C11: The list of jobs is the newest of them.  It has the number asked for, at most 500 and
    at most all, newest first; no job left out is newer than one shown, and each is shown as
    its own page shows it. *)
Theorem newest_jobs_listed limit w : 0 <= limit ->
  exists l, run (list_jobs limit) w = (Ok l, w) /\
    Z.of_nat (length l) = Z.min (Z.min limit 500) (Z.of_nat (base.size (jobs (db w)))) /\
    NoDup (jv_id <$> l) /\ StronglySorted (fun x y => jv_created_at y <= jv_created_at x) l /\
    (forall v, v ∈ l -> run (get_job (jv_id v)) w = (Ok v, w)) /\
    (forall i j v, jobs (db w) !! i = Some j -> i ∉ jv_id <$> l -> v ∈ l -> created_at j <= jv_created_at v).
Proof.
  intros Hlimit. exists (job_view <$> listed_rows limit (db w)). split; [done|].
  set (rows := scan (jobs (db w))). set (n := Z.to_nat (Z.min limit 500)). set (sorted := sort_by newest_first rows).
  assert (sorted ≡ₚ map_to_list (jobs (db w))) as Hp by (unfold sorted, rows; by rewrite sort_by_perm).
  assert (jv_id <$> (job_view <$> listed_rows limit (db w)) = take n sorted.*1) as Hids.
  { unfold listed_rows. fold rows n sorted. rewrite <- list_fmap_compose, fmap_take. f_equal. apply list_fmap_ext. by intros _ [i j] _. }
  assert (NoDup sorted.*1) as Hnd by (rewrite Hp; apply NoDup_fst_map_to_list).
  pose proof (sort_by_sorted newest_first rows) as Hs. fold sorted in Hs.
  assert (forall i j, jobs (db w) !! i = Some j <-> (i, j) ∈ sorted) as Hin by (intros i j; by rewrite Hp, elem_of_map_to_list).
  split; [|split; [rewrite Hids; rewrite <- (take_drop n sorted.*1) in Hnd; by apply NoDup_app in Hnd as [? _]|split; [|split]]].
  - rewrite length_fmap. unfold listed_rows. fold rows n sorted. rewrite length_take, (Permutation_length Hp).
    rewrite length_map_to_list. unfold n. lia.
  - unfold listed_rows. fold rows n sorted. rewrite <- (take_drop n sorted) in Hs. apply StronglySorted_app in Hs as (_ & Hs & _).
    clear - Hs. induction Hs as [|[i j] l Hs IH Hl]; csimpl; constructor; [done|]. rewrite Forall_fmap.
    eapply Forall_impl; [exact Hl|]. intros [i' j'] H. exact H.
  - intros v (r & -> & Hr)%list_elem_of_fmap. destruct r as [i j]. apply listed_row in Hr. unfold get_job, find_by_id. cbn [run query bind jv_id job_view].
    by rewrite Hr.
  - intros i j v Hj Hout (r & -> & Hr)%list_elem_of_fmap. rewrite Hids in Hout. unfold listed_rows in Hr. fold rows n sorted in Hr.
    apply Hin in Hj. rewrite <- (take_drop n sorted) in Hj. apply elem_of_app in Hj as [Hj|Hj].
    + destruct Hout. rewrite <- fmap_take. apply (list_elem_of_fmap_2 fst) in Hj. exact Hj.
    + rewrite <- (take_drop n sorted) in Hs. apply StronglySorted_app in Hs as (Hle & _ & _). specialize (Hle r (i, j) Hr Hj).
      destruct r as [i' j']. exact Hle.
Qed.
End Listing.
End JobViews.

Module JobViewsWitness.
Import JobViews.

Definition older : image_job := pending_job JobsWitness.input0 JobKind.Export None (-5).
Definition world : JobsWorld := JobsWitness.world (with_jobs JobsWitness.queued (<[2%N := older]> (jobs JobsWitness.queued))).

Lemma newest_jobs_listed_witness :
  (exists v, run (list_jobs map_to_list 1) world = (Ok [v], world) /\ jv_id v = 1%N) /\
  exists l, run (list_jobs map_to_list 1) world = (Ok l, world) /\ Z.of_nat (length l) = 1.
Proof.
  split; [eexists; split; vm_compute; reflexivity|].
  destruct (newest_jobs_listed map_to_list (fun m => reflexivity _) 1 world ltac:(done)) as (l & Hl & Hn & _).
  exists l. split; [exact Hl|]. rewrite Hn. vm_compute. reflexivity.
Defined.
End JobViewsWitness.
