(* ===== verification/Archive.v ===== *)
(** * Image archives

    src/src/image_tools/archive.rs: building the archive of an export, through a writer that stops
    when the job is cancelled.  The tar and oci-tar-builder crates are parameters: what
    they write and flush for a file, a directory, an image and the end of an archive.  [cancelled n]
    says whether the job is cancelled when the writer is used for the [n]-th time. *)

From stdpp Require Import base gmap sets list strings.
From Stdlib Require Import ZArith Lia Strings.Byte.
From S2P Require Import Prelude Text Errors Files.

#[local] Set Default Proof Using "Type".

Module Archive.

Inductive ArchiveInput :=
| Docker (config_json reference : string) (layers : list string) (media_types : list string)
| Oci (layout : string).

(** [CancellableWriter]: what its file holds and how often it was used. *)
Record Writer := { content : bytes; uses : nat }.

Inductive operation := Write (b : bytes) | Flush.

Definition cancellation : AppError := Io "image archive cancelled".

Section Build.
Variable cancelled : nat -> bool.
Variable parse_config : string -> option string.
Context (tar_path : string -> bytes -> list operation) (tar_dir : string -> list (string * bytes) -> list operation).
Context (tar_finish : list operation) (oci_tar : string -> string -> list (option bytes * string) -> list operation * option AppError).

Definition operate (w : Writer) (o : operation) : ApiResult unit * Writer :=
  let used := {| content := content w; uses := S (uses w) |} in
  if cancelled (uses w) then (Err cancellation, used)
  else match o with
       | Write b => (Ok tt, {| content := content w ++ b; uses := S (uses w) |})
       | Flush => (Ok tt, used)
       end.

(** A crate stops at the first error. *)
Fixpoint operate_all (l : list operation) (w : Writer) : ApiResult unit * Writer :=
  match l with
  | [] => (Ok tt, w)
  | o :: l => match operate w o with (Ok _, w) => operate_all l w | r => r end
  end.

Definition fresh : Writer := {| content := []; uses := 0 |}.

(** The files below a directory, with their paths in it. *)
Definition below (fs : Fs) (dir : string) : list (string * bytes) :=
  omap (fun p : string * bytes => (fun r => (r, p.2)) <$> strip_prefix (dir +:+ "/") p.1) (map_to_list fs).

(** What an OCI archive is made of, in order; a missing file is an error when its turn comes. *)
Definition oci_parts (fs : Fs) (layout : string) : list (option (list operation)) :=
  [tar_path "oci-layout" <$> fs !! (layout +:+ "/oci-layout");
   tar_path "index.json" <$> fs !! (layout +:+ "/index.json");
   Some (tar_dir "blobs" (below fs (layout +:+ "/blobs")));
   Some tar_finish].

Fixpoint append_all (parts : list (option (list operation))) (w : Writer) : ApiResult unit * Writer :=
  match parts with
  | [] => (Ok tt, w)
  | None :: _ => (Err not_found, w)
  | Some l :: parts => match operate_all l w with (Ok _, w) => append_all parts w | r => r end
  end.

(** [build_oci_archive]: a builder dropped after an error still tries to end its archive. *)
Definition build_oci_archive (fs : Fs) (layout : string) : ApiResult unit * bytes :=
  match append_all (oci_parts fs layout) fresh with
  | (Ok _, w) => (Ok tt, content w)
  | (Err e, w) => (Err e, content (operate_all tar_finish w).2)
  end.

(** [build_docker_archive]: the layers with the media types, as many as there are of both;
    [oci_tar] is what the builder writes of them and the error it then ends with. *)
Definition build_docker_archive (fs : Fs) (config_json reference : string) (layers media_types : list string) : ApiResult unit * option bytes :=
  match parse_config config_json with
  | None => (Err (Internal "invalid image config"), None)
  | Some config =>
      let (l, failed) := oci_tar config reference ((fun p : string * string => (fs !! p.1, p.2)) <$> zip layers media_types) in
      let (r, w) := operate_all l fresh in
      (match r, failed with Ok _, Some e => Err e | _, _ => r end, Some (content w))
  end.

(** The result and the output file, if it was created. *)
Definition build_archive (fs : Fs) (archive : ArchiveInput) : ApiResult unit * option bytes :=
  match archive with
  | Docker config_json reference layers media_types => build_docker_archive fs config_json reference layers media_types
  | Oci layout => let (r, b) := build_oci_archive fs layout in (r, Some b)
  end.

(** ** Properties *)

Definition written (l : list operation) : bytes := List.concat ((fun o => match o with Write b => b | Flush => [] end) <$> l).

Lemma operate_all_spec l : forall w, let (r, w') := operate_all l w in
  match r with
  | Ok _ => content w' = content w ++ written l /\ uses w' = (uses w + length l)%nat /\
            (forall n, (uses w <= n < uses w + length l)%nat -> cancelled n = false)
  | Err e => e = cancellation /\ exists k l' o l'', l = l' ++ o :: l'' /\ k = (uses w + length l')%nat /\ cancelled k = true /\
            content w' = content w ++ written l'
  end.
Proof.
  induction l as [|o l IH]; intros w; cbn [operate_all].
  - split; [by rewrite app_nil_r|]. split; [cbn; lia|]. cbn. lia.
  - unfold operate. destruct (cancelled (uses w)) eqn:Ec.
    + split; [done|]. exists (uses w), [], o, l. cbn. rewrite app_nil_r. split_and!; [done|lia|done..].
    + set (w1 := {| content := content w ++ written [o]; uses := S (uses w) |}).
      assert (match o with Write b => (Ok tt, {| content := content w ++ b; uses := S (uses w) |}) | Flush => (Ok tt, {| content := content w; uses := S (uses w) |}) end
              = (Ok (E := AppError) tt, w1)) as -> by (unfold w1, written; destruct o; cbn; by rewrite ?app_nil_r).
      specialize (IH w1). destruct (operate_all l w1) as [[u|e] w2].
      * destruct IH as (Hc & Hu & Hn). unfold w1 in *. cbn in *. split; [rewrite Hc, <- app_assoc; f_equal; unfold written; cbn; by rewrite app_nil_r|].
        split; [lia|]. intros n Hr. destruct (decide (n = uses w)) as [->|]; [done|]. apply Hn. lia.
      * destruct IH as (He & k & l' & o' & l'' & -> & Hk & Hc & Hw). split; [done|]. exists k, (o :: l'), o', l''.
        unfold w1 in *. cbn in *. split_and!; [done|lia|done|]. rewrite Hw, <- app_assoc. f_equal. unfold written. cbn. by rewrite app_nil_r.
Qed.

(** An archive that is reported complete is: the whole image was written, in order, and the
    job was not cancelled before the end. *)
Lemma oci_archive_complete fs layout b : build_oci_archive fs layout = (Ok tt, b) ->
  exists parts, mapM id (oci_parts fs layout) = Some parts /\ b = written (List.concat parts) /\
    forall n, (n < length (List.concat parts))%nat -> cancelled n = false.
Proof.
  unfold build_oci_archive. destruct (append_all _ fresh) as [[u|e] w] eqn:E; [|done]. intros [= <-].
  assert (forall ps w0, append_all ps w0 = (Ok u, w) -> exists parts, mapM id ps = Some parts /\
    content w = content w0 ++ written (List.concat parts) /\ forall n, (uses w0 <= n < uses w0 + length (List.concat parts))%nat -> cancelled n = false) as H.
  { induction ps as [|[l|] ps IH]; intros w0; cbn [append_all]; [|..|done].
    - intros [= _ <-]. exists []. cbn. rewrite app_nil_r. split_and!; [done..|lia].
    - pose proof (operate_all_spec l w0) as Hs. destruct (operate_all l w0) as [[x|x] w1]; [|done]. intros H.
      destruct (IH w1 H) as (parts & Hm & Hc & Hn). destruct Hs as (Hc1 & Hu & Hn1). exists (l :: parts). cbn. rewrite Hm. split; [done|].
      split; [rewrite Hc, Hc1, <- app_assoc; f_equal; unfold written; by rewrite fmap_app, List.concat_app|].
      intros n Hr. rewrite length_app in Hr. destruct (decide (n < uses w0 + length l)%nat); [apply Hn1; lia|apply Hn; lia]. }
  destruct (H _ _ E) as (parts & Hm & Hc & Hn). exists parts. split; [done|]. split; [exact Hc|]. intros n Hr. apply Hn. cbn. lia.
Qed.

(** And every image whose layout is complete gets its archive when nobody cancels. *)
Lemma oci_archive_succeeds fs layout parts : mapM id (oci_parts fs layout) = Some parts ->
  (forall n, (n < length (List.concat parts))%nat -> cancelled n = false) ->
  build_oci_archive fs layout = (Ok tt, written (List.concat parts)).
Proof.
  intros Hm Hn. unfold build_oci_archive.
  assert (forall ps parts w0, mapM id ps = Some parts ->
    (forall n, (uses w0 <= n < uses w0 + length (List.concat parts))%nat -> cancelled n = false) ->
    exists w, append_all ps w0 = (Ok tt, w) /\ content w = content w0 ++ written (List.concat parts)) as H.
  { clear. induction ps as [|[l|] ps IH]; intros parts w0; cbn [append_all mapM]; [|..|done].
    - intros [= <-] _. exists w0. split; [done|]. cbn. by rewrite app_nil_r.
    - cbn. destruct (mapM id ps) as [parts'|] eqn:Em; [|done]. intros [= <-] Hn. cbn [List.concat] in *. rewrite length_app in Hn.
      pose proof (operate_all_spec l w0) as Hs. destruct (operate_all l w0) as [[[]|x] w1].
      + destruct Hs as (Hc & Hu & _). destruct (IH parts' w1 eq_refl) as (w & -> & Hw); [intros n Hr; apply Hn; lia|].
        exists w. split; [done|]. rewrite Hw, Hc, <- app_assoc. f_equal. unfold written. by rewrite fmap_app, List.concat_app.
      + destruct Hs as (_ & k & l' & o & l'' & -> & Hk & Hc & _). rewrite Hn in Hc; [done|]. rewrite length_app. cbn. lia. }
  destruct (H _ parts fresh Hm) as (w & -> & Hw); [intros n Hr; apply Hn; cbn in Hr; lia|]. by rewrite Hw.
Qed.
End Build.
End Archive.
